(** * Timer wheel, slab pool, periodic driver and event-thread registry

    A shallow embedding of the timing and event-dispatch core of the NIC SDK
    (lib/twheel, lib/slab, lib/periodic, lib/event_thread) together with the
    properties its design document states about it.

    Conventions.
    - Fixed-width unsigned integers are [Z] values; every C++ conversion to a
      narrower type is written out with [wrap16], [wrap32] or [wrap64].
    - Pointers to slab entries are [option handle]; [None] is the null pointer.
    - Stateful code runs in a state-and-error monad: a run either returns a
      value and a new state, or stops with the reason the C++ program would
      have stopped being well defined ([error]). *)

From Equations Require Import Equations.
From Stdlib Require Import ZArith Lia.
From stdpp Require Import gmap list sorting.

Local Open Scope Z_scope.

(** ** Fixed-width arithmetic *)

Definition wrap16 (x : Z) : Z := x mod 65536.
Definition wrap32 (x : Z) : Z := x mod 4294967296.
Definition wrap64 (x : Z) : Z := x mod 18446744073709551616.

(** ** Outcomes of running imperative code *)

Inductive error : Type :=
| NullPointer      (* dereference of a null pointer *)
| DanglingPointer  (* dereference of memory that is not (or no longer) allocated *)
| DoubleFree       (* release of memory that is not allocated *)
| OutOfBounds      (* array index outside the array *)
| DivideByZero
| Deadlock         (* a non-recursive spinlock taken again by its holder *)
| NotLocked        (* a spinlock released that is not held *)
| AssertFailed     (* assert / SDK_ASSERT aborted the process *)
| OutOfFuel.       (* the loop bound of the model was reached *)

Inductive res (A : Type) : Type :=
| Ok (a : A)
| Err (e : error).
Arguments Ok {A} a.
Arguments Err {A} e.

#[global] Instance error_eq_dec : EqDecision error.
Proof. solve_decision. Defined.

(** State-and-error monad over a state type [S]. *)
Definition ST (S A : Type) : Type := S -> res (A * S).

Definition st_ret {S A} (a : A) : ST S A := fun s => Ok (a, s).
Definition st_bind {S A B} (c : ST S A) (k : A -> ST S B) : ST S B :=
  fun s => match c s with
           | Ok (a, s') => k a s'
           | Err e => Err e
           end.
Definition st_fail {S A} (e : error) : ST S A := fun _ => Err e.
Definition st_gets {S A} (f : S -> A) : ST S A := fun s => Ok (f s, s).
Definition st_modify {S} (f : S -> S) : ST S unit := fun s => Ok (tt, f s).
Definition st_assert {S} (b : bool) : ST S unit :=
  if b then st_ret tt else st_fail AssertFailed.

Notation "'let*' x ':=' c 'in' k" := (st_bind c (fun x => k))
  (at level 10, x name, c at level 100, k at level 200).
Notation "c ;; k" := (st_bind c (fun _ => k))
  (at level 100, k at level 200, right associativity).

(** Unsigned division and remainder; the divisor zero is undefined in C++. *)
Definition udiv {S} (a b : Z) : ST S Z :=
  if b =? 0 then st_fail DivideByZero else st_ret (a / b).
Definition umod {S} (a b : Z) : ST S Z :=
  if b =? 0 then st_fail DivideByZero else st_ret (a mod b).

(** ** The timer wheel (lib/twheel) *)

Module Twheel.

(** Address of a [twentry_t] handed out by the wheel's slab. *)
Definition handle : Type := positive.

(** [struct twentry_s]. *)
Record twentry_t : Type := mk_twentry {
  timer_id_ : Z;             (* uint32_t *)
  timeout_  : Z;             (* uint32_t *)
  periodic_ : bool;          (* uint8_t : 1 *)
  valid_    : bool;          (* uint8_t : 1 *)
  ctxt_     : Z;             (* void *, 0 is NULL *)
  cb_       : Z;             (* twheel_cb_t, 0 is NULL *)
  nspins_   : Z;             (* uint16_t *)
  slice_    : Z;             (* uint32_t *)
  next_     : option handle;
  prev_     : option handle
}.

Definition set_valid (b : bool) (e : twentry_t) : twentry_t :=
  mk_twentry (timer_id_ e) (timeout_ e) (periodic_ e) b (ctxt_ e) (cb_ e)
             (nspins_ e) (slice_ e) (next_ e) (prev_ e).
Definition set_ctxt (c : Z) (e : twentry_t) : twentry_t :=
  mk_twentry (timer_id_ e) (timeout_ e) (periodic_ e) (valid_ e) c (cb_ e)
             (nspins_ e) (slice_ e) (next_ e) (prev_ e).
Definition set_nspins (n : Z) (e : twentry_t) : twentry_t :=
  mk_twentry (timer_id_ e) (timeout_ e) (periodic_ e) (valid_ e) (ctxt_ e) (cb_ e)
             n (slice_ e) (next_ e) (prev_ e).
Definition set_next (n : option handle) (e : twentry_t) : twentry_t :=
  mk_twentry (timer_id_ e) (timeout_ e) (periodic_ e) (valid_ e) (ctxt_ e) (cb_ e)
             (nspins_ e) (slice_ e) n (prev_ e).
Definition set_prev (p : option handle) (e : twentry_t) : twentry_t :=
  mk_twentry (timer_id_ e) (timeout_ e) (periodic_ e) (valid_ e) (ctxt_ e) (cb_ e)
             (nspins_ e) (slice_ e) (next_ e) p.

(** [class twheel].  The slice array [twheel_] is kept as its two columns:
    [slice_head_] (an absent key is a null head) and the set of slices whose
    spinlock is held, [slock_].  [twentry_slab_] holds the entries that are
    currently allocated from the slab. *)
Record twheel : Type := mk_twheel {
  twentry_slab_ : gmap handle twentry_t;
  slice_intvl_  : Z;           (* uint64_t *)
  thread_safe_  : bool;
  nslices_      : Z;           (* uint32_t *)
  slice_head_   : gmap Z handle;
  slock_        : gset Z;
  curr_slice_   : Z;           (* uint32_t *)
  num_entries_  : Z            (* uint32_t *)
}.

Definition with_slab (h : gmap handle twentry_t) (w : twheel) : twheel :=
  mk_twheel h (slice_intvl_ w) (thread_safe_ w) (nslices_ w) (slice_head_ w)
            (slock_ w) (curr_slice_ w) (num_entries_ w).
Definition with_heads (hd : gmap Z handle) (w : twheel) : twheel :=
  mk_twheel (twentry_slab_ w) (slice_intvl_ w) (thread_safe_ w) (nslices_ w) hd
            (slock_ w) (curr_slice_ w) (num_entries_ w).
Definition with_slock (l : gset Z) (w : twheel) : twheel :=
  mk_twheel (twentry_slab_ w) (slice_intvl_ w) (thread_safe_ w) (nslices_ w)
            (slice_head_ w) l (curr_slice_ w) (num_entries_ w).
Definition with_curr (c : Z) (w : twheel) : twheel :=
  mk_twheel (twentry_slab_ w) (slice_intvl_ w) (thread_safe_ w) (nslices_ w)
            (slice_head_ w) (slock_ w) c (num_entries_ w).
Definition with_num (n : Z) (w : twheel) : twheel :=
  mk_twheel (twentry_slab_ w) (slice_intvl_ w) (thread_safe_ w) (nslices_ w)
            (slice_head_ w) (slock_ w) (curr_slice_ w) n.

Definition M (A : Type) : Type := ST twheel A.

(** *** Memory accesses *)

(** [twentry->f] for a non-null, allocated [twentry]. *)
Definition load (p : handle) : M twentry_t := fun w =>
  match twentry_slab_ w !! p with
  | Some e => Ok (e, w)
  | None => Err DanglingPointer
  end.

(** [twentry->f = v], written as the update [upd] of the entry. *)
Definition store (p : handle) (upd : twentry_t -> twentry_t) : M unit := fun w =>
  match twentry_slab_ w !! p with
  | Some _ => Ok (tt, with_slab (alter upd p (twentry_slab_ w)) w)
  | None => Err DanglingPointer
  end.

(** [twheel_[slice].slice_head_] *)
Definition get_head (slice : Z) : M (option handle) := fun w =>
  if (0 <=? slice) && (slice <? nslices_ w)
  then Ok (slice_head_ w !! slice, w)
  else Err OutOfBounds.

(** [twheel_[slice].slice_head_ = v] *)
Definition set_head (slice : Z) (v : option handle) : M unit := fun w =>
  if (0 <=? slice) && (slice <? nslices_ w)
  then Ok (tt, with_heads (match v with
                           | Some p => <[slice := p]> (slice_head_ w)
                           | None => delete slice (slice_head_ w)
                           end) w)
  else Err OutOfBounds.

(** [TWHEEL_LOCK_SLICE]: a spinlock is not recursive, so taking one that the
    running thread already holds never returns. *)
Definition TWHEEL_LOCK_SLICE (slice : Z) : M unit := fun w =>
  if thread_safe_ w then
    if (0 <=? slice) && (slice <? nslices_ w) then
      if bool_decide (slice ∈ slock_ w) then Err Deadlock
      else Ok (tt, with_slock ({[slice]} ∪ slock_ w) w)
    else Err OutOfBounds
  else Ok (tt, w).

(** [TWHEEL_UNLOCK_SLICE] *)
Definition TWHEEL_UNLOCK_SLICE (slice : Z) : M unit := fun w =>
  if thread_safe_ w then
    if (0 <=? slice) && (slice <? nslices_ w) then
      if bool_decide (slice ∈ slock_ w)
      then Ok (tt, with_slock (slock_ w ∖ {[slice]}) w)
      else Err NotLocked
    else Err OutOfBounds
  else Ok (tt, w).

(** *** Slice selection and entry initialisation *)

Definition TWHEEL_DELAY_DELETE : Z := 2000.

(** [twheel::next_slice_] *)
Definition next_slice_ (timeout entry_slice : Z) (update : bool) : M Z :=
  let* nslices := st_gets nslices_ in
  let* slice_intvl := st_gets slice_intvl_ in
  let* curr_slice := st_gets curr_slice_ in
  let* r := umod timeout (wrap64 (nslices * slice_intvl)) in
  let rem := wrap32 r in
  let* q := udiv rem slice_intvl in
  let num_slices := wrap32 q in
  let num_slices := if num_slices =? 0 then 1 else num_slices in
  let* slice := umod (wrap32 (curr_slice + num_slices)) nslices in
  if update && (slice =? entry_slice)
  then umod (wrap32 (slice + 1)) nslices
  else st_ret slice.

(** [twheel::init_twentry_]; the entry's own [timer_id_], [ctxt_] and [cb_]
    are read by the caller and passed in, as in the source. *)
Definition init_twentry_ (twentry : handle) (timer_id timeout : Z) (periodic : bool)
    (ctxt cb slice : Z) : M unit :=
  let* nslices := st_gets nslices_ in
  let* slice_intvl := st_gets slice_intvl_ in
  let* n := udiv timeout (wrap64 (nslices * slice_intvl)) in
  store twentry (fun _ =>
    mk_twentry timer_id (wrap32 timeout) periodic false ctxt cb
               (wrap16 n) slice None None).

(** *** List primitives (twheel.hpp) *)

(** [twheel::insert_timer_]; called with the slice lock held. *)
Definition insert_timer_ (twentry : handle) : M unit :=
  let* e := load twentry in
  let* cur_entry := get_head (slice_ e) in
  store twentry (set_next cur_entry) ;;
  match cur_entry with
  | Some c => store c (set_prev (Some twentry))
  | None => st_ret tt
  end ;;
  let* e := load twentry in
  set_head (slice_ e) (Some twentry) ;;
  store twentry (set_valid true) ;;
  st_modify (fun w => with_num (wrap32 (num_entries_ w + 1)) w).

(** [twheel::unlink_timer_] *)
Definition unlink_timer_ (twentry : option handle) : M unit :=
  match twentry with
  | None => st_ret tt
  | Some p =>
      let* e := load p in
      match next_ e with
      | Some n => store n (set_prev (prev_ e))
      | None => st_ret tt
      end ;;
      let* e := load p in
      match prev_ e with
      | None => set_head (slice_ e) (next_ e)
      | Some q => store q (set_next (next_ e))
      end ;;
      st_modify (fun w => with_num (wrap32 (num_entries_ w - 1)) w)
  end.

(** [twheel::remove_timer_]; called with the slice lock held. *)
Definition remove_timer_ (twentry : handle) : M unit :=
  let* e := load twentry in
  if negb (valid_ e) then st_ret tt
  else
    unlink_timer_ (Some twentry) ;;
    store twentry (set_valid false).

(** [twheel::free_to_slab_]: the entry goes back to the slab. *)
Definition free_to_slab_ (timer : handle) : M unit := fun w =>
  match twentry_slab_ w !! timer with
  | Some _ => Ok (tt, with_slab (delete timer (twentry_slab_ w)) w)
  | None => Err DoubleFree
  end.

(** [twheel::last_timer_in_slice]: the loop follows [next_] to the tail. *)
Fixpoint last_timer_loop (fuel : nat) (last : option handle) : M (option handle) :=
  match last with
  | None => st_ret None
  | Some p =>
      let* e := load p in
      match next_ e with
      | None => st_ret (Some p)
      | Some n =>
          match fuel with
          | O => st_fail OutOfFuel
          | S fuel' => last_timer_loop fuel' (Some n)
          end
      end
  end.

Definition last_timer_in_slice (fuel : nat) (slice : Z) : M (option handle) :=
  let* h := get_head slice in
  last_timer_loop fuel h.

(** *** Operations on timers (twheel.cc) *)

(** [twheel::upd_timer_]; called with the lock of the entry's slice held. *)
Definition upd_timer_ (twentry : handle) (timeout : Z) (periodic : bool) : M unit :=
  remove_timer_ twentry ;;
  let* e := load twentry in
  let* slice := next_slice_ timeout (slice_ e) true in
  TWHEEL_LOCK_SLICE slice ;;
  let* e := load twentry in
  init_twentry_ twentry (timer_id_ e) timeout periodic (ctxt_ e) (cb_ e) slice ;;
  insert_timer_ twentry ;;
  TWHEEL_UNLOCK_SLICE slice.

(** [twheel::delay_delete_]: the entry is already unlinked; it is parked,
    invalid, in the slice that is [TWHEEL_DELAY_DELETE] ms ahead. *)
Definition delay_delete_ (twentry : handle) : M unit :=
  let* e := load twentry in
  let* slice := next_slice_ TWHEEL_DELAY_DELETE (slice_ e) true in
  TWHEEL_LOCK_SLICE slice ;;
  let* e := load twentry in
  init_twentry_ twentry (timer_id_ e) TWHEEL_DELAY_DELETE false 0 0 slice ;;
  insert_timer_ twentry ;;
  store twentry (set_valid false) ;;
  TWHEEL_UNLOCK_SLICE slice.

(** The slab's [alloc()] as [add_timer] sees it: [mem] is the address the
    slab returned ([None] when it is exhausted).  The memory is not zeroed
    ([zero_on_alloc] is false for this slab); [init_twentry_] writes every
    field before any is read. *)
Definition uninitialised : twentry_t :=
  mk_twentry 0 0 false false 0 0 0 0 None None.

Definition slab_alloc (mem : option handle) : M (option handle) := fun w =>
  match mem with
  | None => Ok (None, w)
  | Some p =>
      match twentry_slab_ w !! p with
      | Some _ => Err DoubleFree   (* the slab never hands out a live element *)
      | None => Ok (Some p, with_slab (<[p := uninitialised]> (twentry_slab_ w)) w)
      end
  end.

(** [twheel::add_timer] *)
Definition add_timer (mem : option handle) (timer_id timeout ctxt cb : Z)
    (periodic : bool) (initial_delay : Z) : M (option handle) :=
  let* slice := next_slice_ (wrap64 (initial_delay + timeout)) 0 false in
  let* twentry := slab_alloc mem in
  match twentry with
  | None => st_ret None
  | Some p =>
      init_twentry_ p timer_id timeout periodic ctxt cb slice ;;
      let* e := load p in
      TWHEEL_LOCK_SLICE (slice_ e) ;;
      insert_timer_ p ;;
      let* e := load p in
      TWHEEL_UNLOCK_SLICE (slice_ e) ;;
      st_ret (Some p)
  end.

(** The [while (1)] loop of [del_timer] and [upd_timer]: lock the slice the
    entry sits in and re-read it under the lock.  Nothing runs between the
    two reads here, so the second read can only differ from the first when
    another thread moved the entry; the retry is bounded by [fuel]. *)
Fixpoint lock_entry_slice (fuel : nat) (twentry : handle) : M Z :=
  let* e := load twentry in
  let slice := slice_ e in
  TWHEEL_LOCK_SLICE slice ;;
  let* e := load twentry in
  if slice_ e =? slice then st_ret slice
  else
    TWHEEL_UNLOCK_SLICE slice ;;
    match fuel with
    | O => st_fail OutOfFuel
    | S fuel' => lock_entry_slice fuel' twentry
    end.

(** [twheel::del_timer] *)
Definition del_timer (timer : option handle) : M Z :=
  match timer with
  | None => st_ret 0
  | Some twentry =>
      let* e := load twentry in
      let ctxt := ctxt_ e in
      let* slice := lock_entry_slice 0 twentry in
      let* e := load twentry in
      if negb (valid_ e) then
        TWHEEL_UNLOCK_SLICE slice ;;
        st_ret ctxt
      else
        remove_timer_ twentry ;;
        TWHEEL_UNLOCK_SLICE slice ;;
        delay_delete_ twentry ;;
        st_ret ctxt
  end.

(** [twheel::get_timeout_remaining]; [nspins_] is promoted and the product
    and sum are 64-bit, the slice difference is 32-bit. *)
Definition get_timeout_remaining (timer : option handle) : M Z :=
  match timer with
  | None => st_ret 0
  | Some twentry =>
      let* e := load twentry in
      let* nslices := st_gets nslices_ in
      let* slice_intvl := st_gets slice_intvl_ in
      let* curr_slice := st_gets curr_slice_ in
      let* r := umod (wrap32 (wrap32 (slice_ e - curr_slice) + nslices)) nslices in
      st_ret (wrap64 (wrap64 (nspins_ e * wrap64 (nslices * slice_intvl))
                      + wrap64 (r * slice_intvl)))
  end.

(** [twheel::upd_timer_ctxt] *)
Definition upd_timer_ctxt (timer : option handle) (ctxt : Z) : M (option handle) :=
  match timer with
  | None => st_ret None
  | Some twentry =>
      store twentry (set_ctxt ctxt) ;;
      st_ret (Some twentry)
  end.

(** [twheel::upd_timer] *)
Definition upd_timer (timer : option handle) (timeout : Z) (periodic : bool)
    (ctxt : Z) : M (option handle) :=
  match timer with
  | None => st_ret None
  | Some twentry =>
      let* entry_slice := lock_entry_slice 0 twentry in
      let* e := load twentry in
      if negb (valid_ e) then
        TWHEEL_UNLOCK_SLICE entry_slice ;;
        st_ret (Some twentry)
      else
        remove_timer_ twentry ;;
        let* slice := next_slice_ timeout entry_slice true in
        TWHEEL_LOCK_SLICE slice ;;
        let* e := load twentry in
        init_twentry_ twentry (timer_id_ e) timeout periodic ctxt (cb_ e) slice ;;
        insert_timer_ twentry ;;
        TWHEEL_UNLOCK_SLICE slice ;;
        TWHEEL_UNLOCK_SLICE entry_slice ;;
        st_ret (Some twentry)
  end.

(** [twheel::timer_valid] *)
Definition timer_valid (timer : option handle) : M bool :=
  match timer with
  | None => st_ret false
  | Some twentry =>
      let* e := load twentry in
      st_ret (valid_ e)
  end.

(** [twheel::num_entries] *)
Definition num_entries : M Z := st_gets num_entries_.

(** *** The tick routine *)

Section Tick.
(** What the registered callbacks do when called: [invoke cb timer
    timer_id ctxt] is the effect on the wheel of the call
    [cb(timer, timer_id, ctxt)] for the function pointer [cb]. *)
Variable invoke : Z -> handle -> Z -> Z -> M unit.

(** [twentry->cb_(twentry, twentry->timer_id_, twentry->ctxt_)] *)
Definition call_cb (twentry : handle) : M unit :=
  let* e := load twentry in
  if cb_ e =? 0 then st_fail NullPointer
  else invoke (cb_ e) twentry (timer_id_ e) (ctxt_ e).

(** The [while (twentry)] loop of [twheel::tick]. *)
Fixpoint tick_walk (fuel : nat) (twentry : option handle) : M unit :=
  match twentry with
  | None => st_ret tt
  | Some p =>
      match fuel with
      | O => st_fail OutOfFuel
      | S fuel' =>
          let* e := load p in
          if negb (valid_ e) then
            let prev_entry := prev_ e in
            unlink_timer_ (Some p) ;;
            free_to_slab_ p ;;
            tick_walk fuel' prev_entry
          else if negb (nspins_ e =? 0) then
            store p (set_nspins (wrap16 (nspins_ e - 1))) ;;
            let* e := load p in
            tick_walk fuel' (prev_ e)
          else
            let prev_entry := prev_ e in
            call_cb p ;;
            let* e := load p in
            (if periodic_ e then
               if valid_ e then upd_timer_ p (timeout_ e) true else st_ret tt
             else
               if valid_ e then remove_timer_ p ;; delay_delete_ p else st_ret tt) ;;
            tick_walk fuel' prev_entry
      end
  end.

(** The [do { ... } while (--nslices)] loop of [twheel::tick]. *)
Fixpoint tick_slices (fuel : nat) (nslices : nat) : M unit :=
  match nslices with
  | O => st_ret tt
  | S n =>
      let* curr_slice := st_gets curr_slice_ in
      TWHEEL_LOCK_SLICE curr_slice ;;
      let* twentry := last_timer_in_slice fuel curr_slice in
      tick_walk fuel twentry ;;
      let* curr_slice := st_gets curr_slice_ in
      TWHEEL_UNLOCK_SLICE curr_slice ;;
      let* curr_slice := st_gets curr_slice_ in
      let* total := st_gets nslices_ in
      let* next := umod (wrap32 (curr_slice + 1)) total in
      st_modify (with_curr next) ;;
      tick_slices fuel n
  end.

(** [twheel::tick]; [fuel] bounds the number of entries visited in one
    slice. *)
Definition tick (fuel : nat) (msecs_elapsed : Z) : M unit :=
  let* slice_intvl := st_gets slice_intvl_ in
  if msecs_elapsed <? slice_intvl then st_ret tt
  else
    let* n := udiv msecs_elapsed slice_intvl in
    let nslices := wrap32 n in
    st_assert (1 <=? nslices) ;;
    tick_slices fuel (Z.to_nat nslices).
End Tick.

(** *** Construction (twheel::factory, twheel::init, twheel::~twheel)

    The construction path is the only one that talks to the general-purpose
    allocator.  [cmem] is what that allocator has handed out ([live]) and
    what it will answer to the next requests ([pending]: [Some a] is a
    successful allocation at address [a], [None] or an exhausted list a
    failed one). *)

Record cmem : Type := mk_cmem {
  live    : gset positive;
  pending : list (option positive)
}.

Definition C (A : Type) : Type := ST cmem A.

(** [SDK_CALLOC] / [SDK_MALLOC] *)
Definition SDK_CALLOC : C (option positive) := fun m =>
  match pending m with
  | [] => Ok (None, m)
  | None :: rest => Ok (None, mk_cmem (live m) rest)
  | Some a :: rest =>
      if bool_decide (a ∈ live m) then Err DoubleFree
      else Ok (Some a, mk_cmem ({[a]} ∪ live m) rest)
  end.

(** [SDK_FREE]; releasing the null pointer does nothing. *)
Definition SDK_FREE (ptr : option positive) : C unit := fun m =>
  match ptr with
  | None => Ok (tt, m)
  | Some a =>
      if bool_decide (a ∈ live m) then Ok (tt, mk_cmem (live m ∖ {[a]}) (pending m))
      else Err DoubleFree
  end.

(** A read through a pointer to one of these objects. *)
Definition touch (ptr : positive) : C unit := fun m =>
  if bool_decide (ptr ∈ live m) then Ok (tt, m) else Err DanglingPointer.

(** [slab::factory("twheel", SDK_SLAB_ID_TWHEEL, sizeof(twentry_t), 256, ...)]:
    the argument checks pass (256 > 1, sizeof(twentry_t) >= 8) and
    [slab::init] cannot fail, so the result is that of the allocation. *)
Definition slab_factory : C (option positive) := SDK_CALLOC.

(** [slab::destroy]: reads [slb->mmgr_], runs the destructor (no block has
    been allocated yet) and frees the object. *)
Definition slab_destroy (slb : option positive) : C unit :=
  match slb with
  | None => st_ret tt
  | Some a => touch a ;; SDK_FREE (Some a)
  end.

(** The members of a [twheel] object while it is being constructed; the
    two pointers are still addresses here. *)
Record twheel_members : Type := mk_members {
  m_twentry_slab_ : option positive;
  m_slice_intvl_  : Z;
  m_thread_safe_  : bool;
  m_nslices_      : Z;
  m_twheel_       : option positive;
  m_curr_slice_   : Z;
  m_num_entries_  : Z
}.

(** The object right after [SDK_CALLOC] and the empty constructor. *)
Definition zeroed : twheel_members := mk_members None 0 false 0 None 0 0.

Inductive sdk_ret_t : Type := SDK_RET_OK | SDK_RET_OOM.

(** [twheel::init] *)
Definition init (this : twheel_members) (slice_intvl wheel_duration : Z)
    (thread_safe : bool) : C (sdk_ret_t * twheel_members) :=
  let* slab := slab_factory in
  let this := mk_members slab (m_slice_intvl_ this) (m_thread_safe_ this)
                (m_nslices_ this) (m_twheel_ this) (m_curr_slice_ this)
                (m_num_entries_ this) in
  match slab with
  | None => st_ret (SDK_RET_OOM, this)
  | Some _ =>
      let* n := udiv wheel_duration slice_intvl in
      let nslices := wrap32 n in
      let* slices := SDK_CALLOC in
      let this := mk_members slab slice_intvl thread_safe nslices slices
                    (m_curr_slice_ this) (m_num_entries_ this) in
      match slices with
      | None =>
          slab_destroy (m_twentry_slab_ this) ;;
          st_ret (SDK_RET_OOM, this)
      | Some _ =>
          st_ret (SDK_RET_OK,
                  mk_members slab slice_intvl thread_safe nslices slices 0 0)
      end
  end.

(** [twheel::~twheel] *)
Definition destructor (this : twheel_members) : C unit :=
  match m_twentry_slab_ this with
  | Some a => slab_destroy (Some a)
  | None => st_ret tt
  end ;;
  (if m_thread_safe_ this && (0 <? m_nslices_ this) then
     match m_twheel_ this with
     | Some a => touch a
     | None => st_fail NullPointer
     end
   else st_ret tt) ;;
  SDK_FREE (m_twheel_ this).

(** The wheel a successfully constructed object denotes: zeroed slice heads,
    no entry allocated, no lock held. *)
Definition constructed (this : twheel_members) : twheel :=
  mk_twheel ∅ (m_slice_intvl_ this) (m_thread_safe_ this) (m_nslices_ this)
            ∅ ∅ (m_curr_slice_ this) (m_num_entries_ this).

(** [twheel::factory]; [None] is the nil handle. *)
Definition factory (slice_intvl wheel_duration : Z) (thread_safe : bool)
    : C (option twheel) :=
  if (slice_intvl =? 0) || (wheel_duration =? 0) || (wheel_duration <=? slice_intvl)
  then st_ret None
  else
    let* mem := SDK_CALLOC in
    match mem with
    | None => st_ret None
    | Some _ =>
        let* r := init zeroed slice_intvl wheel_duration thread_safe in
        match r with
        | (SDK_RET_OK, this) => st_ret (Some (constructed this))
        | (SDK_RET_OOM, this) =>
            destructor this ;;
            SDK_FREE mem ;;
            st_ret None
        end
    end.

(** [twheel::destroy]: [twh] is the address of the object and its
    members, [None] the nil handle. *)
Definition destroy (twh : option (positive * twheel_members)) : C unit :=
  match twh with
  | None => st_ret tt
  | Some (mem, this) =>
      destructor this ;;
      SDK_FREE (Some mem)
  end.

(** What the walk of slice [c], started at position [k] of its list [l],
    does about the entries that had been deleted before it: it allocates
    nothing, it gives the corpses at the positions it walks back to the
    slab, and it leaves the corpses of the other slices where they are. *)
Definition walk_clean (w : twheel) (c : Z) (l : list handle) (k : nat)
    (w' : twheel) : Prop :=
  (forall x, twentry_slab_ w !! x = None -> twentry_slab_ w' !! x = None) /\
  (forall j q e, (j <= k)%nat -> l !! j = Some q ->
     twentry_slab_ w !! q = Some e -> valid_ e = false ->
     twentry_slab_ w' !! q = None) /\
  (forall x e, twentry_slab_ w !! x = Some e -> valid_ e = false -> slice_ e <> c ->
     exists e', twentry_slab_ w' !! x = Some e' /\ valid_ e' = false /\
                slice_ e' = slice_ e).

(** *** Vocabulary of the properties *)

(** Configuration of a wheel that [factory] built: a positive slice
    interval, at least one slice, a rotation that fits the 32-bit
    [wheel_duration], and a current slice inside the ring. *)
Definition wheel_cfg (w : twheel) : Prop :=
  1 <= slice_intvl_ w /\ 1 <= nslices_ w /\
  nslices_ w * slice_intvl_ w < 4294967296 /\
  0 <= curr_slice_ w < nslices_ w.

(** The value [next_slice_] computes on such a wheel.  The sum
    [curr_slice_ + num_slices] is a 32-bit sum. *)
Definition slice_after (w : twheel) (timeout entry_slice : Z) (update : bool) : Z :=
  let period := nslices_ w * slice_intvl_ w in
  let k := Z.max 1 ((timeout mod period) / slice_intvl_ w) in
  let cand := wrap32 (curr_slice_ w + k) mod nslices_ w in
  if update && (cand =? entry_slice) then (cand + 1) mod nslices_ w else cand.

(** Predecessor of position [j] in a slice list. *)
Definition pred_of (l : list handle) (j : nat) : option handle :=
  match j with O => None | S j' => l !! j' end.

(** [linked U w L]: [L] lists, slice by slice and head first, the entries
    chained into the wheel.  Every slice head and every [next_]/[prev_]/
    [slice_] field agrees with [L]; an allocated entry occurs in [L] exactly
    once, unless it is one of the entries [U] that an operation has taken
    out and not yet put back; and [num_entries_] counts the entries of [L]
    (as the 32-bit counter it is). *)
Record linked (U : gset handle) (w : twheel) (L : list (list handle)) : Prop := {
  lk_len : length L = Z.to_nat (nslices_ w);
  lk_nodup : NoDup (concat L);
  lk_dom : forall p, p ∈ concat L <-> is_Some (twentry_slab_ w !! p) /\ p ∉ U;
  lk_head : forall i l, L !! i = Some l -> slice_head_ w !! Z.of_nat i = head l;
  lk_entry : forall i l j p, L !! i = Some l -> l !! j = Some p ->
      exists e, twentry_slab_ w !! p = Some e /\ slice_ e = Z.of_nat i /\
                prev_ e = pred_of l j /\ next_ e = l !! S j;
  lk_num : num_entries_ w = wrap32 (Z.of_nat (length (concat L)))
}.

(** Every allocated, not yet reclaimed entry is linked into exactly one
    slice list, and [num_entries_] is the number of linked entries. *)
Definition slices_linked (w : twheel) : Prop := exists L, linked ∅ w L.

(** The invariant of a wheel between two operations. *)
Definition wheel_inv (w : twheel) : Prop := wheel_cfg w /\ slices_linked w.

Definition same_cfg (w w' : twheel) : Prop :=
  slice_intvl_ w' = slice_intvl_ w /\ thread_safe_ w' = thread_safe_ w /\
  nslices_ w' = nslices_ w /\ curr_slice_ w' = curr_slice_ w.

(** An entry without its list links. *)
Definition strip (e : twentry_t) : twentry_t := set_next None (set_prev None e).

(** Entry [x] is the same in [w] and [w'] up to its list links. *)
Definition same_payload (w w' : twheel) (x : handle) : Prop :=
  strip <$> twentry_slab_ w' !! x = strip <$> twentry_slab_ w !! x.

(** No entry of [w] has been given back to the slab in [w']. *)
Definition keeps_entries (w w' : twheel) : Prop :=
  forall q, is_Some (twentry_slab_ w !! q) -> is_Some (twentry_slab_ w' !! q).

Definition keeps_links (f : twentry_t -> twentry_t) : Prop :=
  forall e, slice_ (f e) = slice_ e /\ prev_ (f e) = prev_ e /\ next_ (f e) = next_ e.

(** What a callback may do to the wheel it is called from: anything that
    keeps the invariant and frees no entry (the timer API itself never
    frees one; only [tick] does). *)
Definition callbacks_ok (invoke : Z -> handle -> Z -> Z -> M unit) : Prop :=
  forall cb p timer_id ctxt w w',
    wheel_inv w -> invoke cb p timer_id ctxt w = Ok (tt, w') ->
    wheel_inv w' /\ keeps_entries w w'.

(** Callbacks that leave the wheel alone. *)
Definition quiet : Z -> handle -> Z -> Z -> M unit := fun _ _ _ _ => st_ret tt.

(** Every entry that can fire has a callback. *)
Definition armed (w : twheel) : Prop :=
  forall p e, twentry_slab_ w !! p = Some e -> valid_ e = true -> cb_ e <> 0.

(** What the walk of one slice leaves behind, started in [w] with the
    lists [L]. *)
Definition walk_post (w : twheel) (L : list (list handle)) (w' : twheel) : Prop :=
  exists L', linked ∅ w' L' /\ same_cfg w w' /\ slock_ w' = slock_ w /\ armed w' /\
             (length (concat L') <= length (concat L))%nat.

(** States the list primitives lead to. *)

(** After [unlink_timer_] of an entry whose fields were [e]. *)
Definition unlinked (e : twentry_t) (w : twheel) : twheel :=
  let h1 := match next_ e with
            | Some n => alter (set_prev (prev_ e)) n (twentry_slab_ w)
            | None => twentry_slab_ w
            end in
  let h2 := match prev_ e with
            | Some q => alter (set_next (next_ e)) q h1
            | None => h1
            end in
  let hd := match prev_ e, next_ e with
            | Some _, _ => slice_head_ w
            | None, Some n => <[slice_ e := n]> (slice_head_ w)
            | None, None => delete (slice_ e) (slice_head_ w)
            end in
  mk_twheel h2 (slice_intvl_ w) (thread_safe_ w) (nslices_ w) hd (slock_ w)
            (curr_slice_ w) (wrap32 (num_entries_ w - 1)).

(** After [insert_timer_] of the entry [p] whose fields were [e]. *)
Definition inserted (p : handle) (e : twentry_t) (w : twheel) : twheel :=
  let cur := slice_head_ w !! slice_ e in
  let h1 := alter (set_next cur) p (twentry_slab_ w) in
  let h2 := match cur with
            | Some c => alter (set_prev (Some p)) c h1
            | None => h1
            end in
  let h3 := alter (set_valid true) p h2 in
  mk_twheel h3 (slice_intvl_ w) (thread_safe_ w) (nslices_ w)
            (<[slice_ e := p]> (slice_head_ w)) (slock_ w) (curr_slice_ w)
            (wrap32 (num_entries_ w + 1)).

(** After [init_twentry_]. *)
Definition initialised (p : handle) (timer_id timeout : Z) (periodic : bool)
    (ctxt cb slice : Z) (w : twheel) : twheel :=
  with_slab (alter (fun _ =>
      mk_twentry timer_id (wrap32 timeout) periodic false ctxt cb
        (wrap16 (timeout / (nslices_ w * slice_intvl_ w))) slice None None)
    p (twentry_slab_ w)) w.

(** After a successful [TWHEEL_LOCK_SLICE] / [TWHEEL_UNLOCK_SLICE]. *)
Definition lockst (s : Z) (w : twheel) : twheel :=
  if thread_safe_ w then with_slock ({[s]} ∪ slock_ w) w else w.
Definition unlockst (s : Z) (w : twheel) : twheel :=
  if thread_safe_ w then with_slock (slock_ w ∖ {[s]}) w else w.

(** The same wheel run without locking.  Code that returns normally with
    locks returns the same without them ([erases]). *)
Definition unsafe (w : twheel) : twheel :=
  mk_twheel (twentry_slab_ w) (slice_intvl_ w) false (nslices_ w) (slice_head_ w)
            ∅ (curr_slice_ w) (num_entries_ w).

Definition erases {A} (c : M A) : Prop :=
  forall w a w', c w = Ok (a, w') -> c (unsafe w) = Ok (a, unsafe w').

(** *** Statements and wheels the properties are checked on *)

(** The wheel [factory(100, 1000, true)] builds: ten slices of 100 ms,
    thread safe. *)
Definition demo_wheel : twheel := mk_twheel ∅ 100 true 10 ∅ ∅ 0 0.

(** Idempotent delete as the specification words it: two consecutive
    [del_timer(h)] on a live entry both return the context stored in the
    entry, and the second changes nothing. *)
Definition idempotent_delete_claim : Prop :=
  forall w p e c1 w1 c2 w2,
    wheel_inv w -> slock_ w = ∅ ->
    twentry_slab_ w !! p = Some e -> valid_ e = true ->
    del_timer (Some p) w = Ok (c1, w1) ->
    del_timer (Some p) w1 = Ok (c2, w2) ->
    c1 = ctxt_ e /\ c2 = c1 /\ w2 = w1.

(** The time remaining as the specification words it, the slice
    difference [s - c + N] taken as a plain integer. *)
Definition timeout_remaining_claim : Prop :=
  forall w p e,
    wheel_cfg w -> twentry_slab_ w !! p = Some e ->
    0 <= nspins_ e < 65536 -> 0 <= slice_ e < nslices_ w ->
    get_timeout_remaining (Some p) w =
      Ok (nspins_ e * (nslices_ w * slice_intvl_ w) +
          ((slice_ e - curr_slice_ w + nslices_ w) mod nslices_ w) * slice_intvl_ w, w).

(** The wheel [factory(1, 4294967295, false)] builds, after
    [add_timer(1, 4294967294, NULL, cb, false, 0)]: the one timer sits in
    the last slice. *)
Definition wide_wheel : twheel :=
  mk_twheel {[ 1%positive := mk_twentry 1 4294967294 false true 0 5 0 4294967294 None None ]}
            1 false 4294967295 {[ 4294967294 := 1%positive ]} ∅ 0 1.

(** The slice chosen for an update as the specification words it, the
    sum [curr_slice + num_slices] taken as a plain integer. *)
Definition next_slice_claim : Prop :=
  forall w timeout entry_slice,
    wheel_cfg w -> 2 <= nslices_ w ->
    0 <= timeout < 18446744073709551616 -> 0 <= entry_slice < nslices_ w ->
    let k := Z.max 1 ((timeout mod (nslices_ w * slice_intvl_ w)) / slice_intvl_ w) in
    let cand := (curr_slice_ w + k) mod nslices_ w in
    exists s,
      next_slice_ timeout entry_slice true w = Ok (s, w) /\
      s <> entry_slice /\
      s = if cand =? entry_slice then (cand + 1) mod nslices_ w else cand.

(** The empty wheel of [factory(1, 4294967295, false)] after [tick(2)]. *)
Definition wide_wheel_ticked : twheel := mk_twheel ∅ 1 false 4294967295 ∅ ∅ 2 0.

(** The wheel [factory(2, 3, true)] builds: a single slice. *)
Definition single_slice_wheel : twheel := mk_twheel ∅ 2 true 1 ∅ ∅ 0 0.

(** Three timers are started on a wheel, the first is deleted again. *)
Definition demo_ops : M Z :=
  add_timer (Some 1%positive) 1 350 77 5 false 0 ;;
  add_timer (Some 2%positive) 2 200 78 5 true 0 ;;
  add_timer (Some 3%positive) 3 150 79 5 false 0 ;;
  del_timer (Some 1%positive).

(** [demo_wheel] after [demo_ops]. *)
Definition demo_loaded : twheel :=
  Eval vm_compute in
    match demo_ops demo_wheel with Ok (_, w) => w | Err _ => demo_wheel end.

(** The allocator turns the next request down. *)
Definition refuses (l : list (option positive)) : Prop :=
  match l with Some _ :: _ => False | _ => True end.

(** The addresses the allocator hands out are not in use and are pairwise
    different. *)
Definition fresh_answers (m : cmem) : Prop :=
  NoDup (omap id (pending m)) /\ forall a, Some a ∈ pending m -> a ∉ live m.

End Twheel.

(** ** The slab pool (lib/slab) *)

Module Slab.

(** [sizeof(slab_emeta_t)]: one packed 32-bit word. *)
Definition SLAB_ELEM_META_SIZE : Z := 4.

(** The meta word in front of an element and the first pointer-sized word
    of the element itself, where a free element keeps the free-list link. *)
Record elem_t : Type := mk_elem {
  in_use : bool;
  link   : option Z
}.

(** The header of a block ([slab_block_t] without [elems_]). *)
Record slab_block_t : Type := mk_block {
  prev_       : option Z;
  next_       : option Z;
  free_head_  : option Z;      (* address of the meta word of a free element *)
  num_in_use_ : Z              (* uint32_t *)
}.

(** [class slab].  [blocks] are the blocks currently held from the
    underlying allocator, by address; [elems] the element words inside
    them, by the address of the meta word.  Releasing a block removes it
    and its elements. *)
Record slab : Type := mk_slab {
  blocks           : gmap Z slab_block_t;
  elems            : gmap Z elem_t;
  elem_sz_         : Z;        (* uint32_t *)
  elems_per_block_ : Z;        (* uint32_t *)
  raw_block_sz_    : Z;        (* uint32_t *)
  grow_on_demand_  : bool;
  zero_on_alloc_   : bool;
  slab_num_in_use_ : Z;
  num_allocs_      : Z;
  num_frees_       : Z;
  num_alloc_fails_ : Z;
  num_blocks_      : Z;
  block_head_      : option Z
}.

Definition with_blocks (b : gmap Z slab_block_t) (s : slab) : slab :=
  mk_slab b (elems s) (elem_sz_ s) (elems_per_block_ s) (raw_block_sz_ s)
          (grow_on_demand_ s) (zero_on_alloc_ s) (slab_num_in_use_ s) (num_allocs_ s)
          (num_frees_ s) (num_alloc_fails_ s) (num_blocks_ s) (block_head_ s).
Definition with_elems (e : gmap Z elem_t) (s : slab) : slab :=
  mk_slab (blocks s) e (elem_sz_ s) (elems_per_block_ s) (raw_block_sz_ s)
          (grow_on_demand_ s) (zero_on_alloc_ s) (slab_num_in_use_ s) (num_allocs_ s)
          (num_frees_ s) (num_alloc_fails_ s) (num_blocks_ s) (block_head_ s).
Definition with_head (h : option Z) (s : slab) : slab :=
  mk_slab (blocks s) (elems s) (elem_sz_ s) (elems_per_block_ s) (raw_block_sz_ s)
          (grow_on_demand_ s) (zero_on_alloc_ s) (slab_num_in_use_ s) (num_allocs_ s)
          (num_frees_ s) (num_alloc_fails_ s) (num_blocks_ s) h.
(** The five counters, each moved by the given amount. *)
Definition count (in_use allocs frees fails nblocks : Z) (s : slab) : slab :=
  mk_slab (blocks s) (elems s) (elem_sz_ s) (elems_per_block_ s) (raw_block_sz_ s)
          (grow_on_demand_ s) (zero_on_alloc_ s)
          (wrap32 (slab_num_in_use_ s + in_use)) (wrap32 (num_allocs_ s + allocs))
          (wrap32 (num_frees_ s + frees)) (wrap32 (num_alloc_fails_ s + fails))
          (wrap32 (num_blocks_ s + nblocks)) (block_head_ s).

Definition set_block_prev (v : option Z) (b : slab_block_t) : slab_block_t :=
  mk_block v (next_ b) (free_head_ b) (num_in_use_ b).
Definition set_block_next (v : option Z) (b : slab_block_t) : slab_block_t :=
  mk_block (prev_ b) v (free_head_ b) (num_in_use_ b).
Definition set_free_head (v : option Z) (b : slab_block_t) : slab_block_t :=
  mk_block (prev_ b) (next_ b) v (num_in_use_ b).
Definition set_block_in_use (n : Z) (b : slab_block_t) : slab_block_t :=
  mk_block (prev_ b) (next_ b) (free_head_ b) n.

Definition S (A : Type) : Type := ST slab A.

(** [block->f] and [block->f = v] *)
Definition block_load (block : Z) : S slab_block_t := fun s =>
  match blocks s !! block with
  | Some b => Ok (b, s)
  | None => Err DanglingPointer
  end.
Definition block_store (block : Z) (upd : slab_block_t -> slab_block_t) : S unit := fun s =>
  match blocks s !! block with
  | Some _ => Ok (tt, with_blocks (alter upd block (blocks s)) s)
  | None => Err DanglingPointer
  end.

(** Accesses to an element through the address of its meta word. *)
Definition elem_load (ptr : Z) : S elem_t := fun s =>
  match elems s !! ptr with
  | Some e => Ok (e, s)
  | None => Err DanglingPointer
  end.
Definition elem_store (ptr : Z) (e : elem_t) : S unit := fun s =>
  match elems s !! ptr with
  | Some _ => Ok (tt, with_elems (<[ptr := e]> (elems s)) s)
  | None => Err DanglingPointer
  end.

Section Layout.
(** [sizeof(slab_block_t)], the size of the header in front of
    [elems_]; slab.hpp fixes it. *)
Variable sizeof_slab_block_t : Z.

(** [slab::init] *)
Definition init (elem_sz elems_per_block : Z)
    (grow_on_demand zero_on_alloc : bool) : slab :=
  let elem_sz := wrap32 (elem_sz + SLAB_ELEM_META_SIZE) in
  let elem_sz_ := Z.land (wrap32 (elem_sz + 7)) (wrap32 (Z.lnot 7)) in
  mk_slab ∅ ∅ elem_sz_ elems_per_block
          (wrap32 (elem_sz_ * elems_per_block + sizeof_slab_block_t))
          grow_on_demand zero_on_alloc 0 0 0 0 0 None.

(** [slab::factory]; [mem] tells whether the slab object itself could
    be allocated. *)
Definition factory (mem : bool) (elem_sz elems_per_block : Z)
    (grow_on_demand zero_on_alloc : bool) : option slab :=
  if (elems_per_block <=? 1) || (elem_sz <? 8) then None
  else if mem then Some (init elem_sz elems_per_block grow_on_demand zero_on_alloc)
  else None.

(** Address of the meta word of element [i] of the block at [block]. *)
Definition elem_at (s : slab) (block i : Z) : Z :=
  block + sizeof_slab_block_t + i * elem_sz_ s.

(** [slab::alloc_block_]; [mem] is what the underlying allocator
    returns for a request of [raw_block_sz_] bytes. *)
Definition alloc_block_ (mem : option Z) : S (option Z) := fun s =>
  match mem with
  | None => Ok (None, s)
  | Some block =>
      match blocks s !! block with
      | Some _ => Err DoubleFree   (* the allocator never returns live memory *)
      | None =>
          let n := elems_per_block_ s in
          let cells :=
            foldr (fun i acc =>
                     <[elem_at s block i :=
                         mk_elem false (if i =? n - 1 then None
                                        else Some (elem_at s block (i + 1)))]> acc)
                  (elems s) (seqZ 0 n) in
          let hdr := mk_block None None (Some (elem_at s block 0)) 0 in
          Ok (Some block,
              count 0 0 0 0 1
                (with_elems cells (with_blocks (<[block := hdr]> (blocks s)) s)))
      end
  end.

(** The scan of [slab::alloc] for a block with a free element. *)
Fixpoint find_free (fuel : nat) (block : option Z) : S (option Z) :=
  match block with
  | None => st_ret None
  | Some b =>
      let* hdr := block_load b in
      match free_head_ hdr with
      | Some _ => st_ret (Some b)
      | None =>
          match fuel with
          | O => st_fail OutOfFuel
          | Datatypes.S fuel' => find_free fuel' (next_ hdr)
          end
      end
  end.

(** [slab::alloc]; returns the element's address, [None] for NULL. *)
Definition alloc (fuel : nat) (mem : option Z) : S (option Z) :=
  let* head := st_gets block_head_ in
  let* found := find_free fuel head in
  let* grow := st_gets grow_on_demand_ in
  let* block :=
    match found with
    | Some b => st_ret (Some b)
    | None =>
        if grow || negb (bool_decide (is_Some head)) then
          let* fresh := alloc_block_ mem in
          match fresh with
          | Some b =>
              block_store b (set_block_next head) ;;
              match head with
              | Some h => block_store h (set_block_prev (Some b))
              | None => st_ret tt
              end ;;
              st_modify (with_head (Some b)) ;;
              st_ret (Some b)
          | None => st_ret None
          end
        else st_ret None
    end in
  match block with
  | None =>
      st_modify (count 0 0 0 1 0) ;;
      st_ret None
  | Some b =>
      let* hdr := block_load b in
      match free_head_ hdr with
      | None => st_fail NullPointer
      | Some emeta =>
          let* e := elem_load emeta in
          elem_store emeta (mk_elem true (link e)) ;;
          block_store b (set_free_head (link e)) ;;
          st_modify (count 1 1 0 0 0) ;;
          let* hdr := block_load b in
          block_store b (set_block_in_use (wrap32 (num_in_use_ hdr + 1))) ;;
          st_ret (Some (emeta + SLAB_ELEM_META_SIZE))
      end
  end.

(** Giving a block back to the underlying allocator ([SDK_FREE]): the
    block and the elements inside it are gone. *)
Definition release (block : Z) : S unit := fun s =>
  match blocks s !! block with
  | None => Err DoubleFree
  | Some _ =>
      Ok (tt, with_elems
                (filter (fun kv => ~ (block < kv.1 < block + raw_block_sz_ s)) (elems s))
                (with_blocks (delete block (blocks s)) s))
  end.

(** [slab::free_block_] *)
Definition free_block_ (block : Z) : S unit :=
  let* head := st_gets block_head_ in
  let* hdr := block_load block in
  (if bool_decide (head = Some block) then
     st_modify (with_head (next_ hdr))
   else
     match prev_ hdr with
     | None => st_fail NullPointer
     | Some p =>
         block_store p (set_block_next (next_ hdr)) ;;
         match next_ hdr with
         | Some n => block_store n (set_block_prev (prev_ hdr))
         | None => st_ret tt
         end
     end) ;;
  release block ;;
  st_modify (count 0 0 0 0 (-1)).

(** The scan of [slab::free_] for the block an element lies in. *)
Fixpoint find_block (fuel : nat) (ptr : Z) (block : option Z) : S (option Z) :=
  match block with
  | None => st_ret None
  | Some b =>
      let* raw := st_gets raw_block_sz_ in
      if (b <? ptr) && (ptr <? b + raw) then st_ret (Some b)
      else
        let* hdr := block_load b in
        match fuel with
        | O => st_fail OutOfFuel
        | Datatypes.S fuel' => find_block fuel' ptr (next_ hdr)
        end
  end.

(** [slab::free_] *)
Definition free_ (fuel : nat) (elem : option Z) : S unit :=
  match elem with
  | None => st_fail AssertFailed
  | Some elem =>
      let ptr := elem - SLAB_ELEM_META_SIZE in
      let* emeta := elem_load ptr in
      st_assert (in_use emeta) ;;
      let* head := st_gets block_head_ in
      let* block := find_block fuel ptr head in
      match block with
      | None => st_fail AssertFailed
      | Some b =>
          let* hdr := block_load b in
          elem_store ptr (mk_elem false (free_head_ hdr)) ;;
          block_store b (set_free_head (Some ptr)) ;;
          st_modify (count (-1) 0 1 0 0) ;;
          let* hdr := block_load b in
          block_store b (set_block_in_use (wrap32 (num_in_use_ hdr - 1))) ;;
          let* hdr := block_load b in
          let* grow := st_gets grow_on_demand_ in
          if (num_in_use_ hdr =? 0) && grow && bool_decide (is_Some (next_ hdr))
          then free_block_ b
          else st_ret tt
      end
  end.

(** [slab::free]: [free_] under the slab's lock, which is taken and
    released around it and never nested. *)
Definition free (fuel : nat) (elem : option Z) : S unit := free_ fuel elem.

(** The spec's sentence about releasing blocks, as it is written: the
    block an element is freed from is released exactly when its in-use
    count drops to zero and it is not the only block of the slab. *)
Definition release_claim : Prop :=
  forall fuel s elem s' b hdr,
    grow_on_demand_ s = true ->
    free fuel (Some elem) s = Ok (tt, s') ->
    find_block fuel (elem - SLAB_ELEM_META_SIZE) (block_head_ s) s = Ok (Some b, s) ->
    blocks s !! b = Some hdr ->
    (blocks s' !! b = None <->
     num_in_use_ hdr = 1 /\ (1 < size (blocks s))%nat).
End Layout.

(** A slab of two-element blocks (8-byte elements, a 32-byte block
    header) after three allocations, the underlying allocator having
    returned the addresses 1000 and 2000, and the release of the first
    element: the block at 2000 heads the list and holds one element in
    use, at 2036; the block at 1000 ends it and holds one, at 1052. *)
Definition two_blocks : slab :=
  Eval vm_compute in
    match (alloc 32 2 (Some 1000) ;; alloc 32 2 None ;; alloc 32 2 (Some 2000) ;;
           free 2 (Some 1036)) (init 32 8 2 true false) with
    | Ok (_, s) => s
    | Err _ => init 32 8 2 true false
    end.
(** [two_blocks] after the release of the element at 1052. *)
Definition tail_block_empty : slab :=
  Eval vm_compute in
    match free 2 (Some 1052) two_blocks with
    | Ok (_, s) => s
    | Err _ => two_blocks
    end.


End Slab.

(** ** The periodic driver (lib/periodic) *)

Module Periodic.

Definition BATCH_SLICE_SIZE : Z := 10.
Definition TWHEEL_DEFAULT_SLICE_DURATION : Z := 250.

(** What the periodic thread does to its collaborators, in order. *)
Inductive event : Type :=
| SetReady                (* g_periodic_thread_ready = true; set_ready(true) *)
| Tick (msecs : Z)        (* g_twheel->tick(msecs) *)
| Heartbeat               (* curr_thread->punch_heartbeat() *)
| Stopped.                (* g_twheel_is_running = false *)

(** One batch: [(missed > BATCH_SLICE_SIZE) ? BATCH_SLICE_SIZE : missed]. *)
Definition batch (missed : Z) : Z :=
  if BATCH_SLICE_SIZE <? missed then BATCH_SLICE_SIZE else missed.

(** The [while (missed)] loop of [periodic_thread_run]; [missed] is a
    [uint64_t], the argument of [tick] a [uint32_t]. *)
Equations? drive_wheel (missed : Z) : list event by wf (Z.to_nat missed) lt :=
  drive_wheel missed with Z_lt_dec 0 missed => {
    | left _ =>
        Tick (wrap32 (wrap64 (batch missed * TWHEEL_DEFAULT_SLICE_DURATION)))
        :: Heartbeat
        :: drive_wheel (missed - batch missed);
    | right _ => [] }.
Proof. unfold batch, BATCH_SLICE_SIZE. destruct (10 <? missed) eqn:E; lia. Qed.

(** What one [timerfd_wait] returns: the number of expirations read, an
    interrupted read ([errno == EINTR]), or any other failure. *)
Inductive wait_result : Type :=
| Missed (n : Z)
| Interrupted
| Failed.

(** The main loop of [periodic_thread_run] over the reads it makes; the
    list ends where the observation ends. *)
Fixpoint wait_loop (reads : list wait_result) : list event :=
  match reads with
  | [] => []
  | Missed n :: rest => drive_wheel n ++ wait_loop rest
  | Interrupted :: rest => wait_loop rest
  | Failed :: _ => [Stopped]
  end.

Definition periodic_thread_run (reads : list wait_result) : list event :=
  SetReady :: wait_loop reads.

(** The [tick] calls among the events. *)
Definition ticks (evs : list event) : list Z :=
  omap (fun ev => match ev with Tick ms => Some ms | _ => None end) evs.

(** The batches as the specification words them: [n] calls of [tick],
    each charged [min(remaining, 10) * g] ms and followed by a heartbeat. *)
Fixpoint batches (n : nat) (remaining : Z) : list event :=
  match n with
  | O => []
  | S n' =>
      Tick (Z.min remaining BATCH_SLICE_SIZE * TWHEEL_DEFAULT_SLICE_DURATION)
      :: Heartbeat :: batches n' (remaining - BATCH_SLICE_SIZE)
  end.

(** The expiration counts of the reads that succeeded. *)
Definition reported (reads : list wait_result) : list Z :=
  omap (fun r => match r with Missed n => Some n | _ => None end) reads.

Section Drive.
(** The callbacks of the timers of [g_twheel]. *)
Variable invoke : Z -> Twheel.handle -> Z -> Z -> Twheel.M unit.

(** The effect of the events on [g_twheel]: every [Tick] is a call of
    [twheel::tick]; the other events leave the wheel alone.  [fuel]
    bounds the entries [tick] visits in one slice. *)
Fixpoint run_events (fuel : nat) (evs : list event) : Twheel.M unit :=
  match evs with
  | [] => st_ret tt
  | Tick msecs :: rest => Twheel.tick invoke fuel msecs ;; run_events fuel rest
  | _ :: rest => run_events fuel rest
  end.
End Drive.

End Periodic.

(** ** Timer file descriptors (lib/timerfd) *)

Module Timerfd.

(** [timerfd_info_t] *)
Record timerfd_info_t : Type := mk_timerfd {
  timer_fd       : Z;    (* int *)
  usecs          : Z;    (* uint64_t *)
  missed_wakeups : Z     (* uint64_t *)
}.

(** [timerfd_init] *)
Definition timerfd_init (pinfo : timerfd_info_t) : timerfd_info_t :=
  mk_timerfd (-1) 0 0.

(** [timerfd_prepare]; [fd] is what [timerfd_create] returns and
    [settime] what [timerfd_settime] returns.  The result is the return
    value and the updated [*pinfo]. *)
Definition timerfd_prepare (fd settime : Z) (pinfo : timerfd_info_t)
    : Z * timerfd_info_t :=
  if fd =? -1 then (fd, pinfo)
  else (settime, mk_timerfd fd (usecs pinfo) 0).

(** [timerfd_wait]; [rd] is what [read] does: [None] when it returns -1,
    [Some n] when it stores the expiration count [n].  The result is the
    return value, [*missed] and the updated [*pinfo]. *)
Definition timerfd_wait (rd : option Z) (pinfo : timerfd_info_t)
    : Z * Z * timerfd_info_t :=
  match rd with
  | None => (-1, 0, pinfo)
  | Some n =>
      (0, n, mk_timerfd (timer_fd pinfo) (usecs pinfo)
                        (wrap64 (missed_wakeups pinfo + n)))
  end.

(** Consecutive waits on the same descriptor. *)
Definition timerfd_waits (rds : list (option Z)) (pinfo : timerfd_info_t)
    : timerfd_info_t :=
  foldl (fun p rd => (timerfd_wait rd p).2) pinfo rds.

End Timerfd.

(** ** The event thread's up/down registry and inbox (lib/event_thread) *)

Module EventThread.

Definition MAX_THREAD_ID : Z := 255.

Inductive updown_status_t : Type := THREAD_DOWN | THREAD_UP.

#[global] Instance updown_status_eq_dec : EqDecision updown_status_t.
Proof. solve_decision. Defined.

(** [class lfq_msg]: a user message with its payload pointer, or a
    thread-up notification with [meta.updown]. *)
Inductive lfq_msg : Type :=
| USER_MSG (payload : Z)
| UPDOWN_MSG (thread_id : Z) (status : updown_status_t).

#[global] Instance lfq_msg_eq_dec : EqDecision lfq_msg.
Proof. solve_decision. Defined.

(** What the loop of a thread has called back, in order. *)
Inductive delivery : Type :=
| MessageCb (payload : Z)       (* message_cb_(payload, user_ctx_) *)
| UpdownUpCb (thread_id : Z).   (* updown_up_cbs_[id](id, ctx) *)

#[global] Instance delivery_eq_dec : EqDecision delivery.
Proof. solve_decision. Defined.

(** The part of an [event_thread] the registry and the inbox touch. *)
Record event_thread : Type := mk_thread {
  inbox          : list lfq_msg;   (* the lock-free queue, oldest first *)
  async_pending  : bool;           (* ev_async_send was called *)
  updown_up_cbs_ : gset Z;         (* ids an up-callback is registered for *)
  has_message_cb : bool;           (* message_cb_ != NULL *)
  delivered      : list delivery
}.

(** The process-wide state: [g_event_thread_table], [g_updown], and the
    number of [lfq_msg] envelopes the allocator can still hand out. *)
Record world : Type := mk_world {
  g_event_thread_table : gmap Z event_thread;
  status_        : gmap Z updown_status_t;
  subscriptions_ : gmap Z (gset Z);
  envelopes      : nat
}.

Definition W (A : Type) : Type := ST world A.

Definition with_table (t : gmap Z event_thread) (w : world) : world :=
  mk_world t (status_ w) (subscriptions_ w) (envelopes w).
Definition with_status (s : gmap Z updown_status_t) (w : world) : world :=
  mk_world (g_event_thread_table w) s (subscriptions_ w) (envelopes w).
Definition with_subscriptions (s : gmap Z (gset Z)) (w : world) : world :=
  mk_world (g_event_thread_table w) (status_ w) s (envelopes w).
Definition with_envelopes (n : nat) (w : world) : world :=
  mk_world (g_event_thread_table w) (status_ w) (subscriptions_ w) n.

(** [lfq_msg::factory]: [false] is the NULL of a failed allocation. *)
Definition lfq_msg_factory : W bool := fun w =>
  match envelopes w with
  | O => Ok (false, w)
  | Datatypes.S n => Ok (true, with_envelopes n w)
  end.

(** [lfq_msg::destroy] *)
Definition lfq_msg_destroy : W unit :=
  st_modify (fun w => with_envelopes (Datatypes.S (envelopes w)) w).

(** Modelled from the spec: [thread::enqueue], the producer side of the
    inbox, which lives in lib/thread and lib/lfq.  The spec calls the
    inbox a lock-free multi-producer single-consumer queue delivered in
    enqueue order, so enqueueing appends to the queue. *)
Definition enqueue (msg : lfq_msg) (t : event_thread) : event_thread :=
  mk_thread (inbox t ++ [msg]) (async_pending t) (updown_up_cbs_ t)
            (has_message_cb t) (delivered t).

(** [ev_async_send(loop_, &async_watcher_)] *)
Definition ev_async_send (t : event_thread) : event_thread :=
  mk_thread (inbox t) true (updown_up_cbs_ t) (has_message_cb t) (delivered t).

(** [g_event_thread_table[thread_id]->f(...)] for a registered thread. *)
Definition on_thread (thread_id : Z) (f : event_thread -> event_thread) : W unit :=
  fun w =>
    match g_event_thread_table w !! thread_id with
    | Some t => Ok (tt, with_table (<[thread_id := f t]> (g_event_thread_table w)) w)
    | None => Err NullPointer
    end.

(** [event_thread::message_send] of the thread registered at [this]. *)
Definition thread_message_send (this : Z) (msg : lfq_msg) : W unit :=
  on_thread this (fun t => ev_async_send (enqueue msg t)).

(** [event_thread::handle_thread_up]; the envelope is written through
    the pointer [factory] returned without a check. *)
Definition handle_thread_up (this thread_id : Z) : W unit :=
  let* msg := lfq_msg_factory in
  if msg then thread_message_send this (UPDOWN_MSG thread_id THREAD_UP)
  else st_fail NullPointer.

(** [status_[id]]: [std::map::operator[]] creates the default entry
    ([THREAD_DOWN]) when there is none. *)
Definition status_at (id : Z) : W updown_status_t := fun w =>
  match status_ w !! id with
  | Some s => Ok (s, w)
  | None => Ok (THREAD_DOWN, with_status (<[id := THREAD_DOWN]> (status_ w)) w)
  end.

(** [subscriptions_[id]], likewise. *)
Definition subscriptions_at (id : Z) : W (gset Z) := fun w =>
  match subscriptions_ w !! id with
  | Some s => Ok (s, w)
  | None => Ok (∅, with_subscriptions (<[id := ∅]> (subscriptions_ w)) w)
  end.

Definition registered (thread_id : Z) : W bool :=
  st_gets (fun w => bool_decide (is_Some (g_event_thread_table w !! thread_id))).

(** [updown_mgr::subscribe]; the mutex is taken and released around the
    body and never nested. *)
Definition subscribe (subscriber target : Z) : W unit :=
  st_assert (negb (subscriber =? target)) ;;
  st_assert (subscriber <=? MAX_THREAD_ID) ;;
  st_assert (target <=? MAX_THREAD_ID) ;;
  let* st := status_at target in
  (if bool_decide (st = THREAD_UP) then
     let* r := registered subscriber in
     st_assert r ;;
     handle_thread_up subscriber target
   else st_ret tt) ;;
  let* subs := subscriptions_at target in
  st_modify (fun w =>
    with_subscriptions (<[target := {[subscriber]} ∪ subs]> (subscriptions_ w)) w).

(** The [for (auto subscriber : subscriptions_[thread_id])] loop of
    [updown_mgr::up]. *)
Fixpoint notify_all (subscribers : list Z) (thread_id : Z) : W unit :=
  match subscribers with
  | [] => st_ret tt
  | subscriber :: rest =>
      let* r := registered subscriber in
      st_assert r ;;
      handle_thread_up subscriber thread_id ;;
      notify_all rest thread_id
  end.

(** [updown_mgr::up]; a [std::set] is walked in ascending order. *)
Definition up (thread_id : Z) : W unit :=
  st_assert (thread_id <=? MAX_THREAD_ID) ;;
  let* st := status_at thread_id in
  st_assert (negb (bool_decide (st = THREAD_UP))) ;;
  st_modify (fun w => with_status (<[thread_id := THREAD_UP]> (status_ w)) w) ;;
  let* subs := subscriptions_at thread_id in
  notify_all (merge_sort Z.le (elements subs)) thread_id.

(** [updown_mgr::down] *)
Definition down (thread_id : Z) : W unit :=
  st_assert (thread_id <=? MAX_THREAD_ID) ;;
  st_modify (fun w => with_status (<[thread_id := THREAD_DOWN]> (status_ w)) w).

(** [event_thread::updown_up_subscribe], called on the thread [this]
    from the thread [current] ([t_event_thread_]); the callback pointer
    is known to be non-null or not. *)
Definition updown_up_subscribe (current this thread_id : Z) (callback : bool) : W unit :=
  st_assert (bool_decide (current = this)) ;;
  st_assert (thread_id <=? MAX_THREAD_ID) ;;
  st_assert callback ;;
  let* t := (fun w => match g_event_thread_table w !! this with
                      | Some t => Ok (t, w)
                      | None => Err NullPointer
                      end) in
  st_assert (negb (bool_decide (thread_id ∈ updown_up_cbs_ t))) ;;
  on_thread this (fun t =>
    mk_thread (inbox t) (async_pending t) ({[thread_id]} ∪ updown_up_cbs_ t)
              (has_message_cb t) (delivered t)) ;;
  subscribe this thread_id.

(** The global [message_send] *)
Definition message_send (thread_id : Z) (message : Z) : W unit :=
  st_assert (thread_id <=? MAX_THREAD_ID) ;;
  let* r := registered thread_id in
  st_assert r ;;
  let* msg := lfq_msg_factory in
  if msg then thread_message_send thread_id (USER_MSG message)
  else st_fail NullPointer.

(** One round of the [while (true)] loop of [event_thread::process_lfq_]
    for a dequeued message. *)
Definition dispatch (this : Z) (msg : lfq_msg) : W unit :=
  let* t := (fun w => match g_event_thread_table w !! this with
                      | Some t => Ok (t, w)
                      | None => Err NullPointer
                      end) in
  match msg with
  | USER_MSG payload =>
      st_assert (has_message_cb t) ;;
      on_thread this (fun t =>
        mk_thread (inbox t) (async_pending t) (updown_up_cbs_ t) (has_message_cb t)
                  (delivered t ++ [MessageCb payload]))
  | UPDOWN_MSG id _ =>
      st_assert (bool_decide (id ∈ updown_up_cbs_ t)) ;;
      on_thread this (fun t =>
        mk_thread (inbox t) (async_pending t) (updown_up_cbs_ t) (has_message_cb t)
                  (delivered t ++ [UpdownUpCb id]))
  end ;;
  lfq_msg_destroy.

(** [event_thread::process_lfq_]: drain the inbox; the callbacks only
    record that they ran.  The inbox shrinks by one per round. *)
Fixpoint process_loop (this : Z) (queued : list lfq_msg) : W unit :=
  match queued with
  | [] => st_ret tt
  | msg :: rest =>
      on_thread this (fun t =>
        mk_thread (tail (inbox t)) (async_pending t) (updown_up_cbs_ t)
                  (has_message_cb t) (delivered t)) ;;
      dispatch this msg ;;
      process_loop this rest
  end.

Definition process_lfq_ (this : Z) : W unit :=
  let* t := (fun w => match g_event_thread_table w !! this with
                      | Some t => Ok (t, w)
                      | None => Err NullPointer
                      end) in
  process_loop this (inbox t).

(** Number of UP notifications about [target] in a queue, and of up
    callbacks run for it. *)
Definition up_notifications (target : Z) (q : list lfq_msg) : nat :=
  length (filter (fun m => m = UPDOWN_MSG target THREAD_UP) q).
Definition up_callbacks (target : Z) (d : list delivery) : nat :=
  length (filter (fun x => x = UpdownUpCb target) d).

(** A thread that has not been sent anything, with an up callback
    registered for each id of [cbs]. *)
Definition idle_thread (cbs : gset Z) : event_thread := mk_thread [] false cbs true [].

(** Threads 1 and 2 are registered; thread 1 has an up callback for
    thread 2; nobody is up, nobody has subscribed. *)
Definition demo_world : world :=
  mk_world {[ 1 := idle_thread {[ 2 ]}; 2 := idle_thread ∅ ]} ∅ ∅ 8.

(** [demo_world] after [up(2)]. *)
Definition demo_world_up : world :=
  Eval vm_compute in
    match up 2 demo_world with Ok (_, w) => w | Err _ => demo_world end.

(** What the loop calls back for a message it dequeues. *)
Definition delivery_of (msg : lfq_msg) : delivery :=
  match msg with
  | USER_MSG payload => MessageCb payload
  | UPDOWN_MSG id _ => UpdownUpCb id
  end.

(** The assertion of [process_lfq_] for a message holds on thread [t]. *)
Definition deliverable (t : event_thread) (msg : lfq_msg) : Prop :=
  match msg with
  | USER_MSG _ => has_message_cb t = true
  | UPDOWN_MSG id _ => id ∈ updown_up_cbs_ t
  end.

(** A thread after [handle_thread_up(thread_id)]. *)
Definition notified (thread_id : Z) (t : event_thread) : event_thread :=
  ev_async_send (enqueue (UPDOWN_MSG thread_id THREAD_UP) t).

Section Flags.
(** libev's [EV_READ] and [EV_WRITE] and event_thread.hpp's
    [EVENT_READ] and [EVENT_WRITE]. *)
Variable EV_READ : Z.
Variable EV_WRITE : Z.
Variable EVENT_READ : Z.
Variable EVENT_WRITE : Z.

(** [ev_to_event] *)
Definition ev_to_event (ev_value : Z) : Z :=
  let event_value := 0 in
  let event_value :=
    if negb (Z.land EV_READ ev_value =? 0) then Z.lor event_value EVENT_READ
    else event_value in
  let event_value :=
    if negb (Z.land EV_WRITE ev_value =? 0) then Z.lor event_value EVENT_WRITE
    else event_value in
  event_value.

(** [event_to_ev] *)
Definition event_to_ev (event_value : Z) : Z :=
  let ev_value := 0 in
  let ev_value :=
    if negb (Z.land EVENT_READ event_value =? 0) then Z.lor ev_value EV_READ
    else ev_value in
  let ev_value :=
    if negb (Z.land EVENT_WRITE event_value =? 0) then Z.lor ev_value EV_WRITE
    else ev_value in
  ev_value.
End Flags.

(** Worlds the properties are checked on: thread 1 has subscribed to
    thread 2, which is not up yet; a thread with two messages queued;
    thread 2 is up and thread 1 has not subscribed. *)
Definition demo_subscribed : world :=
  mk_world {[ 1 := idle_thread {[ 2 ]}; 2 := idle_thread ∅ ]} ∅ {[ 2 := {[ 1 ]} ]} 8.
Definition busy_thread : event_thread :=
  mk_thread [UPDOWN_MSG 2 THREAD_UP; USER_MSG 5] true {[ 2 ]} true [].
Definition demo_queued : world := mk_world {[ 1 := busy_thread ]} ∅ ∅ 0.
Definition demo_peer_up : world :=
  mk_world {[ 1 := idle_thread ∅; 2 := idle_thread ∅ ]} {[ 2 := THREAD_UP ]} ∅ 8.

End EventThread.

(** ** The memory tracker (mtrack.hpp) *)

Module Mtrack.

(** [mtrack_info_t] *)
Record mtrack_info_t : Type := mk_info {
  num_allocs : Z;   (* uint32_t *)
  num_frees  : Z    (* uint32_t *)
}.

(** [class mem_mgr] together with the C heap it allocates from:
    [mtrack_map_] maps an allocation id to the address of its
    [mtrack_info_t]; [infos] holds the info records that are allocated,
    by address; [blocks] the addresses [malloc]/[calloc] has handed out
    to the callers and that have not been freed. *)
Record mem_mgr : Type := mk_mgr {
  mtrack_map_ : gmap Z Z;
  enabled_    : bool;
  infos       : gmap Z mtrack_info_t;
  blocks      : gset Z
}.

Definition T (A : Type) : Type := ST mem_mgr A.

Definition with_map (m : gmap Z Z) (s : mem_mgr) : mem_mgr :=
  mk_mgr m (enabled_ s) (infos s) (blocks s).
Definition with_infos (i : gmap Z mtrack_info_t) (s : mem_mgr) : mem_mgr :=
  mk_mgr (mtrack_map_ s) (enabled_ s) i (blocks s).
Definition with_blocks (b : gset Z) (s : mem_mgr) : mem_mgr :=
  mk_mgr (mtrack_map_ s) (enabled_ s) (infos s) b.

(** [mem_mgr()], [enable], [disable], [enabled] *)
Definition mem_mgr_new : mem_mgr := mk_mgr ∅ true ∅ ∅.
Definition enable : T unit := st_modify (fun s => mk_mgr (mtrack_map_ s) true (infos s) (blocks s)).
Definition disable : T unit := st_modify (fun s => mk_mgr (mtrack_map_ s) false (infos s) (blocks s)).
Definition enabled : T bool := st_gets enabled_.

(** [malloc(size)] / [calloc(1, size)] for the caller: [mem] is the
    address the C library answers, [None] when it fails.  The library
    never answers with memory that is in use. *)
Definition c_alloc (mem : option Z) : T (option Z) := fun s =>
  match mem with
  | None => Ok (None, s)
  | Some a =>
      if bool_decide (a ∈ blocks s) || bool_decide (is_Some (infos s !! a))
      then Err DoubleFree
      else Ok (Some a, with_blocks ({[a]} ∪ blocks s) s)
  end.

(** [free(ptr)] of caller memory. *)
Definition c_free (ptr : Z) : T unit := fun s =>
  if bool_decide (ptr ∈ blocks s)
  then Ok (tt, with_blocks (blocks s ∖ {[ptr]}) s)
  else Err DoubleFree.

(** [calloc(1, sizeof(mtrack_info_t))]: a zeroed record. *)
Definition info_calloc (mem : option Z) : T (option Z) := fun s =>
  match mem with
  | None => Ok (None, s)
  | Some a =>
      if bool_decide (a ∈ blocks s) || bool_decide (is_Some (infos s !! a))
      then Err DoubleFree
      else Ok (Some a, with_infos (<[a := mk_info 0 0]> (infos s)) s)
  end.

(** [free(mtrack_info)] *)
Definition info_free (ptr : Z) : T unit := fun s =>
  match infos s !! ptr with
  | Some _ => Ok (tt, with_infos (delete ptr (infos s)) s)
  | None => Err DoubleFree
  end.

(** [it->second->f] and its update. *)
Definition info_load (ptr : Z) : T mtrack_info_t := fun s =>
  match infos s !! ptr with
  | Some i => Ok (i, s)
  | None => Err DanglingPointer
  end.
Definition info_store (ptr : Z) (i : mtrack_info_t) : T unit := fun s =>
  match infos s !! ptr with
  | Some _ => Ok (tt, with_infos (<[ptr := i]> (infos s)) s)
  | None => Err DanglingPointer
  end.

(** [mem_mgr::mtrack_alloc]; [mem] and [info_mem] are the answers of the
    C library to the two allocations the function may make.  The
    spinlock [mtrack_map_slock_] is taken and released around the map
    access on every path and never nested, here and in [mtrack_free]
    and [walk]. *)
Definition mtrack_alloc (alloc_id : Z) (mem info_mem : option Z) : T (option Z) :=
  let* mem := c_alloc mem in
  match mem with
  | None => st_ret None
  | Some m =>
      let* on := st_gets enabled_ in
      if negb on then st_ret (Some m)
      else
        let* it := st_gets (fun s => mtrack_map_ s !! alloc_id) in
        let* free_mem :=
          match it with
          | Some p =>
              let* i := info_load p in
              info_store p (mk_info (wrap32 (num_allocs i + 1)) (num_frees i)) ;;
              st_ret false
          | None =>
              let* mtrack_info := info_calloc info_mem in
              match mtrack_info with
              | None => st_ret true
              | Some p =>
                  let* i := info_load p in
                  info_store p (mk_info 1 (num_frees i)) ;;
                  st_modify (fun s => with_map (<[alloc_id := p]> (mtrack_map_ s)) s) ;;
                  st_ret false
              end
          end in
        if free_mem then c_free m ;; st_ret None
        else st_ret (Some m)
  end.

(** [mem_mgr::mtrack_free] *)
Definition mtrack_free (alloc_id : Z) (ptr : option Z) : T unit :=
  match ptr with
  | None => st_ret tt
  | Some m =>
      c_free m ;;
      let* on := st_gets enabled_ in
      if negb on then st_ret tt
      else
        let* it := st_gets (fun s => mtrack_map_ s !! alloc_id) in
        let* free_mem :=
          match it with
          | Some p =>
              let* i := info_load p in
              info_store p (mk_info (num_allocs i) (wrap32 (num_frees i + 1))) ;;
              let* i := info_load p in
              if num_frees i =? num_allocs i then
                st_modify (fun s => with_map (delete alloc_id (mtrack_map_ s)) s) ;;
                st_ret (Some p)
              else st_ret None
          | None => st_ret None   (* SDK_TRACE_ERR only *)
          end in
        match free_mem with
        | Some p => info_free p
        | None => st_ret tt
        end
  end.



(** [~mem_mgr]: every info record is freed and the map emptied. *)
Fixpoint destroy_loop (its : list (Z * Z)) : T unit :=
  match its with
  | [] => st_ret tt
  | (id, p) :: rest =>
      info_free p ;;
      st_modify (fun s => with_map (delete id (mtrack_map_ s)) s) ;;
      destroy_loop rest
  end.

Definition mem_mgr_destroy : T unit :=
  let* m := st_gets mtrack_map_ in
  destroy_loop (merge_sort (fun a b => a.1 <=? b.1) (map_to_list m)).

(** Allocations of [alloc_id] the tracker still counts as outstanding. *)
Definition outstanding (s : mem_mgr) (alloc_id : Z) : Z :=
  match mtrack_map_ s !! alloc_id with
  | Some p =>
      match infos s !! p with
      | Some i => num_allocs i - num_frees i
      | None => 0
      end
  | None => 0
  end.

(** The state the tracker keeps between calls: an id is in the map
    exactly with an info record of its own, whose frees are behind its
    allocations; no info record is allocated outside the map. *)
Record tracked (s : mem_mgr) : Prop := {
  tr_info : forall id p, mtrack_map_ s !! id = Some p ->
      exists i, infos s !! p = Some i /\ 0 <= num_frees i < num_allocs i /\
                num_allocs i < 4294967296;
  tr_inj : forall id id' p, mtrack_map_ s !! id = Some p ->
      mtrack_map_ s !! id' = Some p -> id = id';
  tr_own : forall p, is_Some (infos s !! p) -> exists id, mtrack_map_ s !! id = Some p;
  tr_sep : forall p, is_Some (infos s !! p) -> p ∉ blocks s
}.

(** A tracker that counts two allocations for id 7, with the caller
    blocks 100 and 101 outstanding. *)
Definition demo_mgr : mem_mgr :=
  mk_mgr {[ 7 := 200 ]} true {[ 200 := mk_info 2 0 ]} {[ 100; 101 ]}.

End Mtrack.

(** * Proofs *)

(** ** Lists of lists *)

Section ConcatFacts.
Context {A : Type}.
Implicit Types (L : list (list A)) (l : list A).

Lemma concat_split L i l :
  L !! i = Some l -> concat L = concat (take i L) ++ l ++ concat (drop (S i) L).
Proof.
  intros H. rewrite <- (take_drop_middle L i l H) at 1.
  by rewrite concat_app, concat_cons.
Qed.

Lemma concat_insert L i l l' :
  L !! i = Some l ->
  concat (<[i := l']> L) = concat (take i L) ++ l' ++ concat (drop (S i) L).
Proof.
  intros H. rewrite insert_take_drop by (eapply lookup_lt_Some; eauto).
  by rewrite concat_app, concat_cons.
Qed.

Lemma concat_insert_cons L i l x :
  L !! i = Some l -> concat (<[i := x :: l]> L) ≡ₚ x :: concat L.
Proof.
  intros H. rewrite (concat_insert L i l) by done.
  rewrite (concat_split L i l) by done.
  simpl. symmetry. apply Permutation_middle.
Qed.

Lemma concat_insert_delete L i l j x :
  L !! i = Some l -> l !! j = Some x ->
  concat L ≡ₚ x :: concat (<[i := delete j l]> L).
Proof.
  intros H Hj. rewrite (concat_insert L i l) by done.
  rewrite (concat_split L i l) by done.
  rewrite (delete_Permutation l j x Hj) at 1.
  simpl. symmetry. apply Permutation_middle.
Qed.

Lemma elem_of_concat x L :
  x ∈ concat L <-> exists i l, L !! i = Some l /\ x ∈ l.
Proof.
  induction L as [|l0 L IH]; simpl.
  - split; [intros H; by apply elem_of_nil in H | intros (i & l & H & _); done].
  - rewrite elem_of_app, IH. split.
    + intros [H | (i & l & H & Hx)]; [by exists 0%nat, l0 | by exists (S i), l].
    + intros ([|i] & l & H & Hx); simplify_eq/=; [by left | right; eauto].
Qed.

Lemma concat_NoDup_slice L i l :
  NoDup (concat L) -> L !! i = Some l -> NoDup l.
Proof.
  intros Hnd H. rewrite (concat_split L i l H) in Hnd.
  apply NoDup_app in Hnd as (_ & _ & Hnd). by apply NoDup_app in Hnd as (? & _).
Qed.

Lemma concat_NoDup_unique L i i' l l' x :
  NoDup (concat L) -> L !! i = Some l -> L !! i' = Some l' ->
  x ∈ l -> x ∈ l' -> i = i'.
Proof.
  revert i i'. induction L as [|l0 L IH]; intros i i' Hnd H H' Hx Hx'; [done|].
  simpl in Hnd. apply NoDup_app in Hnd as (_ & Hdis & Hnd).
  destruct i as [|i], i' as [|i']; simplify_eq/=; try done.
  - exfalso. eapply Hdis; [done|]. apply elem_of_concat; eauto.
  - exfalso. eapply Hdis; [done|]. apply elem_of_concat; eauto.
  - f_equal; eauto.
Qed.

End ConcatFacts.

(** ** Runs that return *)

Lemma Ok_inj {A S} (a b : A) (s t : S) : Ok (a, s) = Ok (b, t) -> a = b /\ s = t.
Proof. by intros [= -> ->]. Qed.

Lemma bind_Ok_inv {S A B} (c : ST S A) (k : A -> ST S B) s r :
  st_bind c k s = Ok r -> exists a s1, c s = Ok (a, s1) /\ k a s1 = Ok r.
Proof. unfold st_bind. destruct (c s) as [[a s1]|]; [eauto|done]. Qed.

(** ** The timer wheel *)

Lemma st_bind_Ok {S A B} (c : ST S A) (k : A -> ST S B) s a s1 :
  c s = Ok (a, s1) -> st_bind c k s = k a s1.
Proof. intros H. unfold st_bind. by rewrite H. Qed.

Lemma st_bind_Err {S A B} (c : ST S A) (k : A -> ST S B) s e :
  c s = Err e -> st_bind c k s = Err e.
Proof. intros H. unfold st_bind. by rewrite H. Qed.

Module TwheelFacts.
Import Twheel.

Lemma load_ok p e w : twentry_slab_ w !! p = Some e -> load p w = Ok (e, w).
Proof. intros H. unfold load. by rewrite H. Qed.

Lemma store_ok p e f w :
  twentry_slab_ w !! p = Some e ->
  store p f w = Ok (tt, with_slab (alter f p (twentry_slab_ w)) w).
Proof. intros H. unfold store. by rewrite H. Qed.

Lemma in_range_true s n : 0 <= s < n -> (0 <=? s) && (s <? n) = true.
Proof. intros. apply andb_true_iff. split; [apply Z.leb_le | apply Z.ltb_lt]; lia. Qed.

Lemma get_head_ok s w :
  0 <= s < nslices_ w -> get_head s w = Ok (slice_head_ w !! s, w).
Proof. intros H. unfold get_head. by rewrite in_range_true. Qed.

Lemma set_head_ok s v w :
  0 <= s < nslices_ w ->
  set_head s v w = Ok (tt, with_heads (match v with
                           | Some p => <[s := p]> (slice_head_ w)
                           | None => delete s (slice_head_ w)
                           end) w).
Proof. intros H. unfold set_head. by rewrite in_range_true. Qed.

Lemma unlink_exec p e w :
  twentry_slab_ w !! p = Some e ->
  (forall n, next_ e = Some n -> n <> p /\ is_Some (twentry_slab_ w !! n)) ->
  (forall q, prev_ e = Some q -> q <> p /\ is_Some (twentry_slab_ w !! q)) ->
  (prev_ e = None -> 0 <= slice_ e < nslices_ w) ->
  unlink_timer_ (Some p) w = Ok (tt, unlinked e w).
Proof.
  intros Hp Hn Hq Hs. unfold unlink_timer_, unlinked, st_bind.
  rewrite (load_ok p e) by done.
  destruct (next_ e) as [n|] eqn:En.
  - destruct (Hn n eq_refl) as [Hnp [en Hen]].
    rewrite (store_ok n en) by done.
    rewrite (load_ok p e) by (simpl; by rewrite lookup_alter_ne).
    rewrite En.
    destruct (prev_ e) as [q|] eqn:Eq.
    + destruct (Hq q eq_refl) as [Hqp [eq Heq]].
      assert (is_Some (alter (set_prev (Some q)) n (twentry_slab_ w) !! q)) as [eq' Heq'].
      { rewrite lookup_alter. case_decide; [subst q; rewrite Hen | rewrite Heq]; simpl; eauto. }
      rewrite (store_ok q eq') by done. done.
    + rewrite set_head_ok by (simpl; auto). done.
  - unfold st_ret. rewrite (load_ok p e) by done. rewrite En.
    destruct (prev_ e) as [q|] eqn:Eq.
    + destruct (Hq q eq_refl) as [Hqp [eq Heq]].
      rewrite (store_ok q eq) by done. done.
    + rewrite set_head_ok by (simpl; auto). done.
Qed.

Lemma pred_of_lookup (l : list handle) j k x :
  NoDup l -> l !! k = Some x -> pred_of l j = Some x <-> j = S k.
Proof.
  intros Hnd Hk. destruct j as [|j]; simpl.
  - split; [done | lia].
  - split; [intros Hj; f_equal; eapply NoDup_lookup; eauto | intros [= ->]; done].
Qed.

Lemma succ_lookup (l : list handle) j k x :
  NoDup l -> l !! k = Some x -> l !! S j = Some x <-> k = S j.
Proof.
  intros Hnd Hk. split; [intros Hj; eapply NoDup_lookup; eauto | intros ->; done].
Qed.

Lemma delete_pred_succ (l : list handle) j j' k :
  k <> j -> k = (if decide (j' < j)%nat then j' else S j') ->
  pred_of (delete j l) j' = (if decide (k = S j) then pred_of l j else pred_of l k) /\
  delete j l !! S j' = (if decide (j = S k) then l !! S j else l !! S k).
Proof.
  intros Hkj Hk. destruct (decide (j' < j)%nat) as [Hlt|Hge]; subst k.
  - rewrite decide_False by lia. split.
    + destruct j' as [|j0]; simpl; [done|]. by rewrite list_lookup_delete_lt by lia.
    + case_decide.
      * subst j. by rewrite list_lookup_delete_ge by lia.
      * by rewrite list_lookup_delete_lt by lia.
  - rewrite (decide_False (P := j = S (S j'))) by lia. split.
    + case_decide.
      * assert (j' = j) by lia. subst j'.
        destruct j as [|j0]; simpl; [done|]. by rewrite list_lookup_delete_lt by lia.
      * destruct j' as [|j0]; simpl; [lia|]. by rewrite list_lookup_delete_ge by lia.
    + by rewrite list_lookup_delete_ge by lia.
Qed.

Lemma unlinked_slab_lookup e w x :
  twentry_slab_ (unlinked e w) !! x =
    (if decide (prev_ e = Some x) then set_next (next_ e) else id) <$>
    ((if decide (next_ e = Some x) then set_prev (prev_ e) else id) <$>
     twentry_slab_ w !! x).
Proof.
  unfold unlinked; simpl.
  destruct (prev_ e) as [q|], (next_ e) as [n|]; rewrite ?lookup_alter;
    repeat case_decide; simplify_eq; try done;
    try (by destruct (twentry_slab_ w !! x)).
Qed.

Lemma wrap32_pred n : (0 < n)%nat ->
  wrap32 (wrap32 (Z.of_nat n) - 1) = wrap32 (Z.of_nat (n - 1)).
Proof.
  intros H. unfold wrap32. rewrite Zminus_mod_idemp_l. f_equal. lia.
Qed.

Lemma wrap32_succ n :
  wrap32 (wrap32 (Z.of_nat n) + 1) = wrap32 (Z.of_nat (S n)).
Proof.
  unfold wrap32. rewrite Zplus_mod_idemp_l. f_equal. lia.
Qed.

Lemma unlinked_linked U w L p e i l j :
  linked U w L -> twentry_slab_ w !! p = Some e ->
  L !! i = Some l -> l !! j = Some p ->
  linked (U ∪ {[p]}) (unlinked e w) (<[i := delete j l]> L).
Proof.
  intros HL Hp Hi Hj.
  pose proof (concat_insert_delete L i l j p Hi Hj) as Hperm.
  pose proof (lk_nodup _ _ _ HL) as Hnd.
  pose proof (concat_NoDup_slice L i l Hnd Hi) as Hndl.
  assert (Hnd' : NoDup (p :: concat (<[i:=delete j l]> L))) by by rewrite <- Hperm.
  apply NoDup_cons in Hnd' as [Hpnot Hnd'].
  destruct (lk_entry _ _ _ HL i l j p Hi Hj) as (e' & He' & Hsl & Hprev & Hnext).
  assert (e' = e) by congruence; subst e'.
  assert (Hilen : (i < length L)%nat) by (eapply lookup_lt_Some; eauto).
  split.
  - rewrite length_insert. apply (lk_len _ _ _ HL).
  - done.
  - intros x. rewrite unlinked_slab_lookup, !fmap_is_Some.
    pose proof (lk_dom _ _ _ HL x) as Hx. rewrite Hperm in Hx.
    rewrite elem_of_cons in Hx. rewrite elem_of_union, elem_of_singleton.
    split.
    + intros Hin. assert (x <> p) by (intros ->; done). tauto.
    + intros [Hs Hnot]. apply Decidable.not_or in Hnot as [HnU Hnp]. tauto.
  - intros i' l'. destruct (decide (i' = i)) as [->|Hne].
    + rewrite list_lookup_insert_eq by done. intros [= <-].
      rewrite head_lookup. unfold unlinked; simpl.
      rewrite Hprev, Hnext. destruct j as [|j]; simpl.
      * destruct (l !! 1%nat) as [n|] eqn:E1.
        -- rewrite Hsl, lookup_insert_eq.
           destruct l as [|a [|b l]]; simplify_eq/=; done.
        -- rewrite Hsl, lookup_delete_eq.
           destruct l as [|a [|b l]]; simplify_eq/=; done.
      * assert (is_Some (l !! j)) as [q Hq].
        { apply lookup_lt_is_Some. apply lookup_lt_Some in Hj. lia. }
        rewrite Hq. rewrite (lk_head _ _ _ HL i l Hi), head_lookup.
        rewrite list_lookup_delete_lt by lia. done.
    + rewrite list_lookup_insert_ne by done. intros Hi'.
      rewrite <- (lk_head _ _ _ HL i' l' Hi').
      unfold unlinked; simpl. rewrite Hprev, Hnext.
      destruct j as [|j]; simpl.
      * destruct (l !! 1%nat); [rewrite lookup_insert_ne | rewrite lookup_delete_ne];
          try done; rewrite Hsl; lia.
      * assert (is_Some (l !! j)) as [q Hq].
        { apply lookup_lt_is_Some. apply lookup_lt_Some in Hj. lia. }
        by rewrite Hq.
  - intros i' l' j' x. destruct (decide (i' = i)) as [->|Hne].
    + rewrite list_lookup_insert_eq by done. intros [= <-] Hx.
      rewrite list_lookup_delete in Hx.
      assert (exists k, l !! k = Some x /\ k <> j /\
                        k = if decide (j' < j)%nat then j' else S j')
        as (k & Hk & Hkj & Hkdef).
      { case_decide; eexists; split_and!; eauto; lia. }
      destruct (lk_entry _ _ _ HL i l k x Hi Hk) as (ex & Hex & Hslx & Hprevx & Hnextx).
      rewrite unlinked_slab_lookup, Hex. simpl.
      eexists; split; [reflexivity|].
      destruct (delete_pred_succ l j j' k Hkj Hkdef) as [-> ->].
      rewrite Hprev, Hnext.
      rewrite (decide_ext _ _ _ _ (pred_of_lookup l j k x Hndl Hk)).
      rewrite (decide_ext _ _ _ _ (succ_lookup l j k x Hndl Hk)).
      repeat case_decide; simpl; done.
    + rewrite list_lookup_insert_ne by done. intros Hi' Hx.
      destruct (lk_entry _ _ _ HL i' l' j' x Hi' Hx) as (ex & Hex & Hslx & Hprevx & Hnextx).
      assert (Hxl : x ∉ l).
      { intros Hin. apply Hne. eapply (concat_NoDup_unique L i' i l' l x); eauto.
        by eapply list_elem_of_lookup_2. }
      rewrite unlinked_slab_lookup, Hex. simpl.
      rewrite decide_False, decide_False; simpl; [eauto| |].
      * rewrite Hnext. intros Hd. apply Hxl. by eapply list_elem_of_lookup_2.
      * rewrite Hprev. destruct j; simpl; [done|].
        intros Hd. apply Hxl. by eapply list_elem_of_lookup_2.
  - simpl. rewrite (lk_num _ _ _ HL).
    assert (Hlen : length (concat L) = S (length (concat (<[i:=delete j l]> L)))).
    { by rewrite Hperm. }
    rewrite Hlen. rewrite wrap32_pred by lia. f_equal. lia.
Qed.

Lemma insert_exec p e w :
  twentry_slab_ w !! p = Some e ->
  0 <= slice_ e < nslices_ w ->
  (forall c, slice_head_ w !! slice_ e = Some c -> c <> p /\ is_Some (twentry_slab_ w !! c)) ->
  insert_timer_ p w = Ok (tt, inserted p e w).
Proof.
  intros Hp Hs Hc. unfold insert_timer_, inserted, st_bind.
  rewrite (load_ok p e) by done.
  rewrite get_head_ok by done.
  rewrite (store_ok p e) by done.
  destruct (slice_head_ w !! slice_ e) as [c|] eqn:Ec.
  - destruct (Hc c eq_refl) as [Hcp [ec Hec]].
    rewrite (store_ok c ec) by (simpl; by rewrite lookup_alter_ne).
    rewrite (load_ok p (set_next (Some c) e)).
    2:{ simpl. rewrite lookup_alter_ne by done. by rewrite lookup_alter_eq, Hp. }
    rewrite set_head_ok by (simpl; done).
    rewrite (store_ok p (set_next (Some c) e)).
    2:{ simpl. rewrite lookup_alter_ne by done. by rewrite lookup_alter_eq, Hp. }
    done.
  - unfold st_ret.
    rewrite (load_ok p (set_next None e)).
    2:{ simpl. by rewrite lookup_alter_eq, Hp. }
    rewrite set_head_ok by (simpl; done).
    rewrite (store_ok p (set_next None e)).
    2:{ simpl. by rewrite lookup_alter_eq, Hp. }
    done.
Qed.

Lemma inserted_slab_lookup p e w x :
  twentry_slab_ (inserted p e w) !! x =
    (if decide (p = x) then set_valid true else id) <$>
    ((if decide (slice_head_ w !! slice_ e = Some x) then set_prev (Some p) else id) <$>
     ((if decide (p = x) then set_next (slice_head_ w !! slice_ e) else id) <$>
      twentry_slab_ w !! x)).
Proof.
  unfold inserted; simpl.
  destruct (slice_head_ w !! slice_ e) as [c|]; rewrite ?lookup_alter;
    repeat case_decide; simplify_eq; try done;
    try (by destruct (twentry_slab_ w !! x)).
Qed.

Lemma inserted_linked U w L p e i l :
  linked U w L -> twentry_slab_ w !! p = Some e -> p ∈ U ->
  prev_ e = None -> slice_ e = Z.of_nat i -> L !! i = Some l ->
  linked (U ∖ {[p]}) (inserted p e w) (<[i := p :: l]> L).
Proof.
  intros HL Hp HpU Hprev Hsl Hi.
  pose proof (concat_insert_cons L i l p Hi) as Hperm.
  pose proof (lk_nodup _ _ _ HL) as Hnd.
  assert (HpL : p ∉ concat L).
  { intros Hin. apply (lk_dom _ _ _ HL) in Hin. tauto. }
  assert (Hpl : p ∉ l).
  { intros Hin. apply HpL. apply elem_of_concat. eauto. }
  assert (Hilen : (i < length L)%nat) by (eapply lookup_lt_Some; eauto).
  pose proof (lk_head _ _ _ HL i l Hi) as Hhd. rewrite <- Hsl in Hhd.
  split.
  - rewrite length_insert. apply (lk_len _ _ _ HL).
  - rewrite Hperm. by apply NoDup_cons.
  - intros x. rewrite inserted_slab_lookup, !fmap_is_Some.
    rewrite Hperm, elem_of_cons, (lk_dom _ _ _ HL x).
    rewrite elem_of_difference, elem_of_singleton.
    split.
    + intros [-> | [Hs Hx]].
      * split; [by rewrite Hp|]. intros [_ Hne]. by apply Hne.
      * split; [done|]. intros [HxU _]. by apply Hx.
    + intros [Hs Hx]. destruct (decide (x = p)) as [->|Hne]; [by left|].
      right. split; [done|]. intros HxU. apply Hx. tauto.
  - intros i' l'. destruct (decide (i' = i)) as [->|Hne].
    + rewrite list_lookup_insert_eq by done. intros [= <-].
      unfold inserted; simpl. by rewrite Hsl, lookup_insert_eq.
    + rewrite list_lookup_insert_ne by done. intros Hi'.
      unfold inserted; simpl. rewrite lookup_insert_ne by (rewrite Hsl; lia).
      by apply (lk_head _ _ _ HL).
  - intros i' l' j' x. destruct (decide (i' = i)) as [->|Hne].
    + rewrite list_lookup_insert_eq by done. intros [= <-] Hx.
      rewrite inserted_slab_lookup, Hhd.
      destruct j' as [|j']; simpl in Hx.
      * injection Hx as <-. rewrite Hp. simpl.
        destruct (decide (p = p)) as [_|]; [|done].
        rewrite (decide_False (P := head l = Some p)).
        2:{ rewrite head_lookup. intros Hd. apply Hpl. by eapply list_elem_of_lookup_2. }
        simpl. eexists; split; [reflexivity|]. simpl.
        rewrite head_lookup. done.
      * destruct (lk_entry _ _ _ HL i l j' x Hi Hx) as (ex & Hex & Hslx & Hprevx & Hnextx).
        assert (p <> x) by (intros ->; apply Hpl; by eapply list_elem_of_lookup_2).
        rewrite Hex. simpl. destruct (decide (p = x)) as [|_]; [done|]. simpl.
        pose proof (concat_NoDup_slice L i l Hnd Hi) as Hndl.
        rewrite head_lookup.
        eexists; split; [reflexivity|].
        destruct (decide (l !! 0%nat = Some x)) as [Hd|Hd]; simpl.
        -- assert (j' = 0)%nat by (eapply NoDup_lookup; eauto). subst j'. done.
        -- split; [done|]. split; [|done].
           rewrite Hprevx. destruct j' as [|j'']; simpl; [done|done].
    + rewrite list_lookup_insert_ne by done. intros Hi' Hx.
      destruct (lk_entry _ _ _ HL i' l' j' x Hi' Hx) as (ex & Hex & Hslx & Hprevx & Hnextx).
      assert (Hxl : x ∉ l).
      { intros Hin. apply Hne. eapply (concat_NoDup_unique L i' i l' l x); eauto.
        by eapply list_elem_of_lookup_2. }
      assert (p <> x).
      { intros ->. apply HpL. apply elem_of_concat. exists i', l'.
        split; [done|]. by eapply list_elem_of_lookup_2. }
      rewrite inserted_slab_lookup, Hex, Hhd. simpl.
      destruct (decide (p = x)) as [|_]; [done|]. simpl.
      rewrite decide_False; simpl; [eauto|].
      rewrite head_lookup. intros Hd. apply Hxl. by eapply list_elem_of_lookup_2.
  - simpl. rewrite (lk_num _ _ _ HL), wrap32_succ.
    f_equal. f_equal. by rewrite Hperm.
Qed.

(** *** frame-style facts *)

Lemma linked_same U w w' L :
  twentry_slab_ w' = twentry_slab_ w -> nslices_ w' = nslices_ w ->
  slice_head_ w' = slice_head_ w -> num_entries_ w' = num_entries_ w ->
  linked U w L -> linked U w' L.
Proof.
  intros Hs Hn Hh Hc [H1 H2 H3 H4 H5 H6].
  split; rewrite ?Hs, ?Hn, ?Hh, ?Hc; auto.
Qed.

Lemma linked_alter U w L p f :
  p ∈ U \/ keeps_links f ->
  linked U w L ->
  linked U (with_slab (alter f p (twentry_slab_ w)) w) L.
Proof.
  intros Hf [H1 H2 H3 H4 H5 H6]. split; simpl; auto.
  - intros x. rewrite H3, lookup_alter. case_decide; [subst|done].
    by rewrite fmap_is_Some.
  - intros i l j x Hi Hx. destruct (H5 i l j x Hi Hx) as (e & He & Hsl & Hpr & Hnx).
    rewrite lookup_alter. case_decide as Hd; [subst x|eauto].
    destruct Hf as [HU | Hk].
    + exfalso. assert (p ∈ concat L) as Hin.
      { apply elem_of_concat. exists i, l. split; [done|]. by eapply list_elem_of_lookup_2. }
      apply H3 in Hin. tauto.
    + rewrite He. simpl. eexists; split; [done|].
      destruct (Hk e) as (-> & -> & ->). done.
Qed.

Lemma linked_free U w L p :
  p ∈ U -> linked U w L ->
  linked (U ∖ {[p]}) (with_slab (delete p (twentry_slab_ w)) w) L.
Proof.
  intros HU [H1 H2 H3 H4 H5 H6]. split; simpl; auto.
  - intros x. rewrite H3, lookup_delete, elem_of_difference, elem_of_singleton.
    case_decide; [subst|].
    + split; [intros [_ Hn]; done | intros [Hs _]; by destruct Hs].
    + split; [intros [? ?]; split; [done|]; intros [? _]; done
             | intros [? Hx]; split; [done|]].
      intros HxU. apply Hx. split; [done|]. congruence.
  - intros i l j x Hi Hx. destruct (H5 i l j x Hi Hx) as (e & He & Hrest).
    rewrite lookup_delete_ne; [eauto|].
    intros ->. assert (x ∈ concat L) as Hin.
    { apply elem_of_concat. exists i, l. split; [done|]. by eapply list_elem_of_lookup_2. }
    apply H3 in Hin. tauto.
Qed.

Lemma linked_alloc U w L p x :
  twentry_slab_ w !! p = None -> linked U w L ->
  linked (U ∪ {[p]}) (with_slab (<[p := x]> (twentry_slab_ w)) w) L.
Proof.
  intros Hp [H1 H2 H3 H4 H5 H6]. split; simpl; auto.
  - intros y. rewrite H3, lookup_insert, elem_of_union, elem_of_singleton.
    case_decide; [subst|].
    + rewrite Hp. split; [intros [Hs _]; by destruct Hs
                         | intros [_ Hn]; exfalso; apply Hn; by right].
    + split; [intros [? ?]; split; [done|]; intros [?|?]; [done|congruence]
             | intros [? Hn]; split; [done|]].
      intros ?. apply Hn. by left.
  - intros i l j y Hi Hy. destruct (H5 i l j y Hi Hy) as (e & He & Hrest).
    rewrite lookup_insert_ne; [eauto|]. intros ->. congruence.
Qed.

Lemma wheel_cfg_period w :
  wheel_cfg w ->
  wrap64 (nslices_ w * slice_intvl_ w) = nslices_ w * slice_intvl_ w /\
  0 < nslices_ w * slice_intvl_ w.
Proof.
  intros (Hg & Hn & Hp & Hc). split; [|nia].
  unfold wrap64. apply Z.mod_small. nia.
Qed.

Lemma next_slice_ok w timeout entry_slice update :
  wheel_cfg w ->
  next_slice_ timeout entry_slice update w =
    Ok (slice_after w timeout entry_slice update, w).
Proof.
  intros Hcfg. destruct (wheel_cfg_period w Hcfg) as [Hw Hpos].
  destruct Hcfg as (Hg & Hn & Hp & Hc).
  unfold next_slice_, slice_after, st_bind, st_gets, umod, udiv, st_ret, st_fail.
  rewrite Hw.
  destruct (Z.eqb_spec (nslices_ w * slice_intvl_ w) 0) as [?|_]; [lia|].
  destruct (Z.eqb_spec (slice_intvl_ w) 0) as [?|_]; [lia|].
  destruct (Z.eqb_spec (nslices_ w) 0) as [?|_]; [lia|].
  set (r := timeout mod (nslices_ w * slice_intvl_ w)).
  assert (Hr : 0 <= r < nslices_ w * slice_intvl_ w) by (apply Z.mod_pos_bound; lia).
  assert (Hr32 : wrap32 r = r) by (unfold wrap32; apply Z.mod_small; lia).
  rewrite Hr32.
  assert (Hq : 0 <= r / slice_intvl_ w < nslices_ w).
  { split; [apply Z.div_pos; lia|]. apply Z.div_lt_upper_bound; lia. }
  assert (Hq32 : wrap32 (r / slice_intvl_ w) = r / slice_intvl_ w).
  { unfold wrap32; apply Z.mod_small; nia. }
  rewrite Hq32.
  assert (Hk : (if r / slice_intvl_ w =? 0 then 1 else r / slice_intvl_ w)
               = Z.max 1 (r / slice_intvl_ w)).
  { destruct (Z.eqb_spec (r / slice_intvl_ w) 0); lia. }
  rewrite Hk.
  set (cand := wrap32 (curr_slice_ w + Z.max 1 (r / slice_intvl_ w)) mod nslices_ w).
  assert (Hcand : 0 <= cand < nslices_ w) by (apply Z.mod_pos_bound; lia).
  destruct (update && (cand =? entry_slice)); [|done].
  destruct (Z.eqb_spec (nslices_ w) 0) as [?|_]; [lia|].
  do 3 f_equal. unfold wrap32. apply Z.mod_small. nia.
Qed.

Lemma slice_after_range w timeout entry_slice update :
  wheel_cfg w -> 0 <= slice_after w timeout entry_slice update < nslices_ w.
Proof.
  intros (Hg & Hn & Hp & Hc). unfold slice_after.
  destruct (_ && _); apply Z.mod_pos_bound; lia.
Qed.

Lemma slice_after_differs w timeout entry_slice :
  wheel_cfg w -> 2 <= nslices_ w ->
  slice_after w timeout entry_slice true <> entry_slice.
Proof.
  intros (Hg & Hn & Hp & Hc) HN. unfold slice_after. simpl.
  set (cand := wrap32 _ mod nslices_ w).
  assert (Hcand : 0 <= cand < nslices_ w) by (apply Z.mod_pos_bound; lia).
  destruct (Z.eqb_spec cand entry_slice) as [<-|]; [|done].
  destruct (Z.eq_dec (cand + 1) (nslices_ w)) as [E|E].
  - rewrite E, Z_mod_same_full. lia.
  - rewrite Z.mod_small by lia. lia.
Qed.

Ltac wsimpl :=
  cbn [twentry_slab_ slice_intvl_ thread_safe_ nslices_ slice_head_ slock_
       curr_slice_ num_entries_ with_slab with_heads with_slock with_curr
       with_num] in *.

Lemma same_cfg_refl w : same_cfg w w.
Proof. by repeat split. Qed.

Lemma same_cfg_trans w1 w2 w3 : same_cfg w1 w2 -> same_cfg w2 w3 -> same_cfg w1 w3.
Proof. unfold same_cfg. intros (?&?&?&?) (?&?&?&?). repeat split; congruence. Qed.

Lemma wheel_cfg_same w w' : same_cfg w w' -> wheel_cfg w -> wheel_cfg w'.
Proof. unfold same_cfg, wheel_cfg. intros (->&_&->&->). done. Qed.

Lemma slice_after_same w w' t es u :
  same_cfg w w' -> slice_after w' t es u = slice_after w t es u.
Proof. unfold same_cfg, slice_after. intros (->&_&->&->). done. Qed.

Lemma unlinked_payload e w x : same_payload w (unlinked e w) x.
Proof.
  unfold same_payload. rewrite unlinked_slab_lookup.
  destruct (twentry_slab_ w !! x) as [ex|]; [|done]. simpl.
  repeat case_decide; done.
Qed.

Lemma inserted_payload p e w x : x <> p -> same_payload w (inserted p e w) x.
Proof.
  intros Hne. unfold same_payload. rewrite inserted_slab_lookup.
  destruct (twentry_slab_ w !! x) as [ex|]; [|done]. simpl.
  repeat case_decide; done.
Qed.

Lemma alter_payload f p w x :
  x <> p -> same_payload w (with_slab (alter f p (twentry_slab_ w)) w) x.
Proof. intros Hne. unfold same_payload. simpl. by rewrite lookup_alter_ne. Qed.

(** *** specifications of the list primitives *)

Lemma linked_slice_range U w L i l :
  linked U w L -> L !! i = Some l -> 0 <= Z.of_nat i < nslices_ w.
Proof.
  intros HL Hi. apply lookup_lt_Some in Hi. pose proof (lk_len _ _ _ HL). lia.
Qed.

Lemma linked_locate U w L p :
  linked U w L -> is_Some (twentry_slab_ w !! p) -> p ∉ U ->
  exists i l j, L !! i = Some l /\ l !! j = Some p.
Proof.
  intros HL Hs HU. assert (p ∈ concat L) as Hin by (apply (lk_dom _ _ _ HL); done).
  apply elem_of_concat in Hin as (i & l & Hi & Hin).
  apply list_elem_of_lookup_1 in Hin as [j Hj]. eauto.
Qed.

Lemma unlink_shape U w L p e :
  linked U w L -> twentry_slab_ w !! p = Some e -> p ∉ U ->
  exists L', unlink_timer_ (Some p) w = Ok (tt, unlinked e w) /\
             linked (U ∪ {[p]}) (unlinked e w) L' /\
             concat L ≡ₚ p :: concat L' /\
             twentry_slab_ (unlinked e w) !! p = Some e /\
             exists i l j, L !! i = Some l /\ l !! j = Some p /\
                           L' = <[i := delete j l]> L.
Proof.
  intros HL Hp HU.
  destruct (linked_locate U w L p HL) as (i & l & j & Hi & Hj); [by rewrite Hp|done|].
  pose proof (lk_nodup _ _ _ HL) as Hnd.
  pose proof (concat_NoDup_slice L i l Hnd Hi) as Hndl.
  destruct (lk_entry _ _ _ HL i l j p Hi Hj) as (e' & He' & Hsl & Hprev & Hnext).
  assert (e' = e) by congruence; subst e'.
  exists (<[i := delete j l]> L). split; [|split; [|split; [|split]]].
  - apply unlink_exec; [done| | |].
    + intros n Hn. rewrite Hnext in Hn.
      destruct (lk_entry _ _ _ HL i l (S j) n Hi Hn) as (en & Hen & _).
      split; [|by rewrite Hen].
      intros ->. assert (S j = j) by (eapply NoDup_lookup; eauto). lia.
    + intros q Hq. rewrite Hprev in Hq. destruct j as [|j]; [done|]. simpl in Hq.
      destruct (lk_entry _ _ _ HL i l j q Hi Hq) as (eq & Heq & _).
      split; [|by rewrite Heq].
      intros ->. assert (S j = j) by (eapply NoDup_lookup; eauto). lia.
    + intros _. rewrite Hsl. by eapply linked_slice_range.
  - by eapply unlinked_linked.
  - by eapply concat_insert_delete.
  - rewrite unlinked_slab_lookup, Hp. simpl.
    rewrite Hprev, Hnext.
    rewrite (decide_ext _ _ _ _ (pred_of_lookup l j j p Hndl Hj)).
    rewrite (decide_ext _ _ _ _ (succ_lookup l j j p Hndl Hj)).
    rewrite decide_False by lia. rewrite decide_False by lia. done.
  - by exists i, l, j.
Qed.

Lemma unlink_spec U w L p e :
  linked U w L -> twentry_slab_ w !! p = Some e -> p ∉ U ->
  exists L', unlink_timer_ (Some p) w = Ok (tt, unlinked e w) /\
             linked (U ∪ {[p]}) (unlinked e w) L' /\
             concat L ≡ₚ p :: concat L' /\
             twentry_slab_ (unlinked e w) !! p = Some e.
Proof.
  intros HL Hp HU.
  destruct (unlink_shape U w L p e HL Hp HU) as (L' & ? & ? & ? & ? & _). by exists L'.
Qed.

Lemma insert_shape U w L p e :
  linked U w L -> twentry_slab_ w !! p = Some e -> p ∈ U ->
  prev_ e = None -> 0 <= slice_ e < nslices_ w ->
  exists L', insert_timer_ p w = Ok (tt, inserted p e w) /\
             linked (U ∖ {[p]}) (inserted p e w) L' /\
             concat L' ≡ₚ p :: concat L /\
             twentry_slab_ (inserted p e w) !! p =
               Some (set_valid true (set_next (slice_head_ w !! slice_ e) e)) /\
             exists i l, slice_ e = Z.of_nat i /\ L !! i = Some l /\
                         L' = <[i := p :: l]> L.
Proof.
  intros HL Hp HU Hprev Hs.
  assert (exists i, slice_ e = Z.of_nat i /\ (i < length L)%nat) as (i & Hi & Hlen).
  { exists (Z.to_nat (slice_ e)). pose proof (lk_len _ _ _ HL). lia. }
  destruct (lookup_lt_is_Some_2 L i Hlen) as [l Hl].
  assert (HpL : p ∉ concat L).
  { intros Hin. apply (lk_dom _ _ _ HL) in Hin. tauto. }
  exists (<[i := p :: l]> L). split; [|split; [|split; [|split]]].
  - apply insert_exec; [done|done|].
    intros c Hc. rewrite Hi, (lk_head _ _ _ HL i l Hl), head_lookup in Hc.
    destruct (lk_entry _ _ _ HL i l 0%nat c Hl Hc) as (ec & Hec & _).
    split; [|by rewrite Hec].
    intros ->. apply HpL. apply elem_of_concat. exists i, l.
    split; [done|]. by eapply list_elem_of_lookup_2.
  - by eapply inserted_linked.
  - by eapply concat_insert_cons.
  - rewrite inserted_slab_lookup, Hp. simpl.
    destruct (decide (p = p)) as [_|]; [|done].
    rewrite decide_False; [done|].
    rewrite Hi, (lk_head _ _ _ HL i l Hl), head_lookup. intros Hc.
    apply HpL. apply elem_of_concat. exists i, l.
    split; [done|]. by eapply list_elem_of_lookup_2.
  - by exists i, l.
Qed.

Lemma insert_spec U w L p e :
  linked U w L -> twentry_slab_ w !! p = Some e -> p ∈ U ->
  prev_ e = None -> 0 <= slice_ e < nslices_ w ->
  exists L', insert_timer_ p w = Ok (tt, inserted p e w) /\
             linked (U ∖ {[p]}) (inserted p e w) L' /\
             concat L' ≡ₚ p :: concat L /\
             twentry_slab_ (inserted p e w) !! p =
               Some (set_valid true (set_next (slice_head_ w !! slice_ e) e)).
Proof.
  intros HL Hp HU Hprev Hs.
  destruct (insert_shape U w L p e HL Hp HU Hprev Hs) as (L' & ? & ? & ? & ? & _).
  by exists L'.
Qed.

Lemma init_twentry_ok p e w timer_id timeout periodic ctxt cb slice :
  wheel_cfg w -> twentry_slab_ w !! p = Some e ->
  init_twentry_ p timer_id timeout periodic ctxt cb slice w =
    Ok (tt, initialised p timer_id timeout periodic ctxt cb slice w).
Proof.
  intros Hcfg Hp. destruct (wheel_cfg_period w Hcfg) as [Hw Hpos].
  unfold init_twentry_, initialised, st_bind, st_gets, udiv, st_ret, st_fail.
  rewrite Hw.
  destruct (Z.eqb_spec (nslices_ w * slice_intvl_ w) 0) as [?|_]; [lia|].
  by rewrite (store_ok p e).
Qed.

Lemma remove_timer_shape U w L p e :
  linked U w L -> twentry_slab_ w !! p = Some e -> p ∉ U -> valid_ e = true ->
  exists w' L', remove_timer_ p w = Ok (tt, w') /\
    linked (U ∪ {[p]}) w' L' /\ same_cfg w w' /\ slock_ w' = slock_ w /\
    twentry_slab_ w' !! p = Some (set_valid false e) /\
    (forall x, x <> p -> same_payload w w' x) /\
    concat L ≡ₚ p :: concat L' /\
    exists i l j, L !! i = Some l /\ l !! j = Some p /\ L' = <[i := delete j l]> L.
Proof.
  intros HL Hp HU Hv.
  destruct (unlink_shape U w L p e HL Hp HU) as (L' & Hrun & HL' & Hperm & Hp' & Hshape).
  exists (with_slab (alter (set_valid false) p (twentry_slab_ (unlinked e w))) (unlinked e w)), L'.
  split; [|split; [|split; [|split; [|split; [|split; [|split]]]]]].
  - unfold remove_timer_, st_bind. rewrite (load_ok p e) by done. rewrite Hv.
    cbn [negb]. rewrite Hrun. by rewrite (store_ok p e).
  - apply linked_alter; [left; set_solver | done].
  - by repeat split.
  - done.
  - wsimpl. by rewrite lookup_alter_eq, Hp'.
  - intros x Hx. unfold same_payload. wsimpl. rewrite lookup_alter_ne by done.
    apply unlinked_payload.
  - done.
  - done.
Qed.

Lemma remove_timer_spec U w L p e :
  linked U w L -> twentry_slab_ w !! p = Some e -> p ∉ U -> valid_ e = true ->
  exists w' L', remove_timer_ p w = Ok (tt, w') /\
    linked (U ∪ {[p]}) w' L' /\ same_cfg w w' /\ slock_ w' = slock_ w /\
    twentry_slab_ w' !! p = Some (set_valid false e) /\
    (forall x, x <> p -> same_payload w w' x) /\
    concat L ≡ₚ p :: concat L'.
Proof.
  intros HL Hp HU Hv.
  destruct (remove_timer_shape U w L p e HL Hp HU Hv)
    as (w' & L' & ? & ? & ? & ? & ? & ? & ? & _).
  by exists w', L'.
Qed.

Lemma lock_ok s w :
  0 <= s < nslices_ w -> (thread_safe_ w = true -> s ∉ slock_ w) ->
  TWHEEL_LOCK_SLICE s w = Ok (tt, lockst s w).
Proof.
  intros Hs Hfree. unfold TWHEEL_LOCK_SLICE, lockst.
  destruct (thread_safe_ w); [|done].
  rewrite in_range_true by done. rewrite bool_decide_eq_false_2 by auto. done.
Qed.

Lemma unlock_ok s w :
  0 <= s < nslices_ w -> (thread_safe_ w = true -> s ∈ slock_ w) ->
  TWHEEL_UNLOCK_SLICE s w = Ok (tt, unlockst s w).
Proof.
  intros Hs Hheld. unfold TWHEEL_UNLOCK_SLICE, unlockst.
  destruct (thread_safe_ w); [|done].
  rewrite in_range_true by done. rewrite bool_decide_eq_true_2 by auto. done.
Qed.

Lemma lockst_fields s w :
  twentry_slab_ (lockst s w) = twentry_slab_ w /\
  nslices_ (lockst s w) = nslices_ w /\
  slice_head_ (lockst s w) = slice_head_ w /\
  num_entries_ (lockst s w) = num_entries_ w /\
  same_cfg w (lockst s w).
Proof. unfold lockst, same_cfg. destruct (thread_safe_ w) eqn:E; simpl; rewrite ?E; by repeat split. Qed.

Lemma unlockst_fields s w :
  twentry_slab_ (unlockst s w) = twentry_slab_ w /\
  nslices_ (unlockst s w) = nslices_ w /\
  slice_head_ (unlockst s w) = slice_head_ w /\
  num_entries_ (unlockst s w) = num_entries_ w /\
  same_cfg w (unlockst s w).
Proof. unfold unlockst, same_cfg. destruct (thread_safe_ w) eqn:E; simpl; rewrite ?E; by repeat split. Qed.

Lemma linked_lockst U s w L : linked U w L -> linked U (lockst s w) L.
Proof. destruct (lockst_fields s w) as (?&?&?&?&?). by apply linked_same. Qed.

Lemma linked_unlockst U s w L : linked U w L -> linked U (unlockst s w) L.
Proof. destruct (unlockst_fields s w) as (?&?&?&?&?). by apply linked_same. Qed.

Lemma lockst_held s w : thread_safe_ w = true -> s ∈ slock_ (lockst s w).
Proof. unfold lockst. intros ->. simpl. set_solver. Qed.

(** Releasing, in a state [w2] that still holds what [lockst s w] held,
    gives back the locks of [w]. *)
Lemma unlockst_restores s w w2 :
  (thread_safe_ w = true -> s ∉ slock_ w) ->
  thread_safe_ w2 = thread_safe_ w -> slock_ w2 = slock_ (lockst s w) ->
  slock_ (unlockst s w2) = slock_ w.
Proof.
  intros Hfree Hts Hl. unfold unlockst, lockst in *. rewrite Hts.
  destruct (thread_safe_ w); [|done]. simpl in *. rewrite Hl.
  specialize (Hfree eq_refl). set_solver.
Qed.

Lemma same_payload_trans w1 w2 w3 x :
  same_payload w1 w2 x -> same_payload w2 w3 x -> same_payload w1 w3 x.
Proof. unfold same_payload. congruence. Qed.

Lemma same_payload_slab w w' x :
  twentry_slab_ w' = twentry_slab_ w -> same_payload w w' x.
Proof. unfold same_payload. by intros ->. Qed.

(** *** init + insert *)

Lemma init_insert_shape U w L p e timer_id timeout periodic ctxt cb s :
  linked U w L -> wheel_cfg w -> twentry_slab_ w !! p = Some e -> p ∈ U ->
  0 <= s < nslices_ w ->
  exists w2 L' nx,
    insert_timer_ p (initialised p timer_id timeout periodic ctxt cb s w) = Ok (tt, w2) /\
    linked (U ∖ {[p]}) w2 L' /\ same_cfg w w2 /\ slock_ w2 = slock_ w /\
    twentry_slab_ w2 !! p =
      Some (mk_twentry timer_id (wrap32 timeout) periodic true ctxt cb
              (wrap16 (timeout / (nslices_ w * slice_intvl_ w))) s nx None) /\
    (forall x, x <> p -> same_payload w w2 x) /\
    concat L' ≡ₚ p :: concat L /\
    exists i l, s = Z.of_nat i /\ L !! i = Some l /\ L' = <[i := p :: l]> L.
Proof.
  intros HL Hcfg Hp HU Hs.
  set (e1 := mk_twentry timer_id (wrap32 timeout) periodic false ctxt cb
               (wrap16 (timeout / (nslices_ w * slice_intvl_ w))) s None None).
  set (w1 := initialised p timer_id timeout periodic ctxt cb s w).
  assert (Hp1 : twentry_slab_ w1 !! p = Some e1).
  { unfold w1, initialised. wsimpl. by rewrite lookup_alter_eq, Hp. }
  assert (HL1 : linked U w1 L) by (apply linked_alter; [by left | done]).
  destruct (insert_shape U w1 L p e1 HL1 Hp1 HU eq_refl Hs)
    as (L' & Hrun & HL' & Hperm & Hp2 & Hshape).
  exists (inserted p e1 w1), L', (slice_head_ w1 !! s).
  split; [done|]. split; [done|].
  split; [by repeat split|]. split; [done|]. split; [done|]. split; [|done].
  intros x Hx. eapply same_payload_trans; [by apply alter_payload | by apply inserted_payload].
Qed.

Lemma init_insert_spec U w L p e timer_id timeout periodic ctxt cb s :
  linked U w L -> wheel_cfg w -> twentry_slab_ w !! p = Some e -> p ∈ U ->
  0 <= s < nslices_ w ->
  exists w2 L' nx,
    insert_timer_ p (initialised p timer_id timeout periodic ctxt cb s w) = Ok (tt, w2) /\
    linked (U ∖ {[p]}) w2 L' /\ same_cfg w w2 /\ slock_ w2 = slock_ w /\
    twentry_slab_ w2 !! p =
      Some (mk_twentry timer_id (wrap32 timeout) periodic true ctxt cb
              (wrap16 (timeout / (nslices_ w * slice_intvl_ w))) s nx None) /\
    (forall x, x <> p -> same_payload w w2 x) /\
    concat L' ≡ₚ p :: concat L.
Proof.
  intros HL Hcfg Hp HU Hs.
  destruct (init_insert_shape U w L p e timer_id timeout periodic ctxt cb s HL Hcfg Hp HU Hs)
    as (w2 & L' & nx & ? & ? & ? & ? & ? & ? & ? & _).
  by exists w2, L', nx.
Qed.

Lemma initialised_lockst p timer_id timeout periodic ctxt cb s s' w :
  initialised p timer_id timeout periodic ctxt cb s (lockst s' w) =
  lockst s' (initialised p timer_id timeout periodic ctxt cb s w).
Proof. unfold initialised, lockst. wsimpl. by destruct (thread_safe_ w). Qed.

(** *** delay_delete_ *)

Lemma delay_delete_shape U w L p e :
  linked U w L -> wheel_cfg w -> twentry_slab_ w !! p = Some e -> p ∈ U ->
  (thread_safe_ w = true ->
   slice_after w TWHEEL_DELAY_DELETE (slice_ e) true ∉ slock_ w) ->
  exists w' L' nx,
    delay_delete_ p w = Ok (tt, w') /\
    linked (U ∖ {[p]}) w' L' /\ same_cfg w w' /\ slock_ w' = slock_ w /\
    twentry_slab_ w' !! p =
      Some (mk_twentry (timer_id_ e) TWHEEL_DELAY_DELETE false false 0 0
              (wrap16 (TWHEEL_DELAY_DELETE / (nslices_ w * slice_intvl_ w)))
              (slice_after w TWHEEL_DELAY_DELETE (slice_ e) true) nx None) /\
    (forall x, x <> p -> same_payload w w' x) /\
    concat L' ≡ₚ p :: concat L /\
    exists i l, slice_after w TWHEEL_DELAY_DELETE (slice_ e) true = Z.of_nat i /\
                L !! i = Some l /\ L' = <[i := p :: l]> L.
Proof.
  intros HL Hcfg Hp HU Hfree.
  set (s := slice_after w TWHEEL_DELAY_DELETE (slice_ e) true) in *.
  pose proof (slice_after_range w TWHEEL_DELAY_DELETE (slice_ e) true Hcfg) as Hs.
  fold s in Hs.
  destruct (lockst_fields s w) as (Hslab & HN & Hhd & Hnum & Hsame).
  assert (Hcfg1 : wheel_cfg (lockst s w)) by (by eapply wheel_cfg_same).
  assert (Hs1 : 0 <= s < nslices_ (lockst s w)) by (by rewrite HN).
  assert (Hp1 : twentry_slab_ (lockst s w) !! p = Some e) by (by rewrite Hslab).
  destruct (init_insert_shape U (lockst s w) L p e (timer_id_ e) TWHEEL_DELAY_DELETE
              false 0 0 s (linked_lockst _ _ _ _ HL) Hcfg1 Hp1 HU Hs1)
    as (w2 & L' & nx & Hins & HL2 & Hsame2 & Hlk2 & Hp2 & Hpay & Hperm & Hshape).
  destruct Hsame2 as (Hg2 & Hts2 & HN2 & Hc2).
  destruct Hsame as (Hg1 & Hts1 & HN1 & Hc1).
  set (w3 := with_slab (alter (set_valid false) p (twentry_slab_ w2)) w2).
  exists (unlockst s w3), L', nx.
  split; [|split; [|split; [|split; [|split; [|split; [|split]]]]]].
  - unfold delay_delete_, st_bind. rewrite (load_ok p e) by done.
    rewrite next_slice_ok by done. fold s.
    rewrite lock_ok by done.
    rewrite (load_ok p e) by done.
    rewrite (init_twentry_ok p e) by done. rewrite Hins.
    erewrite store_ok by done. fold w3.
    rewrite unlock_ok; [done| |].
    + unfold w3; wsimpl. lia.
    + unfold w3; wsimpl. rewrite Hts2, Hts1, Hlk2. apply lockst_held.
  - apply linked_unlockst. apply linked_alter; [right; by intros []|done].
  - destruct (unlockst_fields s w3) as (_&_&_&_&(?&?&?&?)).
    unfold w3 in *; wsimpl. repeat split; congruence.
  - apply unlockst_restores; [done | unfold w3; wsimpl; congruence | done].
  - destruct (unlockst_fields s w3) as (-> & _). unfold w3; wsimpl.
    rewrite lookup_alter_eq, Hp2. simpl. rewrite HN1, Hg1. done.
  - intros x Hx. destruct (unlockst_fields s w3) as (Hsl3 & _).
    unfold same_payload. rewrite Hsl3. unfold w3; wsimpl.
    rewrite lookup_alter_ne by done. rewrite (Hpay x Hx). by rewrite Hslab.
  - done.
  - done.
Qed.

Lemma delay_delete_spec U w L p e :
  linked U w L -> wheel_cfg w -> twentry_slab_ w !! p = Some e -> p ∈ U ->
  (thread_safe_ w = true ->
   slice_after w TWHEEL_DELAY_DELETE (slice_ e) true ∉ slock_ w) ->
  exists w' L' nx,
    delay_delete_ p w = Ok (tt, w') /\
    linked (U ∖ {[p]}) w' L' /\ same_cfg w w' /\ slock_ w' = slock_ w /\
    twentry_slab_ w' !! p =
      Some (mk_twentry (timer_id_ e) TWHEEL_DELAY_DELETE false false 0 0
              (wrap16 (TWHEEL_DELAY_DELETE / (nslices_ w * slice_intvl_ w)))
              (slice_after w TWHEEL_DELAY_DELETE (slice_ e) true) nx None) /\
    (forall x, x <> p -> same_payload w w' x) /\
    concat L' ≡ₚ p :: concat L.
Proof.
  intros HL Hcfg Hp HU Hfree.
  destruct (delay_delete_shape U w L p e HL Hcfg Hp HU Hfree)
    as (w' & L' & nx & ? & ? & ? & ? & ? & ? & ? & _).
  by exists w', L', nx.
Qed.

(** *** upd_timer_ *)

Lemma gset_add_remove (U : gset handle) p : p ∉ U -> (U ∪ {[p]}) ∖ {[p]} = U.
Proof. set_solver. Qed.

Lemma upd_timer__shape U w L p e timeout periodic :
  linked U w L -> wheel_cfg w -> twentry_slab_ w !! p = Some e -> p ∉ U ->
  valid_ e = true ->
  (thread_safe_ w = true -> slice_after w timeout (slice_ e) true ∉ slock_ w) ->
  exists w' L' nx,
    upd_timer_ p timeout periodic w = Ok (tt, w') /\
    linked U w' L' /\ same_cfg w w' /\ slock_ w' = slock_ w /\
    twentry_slab_ w' !! p =
      Some (mk_twentry (timer_id_ e) (wrap32 timeout) periodic true (ctxt_ e) (cb_ e)
              (wrap16 (timeout / (nslices_ w * slice_intvl_ w)))
              (slice_after w timeout (slice_ e) true) nx None) /\
    (forall x, x <> p -> same_payload w w' x) /\
    concat L' ≡ₚ concat L /\
    exists i l j i2 l2,
      L !! i = Some l /\ l !! j = Some p /\
      slice_after w timeout (slice_ e) true = Z.of_nat i2 /\
      (<[i := delete j l]> L) !! i2 = Some l2 /\
      L' = <[i2 := p :: l2]> (<[i := delete j l]> L).
Proof.
  intros HL Hcfg Hp HU Hv Hfree.
  destruct (remove_timer_shape U w L p e HL Hp HU Hv)
    as (w1 & L1 & Hrm & HL1 & Hsame1 & Hlk1 & Hp1 & Hpay1 & Hperm1 & Hshape1).
  set (s := slice_after w timeout (slice_ e) true) in *.
  pose proof (slice_after_range w timeout (slice_ e) true Hcfg) as Hs. fold s in Hs.
  assert (Hcfg1 : wheel_cfg w1) by (by eapply wheel_cfg_same).
  destruct (lockst_fields s w1) as (Hslab & HN & Hhd & Hnum & Hsame).
  assert (Hcfg2 : wheel_cfg (lockst s w1)) by (by eapply wheel_cfg_same).
  destruct Hsame1 as (Hg1 & Hts1 & HN1 & Hc1).
  assert (Hs1 : 0 <= s < nslices_ (lockst s w1)) by (rewrite HN, HN1; done).
  assert (Hp2 : twentry_slab_ (lockst s w1) !! p = Some (set_valid false e)) by (by rewrite Hslab).
  assert (HpU : p ∈ U ∪ {[p]}) by set_solver.
  destruct (init_insert_shape (U ∪ {[p]}) (lockst s w1) L1 p (set_valid false e)
              (timer_id_ e) timeout periodic (ctxt_ e) (cb_ e) s
              (linked_lockst _ _ _ _ HL1) Hcfg2 Hp2 HpU Hs1)
    as (w2 & L' & nx & Hins & HL2 & Hsame2 & Hlk2 & Hp3 & Hpay & Hperm & Hshape2).
  destruct Hsame2 as (Hg2 & Hts2 & HN2 & Hc2).
  destruct Hsame as (Hg0 & Hts0 & HN0 & Hc0).
  rewrite gset_add_remove in HL2 by done.
  exists (unlockst s w2), L', nx.
  split; [|split; [|split; [|split; [|split; [|split; [|split]]]]]].
  - unfold upd_timer_, st_bind. rewrite Hrm.
    rewrite (load_ok p (set_valid false e)) by done.
    rewrite next_slice_ok by done.
    replace (slice_after w1 timeout (slice_ (set_valid false e)) true) with s.
    2:{ unfold s. symmetry. apply slice_after_same. by repeat split. }
    rewrite lock_ok; [| lia | rewrite Hts1, Hlk1; done].
    rewrite (load_ok p (set_valid false e)) by done.
    rewrite (init_twentry_ok p (set_valid false e)) by done.
    simpl timer_id_. simpl ctxt_. simpl cb_. rewrite Hins.
    rewrite unlock_ok; [done | lia |].
    rewrite Hts2, Hts0, Hlk2. apply lockst_held.
  - by apply linked_unlockst.
  - destruct (unlockst_fields s w2) as (_&_&_&_&(?&?&?&?)).
    repeat split; congruence.
  - rewrite <- Hlk1. apply unlockst_restores; [ | congruence | done].
    rewrite Hts1, Hlk1. done.
  - destruct (unlockst_fields s w2) as (-> & _).
    rewrite Hp3. rewrite HN0, Hg0, HN1, Hg1. done.
  - intros x Hx. destruct (unlockst_fields s w2) as (Hsl3 & _).
    unfold same_payload. rewrite Hsl3. rewrite (Hpay x Hx).
    rewrite Hslab. apply (Hpay1 x Hx).
  - rewrite Hperm1. rewrite Hperm. done.
  - destruct Hshape1 as (i & l & j & Hi & Hj & ->).
    destruct Hshape2 as (i2 & l2 & Hs2 & Hi2 & ->).
    by exists i, l, j, i2, l2.
Qed.

Lemma upd_timer__spec U w L p e timeout periodic :
  linked U w L -> wheel_cfg w -> twentry_slab_ w !! p = Some e -> p ∉ U ->
  valid_ e = true ->
  (thread_safe_ w = true -> slice_after w timeout (slice_ e) true ∉ slock_ w) ->
  exists w' L' nx,
    upd_timer_ p timeout periodic w = Ok (tt, w') /\
    linked U w' L' /\ same_cfg w w' /\ slock_ w' = slock_ w /\
    twentry_slab_ w' !! p =
      Some (mk_twentry (timer_id_ e) (wrap32 timeout) periodic true (ctxt_ e) (cb_ e)
              (wrap16 (timeout / (nslices_ w * slice_intvl_ w)))
              (slice_after w timeout (slice_ e) true) nx None) /\
    (forall x, x <> p -> same_payload w w' x) /\
    concat L' ≡ₚ concat L.
Proof.
  intros HL Hcfg Hp HU Hv Hfree.
  destruct (upd_timer__shape U w L p e timeout periodic HL Hcfg Hp HU Hv Hfree)
    as (w' & L' & nx & ? & ? & ? & ? & ? & ? & ? & _).
  by exists w', L', nx.
Qed.

(** *** API operations *)

Lemma lock_entry_slice_ok p e w :
  twentry_slab_ w !! p = Some e -> 0 <= slice_ e < nslices_ w ->
  (thread_safe_ w = true -> slice_ e ∉ slock_ w) ->
  lock_entry_slice 0 p w = Ok (slice_ e, lockst (slice_ e) w).
Proof.
  intros Hp Hs Hfree. unfold lock_entry_slice, st_bind.
  rewrite (load_ok p e) by done. rewrite lock_ok by done.
  destruct (lockst_fields (slice_ e) w) as (Hslab & _).
  rewrite (load_ok p e) by (by rewrite Hslab).
  by rewrite Z.eqb_refl.
Qed.

Lemma linked_entry_slice w L p e :
  linked ∅ w L -> twentry_slab_ w !! p = Some e -> 0 <= slice_ e < nslices_ w.
Proof.
  intros HL Hp.
  destruct (linked_locate ∅ w L p HL) as (i & l & j & Hi & Hj); [by rewrite Hp|set_solver|].
  destruct (lk_entry _ _ _ HL i l j p Hi Hj) as (e' & He' & Hsl & _).
  assert (e' = e) by congruence; subst. rewrite Hsl. by eapply linked_slice_range.
Qed.

Lemma add_timer_spec w mem timer_id timeout ctxt cb periodic initial_delay :
  slices_linked w -> wheel_cfg w -> slock_ w = ∅ ->
  (forall p, mem = Some p -> twentry_slab_ w !! p = None) ->
  exists w',
    add_timer mem timer_id timeout ctxt cb periodic initial_delay w = Ok (mem, w') /\
    slices_linked w' /\ same_cfg w w' /\ slock_ w' = ∅ /\
    num_entries_ w' = wrap32 (num_entries_ w + (if mem is Some _ then 1 else 0)) /\
    (forall p, mem = Some p ->
       (exists nx, twentry_slab_ w' !! p =
          Some (mk_twentry timer_id (wrap32 timeout) periodic true ctxt cb
                 (wrap16 (timeout / (nslices_ w * slice_intvl_ w)))
                 (slice_after w (wrap64 (initial_delay + timeout)) 0 false) nx None)) /\
       (forall x, x <> p -> same_payload w w' x)) /\
    (mem = None -> w' = w).
Proof.
  intros [L HL] Hcfg Hlk Hfresh.
  set (s := slice_after w (wrap64 (initial_delay + timeout)) 0 false).
  pose proof (slice_after_range w (wrap64 (initial_delay + timeout)) 0 false Hcfg) as Hs.
  fold s in Hs.
  destruct mem as [p|].
  2:{ exists w. split.
      - unfold add_timer, st_bind. rewrite next_slice_ok by done. done.
      - split; [by exists L|]. split; [apply same_cfg_refl|]. split; [done|].
        split; [|split; [intros ? [=]|done]].
        rewrite Z.add_0_r. destruct HL as [_ _ _ _ _ ->].
        unfold wrap32. by rewrite Zmod_mod. }
  specialize (Hfresh p eq_refl).
  set (w1 := with_slab (<[p := uninitialised]> (twentry_slab_ w)) w).
  assert (HL1 : linked (∅ ∪ {[p]}) w1 L) by (by apply linked_alloc).
  assert (Hp1 : twentry_slab_ w1 !! p = Some uninitialised).
  { unfold w1; wsimpl. by rewrite lookup_insert_eq. }
  assert (Hcfg1 : wheel_cfg w1) by done.
  destruct (lockst_fields s (initialised p timer_id timeout periodic ctxt cb s w1))
    as (Hslab & HN & Hhd & Hnum & Hsame).
  destruct (lockst_fields s w1) as (Hslab1 & HN1 & Hhd1 & Hnum1 & Hsame1).
  assert (HpU : p ∈ (∅ ∪ {[p]} : gset handle)) by set_solver.
  destruct (init_insert_spec (∅ ∪ {[p]}) (lockst s w1) L p uninitialised
              timer_id timeout periodic ctxt cb s
              (linked_lockst _ _ _ _ HL1) (wheel_cfg_same _ _ Hsame1 Hcfg1)
              ltac:(by rewrite Hslab1) HpU ltac:(by rewrite HN1))
    as (w2 & L' & nx & Hins & HL2 & Hsame2 & Hlk2 & Hp3 & Hpay & Hperm).
  rewrite initialised_lockst in Hins.
  rewrite gset_add_remove in HL2 by set_solver.
  destruct Hsame2 as (Hg2 & Hts2 & HN2 & Hc2).
  destruct Hsame1 as (Hg1 & Hts1 & HN1' & Hc1).
  assert (Hp0 : twentry_slab_ (initialised p timer_id timeout periodic ctxt cb s w1) !! p =
          Some (mk_twentry timer_id (wrap32 timeout) periodic false ctxt cb
               (wrap16 (timeout / (nslices_ w1 * slice_intvl_ w1))) s None None)).
  { unfold initialised; wsimpl. by rewrite lookup_alter_eq, Hp1. }
  assert (slice_intvl_ w1 = slice_intvl_ w /\ thread_safe_ w1 = thread_safe_ w /\
          nslices_ w1 = nslices_ w /\ curr_slice_ w1 = curr_slice_ w /\
          slock_ w1 = slock_ w) as (Eg & Ets & EN & Ec & El) by done.
  exists (unlockst s w2).
  split; [|split; [|split; [|split; [|split; [|split]]]]].
  - unfold add_timer, st_bind. rewrite next_slice_ok by done. fold s.
    unfold slab_alloc. rewrite Hfresh. fold w1.
    rewrite (init_twentry_ok p uninitialised) by done.
    erewrite load_ok by exact Hp0. cbn [slice_].
    rewrite lock_ok;
      [| done | intros _; unfold initialised, w1; wsimpl; rewrite Hlk; set_solver].
    rewrite Hins.
    erewrite load_ok by (destruct (unlockst_fields s w2); exact Hp3). cbn [slice_].
    rewrite unlock_ok; [done | rewrite HN2, HN1'; exact Hs |].
    rewrite Hts2, Hts1, Hlk2. apply lockst_held.
  - exists L'. by apply linked_unlockst.
  - destruct (unlockst_fields s w2) as (_&_&_&_&(?&?&?&?)).
    repeat split; congruence.
  - rewrite <- Hlk, <- El. apply unlockst_restores;
      [rewrite El, Hlk; set_solver | congruence | done].
  - destruct (unlockst_fields s w2) as (_ & _ & _ & -> & _).
    destruct HL2 as [_ _ _ _ _ ->]. destruct HL as [_ _ _ _ _ ->].
    rewrite Hperm. simpl length. rewrite wrap32_succ. done.
  - intros q [= <-]. split.
    + exists nx. destruct (unlockst_fields s w2) as (-> & _). rewrite Hp3.
      by rewrite HN1', Hg1, EN, Eg.
    + intros x Hx. destruct (unlockst_fields s w2) as (Hsl3 & _).
      unfold same_payload. rewrite Hsl3, (Hpay x Hx), Hslab1.
      unfold w1; wsimpl. by rewrite lookup_insert_ne.
  - done.
Qed.

Lemma unlock_lock_id s w :
  (thread_safe_ w = true -> s ∉ slock_ w) -> unlockst s (lockst s w) = w.
Proof.
  intros Hfree. destruct w as [h g ts N hd lk c n]. unfold unlockst, lockst. simpl in *.
  destruct ts; [|done]. simpl. unfold with_slock. simpl. f_equal.
  specialize (Hfree eq_refl). set_solver.
Qed.

Lemma del_timer_null w : del_timer None w = Ok (0, w).
Proof. done. Qed.

Lemma del_timer_invalid w L p e :
  linked ∅ w L -> slock_ w = ∅ -> twentry_slab_ w !! p = Some e -> valid_ e = false ->
  del_timer (Some p) w = Ok (ctxt_ e, w).
Proof.
  intros HL Hlk Hp Hv.
  pose proof (linked_entry_slice w L p e HL Hp) as Hs.
  assert (Hfree : thread_safe_ w = true -> slice_ e ∉ slock_ w) by (rewrite Hlk; set_solver).
  unfold del_timer, st_bind. rewrite (load_ok p e) by done.
  rewrite (lock_entry_slice_ok p e) by done.
  destruct (lockst_fields (slice_ e) w) as (Hslab & HN & _ & _ & (_ & Hts & _)).
  rewrite (load_ok p e) by (by rewrite Hslab). rewrite Hv. cbn [negb].
  rewrite unlock_ok; [| by rewrite HN | rewrite Hts; apply lockst_held].
  by rewrite unlock_lock_id.
Qed.

Lemma del_timer_valid w L p e :
  linked ∅ w L -> wheel_cfg w -> slock_ w = ∅ ->
  twentry_slab_ w !! p = Some e -> valid_ e = true ->
  exists w' L' nx,
    del_timer (Some p) w = Ok (ctxt_ e, w') /\
    linked ∅ w' L' /\ same_cfg w w' /\ slock_ w' = ∅ /\
    twentry_slab_ w' !! p =
      Some (mk_twentry (timer_id_ e) TWHEEL_DELAY_DELETE false false 0 0
              (wrap16 (TWHEEL_DELAY_DELETE / (nslices_ w * slice_intvl_ w)))
              (slice_after w TWHEEL_DELAY_DELETE (slice_ e) true) nx None) /\
    (forall x, x <> p -> same_payload w w' x) /\
    concat L' ≡ₚ concat L.
Proof.
  intros HL Hcfg Hlk Hp Hv.
  pose proof (linked_entry_slice w L p e HL Hp) as Hs.
  assert (Hfree : thread_safe_ w = true -> slice_ e ∉ slock_ w) by (rewrite Hlk; set_solver).
  set (s0 := slice_ e) in *.
  destruct (lockst_fields s0 w) as (Hslab & HN & Hhd & Hnum & Hsame).
  assert (Hp0 : twentry_slab_ (lockst s0 w) !! p = Some e) by (by rewrite Hslab).
  destruct (remove_timer_spec ∅ (lockst s0 w) L p e
              (linked_lockst _ _ _ _ HL) Hp0 ltac:(set_solver) Hv)
    as (w1 & L1 & Hrm & HL1 & Hsame1 & Hlk1 & Hp1 & Hpay1 & Hperm1).
  set (w2 := unlockst s0 w1).
  destruct (unlockst_fields s0 w1) as (Hslab2 & HN2 & Hhd2 & Hnum2 & Hsame2).
  fold w2 in Hslab2, HN2, Hhd2, Hnum2, Hsame2.
  assert (Hlk2 : slock_ w2 = slock_ w).
  { apply unlockst_restores; [done | by destruct Hsame1 as (_&->&_); destruct Hsame as (_&->&_) | done]. }
  assert (Hsame02 : same_cfg w w2).
  { eapply same_cfg_trans; [exact Hsame|]. eapply same_cfg_trans; [exact Hsame1|exact Hsame2]. }
  assert (Hcfg2 : wheel_cfg w2) by (by eapply wheel_cfg_same).
  assert (HL2 : linked (∅ ∪ {[p]}) w2 L1) by (by apply linked_unlockst).
  assert (Hp2 : twentry_slab_ w2 !! p = Some (set_valid false e)) by (by rewrite Hslab2).
  destruct (delay_delete_spec (∅ ∪ {[p]}) w2 L1 p (set_valid false e) HL2 Hcfg2 Hp2
              ltac:(set_solver) ltac:(rewrite Hlk2, Hlk; set_solver))
    as (w3 & L3 & nx & Hdd & HL3 & Hsame3 & Hlk3 & Hp3 & Hpay3 & Hperm3).
  rewrite gset_add_remove in HL3 by set_solver.
  exists w3, L3, nx.
  split; [|split; [|split; [|split; [|split; [|split]]]]].
  - unfold del_timer, st_bind. rewrite (load_ok p e) by done.
    rewrite (lock_entry_slice_ok p e) by done. fold s0.
    rewrite (load_ok p e) by done. rewrite Hv. cbn [negb].
    rewrite Hrm.
    rewrite unlock_ok.
    + fold w2. by rewrite Hdd.
    + destruct Hsame1 as (_ & _ & -> & _). by rewrite HN.
    + destruct Hsame1 as (_ & -> & _). destruct Hsame as (_ & -> & _).
      rewrite Hlk1. apply lockst_held.
  - done.
  - by eapply same_cfg_trans.
  - by rewrite Hlk3, Hlk2.
  - rewrite Hp3. rewrite (slice_after_same w w2) by done.
    destruct Hsame02 as (-> & _ & -> & _). done.
  - intros x Hx. unfold same_payload.
    rewrite (Hpay3 x Hx), Hslab2, (Hpay1 x Hx), Hslab. done.
  - rewrite Hperm1 at 1. rewrite Hperm3. done.
Qed.

Lemma upd_timer_null w timeout periodic ctxt :
  upd_timer None timeout periodic ctxt w = Ok (None, w).
Proof. done. Qed.

Lemma upd_timer_invalid w L p e timeout periodic ctxt :
  linked ∅ w L -> slock_ w = ∅ -> twentry_slab_ w !! p = Some e -> valid_ e = false ->
  upd_timer (Some p) timeout periodic ctxt w = Ok (Some p, w).
Proof.
  intros HL Hlk Hp Hv.
  pose proof (linked_entry_slice w L p e HL Hp) as Hs.
  assert (Hfree : thread_safe_ w = true -> slice_ e ∉ slock_ w) by (rewrite Hlk; set_solver).
  unfold upd_timer, st_bind.
  rewrite (lock_entry_slice_ok p e) by done.
  destruct (lockst_fields (slice_ e) w) as (Hslab & HN & _ & _ & (_ & Hts & _)).
  rewrite (load_ok p e) by (by rewrite Hslab). rewrite Hv. cbn [negb].
  rewrite unlock_ok; [| by rewrite HN | rewrite Hts; apply lockst_held].
  by rewrite unlock_lock_id.
Qed.

Lemma upd_timer_valid w L p e timeout periodic ctxt :
  linked ∅ w L -> wheel_cfg w -> slock_ w = ∅ ->
  (thread_safe_ w = true -> 2 <= nslices_ w) ->
  twentry_slab_ w !! p = Some e -> valid_ e = true ->
  exists w' L' nx,
    upd_timer (Some p) timeout periodic ctxt w = Ok (Some p, w') /\
    linked ∅ w' L' /\ same_cfg w w' /\ slock_ w' = ∅ /\
    twentry_slab_ w' !! p =
      Some (mk_twentry (timer_id_ e) (wrap32 timeout) periodic true ctxt (cb_ e)
              (wrap16 (timeout / (nslices_ w * slice_intvl_ w)))
              (slice_after w timeout (slice_ e) true) nx None) /\
    (forall x, x <> p -> same_payload w w' x) /\
    concat L' ≡ₚ concat L.
Proof.
  intros HL Hcfg Hlk HN2 Hp Hv.
  pose proof (linked_entry_slice w L p e HL Hp) as Hs0.
  assert (Hfree : thread_safe_ w = true -> slice_ e ∉ slock_ w) by (rewrite Hlk; set_solver).
  set (s0 := slice_ e) in *.
  set (s := slice_after w timeout s0 true).
  pose proof (slice_after_range w timeout s0 true Hcfg) as Hs. fold s in Hs.
  destruct (lockst_fields s0 w) as (Hslab & HN & Hhd & Hnum & Hsame).
  assert (Hp0 : twentry_slab_ (lockst s0 w) !! p = Some e) by (by rewrite Hslab).
  destruct (remove_timer_spec ∅ (lockst s0 w) L p e
              (linked_lockst _ _ _ _ HL) Hp0 ltac:(set_solver) Hv)
    as (w1 & L1 & Hrm & HL1 & Hsame1 & Hlk1 & Hp1 & Hpay1 & Hperm1).
  assert (Hsame01 : same_cfg w w1) by (by eapply same_cfg_trans).
  assert (Hcfg1 : wheel_cfg w1) by (by eapply wheel_cfg_same).
  assert (Hfree1 : thread_safe_ w1 = true -> s ∉ slock_ w1).
  { destruct Hsame01 as (_ & -> & _). intros Hts. rewrite Hlk1. unfold lockst.
    rewrite Hts. wsimpl. rewrite Hlk.
    pose proof (slice_after_differs w timeout s0 Hcfg (HN2 Hts)). fold s in H.
    set_solver. }
  destruct (lockst_fields s w1) as (Hslab' & HN' & Hhd' & Hnum' & Hsame').
  assert (Hp2 : twentry_slab_ (lockst s w1) !! p = Some (set_valid false e)) by (by rewrite Hslab').
  assert (Hs1 : 0 <= s < nslices_ (lockst s w1)).
  { rewrite HN'. destruct Hsame01 as (_ & _ & -> & _). done. }
  destruct (init_insert_spec (∅ ∪ {[p]}) (lockst s w1) L1 p (set_valid false e)
              (timer_id_ e) timeout periodic ctxt (cb_ e) s
              (linked_lockst _ _ _ _ HL1) (wheel_cfg_same _ _ Hsame' Hcfg1) Hp2
              ltac:(set_solver) Hs1)
    as (w2 & L' & nx & Hins & HL2 & Hsame2 & Hlk2 & Hp3 & Hpay & Hperm).
  rewrite gset_add_remove in HL2 by set_solver.
  set (w3 := unlockst s w2).
  destruct (unlockst_fields s w2) as (Hslab3 & HN3 & Hhd3 & Hnum3 & Hsame3).
  fold w3 in Hslab3, HN3, Hhd3, Hnum3, Hsame3.
  assert (Hlk3 : slock_ w3 = slock_ w1).
  { apply unlockst_restores; [done | | done].
    destruct Hsame2 as (_&->&_). by destruct Hsame' as (_&->&_). }
  assert (Hsame13 : same_cfg w1 w3).
  { eapply same_cfg_trans; [exact Hsame'|]. eapply same_cfg_trans; [exact Hsame2|exact Hsame3]. }
  exists (unlockst s0 w3), L', nx.
  destruct (unlockst_fields s0 w3) as (Hslab4 & HN4 & Hhd4 & Hnum4 & Hsame4).
  split; [|split; [|split; [|split; [|split; [|split]]]]].
  - unfold upd_timer, st_bind.
    rewrite (lock_entry_slice_ok p e) by done. fold s0.
    rewrite (load_ok p e) by done. rewrite Hv. cbn [negb].
    rewrite Hrm.
    rewrite next_slice_ok by done.
    rewrite (slice_after_same w w1) by done. fold s.
    rewrite lock_ok; [| by rewrite <- HN' | done].
    rewrite (load_ok p (set_valid false e)) by done.
    rewrite (init_twentry_ok p (set_valid false e)); [| by eapply wheel_cfg_same | done].
    cbn [timer_id_ cb_ set_valid]. rewrite Hins.
    rewrite unlock_ok.
    + fold w3. rewrite unlock_ok; [done| |].
      * destruct Hsame13 as (_ & _ & -> & _). destruct Hsame01 as (_ & _ & -> & _). done.
      * destruct Hsame13 as (_ & -> & _). destruct Hsame1 as (_ & -> & _).
        destruct Hsame as (_ & -> & _). rewrite Hlk3, Hlk1. apply lockst_held.
    + destruct Hsame2 as (_ & _ & -> & _). done.
    + destruct Hsame2 as (_ & -> & _). destruct Hsame' as (_ & -> & _).
      rewrite Hlk2. apply lockst_held.
  - apply linked_unlockst. by apply linked_unlockst.
  - eapply same_cfg_trans; [exact Hsame01|]. by eapply same_cfg_trans.
  - transitivity (slock_ w); [|done].
    apply unlockst_restores; [done | | by rewrite Hlk3].
    destruct Hsame13 as (_&->&_). destruct Hsame1 as (_&->&_). by destruct Hsame as (_&->&_).
  - rewrite Hslab4, Hslab3, Hp3. destruct Hsame' as (-> & _ & -> & _).
    destruct Hsame01 as (-> & _ & -> & _). done.
  - intros x Hx. unfold same_payload.
    rewrite Hslab4, Hslab3, (Hpay x Hx), Hslab', (Hpay1 x Hx), Hslab. done.
  - rewrite Hperm1 at 1. rewrite Hperm. done.
Qed.

Lemma erases_bind {A B} (c : M A) (k : A -> M B) :
  erases c -> (forall a, erases (k a)) -> erases (st_bind c k).
Proof.
  intros Hc Hk w b w'. unfold st_bind.
  destruct (c w) as [[a w1]|] eqn:E; [|done].
  rewrite (Hc _ _ _ E). apply Hk.
Qed.

Lemma erases_ret {A} (a : A) : erases (st_ret a).
Proof. intros w a' w' [= <- <-]. done. Qed.

Lemma erases_fail {A} e : erases (@st_fail twheel A e).
Proof. intros w a' w'. done. Qed.

Lemma erases_gets {A} (f : twheel -> A) :
  (forall w, f (unsafe w) = f w) -> erases (st_gets f).
Proof. intros Hf w a w' [= <- <-]. unfold st_gets. by rewrite Hf. Qed.

Lemma erases_modify (f : twheel -> twheel) :
  (forall w, f (unsafe w) = unsafe (f w)) -> erases (st_modify f).
Proof. intros Hf w a w' [= <- <-]. unfold st_modify. by rewrite Hf. Qed.

Lemma erases_udiv a b : erases (@udiv twheel a b).
Proof. unfold udiv. destruct (b =? 0); [apply erases_fail | apply erases_ret]. Qed.

Lemma erases_umod a b : erases (@umod twheel a b).
Proof. unfold umod. destruct (b =? 0); [apply erases_fail | apply erases_ret]. Qed.

Lemma erases_assert b : erases (@st_assert twheel b).
Proof. unfold st_assert. destruct b; [apply erases_ret | apply erases_fail]. Qed.

Lemma erases_load p : erases (load p).
Proof.
  intros w a w'. unfold load. simpl.
  destruct (twentry_slab_ w !! p); [|done]. by intros [= <- <-].
Qed.

Lemma erases_store p f : erases (store p f).
Proof.
  intros w a w'. unfold store. simpl.
  destruct (twentry_slab_ w !! p); [|done]. by intros [= <- <-].
Qed.

Lemma erases_get_head s : erases (get_head s).
Proof.
  intros w a w'. unfold get_head. simpl.
  destruct (_ && _); [|done]. by intros [= <- <-].
Qed.

Lemma erases_set_head s v : erases (set_head s v).
Proof.
  intros w a w'. unfold set_head. simpl.
  destruct (_ && _); [|done]. by intros [= <- <-].
Qed.

Lemma erases_lock s : erases (TWHEEL_LOCK_SLICE s).
Proof.
  intros w a w'. unfold TWHEEL_LOCK_SLICE. simpl.
  destruct (thread_safe_ w); [|by intros [= <- <-]].
  destruct (_ && _); [|done]. case_bool_decide; [done|]. by intros [= <- <-].
Qed.

Lemma erases_unlock s : erases (TWHEEL_UNLOCK_SLICE s).
Proof.
  intros w a w'. unfold TWHEEL_UNLOCK_SLICE. simpl.
  destruct (thread_safe_ w); [|by intros [= <- <-]].
  destruct (_ && _); [|done]. case_bool_decide; [|done]. by intros [= <- <-].
Qed.

Lemma erases_free p : erases (free_to_slab_ p).
Proof.
  intros w a w'. unfold free_to_slab_. simpl.
  destruct (twentry_slab_ w !! p); [|done]. by intros [= <- <-].
Qed.

Lemma erases_alloc mem : erases (slab_alloc mem).
Proof.
  intros w a w'. unfold slab_alloc. simpl. destruct mem as [p|]; [|by intros [= <- <-]].
  destruct (twentry_slab_ w !! p); [done|]. by intros [= <- <-].
Qed.

Ltac erases_step :=
  first
    [ apply erases_bind; [|intros ?]
    | apply erases_ret | apply erases_fail
    | apply erases_gets; done | apply erases_modify; done
    | apply erases_udiv | apply erases_umod | apply erases_assert
    | apply erases_load | apply erases_store
    | apply erases_get_head | apply erases_set_head
    | apply erases_lock | apply erases_unlock
    | apply erases_free | apply erases_alloc
    | match goal with
      | |- erases (match ?x with _ => _ end) => destruct x
      end ].

Lemma erases_next_slice t es u : erases (next_slice_ t es u).
Proof. unfold next_slice_. repeat erases_step. Qed.

Lemma erases_init p a b c d e f : erases (init_twentry_ p a b c d e f).
Proof. unfold init_twentry_. repeat erases_step. Qed.

Lemma erases_insert p : erases (insert_timer_ p).
Proof. unfold insert_timer_. repeat erases_step. Qed.

Lemma erases_unlink t : erases (unlink_timer_ t).
Proof. unfold unlink_timer_. repeat erases_step. Qed.

Lemma erases_remove p : erases (remove_timer_ p).
Proof. unfold remove_timer_. repeat (erases_step || apply erases_unlink). Qed.

Ltac erases_op :=
  repeat first
    [ apply erases_next_slice | apply erases_init | apply erases_insert
    | apply erases_unlink | apply erases_remove | erases_step ].

Lemma erases_upd_timer_ p t per : erases (upd_timer_ p t per).
Proof. unfold upd_timer_. erases_op. Qed.

Lemma erases_delay_delete p : erases (delay_delete_ p).
Proof. unfold delay_delete_. erases_op. Qed.

Lemma erases_lock_entry_slice fuel p : erases (lock_entry_slice fuel p).
Proof. induction fuel; simpl; erases_op; done. Qed.

Lemma erases_add_timer mem a b c d e f : erases (add_timer mem a b c d e f).
Proof. unfold add_timer. erases_op. Qed.

Lemma erases_del_timer t : erases (del_timer t).
Proof.
  unfold del_timer.
  repeat first [apply erases_lock_entry_slice | apply erases_delay_delete | erases_op].
Qed.

Lemma erases_upd_timer t a b c : erases (upd_timer t a b c).
Proof.
  unfold upd_timer.
  repeat first [apply erases_lock_entry_slice | erases_op].
Qed.

Lemma unsafe_linked U w L : linked U (unsafe w) L <-> linked U w L.
Proof. split; apply linked_same; done. Qed.

Lemma unsafe_cfg w : wheel_cfg (unsafe w) <-> wheel_cfg w.
Proof. done. Qed.

(** *** invariance, whatever the lock state *)

Lemma unsafe_inv w : wheel_inv (unsafe w) <-> wheel_inv w.
Proof.
  unfold wheel_inv, slices_linked. rewrite unsafe_cfg.
  split; intros [? [L HL]]; (split; [done|]); exists L; by apply unsafe_linked.
Qed.

Lemma payload_is_Some w w' x :
  same_payload w w' x ->
  is_Some (twentry_slab_ w !! x) <-> is_Some (twentry_slab_ w' !! x).
Proof.
  unfold same_payload. intros H.
  destruct (twentry_slab_ w !! x), (twentry_slab_ w' !! x); simpl in H;
    try done; split; intros [? ?]; done.
Qed.

Lemma keeps_entries_frame w w' p :
  is_Some (twentry_slab_ w' !! p) ->
  (forall x, x <> p -> same_payload w w' x) -> keeps_entries w w'.
Proof.
  intros Hp Hpay q Hq. destruct (decide (q = p)) as [->|Hne]; [done|].
  by apply (payload_is_Some w w' q (Hpay q Hne)).
Qed.

Lemma keeps_entries_unsafe w w' :
  keeps_entries (unsafe w) (unsafe w') <-> keeps_entries w w'.
Proof. done. Qed.

Lemma add_timer_inv w mem timer_id timeout ctxt cb periodic initial_delay r w' :
  wheel_inv w ->
  add_timer mem timer_id timeout ctxt cb periodic initial_delay w = Ok (r, w') ->
  wheel_inv w' /\ keeps_entries w w'.
Proof.
  intros Hinv Hrun. apply erases_add_timer in Hrun.
  apply unsafe_inv in Hinv. rewrite <- unsafe_inv, <- keeps_entries_unsafe.
  destruct Hinv as [Hcfg Hlinked].
  assert (Hfresh : forall p, mem = Some p -> twentry_slab_ (unsafe w) !! p = None).
  { intros p ->. revert Hrun. unfold add_timer, st_bind.
    rewrite next_slice_ok by done. unfold slab_alloc.
    destruct (twentry_slab_ (unsafe w) !! p); [done|done]. }
  destruct (add_timer_spec (unsafe w) mem timer_id timeout ctxt cb periodic
              initial_delay Hlinked Hcfg eq_refl Hfresh)
    as (w2 & Hrun2 & Hl2 & Hsame & Hlk & Hnum & Hent & Hnone).
  rewrite Hrun in Hrun2. apply Ok_inj in Hrun2 as [_ <-].
  split; [split; [by eapply wheel_cfg_same | done]|].
  destruct mem as [p|]; [|rewrite (Hnone eq_refl); by intros ?].
  destruct (Hent p eq_refl) as [[nx Hp] Hpay].
  eapply keeps_entries_frame; [by rewrite Hp | done].
Qed.

Lemma del_timer_inv w timer r w' :
  wheel_inv w -> del_timer timer w = Ok (r, w') ->
  wheel_inv w' /\ keeps_entries w w'.
Proof.
  intros Hinv Hrun. apply erases_del_timer in Hrun.
  apply unsafe_inv in Hinv. rewrite <- unsafe_inv, <- keeps_entries_unsafe.
  destruct Hinv as [Hcfg [L HL]].
  destruct timer as [p|]; [|apply Ok_inj in Hrun as [_ <-]; split; [by split; [|exists L]|by intros ?]].
  destruct (twentry_slab_ w !! p) as [e|] eqn:Hp.
  2:{ revert Hrun. unfold del_timer, st_bind, load. simpl. by rewrite Hp. }
  change (twentry_slab_ (unsafe w) !! p = Some e) in Hp.
  destruct (valid_ e) eqn:Hv.
  - destruct (del_timer_valid (unsafe w) L p e HL Hcfg eq_refl Hp Hv)
      as (w2 & L2 & nx & Hrun2 & HL2 & Hsame & Hlk & Hp2 & Hpay & Hperm).
    rewrite Hrun in Hrun2. apply Ok_inj in Hrun2 as [_ <-].
    split; [split; [by eapply wheel_cfg_same | by exists L2]|].
    eapply keeps_entries_frame; [by rewrite Hp2 | done].
  - rewrite (del_timer_invalid (unsafe w) L p e HL eq_refl Hp Hv) in Hrun.
    apply Ok_inj in Hrun as [_ <-]. split; [by split; [|exists L]|by intros ?].
Qed.

Lemma upd_timer_inv w timer timeout periodic ctxt r w' :
  wheel_inv w -> upd_timer timer timeout periodic ctxt w = Ok (r, w') ->
  wheel_inv w' /\ keeps_entries w w'.
Proof.
  intros Hinv Hrun. apply erases_upd_timer in Hrun.
  apply unsafe_inv in Hinv. rewrite <- unsafe_inv, <- keeps_entries_unsafe.
  destruct Hinv as [Hcfg [L HL]].
  destruct timer as [p|]; [|apply Ok_inj in Hrun as [_ <-]; split; [by split; [|exists L]|by intros ?]].
  destruct (twentry_slab_ w !! p) as [e|] eqn:Hp.
  2:{ revert Hrun. unfold upd_timer, lock_entry_slice, st_bind, load. simpl.
      by rewrite Hp. }
  change (twentry_slab_ (unsafe w) !! p = Some e) in Hp.
  destruct (valid_ e) eqn:Hv.
  - destruct (upd_timer_valid (unsafe w) L p e timeout periodic ctxt HL Hcfg eq_refl
                ltac:(done) Hp Hv)
      as (w2 & L2 & nx & Hrun2 & HL2 & Hsame & Hlk & Hp2 & Hpay & Hperm).
    rewrite Hrun in Hrun2. apply Ok_inj in Hrun2 as [_ <-].
    split; [split; [by eapply wheel_cfg_same | by exists L2]|].
    eapply keeps_entries_frame; [by rewrite Hp2 | done].
  - rewrite (upd_timer_invalid (unsafe w) L p e _ _ _ HL eq_refl Hp Hv) in Hrun.
    apply Ok_inj in Hrun as [_ <-]. split; [by split; [|exists L]|by intros ?].
Qed.

Lemma upd_timer__inv w p e timeout periodic w' :
  wheel_inv w -> twentry_slab_ w !! p = Some e -> valid_ e = true ->
  upd_timer_ p timeout periodic w = Ok (tt, w') ->
  wheel_inv w' /\ keeps_entries w w'.
Proof.
  intros Hinv Hp Hv Hrun. apply erases_upd_timer_ in Hrun.
  apply unsafe_inv in Hinv. rewrite <- unsafe_inv, <- keeps_entries_unsafe.
  destruct Hinv as [Hcfg [L HL]].
  destruct (upd_timer__spec ∅ (unsafe w) L p e timeout periodic HL Hcfg Hp
              ltac:(set_solver) Hv ltac:(done))
    as (w2 & L2 & nx & Hrun2 & HL2 & Hsame & Hlk & Hp2 & Hpay & Hperm).
  rewrite Hrun in Hrun2. apply Ok_inj in Hrun2 as [_ <-].
  split; [split; [by eapply wheel_cfg_same | by exists L2]|].
  eapply keeps_entries_frame; [by rewrite Hp2 | done].
Qed.

Lemma expire_inv w p e w' :
  wheel_inv w -> twentry_slab_ w !! p = Some e -> valid_ e = true ->
  (remove_timer_ p ;; delay_delete_ p) w = Ok (tt, w') ->
  wheel_inv w' /\ keeps_entries w w'.
Proof.
  intros Hinv Hp Hv Hrun.
  assert (Her : erases (remove_timer_ p ;; delay_delete_ p)).
  { apply erases_bind; [apply erases_remove | intros; apply erases_delay_delete]. }
  apply Her in Hrun.
  apply unsafe_inv in Hinv. rewrite <- unsafe_inv, <- keeps_entries_unsafe.
  destruct Hinv as [Hcfg [L HL]].
  destruct (remove_timer_spec ∅ (unsafe w) L p e HL Hp ltac:(set_solver) Hv)
    as (w1 & L1 & Hrm & HL1 & Hsame1 & Hlk1 & Hp1 & Hpay1 & Hperm1).
  destruct (delay_delete_spec (∅ ∪ {[p]}) w1 L1 p (set_valid false e) HL1
              (wheel_cfg_same _ _ Hsame1 Hcfg) Hp1 ltac:(set_solver))
    as (w2 & L2 & nx & Hdd & HL2 & Hsame2 & Hlk2 & Hp2 & Hpay2 & Hperm2).
  { destruct Hsame1 as (_ & -> & _). done. }
  rewrite gset_add_remove in HL2 by set_solver.
  unfold st_bind in Hrun. rewrite Hrm, Hdd in Hrun. apply Ok_inj in Hrun as [_ <-].
  split; [split; [eapply wheel_cfg_same; [|exact Hcfg]; by eapply same_cfg_trans
                 | by exists L2]|].
  eapply keeps_entries_frame; [by rewrite Hp2 |].
  intros x Hx. eapply same_payload_trans; [by apply Hpay1 | by apply Hpay2].
Qed.

(** *** tick *)

Lemma linked_prev_alloc w L p e q :
  linked ∅ w L -> twentry_slab_ w !! p = Some e -> prev_ e = Some q ->
  q <> p /\ is_Some (twentry_slab_ w !! q).
Proof.
  intros HL Hp Hq.
  destruct (linked_locate ∅ w L p HL) as (i & l & j & Hi & Hj); [by rewrite Hp|set_solver|].
  pose proof (concat_NoDup_slice L i l (lk_nodup _ _ _ HL) Hi) as Hndl.
  destruct (lk_entry _ _ _ HL i l j p Hi Hj) as (e' & He' & Hsl & Hprev & Hnext).
  assert (e' = e) by congruence; subst e'.
  rewrite Hprev in Hq. destruct j as [|j]; [done|]. simpl in Hq.
  destruct (lk_entry _ _ _ HL i l j q Hi Hq) as (eq & Heq & _).
  split; [|by rewrite Heq].
  intros ->. assert (S j = j) by (eapply NoDup_lookup; eauto). lia.
Qed.

Section TickInvariance.
Variable invoke : Z -> handle -> Z -> Z -> M unit.
Hypothesis invoke_ok : callbacks_ok invoke.

Lemma tick_walk_inv fuel : forall twentry w w',
  wheel_inv w ->
  (forall p, twentry = Some p -> is_Some (twentry_slab_ w !! p)) ->
  tick_walk invoke fuel twentry w = Ok (tt, w') ->
  wheel_inv w'.
Proof.
  induction fuel as [|fuel IH]; intros [p|] w w' Hinv Halloc Hrun;
    try (apply Ok_inj in Hrun as [_ <-]; done); [done|].
  destruct (Halloc p eq_refl) as [e Hp].
  destruct Hinv as [Hcfg [L HL]].
  cbn [tick_walk] in Hrun. unfold st_bind at 1 in Hrun. rewrite (load_ok p e w Hp) in Hrun.
  assert (Hprev : forall q, prev_ e = Some q ->
            q <> p /\ is_Some (twentry_slab_ w !! q)).
  { intros q. by eapply linked_prev_alloc. }
  destruct (valid_ e) eqn:Hv; cbn [negb] in Hrun.
  2:{ (* a corpse: unlink and give back to the slab *)
    destruct (unlink_spec ∅ w L p e HL Hp ltac:(set_solver))
      as (L' & Hun & HL' & Hperm & Hp').
    unfold st_bind at 1 in Hrun. rewrite Hun in Hrun.
    unfold st_bind at 1 in Hrun. unfold free_to_slab_ at 1 in Hrun.
    rewrite Hp' in Hrun.
    eapply IH; [| |exact Hrun].
    - split; [done|]. exists L'.
      rewrite <- (gset_add_remove ∅ p) by set_solver.
      apply linked_free; [set_solver|done].
    - intros q Hq. destruct (Hprev q Hq) as [Hne Hs]. wsimpl.
      rewrite lookup_delete_ne by done.
      by apply (payload_is_Some w (unlinked e w) q (unlinked_payload e w q)). }
  destruct (nspins_ e =? 0) eqn:Hn; cbn [negb] in Hrun.
  2:{ (* one more revolution to wait *)
    unfold st_bind at 1 in Hrun. rewrite (store_ok p e _ w Hp) in Hrun.
    unfold st_bind at 1 in Hrun.
    erewrite load_ok in Hrun by (wsimpl; by rewrite lookup_alter_eq, Hp).
    eapply IH; [| |exact Hrun].
    - split; [done|]. exists L. apply linked_alter; [right; by intros []|done].
    - intros q Hq. destruct (Hprev q Hq) as [Hne Hs]. wsimpl.
      by rewrite lookup_alter_ne. }
  (* the timer fires *)
  apply bind_Ok_inv in Hrun as ([] & w1 & Hcall & Hrun).
  unfold call_cb, st_bind in Hcall. rewrite (load_ok p e w Hp) in Hcall.
  destruct (cb_ e =? 0); [done|].
  destruct (invoke_ok _ _ _ _ w w1 ltac:(split; [done|by exists L]) Hcall)
    as [Hinv1 Hkeep1].
  destruct (Hkeep1 p ltac:(by rewrite Hp)) as [e1 Hp1].
  unfold st_bind at 1 in Hrun. rewrite (load_ok p e1 w1 Hp1) in Hrun.
  apply bind_Ok_inv in Hrun as ([] & w2 & Hact & Hrun).
  assert (wheel_inv w2 /\ keeps_entries w1 w2) as [Hinv2 Hkeep2].
  { destruct (periodic_ e1), (valid_ e1) eqn:Hv1.
    - by eapply upd_timer__inv.
    - apply Ok_inj in Hact as [_ <-]. split; [done|by intros ?].
    - by eapply expire_inv.
    - apply Ok_inj in Hact as [_ <-]. split; [done|by intros ?]. }
  eapply IH; [exact Hinv2| |exact Hrun].
  intros q Hq. destruct (Hprev q Hq) as [Hne Hs]. by apply Hkeep2, Hkeep1.
Qed.

Lemma last_timer_loop_alloc fuel : forall last w r w',
  last_timer_loop fuel last w = Ok (r, w') ->
  w' = w /\ forall p, r = Some p -> is_Some (twentry_slab_ w !! p).
Proof.
  induction fuel as [|fuel IH]; intros [q|] w r w' Hrun; cbn [last_timer_loop] in Hrun.
  all: try (apply Ok_inj in Hrun as [<- <-]; by split).
  all: apply bind_Ok_inv in Hrun as (e & w1 & Hld & Hrun).
  all: unfold load in Hld; destruct (twentry_slab_ w !! q) as [e'|] eqn:Hq; [|done].
  all: apply Ok_inj in Hld as [<- <-].
  all: destruct (next_ e') as [n|]; [|apply Ok_inj in Hrun as [<- <-];
                                       split; [done|intros ? [= <-]; by rewrite Hq]].
  - done.
  - by apply (IH (Some n)).
Qed.

Lemma lock_inv s w w' :
  TWHEEL_LOCK_SLICE s w = Ok (tt, w') -> exists X, w' = with_slock X w.
Proof.
  unfold TWHEEL_LOCK_SLICE. destruct (thread_safe_ w).
  - destruct (_ && _); [|done]. case_bool_decide; [done|].
    intros [_ <-]%Ok_inj. eauto.
  - intros [_ <-]%Ok_inj. exists (slock_ w). by destruct w.
Qed.

Lemma unlock_inv s w w' :
  TWHEEL_UNLOCK_SLICE s w = Ok (tt, w') -> exists X, w' = with_slock X w.
Proof.
  unfold TWHEEL_UNLOCK_SLICE. destruct (thread_safe_ w).
  - destruct (_ && _); [|done]. case_bool_decide; [|done].
    intros [_ <-]%Ok_inj. eauto.
  - intros [_ <-]%Ok_inj. exists (slock_ w). by destruct w.
Qed.

Lemma with_slock_inv X w : wheel_inv (with_slock X w) <-> wheel_inv w.
Proof.
  unfold wheel_inv, slices_linked.
  split; intros [Hc [L HL]]; (split; [done|]); exists L; revert HL; by apply linked_same.
Qed.

Lemma tick_slices_inv fuel n : forall w w',
  wheel_inv w -> tick_slices invoke fuel n w = Ok (tt, w') -> wheel_inv w'.
Proof.
  induction n as [|n IH]; intros w w' Hinv Hrun; cbn [tick_slices] in Hrun.
  { apply Ok_inj in Hrun as [_ <-]. done. }
  unfold st_bind at 1 in Hrun. unfold st_gets at 1 in Hrun.
  apply bind_Ok_inv in Hrun as ([] & w1 & Hlock & Hrun).
  apply lock_inv in Hlock as [X ->].
  apply bind_Ok_inv in Hrun as (t & w2 & Hlast & Hrun).
  unfold last_timer_in_slice in Hlast.
  apply bind_Ok_inv in Hlast as (h & w2' & Hhd & Hlast).
  unfold get_head in Hhd. destruct (_ && _); [|done].
  apply Ok_inj in Hhd as [<- <-].
  apply last_timer_loop_alloc in Hlast as [-> Halloc].
  apply bind_Ok_inv in Hrun as ([] & w3 & Hwalk & Hrun).
  apply tick_walk_inv in Hwalk; [|by apply with_slock_inv|done].
  unfold st_bind at 1 in Hrun. unfold st_gets at 1 in Hrun.
  apply bind_Ok_inv in Hrun as ([] & w4 & Hunlock & Hrun).
  apply unlock_inv in Hunlock as [Y ->].
  unfold st_bind at 1 in Hrun. unfold st_gets at 1 in Hrun.
  unfold st_bind at 1 in Hrun. unfold st_gets at 1 in Hrun.
  apply bind_Ok_inv in Hrun as (nxt & w5 & Hmod & Hrun).
  unfold umod in Hmod. wsimpl.
  destruct (nslices_ w3 =? 0) eqn:HN; [done|].
  apply Ok_inj in Hmod as [<- <-].
  unfold st_bind at 1 in Hrun. unfold st_modify at 1 in Hrun.
  eapply IH; [|exact Hrun].
  destruct Hwalk as [Hcfg [L HL]]. split.
  - destruct Hcfg as (Hg & HNn & Hp & Hc). repeat split; wsimpl; try done.
    all: apply Z.mod_pos_bound; lia.
  - exists L. revert HL. by apply linked_same.
Qed.

Lemma tick_inv fuel msecs_elapsed w w' :
  wheel_inv w -> tick invoke fuel msecs_elapsed w = Ok (tt, w') -> wheel_inv w'.
Proof.
  intros Hinv Hrun. unfold tick in Hrun.
  unfold st_bind at 1 in Hrun. unfold st_gets at 1 in Hrun.
  destruct (msecs_elapsed <? slice_intvl_ w).
  { apply Ok_inj in Hrun as [_ <-]. done. }
  apply bind_Ok_inv in Hrun as (n & w1 & Hdiv & Hrun).
  unfold udiv in Hdiv. destruct (slice_intvl_ w =? 0); [done|].
  apply Ok_inj in Hdiv as [<- <-].
  apply bind_Ok_inv in Hrun as ([] & w1 & Hassert & Hrun).
  unfold st_assert in Hassert. destruct (1 <=? _); [|done].
  apply Ok_inj in Hassert as [_ <-].
  by eapply tick_slices_inv.
Qed.

End TickInvariance.

(** *** tick returns

    With callbacks that leave the wheel alone, on a wheel of at least two
    slices whose valid entries all have a callback, [tick] walks every
    slice to its head and returns: an entry that fires is moved to
    another slice, so the walk of a slice visits each of its entries
    once. *)

Lemma armed_frame w w' p :
  armed w ->
  (forall x, x <> p -> same_payload w w' x) ->
  (forall e', twentry_slab_ w' !! p = Some e' -> valid_ e' = true -> cb_ e' <> 0) ->
  armed w'.
Proof.
  intros Harm Hpay Hp x e' Hx Hv. destruct (decide (x = p)) as [->|Hne]; [by eapply Hp|].
  specialize (Hpay x Hne). unfold same_payload in Hpay. rewrite Hx in Hpay.
  destruct (twentry_slab_ w !! x) as [e0|] eqn:E0; [|done].
  injection Hpay as Hpay.
  assert (valid_ e0 = valid_ e' /\ cb_ e0 = cb_ e') as [Ev Ec].
  { destruct e0, e'. unfold strip, set_next, set_prev in Hpay. cbn in *. by simplify_eq. }
  rewrite <- Ec. eapply Harm; [done|congruence].
Qed.

(** Where the walked slice stands after the entry at position [k] has
    been moved to another slice. *)
Lemma moved_away (L : list (list handle)) c l k p i l0 j i2 l2 :
  NoDup (concat L) ->
  L !! c = Some l -> l !! k = Some p ->
  L !! i = Some l0 -> l0 !! j = Some p ->
  i2 <> c ->
  (<[i2 := p :: l2]> (<[i := delete j l0]> L)) !! c = Some (delete k l).
Proof.
  intros Hnd Hc Hk Hi Hj Hne.
  assert (i = c) as ->.
  { eapply (concat_NoDup_unique L); [done..| |]; by eapply list_elem_of_lookup_2. }
  assert (l0 = l) as -> by congruence.
  assert (j = k) as ->.
  { eapply NoDup_lookup; [|done..]. by eapply concat_NoDup_slice. }
  rewrite list_lookup_insert_ne by done.
  apply list_lookup_insert_eq. by eapply lookup_lt_Some.
Qed.

Lemma taken_out (L : list (list handle)) c l k p i l0 j :
  NoDup (concat L) ->
  L !! c = Some l -> l !! k = Some p ->
  L !! i = Some l0 -> l0 !! j = Some p ->
  (<[i := delete j l0]> L) !! c = Some (delete k l).
Proof.
  intros Hnd Hc Hk Hi Hj.
  assert (i = c) as ->.
  { eapply (concat_NoDup_unique L); [done..| |]; by eapply list_elem_of_lookup_2. }
  assert (l0 = l) as -> by congruence.
  assert (j = k) as ->.
  { eapply NoDup_lookup; [|done..]. by eapply concat_NoDup_slice. }
  apply list_lookup_insert_eq. by eapply lookup_lt_Some.
Qed.

Lemma expire_shape w L p e :
  linked ∅ w L -> wheel_cfg w -> twentry_slab_ w !! p = Some e -> valid_ e = true ->
  (thread_safe_ w = true ->
   slice_after w TWHEEL_DELAY_DELETE (slice_ e) true ∉ slock_ w) ->
  exists w' L' e',
    (remove_timer_ p ;; delay_delete_ p) w = Ok (tt, w') /\
    linked ∅ w' L' /\ same_cfg w w' /\ slock_ w' = slock_ w /\
    twentry_slab_ w' !! p = Some e' /\ valid_ e' = false /\
    (forall x, x <> p -> same_payload w w' x) /\
    concat L' ≡ₚ concat L /\
    exists i l j i2 l2,
      L !! i = Some l /\ l !! j = Some p /\
      slice_after w TWHEEL_DELAY_DELETE (slice_ e) true = Z.of_nat i2 /\
      (<[i := delete j l]> L) !! i2 = Some l2 /\
      L' = <[i2 := p :: l2]> (<[i := delete j l]> L).
Proof.
  intros HL Hcfg Hp Hv Hfree.
  destruct (remove_timer_shape ∅ w L p e HL Hp ltac:(set_solver) Hv)
    as (w1 & L1 & Hrm & HL1 & Hsame1 & Hlk1 & Hp1 & Hpay1 & Hperm1 & Hshape1).
  destruct (delay_delete_shape (∅ ∪ {[p]}) w1 L1 p (set_valid false e) HL1
              (wheel_cfg_same _ _ Hsame1 Hcfg) Hp1 ltac:(set_solver))
    as (w2 & L2 & nx & Hdd & HL2 & Hsame2 & Hlk2 & Hp2 & Hpay2 & Hperm2 & Hshape2).
  { rewrite (slice_after_same w w1) by done. rewrite Hlk1.
    destruct Hsame1 as (_ & -> & _). done. }
  rewrite gset_add_remove in HL2 by set_solver.
  eexists w2, L2, _. split.
  { unfold st_bind. by rewrite Hrm, Hdd. }
  split; [done|]. split; [by eapply same_cfg_trans|]. split; [congruence|].
  split; [exact Hp2|]. split; [done|]. split.
  { intros x Hx. eapply same_payload_trans; [by apply Hpay1 | by apply Hpay2]. }
  split; [by rewrite Hperm2, Hperm1|].
  destruct Hshape1 as (i & l & j & Hi & Hj & ->).
  destruct Hshape2 as (i2 & l2 & Hs2 & Hi2 & ->).
  exists i, l, j, i2, l2. split; [done|]. split; [done|]. split; [|done].
  rewrite <- Hs2. symmetry. by apply slice_after_same.
Qed.

Lemma length_concat_delete (L : list (list handle)) i l j p :
  L !! i = Some l -> l !! j = Some p ->
  length (concat L) = Datatypes.S (length (concat (<[i := delete j l]> L))).
Proof.
  intros Hi Hj. pose proof (concat_insert_delete L i l j p Hi Hj) as Hperm.
  by rewrite Hperm.
Qed.

Lemma tick_walk_total k : forall fuel w L l p,
  wheel_cfg w -> 2 <= nslices_ w -> linked ∅ w L -> armed w ->
  L !! Z.to_nat (curr_slice_ w) = Some l -> l !! k = Some p -> (k < fuel)%nat ->
  (thread_safe_ w = true -> slock_ w = {[ curr_slice_ w ]}) ->
  exists w', tick_walk quiet fuel (Some p) w = Ok (tt, w') /\ walk_post w L w'.
Proof.
  induction k as [k IH] using lt_wf_ind.
  intros fuel w L l p Hcfg HN HL Harm Hc Hk Hfuel Hlock.
  destruct fuel as [|fuel]; [lia|].
  set (c := curr_slice_ w) in *.
  assert (0 <= c < nslices_ w) as Hcr by apply Hcfg.
  destruct (lk_entry _ _ _ HL _ l k p Hc Hk) as (e & Hp & Hsl & Hprev & Hnext).
  rewrite Z2Nat.id in Hsl by lia.
  pose proof (lk_nodup _ _ _ HL) as Hnd.
  (* what remains to be walked once [p] has been dealt with *)
  assert (Hcont : forall w1 L1 l1,
    same_cfg w w1 -> linked ∅ w1 L1 -> armed w1 -> slock_ w1 = slock_ w ->
    L1 !! Z.to_nat c = Some l1 ->
    (forall k', k = Datatypes.S k' -> l1 !! k' = l !! k') ->
    (length (concat L1) <= length (concat L))%nat ->
    exists w', tick_walk quiet fuel (pred_of l k) w1 = Ok (tt, w') /\ walk_post w L w').
  { intros w1 L1 l1 Hsame HL1 Harm1 Hlk1 Hc1 Hl1 Hlen.
    destruct k as [|k']; cbn [pred_of].
    - exists w1. split; [by destruct fuel|]. by exists L1.
    - destruct (l !! k') as [q|] eqn:Hq.
      2:{ apply lookup_lt_Some in Hk. apply lookup_ge_None in Hq. lia. }
      pose proof Hsame as (Eg & Ets & EN & Ec).
      destruct (IH k' ltac:(lia) fuel w1 L1 l1 q) as (w' & Hrun & L' & HL' & Hs' & Hlk' & Ha' & Hlen');
        try done.
      + by eapply wheel_cfg_same.
      + lia.
      + by rewrite Ec.
      + by rewrite (Hl1 k' eq_refl).
      + lia.
      + rewrite Ets, Ec, Hlk1. done.
      + exists w'. split; [done|]. exists L'. split; [done|].
        split; [by eapply same_cfg_trans|]. split; [congruence|]. split; [done|]. lia. }
  cbn [tick_walk]. unfold st_bind at 1. rewrite (load_ok p e w Hp).
  destruct (valid_ e) eqn:Hv; cbn [negb].
  2:{ (* a corpse *)
    destruct (unlink_shape ∅ w L p e HL Hp ltac:(set_solver))
      as (L1 & Hun & HL1 & Hperm & Hp1 & (i & l0 & j & Hi & Hj & ->)).
    unfold st_bind at 1. rewrite Hun.
    unfold st_bind at 1. unfold free_to_slab_ at 1. rewrite Hp1. rewrite Hprev.
    apply (Hcont _ (<[i := delete j l0]> L) (delete k l)).
    - by repeat split.
    - rewrite <- (gset_add_remove ∅ p) by set_solver. apply linked_free; [set_solver|done].
    - eapply armed_frame; [exact Harm| |].
      + intros x Hx. unfold same_payload. wsimpl. rewrite lookup_delete_ne by done.
        apply unlinked_payload.
      + intros e'. wsimpl. by rewrite lookup_delete_eq.
    - done.
    - by eapply taken_out.
    - intros k' ->. apply list_lookup_delete_lt. lia.
    - rewrite (length_concat_delete L i l0 j p Hi Hj). lia. }
  destruct (nspins_ e =? 0) eqn:Hn; cbn [negb].
  2:{ (* one more revolution *)
    unfold st_bind at 1. rewrite (store_ok p e _ w Hp).
    unfold st_bind at 1.
    erewrite load_ok by (wsimpl; by rewrite lookup_alter_eq, Hp).
    cbn [prev_ set_nspins]. rewrite Hprev.
    apply (Hcont _ L l).
    - by repeat split.
    - apply linked_alter; [right; by intros []|done].
    - eapply armed_frame; [exact Harm| |].
      + intros x Hx. by apply alter_payload.
      + intros e'. wsimpl. rewrite lookup_alter_eq, Hp. intros [= <-]. cbn.
        intros _. by eapply Harm.
    - done.
    - done.
    - done.
    - done. }
  (* the timer fires *)
  assert (cb_ e <> 0) as Hcb by (by eapply Harm).
  unfold st_bind at 1. unfold call_cb at 1. unfold st_bind at 1.
  rewrite (load_ok p e w Hp). rewrite (proj2 (Z.eqb_neq _ _) Hcb).
  unfold quiet at 1. unfold st_ret at 1.
  unfold st_bind at 1. rewrite (load_ok p e w Hp). rewrite Hv, Hprev.
  destruct (periodic_ e) eqn:Hper.
  - assert (slice_after w (timeout_ e) (slice_ e) true <> c) as Hne.
    { rewrite Hsl. by apply slice_after_differs. }
    destruct (upd_timer__shape ∅ w L p e (timeout_ e) true HL Hcfg Hp ltac:(set_solver) Hv)
      as (w1 & L1 & nx & Hrun & HL1 & Hsame1 & Hlk1 & Hp1 & Hpay1 & Hperm1 &
          (i & l0 & j & i2 & l2 & Hi & Hj & Hs2 & Hi2 & ->)).
    { intros Hts. rewrite (Hlock Hts). by apply not_elem_of_singleton. }
    unfold st_bind at 1. rewrite Hrun.
    apply (Hcont w1 (<[i2 := p :: l2]> (<[i := delete j l0]> L)) (delete k l)); try done.
    + eapply armed_frame; [exact Harm|exact Hpay1|].
      intros e'. rewrite Hp1. intros [= <-] _. done.
    + eapply moved_away; try done. intros ->. apply Hne. rewrite Hs2. lia.
    + intros k' ->. apply list_lookup_delete_lt. lia.
    + by rewrite Hperm1.
  - assert (slice_after w TWHEEL_DELAY_DELETE (slice_ e) true <> c) as Hne.
    { rewrite Hsl. by apply slice_after_differs. }
    destruct (expire_shape w L p e HL Hcfg Hp Hv)
      as (w1 & L1 & e1 & Hrun & HL1 & Hsame1 & Hlk1 & Hp1 & Hv1 & Hpay1 & Hperm1 &
          (i & l0 & j & i2 & l2 & Hi & Hj & Hs2 & Hi2 & ->)).
    { intros Hts. rewrite (Hlock Hts). by apply not_elem_of_singleton. }
    unfold st_bind at 1. rewrite Hrun.
    apply (Hcont w1 (<[i2 := p :: l2]> (<[i := delete j l0]> L)) (delete k l)); try done.
    + eapply armed_frame; [exact Harm|exact Hpay1|].
      intros e'. rewrite Hp1. intros [= <-] Hv'. congruence.
    + eapply moved_away; try done. intros ->. apply Hne. rewrite Hs2. lia.
    + intros k' ->. apply list_lookup_delete_lt. lia.
    + by rewrite Hperm1.
Qed.

Lemma last_timer_loop_total (l : list handle) : forall fuel k w L c p,
  linked ∅ w L -> L !! c = Some l -> l !! k = Some p ->
  (length l <= fuel + Datatypes.S k)%nat ->
  exists last, last_timer_loop fuel (Some p) w = Ok (Some last, w) /\
               l !! (length l - 1)%nat = Some last.
Proof.
  induction fuel as [|fuel IH]; intros k w L c p HL Hc Hk Hlen.
  all: destruct (lk_entry _ _ _ HL c l k p Hc Hk) as (e & Hp & _ & _ & Hnext).
  all: cbn [last_timer_loop]; unfold st_bind; rewrite (load_ok p e w Hp).
  all: pose proof (lookup_lt_Some _ _ _ Hk) as Hlt.
  - rewrite Hnext. rewrite (proj2 (lookup_ge_None l (Datatypes.S k))) by lia.
    exists p. split; [done|]. by replace (length l - 1)%nat with k by lia.
  - rewrite Hnext. destruct (l !! Datatypes.S k) as [n|] eqn:Hn.
    + apply (IH (Datatypes.S k) w L c n); [done..|lia].
    + apply lookup_ge_None in Hn. exists p. split; [done|].
      by replace (length l - 1)%nat with k by lia.
Qed.

Lemma armed_same w w' : twentry_slab_ w' = twentry_slab_ w -> armed w -> armed w'.
Proof. intros E Harm p e. rewrite E. apply Harm. Qed.

Lemma length_slice_le (L : list (list handle)) c l :
  L !! c = Some l -> (length l <= length (concat L))%nat.
Proof.
  revert c. induction L as [|l0 L IH]; intros [|c] H; simplify_eq/=.
  - rewrite length_app. lia.
  - rewrite length_app. specialize (IH c H). lia.
Qed.

Lemma tick_slices_total n : forall fuel w L,
  wheel_cfg w -> 2 <= nslices_ w -> linked ∅ w L -> armed w -> slock_ w = ∅ ->
  (length (concat L) < fuel)%nat ->
  exists w' L',
    tick_slices quiet fuel n w = Ok (tt, w') /\
    wheel_cfg w' /\ linked ∅ w' L' /\ armed w' /\ slock_ w' = ∅ /\
    nslices_ w' = nslices_ w /\ slice_intvl_ w' = slice_intvl_ w /\
    thread_safe_ w' = thread_safe_ w /\
    curr_slice_ w' = (curr_slice_ w + Z.of_nat n) mod nslices_ w /\
    (length (concat L') <= length (concat L))%nat.
Proof.
  induction n as [|n IH]; intros fuel w L Hcfg HN HL Harm Hlk Hfuel.
  { exists w, L. split; [done|]. repeat (split; [done|]). split; [|done].
    rewrite Z.add_0_r. symmetry. apply Z.mod_small. apply Hcfg. }
  set (c := curr_slice_ w).
  assert (0 <= c < nslices_ w) as Hcr by apply Hcfg.
  assert (exists l, L !! Z.to_nat c = Some l) as [l Hc].
  { apply lookup_lt_is_Some_2. rewrite (lk_len _ _ _ HL). lia. }
  pose proof (length_slice_le L _ l Hc) as Hll.
  destruct (lockst_fields c w) as (Eslab & EN & Ehd & Enum & Esame).
  pose proof Esame as (Eg & Ets & _ & Ec).
  set (w0 := lockst c w) in *.
  assert (Hcfg0 : wheel_cfg w0) by (by eapply wheel_cfg_same).
  assert (HL0 : linked ∅ w0 L) by (by apply linked_lockst).
  assert (Harm0 : armed w0) by (by eapply armed_same).
  assert (Hlk0 : thread_safe_ w0 = true -> slock_ w0 = {[ curr_slice_ w0 ]}).
  { intros Hts. rewrite Ec. fold c. unfold w0, lockst. rewrite Ets in Hts. rewrite Hts.
    cbn. rewrite Hlk. set_solver. }
  (* the walk of the slice *)
  assert (exists r w1 L1,
    last_timer_in_slice fuel c w0 = Ok (r, w0) /\
    tick_walk quiet fuel r w0 = Ok (tt, w1) /\
    linked ∅ w1 L1 /\ same_cfg w0 w1 /\ slock_ w1 = slock_ w0 /\ armed w1 /\
    (length (concat L1) <= length (concat L))%nat)
    as (r & w1 & L1 & Hlast & Hwalk & HL1 & Hsame1 & Hlk1 & Harm1 & Hlen1).
  { unfold last_timer_in_slice.
    erewrite st_bind_Ok by (apply get_head_ok; by rewrite EN).
    rewrite Ehd.
    replace (slice_head_ w !! c) with (slice_head_ w !! Z.of_nat (Z.to_nat c))
      by (by rewrite Z2Nat.id by lia).
    rewrite (lk_head _ _ _ HL _ l Hc).
    destruct l as [|p l'].
    - cbn [head]. exists None, w0, L. split; [by destruct fuel|]. split; [by destruct fuel|].
      split; [done|]. split; [apply same_cfg_refl|]. split; [done|]. split; [done|]. lia.
    - cbn [head].
      destruct (last_timer_loop_total (p :: l') fuel 0 w0 L (Z.to_nat c) p HL0 Hc eq_refl)
        as (last & Hlast & Hpos); [cbn in *; lia|].
      destruct (tick_walk_total (length (p :: l') - 1) fuel w0 L (p :: l') last)
        as (w1 & Hrun & L1 & HL1 & Hsame1 & Hlk1 & Harm1 & Hlen1); try done.
      + by rewrite EN.
      + by rewrite Ec.
      + cbn in *. lia.
      + by exists (Some last), w1, L1. }
  pose proof Hsame1 as (Eg1 & Ets1 & EN1 & Ec1).
  destruct (unlockst_fields c w1) as (Eslab2 & EN2 & Ehd2 & Enum2 & Esame2).
  pose proof Esame2 as (Eg2 & Ets2 & _ & Ec2).
  set (w2 := unlockst c w1) in *.
  assert (Hlk2 : slock_ w2 = ∅).
  { unfold w2. rewrite <- Hlk. apply unlockst_restores; [by rewrite Hlk|congruence|done]. }
  assert (wrap32 (c + 1) = c + 1) as Hw.
  { unfold wrap32. apply Z.mod_small. destruct Hcfg as (? & ? & ? & ?). nia. }
  set (w3 := with_curr ((c + 1) mod nslices_ w) w2).
  assert (Hstep : tick_slices quiet fuel (Datatypes.S n) w = tick_slices quiet fuel n w3).
  { cbn [tick_slices].
    erewrite st_bind_Ok by reflexivity.
    erewrite st_bind_Ok by (apply lock_ok; [done|by rewrite Hlk]).
    erewrite st_bind_Ok by exact Hlast.
    erewrite st_bind_Ok by exact Hwalk.
    erewrite st_bind_Ok by reflexivity.
    erewrite st_bind_Ok.
    2:{ rewrite Ec1, Ec. apply unlock_ok; [by rewrite EN1, EN|].
        rewrite Ets1. intros Hts. rewrite Hlk1, (Hlk0 Hts), Ec. set_solver. }
    erewrite st_bind_Ok by reflexivity.
    erewrite st_bind_Ok by reflexivity.
    erewrite st_bind_Ok.
    2:{ unfold umod. change (unlockst (curr_slice_ w) w1) with w2. rewrite EN2, EN1, EN.
        rewrite (proj2 (Z.eqb_neq (nslices_ w) 0)) by lia. reflexivity. }
    erewrite st_bind_Ok by reflexivity.
    change (unlockst (curr_slice_ w) w1) with w2.
    rewrite Ec2, Ec1, Ec. fold c. rewrite Hw. reflexivity. }
  rewrite Hstep.
  destruct (IH fuel w3 L1)
    as (w' & L' & Hrun & Hcfg' & HL' & Harm' & Hlk' & EN' & Eg' & Ets' & Ec' & Hlen').
  - unfold w3, wheel_cfg. wsimpl. rewrite Eg2, Eg1, Eg, EN2, EN1, EN.
    destruct Hcfg as (? & ? & ? & ?). repeat split; try done.
    all: apply Z.mod_pos_bound; lia.
  - unfold w3. wsimpl. by rewrite EN2, EN1, EN.
  - apply (linked_same _ w2); [done..|]. by apply linked_unlockst.
  - apply (armed_same w2); [done|]. by apply (armed_same w1).
  - done.
  - lia.
  - exists w', L'. split; [done|]. split; [done|]. split; [done|]. split; [done|].
    split; [done|].
    assert (nslices_ w3 = nslices_ w) as EN3 by (unfold w3; wsimpl; by rewrite EN2, EN1, EN).
    assert (slice_intvl_ w3 = slice_intvl_ w) as Eg3 by (unfold w3; wsimpl; by rewrite Eg2, Eg1, Eg).
    assert (thread_safe_ w3 = thread_safe_ w) as Ets3 by (unfold w3; wsimpl; by rewrite Ets2, Ets1, Ets).
    split; [congruence|]. split; [congruence|]. split; [congruence|]. split; [|lia].
    rewrite Ec', EN3. unfold w3. wsimpl. fold c.
    rewrite Zplus_mod_idemp_l. f_equal. lia.
Qed.

Lemma tick_total w msecs_elapsed :
  wheel_inv w -> 2 <= nslices_ w -> slock_ w = ∅ -> armed w ->
  0 <= msecs_elapsed < 4294967296 ->
  exists fuel0, forall fuel, (fuel0 <= fuel)%nat ->
    exists w',
      tick quiet fuel msecs_elapsed w = Ok (tt, w') /\
      wheel_inv w' /\ slock_ w' = ∅ /\ armed w' /\
      nslices_ w' = nslices_ w /\ slice_intvl_ w' = slice_intvl_ w /\
      thread_safe_ w' = thread_safe_ w /\
      curr_slice_ w' =
        (curr_slice_ w + msecs_elapsed / slice_intvl_ w) mod nslices_ w.
Proof.
  intros [Hcfg [L HL]] HN Hlk Harm Hms.
  exists (Datatypes.S (length (concat L))). intros fuel Hfuel.
  pose proof Hcfg as (Hg & _ & _ & Hc).
  unfold tick. erewrite st_bind_Ok by reflexivity.
  destruct (msecs_elapsed <? slice_intvl_ w) eqn:Hlt.
  { exists w. split; [done|]. split; [split; [done|by exists L]|].
    repeat (split; [done|]).
    rewrite Z.div_small by lia. rewrite Z.add_0_r. symmetry. by apply Z.mod_small. }
  erewrite st_bind_Ok by (unfold udiv; rewrite (proj2 (Z.eqb_neq _ 0)) by lia; reflexivity).
  assert (1 <= msecs_elapsed / slice_intvl_ w) as Hq by (apply Z.div_le_lower_bound; lia).
  assert (msecs_elapsed / slice_intvl_ w <= msecs_elapsed) as Hq'.
  { apply Z.div_le_upper_bound; nia. }
  assert (wrap32 (msecs_elapsed / slice_intvl_ w) = msecs_elapsed / slice_intvl_ w) as ->.
  { unfold wrap32. apply Z.mod_small. lia. }
  erewrite st_bind_Ok by (unfold st_assert; rewrite (proj2 (Z.leb_le _ _) Hq); reflexivity).
  destruct (tick_slices_total (Z.to_nat (msecs_elapsed / slice_intvl_ w)) fuel w L)
    as (w' & L' & Hrun & Hcfg' & HL' & Harm' & Hlk' & EN & Eg & Ets & Ec & _); try done.
  exists w'. split; [done|]. split; [split; [done|by exists L']|].
  repeat (split; [done|]). rewrite Ec. f_equal. lia.
Qed.

(** ** The timer wheel: the properties of the specification *)
Lemma concat_replicate_nil {A} n : concat (replicate n (@nil A)) = [].
Proof. induction n; simpl; auto. Qed.

(** A wheel without entries, as [factory] returns it, satisfies the
    invariant. *)
Lemma wheel_inv_empty w :
  wheel_cfg w -> twentry_slab_ w = ∅ -> slice_head_ w = ∅ -> num_entries_ w = 0 ->
  wheel_inv w.
Proof.
  intros Hcfg Hs Hh Hn. split; [done|].
  exists (replicate (Z.to_nat (nslices_ w)) []). split.
  - by rewrite length_replicate.
  - rewrite concat_replicate_nil. constructor.
  - intros p. rewrite concat_replicate_nil, Hs, lookup_empty.
    split; [intros H; by apply elem_of_nil in H | intros [[? ?] _]; done].
  - intros i l Hi. apply lookup_replicate in Hi as [-> _]. by rewrite Hh, lookup_empty.
  - intros i l j p Hi Hj. apply lookup_replicate in Hi as [-> _]. done.
  - by rewrite concat_replicate_nil, Hn.
Qed.

(** What [get_timeout_remaining] computes: none of the 64-bit operations
    wraps, the 32-bit slice difference may. *)
Lemma get_timeout_remaining_ok w p e :
  wheel_cfg w -> twentry_slab_ w !! p = Some e ->
  0 <= nspins_ e < 65536 ->
  get_timeout_remaining (Some p) w =
    Ok (nspins_ e * (nslices_ w * slice_intvl_ w) +
        (wrap32 (slice_ e - curr_slice_ w + nslices_ w) mod nslices_ w) * slice_intvl_ w, w).
Proof.
  intros Hcfg Hp Hn. destruct (wheel_cfg_period w Hcfg) as [Hw Hpos].
  destruct Hcfg as (Hg & HN & Hper & Hc).
  unfold get_timeout_remaining, st_bind, st_gets, umod, st_ret.
  rewrite (load_ok p e) by done.
  destruct (Z.eqb_spec (nslices_ w) 0) as [?|_]; [lia|].
  rewrite Hw.
  assert (Hsum : wrap32 (wrap32 (slice_ e - curr_slice_ w) + nslices_ w)
                 = wrap32 (slice_ e - curr_slice_ w + nslices_ w)).
  { unfold wrap32. by rewrite Zplus_mod_idemp_l. }
  rewrite Hsum.
  set (r := wrap32 (slice_ e - curr_slice_ w + nslices_ w) mod nslices_ w).
  assert (Hr : 0 <= r < nslices_ w) by (apply Z.mod_pos_bound; lia).
  do 2 f_equal. unfold wrap64.
  rewrite (Z.mod_small (nspins_ e * _)) by nia.
  rewrite (Z.mod_small (r * _)) by nia.
  apply Z.mod_small. nia.
Qed.

Lemma demo_wheel_inv : wheel_inv demo_wheel.
Proof. apply wheel_inv_empty; [unfold wheel_cfg; simpl; lia|done..]. Qed.

(** *** Deleting a timer twice *)
Lemma del_timer_then_again w p e :
  wheel_inv w -> slock_ w = ∅ ->
  twentry_slab_ w !! p = Some e -> valid_ e = true ->
  exists w' e',
    del_timer (Some p) w = Ok (ctxt_ e, w') /\
    wheel_inv w' /\ slock_ w' = ∅ /\
    twentry_slab_ w' !! p = Some e' /\
    valid_ e' = false /\ ctxt_ e' = 0 /\
    slice_ e' = slice_after w TWHEEL_DELAY_DELETE (slice_ e) true /\
    0 <= slice_ e' < nslices_ w /\
    del_timer (Some p) w' = Ok (0, w').
Proof.
  intros [Hcfg [L HL]] Hlk Hp Hv.
  destruct (del_timer_valid w L p e HL Hcfg Hlk Hp Hv)
    as (w' & L' & nx & Hrun & HL' & Hsame & Hlk' & Hp' & Hpay & Hperm).
  eexists w', _. split; [exact Hrun|]. split; [split; [by eapply wheel_cfg_same|by exists L']|].
  split; [done|]. split; [exact Hp'|]. split; [done|]. split; [done|]. split; [done|].
  split; [by apply slice_after_range|].
  by rewrite (del_timer_invalid w' L' p _ HL' Hlk' Hp').
Qed.

(** C1 (amended): on a wheel that satisfies the invariant, with no slice
    lock held, [del_timer] of a valid entry returns the entry's [ctxt_] and
    parks the entry, invalid and with its [ctxt_] cleared, in the
    delay-delete slice; a second [del_timer] of the same handle does not
    fail and changes nothing, but it returns 0 (the null pointer), not the
    context the first call returned. *)
Theorem del_timer_twice w p e :
  wheel_inv w -> slock_ w = ∅ ->
  twentry_slab_ w !! p = Some e -> valid_ e = true ->
  exists w' e',
    del_timer (Some p) w = Ok (ctxt_ e, w') /\
    wheel_inv w' /\ slock_ w' = ∅ /\
    twentry_slab_ w' !! p = Some e' /\
    valid_ e' = false /\ ctxt_ e' = 0 /\
    slice_ e' = slice_after w TWHEEL_DELAY_DELETE (slice_ e) true /\
    0 <= slice_ e' < nslices_ w /\
    del_timer (Some p) w' = Ok (0, w').
Proof. apply del_timer_then_again. Qed.

(** The timer 1 of context 77 on [demo_wheel]: 77 at the first delete, 0
    at the second. *)
Lemma del_timer_twice_demo :
  exists w1 w2,
    add_timer (Some 1%positive) 1 350 77 5 false 0 demo_wheel = Ok (Some 1%positive, w1) /\
    del_timer (Some 1%positive) w1 = Ok (77, w2) /\
    del_timer (Some 1%positive) w2 = Ok (0, w2).
Proof.
  destruct (add_timer_spec demo_wheel (Some 1%positive) 1 350 77 5 false 0)
    as (w1 & Hadd & Hl1 & Hsame1 & Hlk1 & _ & Hent & _).
  { apply demo_wheel_inv. } { apply demo_wheel_inv. } { done. } { by intros p [= <-]. }
  destruct (Hent 1%positive eq_refl) as [[nx Hp] _].
  destruct (del_timer_twice w1 1%positive _
              (conj (wheel_cfg_same _ _ Hsame1 (proj1 demo_wheel_inv)) Hl1) Hlk1 Hp eq_refl)
    as (w2 & e2 & Hdel1 & _ & _ & _ & _ & _ & _ & _ & Hdel2).
  exists w1, w2. split; [exact Hadd|]. split; [exact Hdel1 | exact Hdel2].
Defined.

(** C1 as stated fails: the second delete of that timer returns 0 where
    the first returned 77. *)
Lemma second_delete_returns_nil : ~ idempotent_delete_claim.
Proof.
  intros Hclaim.
  destruct (add_timer_spec demo_wheel (Some 1%positive) 1 350 77 5 false 0)
    as (w1 & Hadd & Hl1 & Hsame1 & Hlk1 & _ & Hent & _).
  { apply demo_wheel_inv. } { apply demo_wheel_inv. } { done. } { by intros p [= <-]. }
  destruct (Hent 1%positive eq_refl) as [[nx Hp] _].
  assert (Hinv1 : wheel_inv w1).
  { split; [|done]. eapply wheel_cfg_same; [exact Hsame1 | apply demo_wheel_inv]. }
  destruct (del_timer_then_again w1 1%positive _ Hinv1 Hlk1 Hp eq_refl)
    as (w2 & e2 & Hdel1 & _ & _ & _ & _ & _ & _ & _ & Hdel2).
  destruct (Hclaim w1 1%positive _ _ _ _ _ Hinv1 Hlk1 Hp eq_refl Hdel1 Hdel2)
    as (_ & Hsame & _).
  simpl in Hsame. discriminate Hsame.
Qed.

(** *** Time remaining *)

(** C4 (amended): for an entry with spin count [n] and slice [s],
    [get_timeout_remaining] returns [n*(N*g) + (((s - c + N) mod 2^32) mod
    N) * g]; the 32-bit sum [s - c + N] does not wrap on a wheel of at most
    2^31 slices; for the nil handle the result is 0. *)
Lemma get_timeout_remaining_value w p e :
  wheel_cfg w -> twentry_slab_ w !! p = Some e ->
  0 <= nspins_ e < 65536 -> 0 <= slice_ e < nslices_ w ->
  get_timeout_remaining (Some p) w =
    Ok (nspins_ e * (nslices_ w * slice_intvl_ w) +
        (wrap32 (slice_ e - curr_slice_ w + nslices_ w) mod nslices_ w)
        * slice_intvl_ w, w) /\
  (nslices_ w <= 2147483648 ->
   wrap32 (slice_ e - curr_slice_ w + nslices_ w)
     = slice_ e - curr_slice_ w + nslices_ w) /\
  get_timeout_remaining None w = Ok (0, w).
Proof.
  intros Hcfg Hp Hn Hs. split; [by apply get_timeout_remaining_ok|]. split; [|done].
  intros HN. destruct Hcfg as (_ & _ & _ & Hc). unfold wrap32. apply Z.mod_small. lia.
Qed.

(** On [wide_wheel] the difference wraps: the timer in slice 4294967294
    is reported 4294967293 ms away. *)
Lemma get_timeout_remaining_demo :
  get_timeout_remaining (Some 1%positive) wide_wheel = Ok (4294967293, wide_wheel).
Proof.
  destruct (get_timeout_remaining_value wide_wheel 1%positive
              (mk_twentry 1 4294967294 false true 0 5 0 4294967294 None None))
    as (Hrun & _).
  - unfold wheel_cfg, wide_wheel; simpl; lia.
  - reflexivity.
  - simpl; lia.
  - simpl; lia.
  - exact Hrun.
Defined.

Lemma wide_wheel_remaining :
  get_timeout_remaining (Some 1%positive) wide_wheel = Ok (4294967293, wide_wheel).
Proof. vm_compute. reflexivity. Qed.

(** C4 as stated fails on [wide_wheel]: the formula without wrap gives
    4294967294, the code 4294967293. *)
Lemma slice_difference_wraps : ~ timeout_remaining_claim.
Proof.
  intros Hclaim.
  pose proof (Hclaim wide_wheel 1%positive
                (mk_twentry 1 4294967294 false true 0 5 0 4294967294 None None)) as H.
  assert (Ok (4294967293, wide_wheel) = Ok (4294967294, wide_wheel)) as Heq.
  { transitivity (get_timeout_remaining (Some 1%positive) wide_wheel).
    - symmetry. exact wide_wheel_remaining.
    - apply H.
      + unfold wheel_cfg, wide_wheel; simpl; lia.
      + reflexivity.
      + simpl; lia.
      + simpl; lia. }
  apply Ok_inj in Heq as [Heq _]. discriminate Heq.
Qed.

(** [wide_wheel] is reached through the interface. *)
Lemma wide_wheel_reached :
  add_timer (Some 1%positive) 1 4294967294 0 5 false 0
    (mk_twheel ∅ 1 false 4294967295 ∅ ∅ 0 0) = Ok (Some 1%positive, wide_wheel).
Proof. vm_compute. reflexivity. Qed.

(** *** The slice chosen for an update *)
Lemma slice_offset_range w timeout :
  wheel_cfg w ->
  1 <= Z.max 1 ((timeout mod (nslices_ w * slice_intvl_ w)) / slice_intvl_ w)
    <= Z.max 1 (nslices_ w - 1).
Proof.
  intros (Hg & HN & HP & Hc).
  assert (0 <= timeout mod (nslices_ w * slice_intvl_ w) < nslices_ w * slice_intvl_ w)
    as Hr by (apply Z.mod_pos_bound; nia).
  assert ((timeout mod (nslices_ w * slice_intvl_ w)) / slice_intvl_ w < nslices_ w).
  { apply Z.div_lt_upper_bound; lia. }
  lia.
Qed.

(** C2 (amended): on a wheel of at least two slices
    [next_slice_(timeout, entry_slice, true)] returns a slice in range and
    different from [entry_slice]: the candidate
    [((curr_slice + max(1, (timeout mod (N*g))/g)) mod 2^32) mod N],
    advanced by one slot when it equals [entry_slice]; the 32-bit sum does
    not wrap on a wheel of at most 2^31 slices.  Hence [upd_timer] with no
    lock held, and [upd_timer_] under the lock of the entry's slice (the
    periodic reschedule of [tick]), run to the end without taking a lock
    that is held, and restore the locks they found. *)
Theorem next_slice_update_differs w timeout entry_slice :
  wheel_cfg w -> 2 <= nslices_ w ->
  let k := Z.max 1 ((timeout mod (nslices_ w * slice_intvl_ w)) / slice_intvl_ w) in
  let cand := wrap32 (curr_slice_ w + k) mod nslices_ w in
  (exists s,
     next_slice_ timeout entry_slice true w = Ok (s, w) /\
     s <> entry_slice /\ 0 <= s < nslices_ w /\
     s = if cand =? entry_slice then (cand + 1) mod nslices_ w else cand) /\
  (nslices_ w <= 2147483648 -> wrap32 (curr_slice_ w + k) = curr_slice_ w + k) /\
  (forall p e periodic ctxt,
     slices_linked w -> slock_ w = ∅ ->
     twentry_slab_ w !! p = Some e -> valid_ e = true ->
     exists w', upd_timer (Some p) timeout periodic ctxt w = Ok (Some p, w') /\
                slock_ w' = ∅) /\
  (forall p e periodic,
     slices_linked w -> slock_ w = {[ slice_ e ]} ->
     twentry_slab_ w !! p = Some e -> valid_ e = true ->
     exists w', upd_timer_ p timeout periodic w = Ok (tt, w') /\
                slock_ w' = {[ slice_ e ]}).
Proof.
  intros Hcfg HN k cand. split; [|split; [|split]].
  - exists (slice_after w timeout entry_slice true).
    split; [by apply next_slice_ok|]. split; [by apply slice_after_differs|].
    split; [by apply slice_after_range|]. unfold slice_after. by rewrite andb_true_l.
  - intros Hsmall. pose proof (slice_offset_range w timeout Hcfg) as Hk. fold k in Hk.
    destruct Hcfg as (_ & _ & _ & Hc). unfold wrap32. apply Z.mod_small. lia.
  - intros p e periodic ctxt [L HL] Hlk Hp Hv.
    destruct (upd_timer_valid w L p e timeout periodic ctxt HL Hcfg Hlk (fun _ => HN) Hp Hv)
      as (w' & _ & _ & Hrun & _ & _ & Hlk' & _).
    by exists w'.
  - intros p e periodic [L HL] Hlk Hp Hv.
    destruct (upd_timer__spec ∅ w L p e timeout periodic HL Hcfg Hp) as
      (w' & _ & _ & Hrun & _ & _ & Hlk' & _).
    + set_solver.
    + done.
    + intros _. rewrite Hlk. apply not_elem_of_singleton. by apply slice_after_differs.
    + exists w'. split; [done|]. by rewrite Hlk'.
Qed.

(** On [demo_wheel]: an update by 350 ms of an entry in slice 3. *)
Lemma next_slice_update_demo :
  exists s, next_slice_ 350 3 true demo_wheel = Ok (s, demo_wheel) /\ s <> 3.
Proof.
  destruct (next_slice_update_differs demo_wheel 350 3) as ((s & Hrun & Hne & _) & _).
  - unfold wheel_cfg, demo_wheel; simpl; lia.
  - simpl; lia.
  - exists s. split; [exact Hrun | exact Hne].
Defined.

Lemma wide_wheel_next_slice :
  next_slice_ 4294967294 7 true wide_wheel_ticked = Ok (0, wide_wheel_ticked).
Proof. vm_compute. reflexivity. Qed.

Lemma wide_wheel_ticked_reached :
  tick quiet 1 2 (mk_twheel ∅ 1 false 4294967295 ∅ ∅ 0 0) = Ok (tt, wide_wheel_ticked).
Proof. vm_compute. reflexivity. Qed.

(** C2 as stated fails in its formula of the candidate: on
    [wide_wheel_ticked] the sum 2 + 4294967294 wraps to 0, and the code
    returns slice 0 where the unwrapped formula gives 1. *)
Lemma next_slice_sum_wraps : ~ next_slice_claim.
Proof.
  intros Hclaim.
  destruct (Hclaim wide_wheel_ticked 4294967294 7) as (s & Hrun & _ & Hs).
  - unfold wheel_cfg, wide_wheel_ticked; simpl; lia.
  - simpl; lia.
  - lia.
  - simpl; lia.
  - assert (Ok (s, wide_wheel_ticked) = Ok (0, wide_wheel_ticked)) as Heq.
    { transitivity (next_slice_ 4294967294 7 true wide_wheel_ticked);
        [symmetry; exact Hrun | exact wide_wheel_next_slice]. }
    apply Ok_inj in Heq as [-> _]. vm_compute in Hs. discriminate Hs.
Qed.

(** On a thread-safe wheel with a single slice the new slice is the entry's
    own, whose lock [upd_timer] already holds. *)
Lemma single_slice_deadlock :
  exists w,
    add_timer (Some 1%positive) 1 5 77 5 false 0 single_slice_wheel
      = Ok (Some 1%positive, w) /\
    upd_timer (Some 1%positive) 5 false 77 w = Err Deadlock.
Proof. eexists. split; [vm_compute; reflexivity|]. vm_compute. reflexivity. Qed.

(** *** The invariant *)

(** C3: [wheel_inv] (every allocated, not yet reclaimed entry is linked
    into exactly one slice list, at one position, with head, [next_],
    [prev_] and [slice_] fields that agree, and [num_entries_] is the
    32-bit count of the linked entries, corpses included) is preserved by
    [add_timer], [del_timer], [upd_timer] and [tick], whatever locks are
    held and whatever the callbacks do within [callbacks_ok].  With no
    slice lock held the three calls of the interface return; and so does
    [tick], for callbacks that leave the wheel alone, on a wheel of at
    least two slices whose valid entries all have a callback. *)
Theorem wheel_inv_preserved invoke w :
  callbacks_ok invoke -> wheel_inv w ->
  ((forall mem timer_id timeout ctxt cb periodic initial_delay r w',
      add_timer mem timer_id timeout ctxt cb periodic initial_delay w = Ok (r, w') ->
      wheel_inv w') /\
   (forall timer r w', del_timer timer w = Ok (r, w') -> wheel_inv w') /\
   (forall timer timeout periodic ctxt r w',
      upd_timer timer timeout periodic ctxt w = Ok (r, w') -> wheel_inv w') /\
   (forall fuel msecs_elapsed w',
      tick invoke fuel msecs_elapsed w = Ok (tt, w') -> wheel_inv w')) /\
  (slock_ w = ∅ ->
   (forall mem timer_id timeout ctxt cb periodic initial_delay,
      (forall p, mem = Some p -> twentry_slab_ w !! p = None) ->
      exists w',
        add_timer mem timer_id timeout ctxt cb periodic initial_delay w = Ok (mem, w') /\
        wheel_inv w') /\
   (forall timer,
      (forall p, timer = Some p -> is_Some (twentry_slab_ w !! p)) ->
      exists r w', del_timer timer w = Ok (r, w') /\ wheel_inv w') /\
   (forall timer timeout periodic ctxt,
      (forall p, timer = Some p -> is_Some (twentry_slab_ w !! p)) ->
      (thread_safe_ w = true -> 2 <= nslices_ w) ->
      exists w', upd_timer timer timeout periodic ctxt w = Ok (timer, w') /\
                 wheel_inv w') /\
   (forall msecs_elapsed,
      2 <= nslices_ w -> armed w -> 0 <= msecs_elapsed < 4294967296 ->
      exists fuel0, forall fuel, (fuel0 <= fuel)%nat ->
        exists w', tick quiet fuel msecs_elapsed w = Ok (tt, w') /\ wheel_inv w')).
Proof.
  intros Hcb Hinv.
  assert (Hadd : forall mem timer_id timeout ctxt cb periodic initial_delay r w',
      add_timer mem timer_id timeout ctxt cb periodic initial_delay w = Ok (r, w') ->
      wheel_inv w').
  { intros * Hrun. exact (proj1 (add_timer_inv _ _ _ _ _ _ _ _ _ _ Hinv Hrun)). }
  assert (Hdel : forall timer r w', del_timer timer w = Ok (r, w') -> wheel_inv w').
  { intros * Hrun. exact (proj1 (del_timer_inv _ _ _ _ Hinv Hrun)). }
  assert (Hupd : forall timer timeout periodic ctxt r w',
      upd_timer timer timeout periodic ctxt w = Ok (r, w') -> wheel_inv w').
  { intros * Hrun. exact (proj1 (upd_timer_inv _ _ _ _ _ _ _ Hinv Hrun)). }
  split; [split; [done|split; [done|split; [done|]]]|].
  { intros * Hrun. exact (tick_inv invoke Hcb _ _ _ _ Hinv Hrun). }
  intros Hlk. destruct Hinv as [Hcfg [L HL]].
  split; [|split; [|split]].
  - intros mem timer_id timeout ctxt cb periodic initial_delay Hfresh.
    destruct (add_timer_spec w mem timer_id timeout ctxt cb periodic initial_delay
                ltac:(by exists L) Hcfg Hlk Hfresh) as (w' & Hrun & _).
    exists w'. split; [done|]. by eapply Hadd.
  - intros [p|] Hp.
    + destruct (Hp p eq_refl) as [e He]. destruct (valid_ e) eqn:Hv.
      * destruct (del_timer_valid w L p e HL Hcfg Hlk He Hv) as (w' & _ & _ & Hrun & _).
        exists (ctxt_ e), w'. split; [done|]. by eapply Hdel.
      * exists (ctxt_ e), w. split; [by eapply del_timer_invalid|].
        split; [done|by exists L].
    + exists 0, w. split; [done|]. split; [done|by exists L].
  - intros [p|] timeout periodic ctxt Hp HN.
    + destruct (Hp p eq_refl) as [e He]. destruct (valid_ e) eqn:Hv.
      * destruct (upd_timer_valid w L p e timeout periodic ctxt HL Hcfg Hlk HN He Hv)
          as (w' & _ & _ & Hrun & _).
        exists w'. split; [done|]. by eapply Hupd.
      * exists w. split; [by eapply upd_timer_invalid|]. split; [done|by exists L].
    + exists w. split; [done|]. split; [done|by exists L].
  - intros msecs_elapsed HN Harm Hms.
    destruct (tick_total w msecs_elapsed ltac:(split; [done|by exists L]) HN Hlk Harm Hms)
      as [fuel0 Htick].
    exists fuel0. intros fuel Hfuel. destruct (Htick fuel Hfuel) as (w' & Hrun & Hinv' & _).
    by exists w'.
Qed.

Lemma quiet_ok : callbacks_ok quiet.
Proof.
  intros cb p timer_id ctxt w w' Hinv Hrun. apply Ok_inj in Hrun as [_ <-].
  split; [done|by intros ?].
Qed.

Lemma demo_loaded_run : demo_ops demo_wheel = Ok (77, demo_loaded).
Proof. vm_compute. reflexivity. Qed.

Lemma demo_loaded_inv : wheel_inv demo_loaded.
Proof.
  pose proof demo_loaded_run as Hrun. unfold demo_ops in Hrun.
  apply bind_Ok_inv in Hrun as (r1 & w1 & H1 & Hrun).
  apply bind_Ok_inv in Hrun as (r2 & w2 & H2 & Hrun).
  apply bind_Ok_inv in Hrun as (r3 & w3 & H3 & Hrun).
  apply (add_timer_inv _ _ _ _ _ _ _ _ _ _ demo_wheel_inv) in H1 as [Hinv1 _].
  apply (add_timer_inv _ _ _ _ _ _ _ _ _ _ Hinv1) in H2 as [Hinv2 _].
  apply (add_timer_inv _ _ _ _ _ _ _ _ _ _ Hinv2) in H3 as [Hinv3 _].
  by apply (del_timer_inv _ _ _ _ Hinv3) in Hrun as [Hinv4 _].
Qed.

(** Two and a half rotations of [demo_loaded]: the periodic timer fires
    and is put back, the one-shot timer fires and is parked, the corpses
    are given back to the slab. *)
Lemma wheel_inv_preserved_demo :
  exists w', tick quiet 4 2500 demo_loaded = Ok (tt, w') /\ wheel_inv w'.
Proof.
  eexists. split; [vm_compute; reflexivity|].
  eapply (proj2 (proj2 (proj2 (proj1
            (wheel_inv_preserved quiet demo_loaded quiet_ok demo_loaded_inv)))) 4%nat 2500).
  vm_compute. reflexivity.
Defined.

(** What the invariant says of one entry. *)
Lemma wheel_inv_exactly_one w :
  wheel_inv w ->
  exists L,
    length L = Z.to_nat (nslices_ w) /\
    num_entries_ w = wrap32 (Z.of_nat (length (concat L))) /\
    forall p, is_Some (twentry_slab_ w !! p) ->
      exists i l j,
        L !! i = Some l /\ l !! j = Some p /\
        forall i' l' j', L !! i' = Some l' -> l' !! j' = Some p -> i' = i /\ j' = j.
Proof.
  intros [_ [L HL]]. exists L. split; [apply HL|]. split; [apply HL|].
  intros p Hp. destruct (linked_locate ∅ w L p HL Hp) as (i & l & j & Hi & Hj); [set_solver|].
  exists i, l, j. split; [done|]. split; [done|]. intros i' l' j' Hi' Hj'.
  assert (i' = i) as ->.
  { eapply (concat_NoDup_unique L); [apply HL|done..| |].
    - by eapply list_elem_of_lookup_2.
    - by eapply list_elem_of_lookup_2. }
  split; [done|]. assert (l' = l) as -> by congruence.
  eapply NoDup_lookup; [|done..]. eapply concat_NoDup_slice; [apply HL|done].
Qed.

(** *** The 16-bit spin count *)
Lemma wrapped_wait_shorter q P r n timeout :
  0 < P -> q = timeout / P -> 65536 <= q -> n = q mod 65536 -> 0 <= r < P ->
  n * P + r < timeout.
Proof.
  intros HP Hq Hbig Hn Hr.
  assert (q * P <= timeout).
  { subst q. rewrite Z.mul_comm. apply Z.mul_div_le. lia. }
  assert (n <= q - 65536).
  { pose proof (Z.div_mod q 65536 ltac:(lia)) as Hdm.
    assert (1 <= q / 65536) by (apply Z.div_le_lower_bound; lia). lia. }
  nia.
Qed.

Lemma remaining_after_store w p e timeout :
  wheel_cfg w -> twentry_slab_ w !! p = Some e ->
  nspins_ e = wrap16 (timeout / (nslices_ w * slice_intvl_ w)) ->
  65536 <= timeout / (nslices_ w * slice_intvl_ w) ->
  exists r, get_timeout_remaining (Some p) w = Ok (r, w) /\ r < timeout.
Proof.
  intros Hcfg Hp Hn Hbig.
  assert (0 <= nspins_ e < 65536) as Hrange.
  { rewrite Hn. unfold wrap16. by apply Z.mod_pos_bound. }
  eexists. split; [by apply get_timeout_remaining_ok|].
  destruct Hcfg as (Hg & HN & HP & Hc).
  set (x := wrap32 (slice_ e - curr_slice_ w + nslices_ w) mod nslices_ w).
  assert (0 <= x < nslices_ w) by (apply Z.mod_pos_bound; lia).
  eapply wrapped_wait_shorter; [|reflexivity|exact Hbig|exact Hn|]; nia.
Qed.

(** C9: [add_timer] and [upd_timer] store
    [nspins_ = (timeout / (N*g)) mod 2^16]; when [timeout / (N*g)] is
    65536 or more the stored count is smaller than the quotient and the
    time the entry then has to wait, as [get_timeout_remaining] reports it
    right after the call, is shorter than [timeout]. *)
Theorem nspins_truncated w timeout :
  wheel_inv w -> slock_ w = ∅ ->
  let q := timeout / (nslices_ w * slice_intvl_ w) in
  (forall p timer_id ctxt cb periodic initial_delay,
     twentry_slab_ w !! p = None ->
     exists w' e',
       add_timer (Some p) timer_id timeout ctxt cb periodic initial_delay w
         = Ok (Some p, w') /\
       twentry_slab_ w' !! p = Some e' /\
       nspins_ e' = q mod 65536 /\
       (65536 <= q ->
        nspins_ e' < q /\
        exists r, get_timeout_remaining (Some p) w' = Ok (r, w') /\ r < timeout)) /\
  (forall p e periodic ctxt,
     twentry_slab_ w !! p = Some e -> valid_ e = true ->
     (thread_safe_ w = true -> 2 <= nslices_ w) ->
     exists w' e',
       upd_timer (Some p) timeout periodic ctxt w = Ok (Some p, w') /\
       twentry_slab_ w' !! p = Some e' /\
       nspins_ e' = q mod 65536 /\
       (65536 <= q ->
        nspins_ e' < q /\
        exists r, get_timeout_remaining (Some p) w' = Ok (r, w') /\ r < timeout)).
Proof.
  intros [Hcfg Hl] Hlk q. split.
  - intros p timer_id ctxt cb periodic initial_delay Hfresh.
    destruct (add_timer_spec w (Some p) timer_id timeout ctxt cb periodic initial_delay
                Hl Hcfg Hlk) as (w' & Hrun & _ & Hsame & _ & _ & Hent & _).
    { by intros ? [= <-]. }
    destruct (Hent p eq_refl) as [[nx Hp] _].
    eexists w', _. split; [exact Hrun|]. split; [exact Hp|]. split; [done|].
    intros Hbig. split.
    + cbn [nspins_]. unfold wrap16. fold q.
      pose proof (Z.mod_pos_bound q 65536 ltac:(lia)). lia.
    + pose proof (wheel_cfg_same _ _ Hsame Hcfg) as Hcfg'.
      destruct Hsame as (Eg & _ & EN & _).
      eapply remaining_after_store; [done|exact Hp|cbn [nspins_]|]; by rewrite EN, Eg.
  - intros p e periodic ctxt Hp Hv HN. destruct Hl as [L HL].
    destruct (upd_timer_valid w L p e timeout periodic ctxt HL Hcfg Hlk HN Hp Hv)
      as (w' & _ & nx & Hrun & _ & Hsame & _ & Hp' & _).
    eexists w', _. split; [exact Hrun|]. split; [exact Hp'|]. split; [done|].
    intros Hbig. split.
    + cbn [nspins_]. unfold wrap16. fold q.
      pose proof (Z.mod_pos_bound q 65536 ltac:(lia)). lia.
    + pose proof (wheel_cfg_same _ _ Hsame Hcfg) as Hcfg'.
      destruct Hsame as (Eg & _ & EN & _).
      eapply remaining_after_store; [done|exact Hp'|cbn [nspins_]|]; by rewrite EN, Eg.
Qed.

(** 65536 rotations and 350 ms on [demo_wheel]: the spin count is 0. *)
Lemma nspins_truncated_demo :
  exists w' e' r,
    add_timer (Some 1%positive) 1 65536350 77 5 false 0 demo_wheel
      = Ok (Some 1%positive, w') /\
    twentry_slab_ w' !! 1%positive = Some e' /\
    nspins_ e' = 0 /\
    get_timeout_remaining (Some 1%positive) w' = Ok (r, w') /\ r < 65536350.
Proof.
  destruct (nspins_truncated demo_wheel 65536350 demo_wheel_inv eq_refl) as [Hadd _].
  destruct (Hadd 1%positive 1 77 5 false 0 eq_refl) as (w' & e' & Hrun & Hp & Hn & Hbig).
  destruct Hbig as [_ (r & Hrem & Hlt)]; [vm_compute; discriminate|].
  exists w', e', r. split; [exact Hrun|]. split; [exact Hp|]. split; [exact Hn|].
  split; [exact Hrem | exact Hlt].
Defined.

(** *** Construction *)
Lemma factory_rejects slice_intvl wheel_duration thread_safe m :
  slice_intvl = 0 \/ wheel_duration = 0 \/ wheel_duration <= slice_intvl ->
  factory slice_intvl wheel_duration thread_safe m = Ok (None, m).
Proof.
  intros H. unfold factory.
  destruct (slice_intvl =? 0) eqn:E1; [done|].
  destruct (wheel_duration =? 0) eqn:E2; [done|].
  destruct (wheel_duration <=? slice_intvl) eqn:E3; [done|]. lia.
Qed.

Lemma factory_accepts slice_intvl wheel_duration :
  0 < slice_intvl < wheel_duration ->
  (slice_intvl =? 0) || (wheel_duration =? 0) || (wheel_duration <=? slice_intvl) = false.
Proof. intros H. repeat (apply orb_false_intro); lia. Qed.

Ltac factory_mem :=
  repeat (first
    [ rewrite bool_decide_eq_false_2 by set_solver
    | rewrite bool_decide_eq_true_2 by set_solver ]; cbn).

(** C8: with accepted arguments ([0 < g < D]) [factory] returns nil
    when the allocation of the wheel object or of the slab fails, and the
    wheel of [D/g] slices with [curr_slice_ = 0] and [num_entries_ = 0]
    when the three allocations succeed; but when the allocation of the
    slice array fails, [init] destroys the slab and the destructor, run by
    [factory] on the same object, destroys it a second time: the freed
    slab is read and freed again instead of nil being returned. *)
Theorem factory_outcomes slice_intvl wheel_duration thread_safe m :
  0 < slice_intvl < wheel_duration -> wheel_duration < 4294967296 ->
  fresh_answers m ->
  (refuses (pending m) ->
   exists m', factory slice_intvl wheel_duration thread_safe m = Ok (None, m')) /\
  (forall a rest, pending m = Some a :: rest -> refuses rest ->
   exists m', factory slice_intvl wheel_duration thread_safe m = Ok (None, m')) /\
  (forall a b rest, pending m = Some a :: Some b :: rest -> refuses rest ->
   factory slice_intvl wheel_duration thread_safe m = Err DanglingPointer) /\
  (forall a b c rest, pending m = Some a :: Some b :: Some c :: rest ->
   exists m',
     factory slice_intvl wheel_duration thread_safe m =
       Ok (Some (mk_twheel ∅ slice_intvl thread_safe (wheel_duration / slice_intvl)
                   ∅ ∅ 0 0), m')).
Proof.
  intros Hargs HD [Hnd Hfresh].
  assert ((slice_intvl =? 0) = false) as Eg by lia.
  assert (wrap32 (wheel_duration / slice_intvl) = wheel_duration / slice_intvl) as EN.
  { unfold wrap32. apply Z.mod_small. split; [apply Z.div_pos; lia|].
    apply Z.div_lt_upper_bound; nia. }
  unfold factory. rewrite (factory_accepts _ _ Hargs).
  destruct m as [lv pd]. cbn [pending live] in *.
  split; [|split; [|split]].
  - intros Hno. destruct pd as [|[a|] pd]; [|done|]; cbn; eauto.
  - intros a rest -> Hno.
    assert (a ∉ lv) as Ha by (apply Hfresh; left).
    unfold init, destructor, slab_factory, slab_destroy, touch, udiv,
      SDK_CALLOC, SDK_FREE, st_ret, st_bind.
    destruct rest as [|[b|] rest]; [|done|]; cbn; factory_mem; eauto.
  - intros a b rest -> Hno.
    assert (a ∉ lv) as Ha by (apply Hfresh; left).
    assert (b ∉ lv) as Hb by (apply Hfresh; right; left).
    assert (a <> b) as Hab.
    { cbn in Hnd. apply NoDup_cons in Hnd as [Hnd _]. intros ->. apply Hnd. left. }
    unfold init, destructor, slab_factory, slab_destroy, touch, udiv,
      SDK_CALLOC, SDK_FREE, st_ret, st_bind.
    destruct rest as [|[c|] rest]; [|done|]; cbn; factory_mem; rewrite Eg; cbn;
      factory_mem; done.
  - intros a b c rest ->.
    assert (a ∉ lv) as Ha by (apply Hfresh; left).
    assert (b ∉ lv) as Hb by (apply Hfresh; right; left).
    assert (c ∉ lv) as Hc by (apply Hfresh; right; right; left).
    assert (a <> b /\ a <> c /\ b <> c) as (Hab & Hac & Hbc).
    { cbn in Hnd. apply NoDup_cons in Hnd as [Ha' Hnd]. apply NoDup_cons in Hnd as [Hb' _].
      set_solver. }
    unfold init, slab_factory, udiv, SDK_CALLOC, st_ret, st_bind.
    cbn; factory_mem; rewrite Eg; cbn; factory_mem. rewrite EN. eauto.
Qed.

(** [factory(250, 120000, false)] when the third allocation fails. *)
Lemma factory_outcomes_demo :
  factory 250 120000 false (mk_cmem ∅ [Some 1%positive; Some 2%positive; None])
    = Err DanglingPointer.
Proof.
  refine (proj1 (proj2 (proj2
    (factory_outcomes 250 120000 false
       (mk_cmem ∅ [Some 1%positive; Some 2%positive; None]) _ _ _)))
    1%positive 2%positive [None] eq_refl I).
  - lia.
  - lia.
  - split; [cbn; by repeat constructor; set_solver | intros a _; set_solver].
Defined.

(** Whenever [factory] returns a wheel, it is the empty wheel of [D/g]
    slices, and it satisfies the invariant. *)
Lemma factory_builds_wheel slice_intvl wheel_duration thread_safe m w m' :
  0 <= slice_intvl -> 0 <= wheel_duration < 4294967296 ->
  factory slice_intvl wheel_duration thread_safe m = Ok (Some w, m') ->
  wheel_inv w /\ nslices_ w = wheel_duration / slice_intvl /\
  curr_slice_ w = 0 /\ num_entries_ w = 0 /\
  slice_intvl_ w = slice_intvl /\ thread_safe_ w = thread_safe.
Proof.
  intros Hg HD Hrun. unfold factory in Hrun.
  destruct (_ || _) eqn:Hargs; [by apply Ok_inj in Hrun as [[=] _]|].
  apply orb_false_elim in Hargs as [Hargs H3]. apply orb_false_elim in Hargs as [H1 H2].
  assert (wrap32 (wheel_duration / slice_intvl) = wheel_duration / slice_intvl
          /\ 1 <= wheel_duration / slice_intvl
          /\ (wheel_duration / slice_intvl) * slice_intvl <= wheel_duration)
    as (EN & HN & HP).
  { assert (1 <= wheel_duration / slice_intvl) by (apply Z.div_le_lower_bound; lia).
    assert ((wheel_duration / slice_intvl) * slice_intvl <= wheel_duration)
      by (rewrite Z.mul_comm; apply Z.mul_div_le; lia).
    split; [|done]. unfold wrap32. apply Z.mod_small.
    assert (1 <= slice_intvl) by lia. nia. }
  apply bind_Ok_inv in Hrun as ([mem|] & m1 & _ & Hrun);
    [|by apply Ok_inj in Hrun as [[=] _]].
  apply bind_Ok_inv in Hrun as ([[] this] & m2 & Hinit & Hrun).
  2:{ apply bind_Ok_inv in Hrun as (? & ? & _ & Hrun).
      apply bind_Ok_inv in Hrun as (? & ? & _ & Hrun).
      by apply Ok_inj in Hrun as [[=] _]. }
  apply Ok_inj in Hrun as [[= <-] _].
  unfold init in Hinit.
  apply bind_Ok_inv in Hinit as ([slab|] & m3 & _ & Hinit);
    [|by apply Ok_inj in Hinit as [[=] _]].
  apply bind_Ok_inv in Hinit as (n & m4 & Hdiv & Hinit).
  assert (1 <= slice_intvl) as Hg1 by lia.
  unfold udiv in Hdiv. destruct (slice_intvl =? 0); [done|].
  apply Ok_inj in Hdiv as [<- _].
  apply bind_Ok_inv in Hinit as ([slices|] & m5 & _ & Hinit).
  2:{ apply bind_Ok_inv in Hinit as (? & ? & _ & Hinit).
      by apply Ok_inj in Hinit as [[=] _]. }
  apply Ok_inj in Hinit as [[= <-] _]. cbn. rewrite EN.
  split; [|done]. apply wheel_inv_empty; [|done..].
  unfold wheel_cfg; cbn. lia.
Qed.

End TwheelFacts.

(** * The slab allocator *)

Module SlabFacts.
Import Slab.

Lemma block_load_ok b hdr s : blocks s !! b = Some hdr -> block_load b s = Ok (hdr, s).
Proof. intros H. unfold block_load. by rewrite H. Qed.

Lemma block_store_ok b hdr f s :
  blocks s !! b = Some hdr ->
  block_store b f s = Ok (tt, with_blocks (<[b := f hdr]> (blocks s)) s).
Proof.
  intros H. unfold block_store. rewrite H. do 3 f_equal.
  apply map_eq. intros x. destruct (decide (x = b)) as [->|Hne].
  - by rewrite lookup_alter_eq, lookup_insert_eq, H.
  - by rewrite lookup_alter_ne, lookup_insert_ne.
Qed.

Lemma elem_store_ok ptr e0 e s :
  elems s !! ptr = Some e0 ->
  elem_store ptr e s = Ok (tt, with_elems (<[ptr := e]> (elems s)) s).
Proof. intros H. unfold elem_store. by rewrite H. Qed.

Lemma free_block_ok b hdr s :
  blocks s !! b = Some hdr ->
  (block_head_ s = Some b \/
   exists p, prev_ hdr = Some p /\ p <> b /\ is_Some (blocks s !! p)) ->
  (forall n, next_ hdr = Some n -> n <> b /\ is_Some (blocks s !! n)) ->
  exists s',
    free_block_ b s = Ok (tt, s') /\
    blocks s' !! b = None /\
    forall x, x <> b -> is_Some (blocks s' !! x) <-> is_Some (blocks s !! x).
Proof.
  intros Hb Hprev Hnext. unfold free_block_.
  unfold st_bind at 1. unfold st_gets at 1.
  unfold st_bind at 1. rewrite (block_load_ok b hdr s Hb).
  assert (exists s1,
    (if bool_decide (block_head_ s = Some b)
     then st_modify (with_head (next_ hdr))
     else match prev_ hdr with
          | Some p =>
              block_store p (set_block_next (next_ hdr)) ;;
              match next_ hdr with
              | Some n => block_store n (set_block_prev (prev_ hdr))
              | None => st_ret tt
              end
          | None => st_fail NullPointer
          end) s = Ok (tt, s1) /\
    is_Some (blocks s1 !! b) /\ raw_block_sz_ s1 = raw_block_sz_ s /\
    forall x, is_Some (blocks s1 !! x) <-> is_Some (blocks s !! x))
    as (s1 & Hrun & Hb1 & Hraw & Hdom).
  { case_bool_decide as Hhd.
    - eexists. split; [done|]. cbn. split; [by rewrite Hb|]. done.
    - destruct Hprev as [?|(p & Hp & Hpb & [hp Hhp])]; [done|]. rewrite Hp.
      unfold st_bind at 1. rewrite (block_store_ok p hp _ s Hhp).
      destruct (next_ hdr) as [n|] eqn:Hn.
      + destruct (Hnext n eq_refl) as [Hnb [hn Hhn]].
        assert (is_Some (<[p := set_block_next (Some n) hp]> (blocks s) !! n)) as [hn' Hhn'].
        { destruct (decide (n = p)) as [->|].
          - rewrite lookup_insert_eq. eauto.
          - rewrite lookup_insert_ne by done. eauto. }
        erewrite block_store_ok by (cbn; exact Hhn').
        eexists. split; [done|]. cbn. split.
        * rewrite !lookup_insert_ne by done. by rewrite Hb.
        * split; [done|]. intros x.
          destruct (decide (x = n)) as [->|]; [rewrite lookup_insert_eq|rewrite lookup_insert_ne by done].
          { split; eauto. }
          destruct (decide (x = p)) as [->|]; [rewrite lookup_insert_eq|rewrite lookup_insert_ne by done].
          { split; eauto. }
          done.
      + eexists. split; [done|]. cbn. split.
        * rewrite lookup_insert_ne by done. by rewrite Hb.
        * split; [done|]. intros x.
          destruct (decide (x = p)) as [->|]; [rewrite lookup_insert_eq|rewrite lookup_insert_ne by done].
          { split; eauto. }
          done. }
  unfold st_bind at 1. rewrite Hrun.
  destruct Hb1 as [hb1 Hb1].
  unfold st_bind, release. rewrite Hb1. cbn.
  eexists. split; [done|]. cbn. split.
  - by rewrite lookup_delete_eq.
  - intros x Hx. rewrite lookup_delete_ne by done. apply Hdom.
Qed.

(** C6 (amended): in grow-on-demand mode, [free] of an element in use
    that lies in the block [b] of a well-chained list succeeds, and it
    releases [b] exactly when the block's in-use count drops to zero and
    [b] has a successor in the block list; the last block of the list is
    kept even when other blocks remain.  No other block is released. *)
Theorem free_releases fuel s elem e b hdr :
  grow_on_demand_ s = true ->
  elems s !! (elem - SLAB_ELEM_META_SIZE) = Some e -> in_use e = true ->
  find_block fuel (elem - SLAB_ELEM_META_SIZE) (block_head_ s) s = Ok (Some b, s) ->
  blocks s !! b = Some hdr ->
  (block_head_ s = Some b \/
   exists p, prev_ hdr = Some p /\ p <> b /\ is_Some (blocks s !! p)) ->
  (forall n, next_ hdr = Some n -> n <> b /\ is_Some (blocks s !! n)) ->
  exists s',
    free fuel (Some elem) s = Ok (tt, s') /\
    (blocks s' !! b = None <->
     wrap32 (num_in_use_ hdr - 1) = 0 /\ is_Some (next_ hdr)) /\
    (forall x, x <> b -> is_Some (blocks s' !! x) <-> is_Some (blocks s !! x)).
Proof.
  intros Hgrow He Huse Hfind Hb Hprev Hnext.
  unfold free, free_. cbv zeta.
  erewrite st_bind_Ok by (unfold elem_load; rewrite He; reflexivity).
  erewrite st_bind_Ok by (unfold st_assert; rewrite Huse; reflexivity).
  erewrite st_bind_Ok by reflexivity.
  erewrite st_bind_Ok by exact Hfind. cbv beta iota.
  erewrite st_bind_Ok by exact (block_load_ok b hdr s Hb).
  erewrite st_bind_Ok by exact (elem_store_ok _ e _ s He).
  erewrite st_bind_Ok by (apply (block_store_ok b hdr); exact Hb).
  erewrite st_bind_Ok by reflexivity.
  erewrite st_bind_Ok by (apply block_load_ok; cbn; apply lookup_insert_eq).
  erewrite st_bind_Ok by (eapply block_store_ok; cbn; apply lookup_insert_eq).
  erewrite st_bind_Ok by (apply block_load_ok; cbn; apply lookup_insert_eq).
  erewrite st_bind_Ok by reflexivity.
  cbn [grow_on_demand_ count with_blocks with_elems
    num_in_use_ next_ set_block_in_use set_free_head blocks].
  rewrite Hgrow, andb_true_r.
  destruct (wrap32 (num_in_use_ hdr - 1) =? 0) eqn:Hz; cbn [andb].
  2:{ eexists. split; [done|]. cbn. split.
      - rewrite !insert_insert_eq, lookup_insert_eq. split; [done|]. intros [? _]. lia.
      - intros x Hx. by rewrite !lookup_insert_ne by done. }
  case_bool_decide as Hnx.
  2:{ eexists. split; [done|]. cbn. split.
      - rewrite !insert_insert_eq, lookup_insert_eq. split; [done|]. by intros [_ ?].
      - intros x Hx. by rewrite !lookup_insert_ne by done. }
  match goal with |- context [free_block_ b ?st] => set (s1 := st) end.
  destruct (free_block_ok b
              (set_block_in_use (wrap32 (num_in_use_ hdr - 1)) (set_free_head (Some (elem - SLAB_ELEM_META_SIZE)) hdr))
              s1) as (s' & Hrun & Hgone & Hdom).
  - subst s1. cbn. apply lookup_insert_eq.
  - subst s1. cbn. destruct Hprev as [?|(p & Hp & Hpb & Hps)]; [by left|right].
    exists p. split; [done|]. split; [done|]. by rewrite !lookup_insert_ne by done.
  - subst s1. cbn. intros n Hn. destruct (Hnext n Hn) as [Hnb Hns].
    split; [done|]. by rewrite !lookup_insert_ne by done.
  - exists s'. split; [done|]. split.
    + split; [|done]. intros _. split; [lia|done].
    + intros x Hx. rewrite (Hdom x Hx). subst s1. cbn. by rewrite !lookup_insert_ne by done.
Qed.

(** On [two_blocks], the last element of the heading block is freed:
    the block is released, the other one stays. *)
Lemma free_releases_demo :
  exists s',
    free 2 (Some 2036) two_blocks = Ok (tt, s') /\
    blocks s' !! 2000 = None /\ is_Some (blocks s' !! 1000).
Proof.
  destruct (free_releases 2 two_blocks 2036 (mk_elem true (Some 2048)) 2000
              (mk_block None (Some 1000) (Some 2048) 1))
    as (s' & Hrun & Hrel & Hdom).
  - reflexivity.
  - vm_compute. reflexivity.
  - reflexivity.
  - vm_compute. reflexivity.
  - vm_compute. reflexivity.
  - left. reflexivity.
  - intros n [= <-]. split; [lia|]. vm_compute. eauto.
  - exists s'. split; [exact Hrun|]. split.
    + apply Hrel. split; [reflexivity|]. cbn. eauto.
    + apply Hdom; [lia|]. vm_compute. eauto.
Defined.

Lemma tail_block_emptied :
  free 2 (Some 1052) two_blocks = Ok (tt, tail_block_empty).
Proof. vm_compute. reflexivity. Qed.

(** C6 as stated fails: freeing 1052 empties the block at 1000, which is
    not the only block of the slab, and the block is kept, because it is
    the last of the list. *)
Lemma last_block_is_kept : ~ release_claim.
Proof.
  intros Hclaim.
  pose proof (Hclaim 2%nat two_blocks 1052 tail_block_empty 1000
                (mk_block (Some 2000) None (Some 1032) 1)) as H.
  destruct H as [_ H].
  - reflexivity.
  - exact tail_block_emptied.
  - vm_compute. reflexivity.
  - vm_compute. reflexivity.
  - assert (blocks tail_block_empty !! 1000 = None) as Hgone.
    { apply H. split; [reflexivity|]. vm_compute. lia. }
    vm_compute in Hgone. discriminate Hgone.
Qed.

(** Without [grow_on_demand_] no block is ever released. *)
Lemma free_keeps_blocks fuel s elem s' x :
  grow_on_demand_ s = false ->
  free fuel (Some elem) s = Ok (tt, s') ->
  is_Some (blocks s' !! x) <-> is_Some (blocks s !! x).
Proof.
  intros Hgrow Hrun. unfold free, free_ in Hrun. cbv zeta in Hrun.
  apply bind_Ok_inv in Hrun as (e & s1 & He & Hrun).
  unfold elem_load in He. destruct (elems s !! _) eqn:Hel; [|done].
  apply Ok_inj in He as [<- <-].
  apply bind_Ok_inv in Hrun as ([] & s1 & Hassert & Hrun).
  unfold st_assert in Hassert. destruct (in_use _); [|done].
  apply Ok_inj in Hassert as [_ <-].
  apply bind_Ok_inv in Hrun as (hd & s1 & Hhd & Hrun). apply Ok_inj in Hhd as [<- <-].
  apply bind_Ok_inv in Hrun as (fb & s1 & Hfind & Hrun).
  assert (s1 = s) as ->.
  { clear Hrun. revert Hfind. generalize (block_head_ s). induction fuel as [|fuel IH];
      intros [b|] Hfind; cbn in Hfind; try (by apply Ok_inj in Hfind as [_ <-]).
    - unfold st_bind, st_gets in Hfind. destruct (_ && _); [by apply Ok_inj in Hfind as [_ <-]|].
      unfold block_load in Hfind. by destruct (blocks s !! b).
    - unfold st_bind, st_gets in Hfind. destruct (_ && _); [by apply Ok_inj in Hfind as [_ <-]|].
      unfold block_load in Hfind. destruct (blocks s !! b) as [h|]; [|done].
      by apply IH in Hfind. }
  destruct fb as [b|]; [|done].
  apply bind_Ok_inv in Hrun as (hdr & s1 & Hld & Hrun).
  unfold block_load in Hld. destruct (blocks s !! b) as [h|] eqn:Hb; [|done].
  apply Ok_inj in Hld as [<- <-].
  erewrite st_bind_Ok in Hrun by (eapply elem_store_ok; exact Hel).
  erewrite st_bind_Ok in Hrun by (apply (block_store_ok b h); exact Hb).
  erewrite st_bind_Ok in Hrun by reflexivity.
  erewrite st_bind_Ok in Hrun by (apply block_load_ok; cbn; apply lookup_insert_eq).
  erewrite st_bind_Ok in Hrun by (eapply block_store_ok; cbn; apply lookup_insert_eq).
  erewrite st_bind_Ok in Hrun by (apply block_load_ok; cbn; apply lookup_insert_eq).
  erewrite st_bind_Ok in Hrun by reflexivity.
  cbn [grow_on_demand_ count with_blocks with_elems] in Hrun.
  rewrite Hgrow, andb_false_r in Hrun. cbn [andb] in Hrun.
  apply Ok_inj in Hrun as [_ <-]. cbn.
  destruct (decide (x = b)) as [->|].
  - rewrite lookup_insert_eq, Hb. split; eauto.
  - by rewrite !lookup_insert_ne.
Qed.

End SlabFacts.

(** * The periodic thread *)

Module PeriodicFacts.
Import Periodic.

Lemma drive_wheel_done missed : missed <= 0 -> drive_wheel missed = [].
Proof.
  intros H. rewrite drive_wheel_equation_1. 
  destruct (Z_lt_dec 0 missed); [lia|done].
Qed.

Lemma drive_wheel_step missed :
  0 < missed ->
  drive_wheel missed =
    Tick (wrap32 (wrap64 (batch missed * TWHEEL_DEFAULT_SLICE_DURATION)))
    :: Heartbeat :: drive_wheel (missed - batch missed).
Proof.
  intros H. rewrite drive_wheel_equation_1 at 1.
  destruct (Z_lt_dec 0 missed); [done|lia].
Qed.

Lemma batch_min missed : batch missed = Z.min missed BATCH_SLICE_SIZE.
Proof. unfold batch, BATCH_SLICE_SIZE. destruct (10 <? missed) eqn:E; lia. Qed.

Lemma drive_wheel_batches n : forall missed,
  0 <= missed -> n = Z.to_nat ((missed + 9) / 10) ->
  drive_wheel missed = batches n missed.
Proof.
  induction n as [|n IH]; intros missed Hpos Hn.
  - assert (missed = 0) as ->.
    { destruct (Z_lt_dec 0 missed) as [Hlt|]; [|lia].
      assert (1 <= (missed + 9) / 10) by (apply Z.div_le_lower_bound; lia). lia. }
    by apply drive_wheel_done.
  - assert (0 < missed) as Hlt.
    { destruct (Z_lt_dec 0 missed) as [|Hle]; [done|].
      assert (missed = 0) as -> by lia. done. }
    rewrite drive_wheel_step by done. cbn [batches].
    rewrite batch_min. unfold BATCH_SLICE_SIZE, TWHEEL_DEFAULT_SLICE_DURATION.
    assert (wrap32 (wrap64 (Z.min missed 10 * 250)) = Z.min missed 10 * 250) as ->.
    { unfold wrap32, wrap64.
      rewrite (Z.mod_small (Z.min missed 10 * 250) 18446744073709551616) by lia.
      apply Z.mod_small. lia. }
    f_equal. f_equal.
    destruct (Z_le_dec missed 10) as [Hle|Hgt].
    + rewrite Z.min_l by lia. rewrite Z.sub_diag.
      assert ((missed + 9) / 10 = 1) as E.
      { symmetry. apply (Z.div_unique _ _ _ (missed - 1)); lia. }
      rewrite E in Hn. assert (n = 0%nat) as -> by lia.
      by rewrite drive_wheel_done.
    + rewrite Z.min_r by lia. apply IH; [lia|].
      replace (missed - 10 + 9) with (missed + 9 + (-1) * 10) by lia.
      rewrite Z.div_add by lia. lia.
Qed.

Lemma ticks_batches n : forall remaining, length (ticks (batches n remaining)) = n.
Proof. induction n as [|n IH]; intros r; cbn; [done|]. by rewrite IH. Qed.

Lemma ticks_batches_lookup n : forall remaining i,
  (i < n)%nat ->
  ticks (batches n remaining) !! i
    = Some (Z.min (remaining - 10 * Z.of_nat i) 10 * 250).
Proof.
  induction n as [|k IH]; intros remaining i Hi; [lia|].
  cbn. destruct i as [|i]; cbn.
  - unfold BATCH_SLICE_SIZE, TWHEEL_DEFAULT_SLICE_DURATION. do 3 f_equal. lia.
  - rewrite IH by lia. unfold BATCH_SLICE_SIZE. do 3 f_equal. lia.
Qed.

(** C5: a read that reports [missed] periods makes the loop call [tick]
    [ceil(missed/10)] times, the call number [i] charged
    [min(missed - 10*i, 10) * 250] ms, each call followed by a heartbeat,
    and nothing else. *)
Theorem periodic_batches missed :
  0 <= missed < 18446744073709551616 ->
  let n := Z.to_nat ((missed + 9) / 10) in
  periodic_thread_run [Missed missed] = SetReady :: batches n missed /\
  length (ticks (periodic_thread_run [Missed missed])) = n /\
  forall i, (i < n)%nat ->
    ticks (periodic_thread_run [Missed missed]) !! i
      = Some (Z.min (missed - 10 * Z.of_nat i) 10 * 250).
Proof.
  intros Hm n.
  assert (periodic_thread_run [Missed missed] = SetReady :: batches n missed) as E.
  { unfold periodic_thread_run. cbn [wait_loop]. rewrite app_nil_r.
    f_equal. apply drive_wheel_batches; [lia|done]. }
  rewrite E. split; [done|]. split; [cbn; apply ticks_batches|].
  intros i Hi. cbn. by apply ticks_batches_lookup.
Qed.

(** 25 missed periods: three calls of [tick], for 10, 10 and 5 slices. *)
Lemma periodic_batches_demo :
  periodic_thread_run [Missed 25] =
    [SetReady; Tick 2500; Heartbeat; Tick 2500; Heartbeat; Tick 1250; Heartbeat] /\
  ticks (periodic_thread_run [Missed 25]) = [2500; 2500; 1250].
Proof.
  destruct (periodic_batches 25 ltac:(lia)) as (E & _).
  split; [exact E|]. 
  exact (f_equal ticks E).
Defined.

End PeriodicFacts.

(** * Event threads *)

Module EventThreadFacts.
Import EventThread.

Lemma handle_thread_up_inv this thread_id w w' :
  handle_thread_up this thread_id w = Ok (tt, w') ->
  exists t n,
    g_event_thread_table w !! this = Some t /\ envelopes w = Datatypes.S n /\
    w' = mk_world (<[this := ev_async_send (enqueue (UPDOWN_MSG thread_id THREAD_UP) t)]>
                     (g_event_thread_table w))
                  (status_ w) (subscriptions_ w) n.
Proof.
  intros Hup. unfold handle_thread_up in Hup.
  apply bind_Ok_inv in Hup as (m & w2 & Hfac & Hup).
  unfold lfq_msg_factory in Hfac.
  destruct (envelopes w) as [|n] eqn:En; apply Ok_inj in Hfac as [<- <-]; [done|].
  unfold thread_message_send, on_thread in Hup. cbn in Hup.
  destruct (g_event_thread_table w !! this) as [t|]; [|done].
  apply Ok_inj in Hup as [_ <-]. by exists t, n.
Qed.

Lemma handle_thread_up_ok this thread_id w t n :
  g_event_thread_table w !! this = Some t -> envelopes w = Datatypes.S n ->
  handle_thread_up this thread_id w =
    Ok (tt, mk_world (<[this := ev_async_send (enqueue (UPDOWN_MSG thread_id THREAD_UP) t)]>
                        (g_event_thread_table w))
                     (status_ w) (subscriptions_ w) n).
Proof.
  intros Ht En. unfold handle_thread_up, st_bind, lfq_msg_factory. rewrite En.
  unfold thread_message_send, on_thread. cbn. by rewrite Ht.
Qed.

Lemma notify_all_frame subscribers thread_id : forall w w',
  notify_all subscribers thread_id w = Ok (tt, w') ->
  status_ w' = status_ w /\ subscriptions_ w' = subscriptions_ w /\
  forall x, x ∉ subscribers ->
    g_event_thread_table w' !! x = g_event_thread_table w !! x.
Proof.
  induction subscribers as [|s rest IH]; intros w w' Hrun; cbn [notify_all] in Hrun.
  { by apply Ok_inj in Hrun as [_ <-]. }
  apply bind_Ok_inv in Hrun as (r & w1 & Hreg & Hrun). apply Ok_inj in Hreg as [<- <-].
  apply bind_Ok_inv in Hrun as ([] & w1 & Hass & Hrun).
  unfold st_assert in Hass. case_bool_decide as Hr; [|done]. apply Ok_inj in Hass as [_ <-].
  apply bind_Ok_inv in Hrun as ([] & w1 & Hup & Hrun).
  apply IH in Hrun as (Hst & Hsub & Ht).
  apply handle_thread_up_inv in Hup as (t & n & Hs & _ & ->). cbn in *.
  split; [done|]. split; [done|]. intros x [Hxs Hx]%not_elem_of_cons.
  rewrite Ht by done. by rewrite lookup_insert_ne.
Qed.

Lemma up_marks thread_id w w' :
  up thread_id w = Ok (tt, w') ->
  status_ w' !! thread_id = Some THREAD_UP /\
  subscriptions_ w' !! thread_id = Some (default ∅ (subscriptions_ w !! thread_id)) /\
  forall x, x ∉ default ∅ (subscriptions_ w !! thread_id) ->
    g_event_thread_table w' !! x = g_event_thread_table w !! x.
Proof.
  intros Hrun. unfold up in Hrun.
  apply bind_Ok_inv in Hrun as ([] & w1 & Hass & Hrun).
  unfold st_assert in Hass. destruct (_ <=? _); [|done]. apply Ok_inj in Hass as [_ <-].
  apply bind_Ok_inv in Hrun as (st & w1 & Hst & Hrun).
  assert (g_event_thread_table w1 = g_event_thread_table w /\
          subscriptions_ w1 = subscriptions_ w) as [Et Es].
  { unfold status_at in Hst. destruct (status_ w !! thread_id);
      apply Ok_inj in Hst as [_ <-]; done. }
  clear Hst.
  apply bind_Ok_inv in Hrun as ([] & w2 & Hass & Hrun).
  unfold st_assert in Hass. destruct (negb _); [|done]. apply Ok_inj in Hass as [_ <-].
  apply bind_Ok_inv in Hrun as ([] & w2 & Hmod & Hrun). apply Ok_inj in Hmod as [_ <-].
  apply bind_Ok_inv in Hrun as (subs & w3 & Hsubs & Hrun).
  assert (subs = default ∅ (subscriptions_ w !! thread_id) /\
          g_event_thread_table w3 = g_event_thread_table w /\
          status_ w3 !! thread_id = Some THREAD_UP /\
          subscriptions_ w3 !! thread_id = Some subs) as (-> & Et3 & Est3 & Es3).
  { unfold subscriptions_at in Hsubs. cbn in Hsubs. rewrite Es in Hsubs.
    destruct (subscriptions_ w !! thread_id) eqn:E;
      apply Ok_inj in Hsubs as [<- <-]; cbn; rewrite ?lookup_insert_eq, ?Es; done. }
  apply notify_all_frame in Hrun as (-> & -> & Ht).
  split; [done|]. split; [done|]. intros x Hx. rewrite Ht, Et3; [done|].
  intros Hin. apply Hx. apply elem_of_elements. 
  by rewrite <- (merge_sort_Permutation Z.le).
Qed.

(** C7: for registered [subscriber <> target], [subscribe] on a target
    that is marked up puts exactly one [UPDOWN_MSG target THREAD_UP] at
    the end of the subscriber's inbox and wakes its loop; on a target
    that is not up it sends nothing; in both cases the subscriber is
    added to the target's subscriptions.  So after [up(target)] a
    subscriber that had not subscribed before finds its inbox as it was
    before [up], plus that one notification. *)
Theorem subscribe_after_up subscriber target w t :
  subscriber <> target -> subscriber <= MAX_THREAD_ID -> target <= MAX_THREAD_ID ->
  g_event_thread_table w !! subscriber = Some t ->
  let subs := default ∅ (subscriptions_ w !! target) in
  let note := UPDOWN_MSG target THREAD_UP in
  (status_ w !! target = Some THREAD_UP ->
   forall n, envelopes w = Datatypes.S n ->
   exists w',
     subscribe subscriber target w = Ok (tt, w') /\
     g_event_thread_table w' = 
       <[subscriber := ev_async_send (enqueue note t)]> (g_event_thread_table w) /\
     up_notifications target (inbox (ev_async_send (enqueue note t)))
       = Datatypes.S (up_notifications target (inbox t)) /\
     subscriptions_ w' !! target = Some ({[subscriber]} ∪ subs)) /\
  (status_ w !! target <> Some THREAD_UP ->
   exists w',
     subscribe subscriber target w = Ok (tt, w') /\
     g_event_thread_table w' = g_event_thread_table w /\
     subscriptions_ w' !! target = Some ({[subscriber]} ∪ subs)) /\
  (forall w0 n,
     up target w0 = Ok (tt, w) -> envelopes w = Datatypes.S n ->
     subscriber ∉ default ∅ (subscriptions_ w0 !! target) ->
     exists w' t0,
       g_event_thread_table w0 !! subscriber = Some t0 /\
       subscribe subscriber target w = Ok (tt, w') /\
       g_event_thread_table w' !! subscriber = Some (ev_async_send (enqueue note t0)) /\
       inbox (ev_async_send (enqueue note t0)) = inbox t0 ++ [note]).
Proof.
  intros Hne Hs Ht Hreg subs note.
  assert (Hup : status_ w !! target = Some THREAD_UP ->
    forall n, envelopes w = Datatypes.S n ->
    subscribe subscriber target w =
      Ok (tt, mk_world (<[subscriber := ev_async_send (enqueue note t)]>
                          (g_event_thread_table w))
                       (status_ w)
                       (<[target := {[subscriber]} ∪ subs]>
                          (match subscriptions_ w !! target with
                           | Some _ => subscriptions_ w
                           | None => <[target := ∅]> (subscriptions_ w)
                           end)) n)).
  { intros Hst n En. unfold subscribe.
    erewrite st_bind_Ok by (unfold st_assert; rewrite (proj2 (Z.eqb_neq _ _) Hne); reflexivity).
    erewrite st_bind_Ok by (unfold st_assert; rewrite (proj2 (Z.leb_le _ _) Hs); reflexivity).
    erewrite st_bind_Ok by (unfold st_assert; rewrite (proj2 (Z.leb_le _ _) Ht); reflexivity).
    erewrite st_bind_Ok by (unfold status_at; rewrite Hst; reflexivity).
    rewrite bool_decide_eq_true_2 by done.
    erewrite st_bind_Ok.
    2:{ erewrite st_bind_Ok by reflexivity.
        erewrite st_bind_Ok by (unfold st_assert; rewrite bool_decide_eq_true_2 by eauto; reflexivity).
        by apply handle_thread_up_ok. }
    unfold st_bind, subscriptions_at, st_modify. cbn. subst subs.
    destruct (subscriptions_ w !! target); reflexivity. }
  split; [|split].
  - intros Hst n En. eexists. split; [by apply Hup|]. cbn. split; [done|]. split.
    + unfold up_notifications. cbn. rewrite filter_app, length_app. cbn.
      rewrite decide_True by done. cbn. lia.
    + by rewrite lookup_insert_eq.
  - intros Hst. unfold subscribe.
    erewrite st_bind_Ok by (unfold st_assert; rewrite (proj2 (Z.eqb_neq _ _) Hne); reflexivity).
    erewrite st_bind_Ok by (unfold st_assert; rewrite (proj2 (Z.leb_le _ _) Hs); reflexivity).
    erewrite st_bind_Ok by (unfold st_assert; rewrite (proj2 (Z.leb_le _ _) Ht); reflexivity).
    subst subs.
    destruct (status_ w !! target) as [[]|] eqn:E; [|by destruct Hst|].
    all: erewrite st_bind_Ok by (unfold status_at; rewrite E; reflexivity).
    all: rewrite bool_decide_eq_false_2 by done.
    all: erewrite st_bind_Ok by reflexivity.
    all: unfold st_bind, subscriptions_at, st_modify; cbn.
    all: destruct (subscriptions_ w !! target); cbn; eexists.
    all: (split; [reflexivity|]); cbn; (split; [reflexivity|]).
    all: by rewrite lookup_insert_eq.
  - intros w0 n Hrun En Hnot.
    apply up_marks in Hrun as (Hst & _ & Hsame).
    eexists _, t. split; [by rewrite <- Hsame|]. split; [by apply Hup|].
    cbn. by rewrite lookup_insert_eq.
Qed.

Lemma demo_world_up_run : up 2 demo_world = Ok (tt, demo_world_up).
Proof. vm_compute. reflexivity. Qed.

(** Thread 1 subscribes to thread 2 after [up(2)]: one notification is
    put into its inbox. *)
Lemma subscribe_after_up_demo :
  exists w',
    subscribe 1 2 demo_world_up = Ok (tt, w') /\
    inbox <$> g_event_thread_table w' !! 1 = Some [UPDOWN_MSG 2 THREAD_UP].
Proof.
  destruct (subscribe_after_up 1 2 demo_world_up (idle_thread {[ 2 ]}))
    as (_ & _ & Hseq).
  - lia.
  - unfold MAX_THREAD_ID; lia.
  - unfold MAX_THREAD_ID; lia.
  - reflexivity.
  - destruct (Hseq demo_world 7%nat demo_world_up_run eq_refl)
      as (w' & t0 & Ht0 & Hrun & Htab & Hin).
    { vm_compute. set_solver. }
    exists w'. split; [exact Hrun|]. rewrite Htab. cbn.
    assert (t0 = idle_thread {[ 2 ]}) as ->
      by (apply (inj Some); rewrite <- Ht0; reflexivity).
    reflexivity.
Defined.

(** The whole path on [demo_world]: [up(2)], then the subscription of
    thread 1, then one round of thread 1's loop; the up callback for
    thread 2 has run exactly once. *)
Lemma subscribe_after_up_delivered :
  exists w',
    (up 2 ;; subscribe 1 2 ;; process_lfq_ 1) demo_world = Ok (tt, w') /\
    delivered <$> g_event_thread_table w' !! 1 = Some [UpdownUpCb 2] /\
    inbox <$> g_event_thread_table w' !! 1 = Some [].
Proof. eexists. split; [vm_compute; reflexivity|]. split; vm_compute; reflexivity. Qed.

(** C10: [message_send] fails on its first assertion when
    [thread_id > MAX_THREAD_ID] and on its second when no thread is
    registered at [thread_id]; nothing is returned to the caller and
    nothing has been enqueued.  When it completes, both assertions held
    and the one effect is the message at the end of the thread's inbox,
    the loop woken. *)
Theorem message_send_asserts thread_id message w :
  (MAX_THREAD_ID < thread_id -> message_send thread_id message w = Err AssertFailed) /\
  (g_event_thread_table w !! thread_id = None ->
   message_send thread_id message w = Err AssertFailed) /\
  (forall w', message_send thread_id message w = Ok (tt, w') ->
     thread_id <= MAX_THREAD_ID /\
     exists t n,
       g_event_thread_table w !! thread_id = Some t /\ envelopes w = Datatypes.S n /\
       w' = mk_world (<[thread_id := ev_async_send (enqueue (USER_MSG message) t)]>
                        (g_event_thread_table w))
                     (status_ w) (subscriptions_ w) n) /\
  (forall t n,
     thread_id <= MAX_THREAD_ID ->
     g_event_thread_table w !! thread_id = Some t -> envelopes w = Datatypes.S n ->
     message_send thread_id message w =
       Ok (tt, mk_world (<[thread_id := ev_async_send (enqueue (USER_MSG message) t)]>
                           (g_event_thread_table w))
                        (status_ w) (subscriptions_ w) n)).
Proof.
  unfold message_send. split; [|split; [|split]].
  - intros Hbig. apply st_bind_Err. unfold st_assert.
    by rewrite (proj2 (Z.leb_gt _ _) Hbig).
  - intros Hnone. destruct (thread_id <=? MAX_THREAD_ID) eqn:Hle.
    + erewrite st_bind_Ok by reflexivity.
      erewrite st_bind_Ok by reflexivity.
      apply st_bind_Err. unfold st_assert.
      rewrite bool_decide_eq_false_2; [done|]. rewrite Hnone. by intros [? ?].
    + apply st_bind_Err. reflexivity.
  - intros w' Hrun.
    apply bind_Ok_inv in Hrun as ([] & w1 & Hass & Hrun).
    unfold st_assert in Hass. destruct (thread_id <=? MAX_THREAD_ID) eqn:Hle; [|done].
    apply Ok_inj in Hass as [_ <-]. split; [lia|].
    apply bind_Ok_inv in Hrun as (r & w1 & Hreg & Hrun). apply Ok_inj in Hreg as [<- <-].
    apply bind_Ok_inv in Hrun as ([] & w1 & Hass & Hrun).
    unfold st_assert in Hass. case_bool_decide as Hr; [|done]. apply Ok_inj in Hass as [_ <-].
    destruct Hr as [t Ht].
    apply bind_Ok_inv in Hrun as (m & w1 & Hfac & Hrun).
    unfold lfq_msg_factory in Hfac.
    destruct (envelopes w) as [|n] eqn:En; apply Ok_inj in Hfac as [<- <-]; [done|].
    unfold thread_message_send, on_thread in Hrun. cbn in Hrun. rewrite Ht in Hrun.
    apply Ok_inj in Hrun as [_ <-]. by exists t, n.
  - intros t n Hle Ht En.
    erewrite st_bind_Ok by (unfold st_assert; rewrite (proj2 (Z.leb_le _ _) Hle); reflexivity).
    erewrite st_bind_Ok by reflexivity.
    erewrite st_bind_Ok by (unfold st_assert; rewrite bool_decide_eq_true_2 by eauto; reflexivity).
    unfold st_bind, lfq_msg_factory. rewrite En.
    unfold thread_message_send, on_thread. cbn. by rewrite Ht.
Qed.

(** On [demo_world]: an id out of range, an id nobody is registered
    at, and thread 2. *)
Lemma message_send_asserts_demo :
  message_send 256 5 demo_world = Err AssertFailed /\
  message_send 3 5 demo_world = Err AssertFailed /\
  exists w', message_send 2 5 demo_world = Ok (tt, w') /\
             inbox <$> g_event_thread_table w' !! 2 = Some [USER_MSG 5] /\
             async_pending <$> g_event_thread_table w' !! 2 = Some true.
Proof.
  split; [|split].
  - apply (proj1 (message_send_asserts 256 5 demo_world)). unfold MAX_THREAD_ID. lia.
  - apply (proj1 (proj2 (message_send_asserts 3 5 demo_world))). reflexivity.
  - eexists. split.
    + apply (proj2 (proj2 (proj2 (message_send_asserts 2 5 demo_world)))
               (idle_thread ∅) 7%nat).
      * unfold MAX_THREAD_ID. lia.
      * reflexivity.
      * reflexivity.
    + cbn. split; reflexivity.
Defined.

End EventThreadFacts.

(** * The timer wheel: the interface seen by its users *)

Module TwheelApiFacts.
Import Twheel TwheelFacts.

Lemma same_payload_fields w w' x e :
  same_payload w w' x -> twentry_slab_ w !! x = Some e ->
  exists e', twentry_slab_ w' !! x = Some e' /\ valid_ e' = valid_ e /\
             ctxt_ e' = ctxt_ e /\ timer_id_ e' = timer_id_ e.
Proof.
  unfold same_payload. intros H Hx. rewrite Hx in H.
  destruct (twentry_slab_ w' !! x) as [e'|]; [|done].
  exists e'. split; [done|]. cbn in H. injection H as H.
  destruct e, e'. unfold strip, set_next, set_prev in H. cbn in *. by simplify_eq.
Qed.

Lemma timer_valid_frame w w' q b :
  same_payload w w' q ->
  timer_valid (Some q) w = Ok (b, w) -> timer_valid (Some q) w' = Ok (b, w').
Proof.
  intros Hpay. unfold timer_valid, st_bind, load.
  destruct (twentry_slab_ w !! q) as [e|] eqn:Hq; [|done].
  destruct (same_payload_fields w w' q e Hpay Hq) as (e' & -> & Hv & _).
  intros [[= <-] _]%Ok_inj. by rewrite Hv.
Qed.

Lemma num_entries_range U w L : linked U w L -> 0 <= num_entries_ w < 4294967296.
Proof. intros HL. rewrite (lk_num _ _ _ HL). unfold wrap32. apply Z.mod_pos_bound. lia. Qed.

(** X1: [add_timer] on a wheel that satisfies the invariant, with no
    slice lock held and fewer than 2^32 - 1 entries, returns the entry the
    slab handed out; afterwards [timer_valid] holds for it, [num_entries]
    has grown by exactly one, the invariant holds again with no lock held
    and [timer_valid] answers as before for every other timer.  When the
    slab is exhausted [add_timer] returns nil and leaves the wheel
    unchanged. *)
Theorem add_timer_registers w p timer_id timeout ctxt cb periodic initial_delay :
  wheel_inv w -> slock_ w = ∅ -> twentry_slab_ w !! p = None ->
  num_entries_ w < 4294967295 ->
  (exists w',
     add_timer (Some p) timer_id timeout ctxt cb periodic initial_delay w = Ok (Some p, w') /\
     wheel_inv w' /\ slock_ w' = ∅ /\
     timer_valid (Some p) w' = Ok (true, w') /\
     num_entries w' = Ok (num_entries_ w + 1, w') /\
     (forall q b, q <> p -> timer_valid (Some q) w = Ok (b, w) ->
                  timer_valid (Some q) w' = Ok (b, w'))) /\
  add_timer None timer_id timeout ctxt cb periodic initial_delay w = Ok (None, w).
Proof.
  intros [Hcfg [L HL]] Hlk Hp Hroom. split.
  - destruct (add_timer_spec w (Some p) timer_id timeout ctxt cb periodic initial_delay)
      as (w' & Hrun & HL' & Hsame & Hlk' & Hnum & Hent & _);
      [by exists L|done|done|by intros ? [= <-]|].
    destruct (Hent p eq_refl) as [[nx Hp'] Hpay].
    exists w'. split; [done|]. split; [split; [by eapply wheel_cfg_same|done]|].
    split; [done|]. split; [|split].
    + unfold timer_valid, st_bind. by rewrite (load_ok p _ w' Hp').
    + unfold num_entries, st_gets. rewrite Hnum. do 2 f_equal.
      pose proof (num_entries_range ∅ w L HL). unfold wrap32. apply Z.mod_small. lia.
    + intros q b Hq. apply timer_valid_frame. by apply Hpay.
  - destruct (add_timer_spec w None timer_id timeout ctxt cb periodic initial_delay)
      as (w' & Hrun & _ & _ & _ & _ & _ & Hsame);
      [by exists L|done|done|done|].
    by rewrite (Hsame eq_refl) in Hrun.
Qed.

(** X2: [del_timer] of a valid timer returns its context and makes
    [timer_valid] false for it, but gives nothing back to the slab and
    leaves [num_entries] as it was: the deleted entry stays linked (as a
    corpse) and is still counted.  The invariant holds afterwards, no lock
    is held, and [timer_valid] is unchanged for every other timer. *)
Theorem del_timer_parks w p e :
  wheel_inv w -> slock_ w = ∅ -> twentry_slab_ w !! p = Some e -> valid_ e = true ->
  exists w',
    del_timer (Some p) w = Ok (ctxt_ e, w') /\
    wheel_inv w' /\ slock_ w' = ∅ /\
    timer_valid (Some p) w' = Ok (false, w') /\
    num_entries w' = Ok (num_entries_ w, w') /\
    keeps_entries w w' /\
    (forall q b, q <> p -> timer_valid (Some q) w = Ok (b, w) ->
                 timer_valid (Some q) w' = Ok (b, w')).
Proof.
  intros [Hcfg [L HL]] Hlk Hp Hv.
  destruct (del_timer_valid w L p e HL Hcfg Hlk Hp Hv)
    as (w' & L' & nx & Hrun & HL' & Hsame & Hlk' & Hp' & Hpay & Hperm).
  exists w'. split; [done|]. split; [split; [by eapply wheel_cfg_same|by exists L']|].
  split; [done|]. split; [|split; [|split]].
  - unfold timer_valid, st_bind. by rewrite (load_ok p _ w' Hp').
  - unfold num_entries, st_gets. do 2 f_equal.
    rewrite (lk_num _ _ _ HL'), (lk_num _ _ _ HL). by rewrite Hperm.
  - apply (keeps_entries_frame w w' p); [by rewrite Hp'|done].
  - intros q b Hq. apply timer_valid_frame. by apply Hpay.
Qed.

(** X3: on a wheel of 2 to 2^31 slices, for a timeout below 65536
    rotations and no initial delay, [get_timeout_remaining] right after
    [add_timer] reports the whole rotations of the timeout plus its rest
    rounded down to whole slices, but at least one slice; this is within
    one slice interval of the timeout that was asked for. *)
Theorem add_timer_remaining w p timer_id timeout ctxt cb periodic :
  wheel_inv w -> slock_ w = ∅ -> twentry_slab_ w !! p = None ->
  2 <= nslices_ w <= 2147483648 ->
  0 <= timeout < 65536 * (nslices_ w * slice_intvl_ w) ->
  exists w' r,
    add_timer (Some p) timer_id timeout ctxt cb periodic 0 w = Ok (Some p, w') /\
    get_timeout_remaining (Some p) w' = Ok (r, w') /\
    r = timeout / (nslices_ w * slice_intvl_ w) * (nslices_ w * slice_intvl_ w)
        + Z.max 1 (timeout mod (nslices_ w * slice_intvl_ w) / slice_intvl_ w)
          * slice_intvl_ w /\
    timeout - slice_intvl_ w < r <= timeout + slice_intvl_ w.
Proof.
  intros [Hcfg [L HL]] Hlk Hp HN Ht.
  destruct (add_timer_spec w (Some p) timer_id timeout ctxt cb periodic 0)
    as (w' & Hrun & HL' & Hsame & Hlk' & Hnum & Hent & _);
    [by exists L|done|done|by intros ? [= <-]|].
  destruct (Hent p eq_refl) as [[nx Hp'] _].
  pose proof Hcfg as (Hg & _ & HP & Hc).
  set (N := nslices_ w) in *. set (g := slice_intvl_ w) in *.
  set (P := N * g) in *.
  assert (0 < P) as HP0 by (unfold P; nia).
  set (m := timeout mod P). set (k := Z.max 1 (m / g)).
  assert (0 <= m < P) as Hm by (apply Z.mod_pos_bound; lia).
  assert (0 <= m / g < N) as Hmg.
  { split; [apply Z.div_pos; lia|]. apply Z.div_lt_upper_bound; [lia|]. unfold P in Hm. lia. }
  assert (1 <= k < N) as Hk by (unfold k; lia).
  assert (0 <= timeout / P < 65536) as Hq.
  { split; [apply Z.div_pos; lia|]. apply Z.div_lt_upper_bound; lia. }
  replace (0 + timeout) with timeout in Hp' by lia.
  assert (wrap64 timeout = timeout) as Hw64.
  { unfold wrap64. apply Z.mod_small. nia. }
  rewrite Hw64 in Hp'.
  assert (slice_after w timeout 0 false = (curr_slice_ w + k) mod N) as Hsl.
  { unfold slice_after. cbn [andb]. fold N g P m k. f_equal.
    unfold wrap32. apply Z.mod_small. lia. }
  rewrite Hsl in Hp'.
  assert (wrap16 (timeout / P) = timeout / P) as Hw16.
  { unfold wrap16. by apply Z.mod_small. }
  fold N g P in Hp'. rewrite Hw16 in Hp'.
  destruct Hsame as (Eg & _ & EN & Ec).
  assert (Hcfg' : wheel_cfg w') by (unfold wheel_cfg; rewrite Eg, EN, Ec; exact Hcfg).
  eexists w', _. split; [exact Hrun|].
  split; [rewrite (get_timeout_remaining_ok w' p _ Hcfg' Hp') by (cbn; lia); reflexivity|].
  cbn [nspins_ slice_]. rewrite Eg, EN, Ec. fold N g P.
  assert (wrap32 ((curr_slice_ w + k) mod N - curr_slice_ w + N) mod N = k) as ->.
  { assert (0 <= (curr_slice_ w + k) mod N < N) by (apply Z.mod_pos_bound; lia).
    unfold wrap32. rewrite (Z.mod_small _ 4294967296) by lia.
    rewrite <- Z.add_sub_swap, Zminus_mod, Zplus_mod_idemp_l.
    rewrite <- Zminus_mod. replace (curr_slice_ w + k + N - curr_slice_ w) with (k + 1 * N) by lia.
    rewrite Z.mod_add by lia. apply Z.mod_small. lia. }
  split; [reflexivity|].
  pose proof (Z.div_mod timeout P ltac:(lia)) as Hdm. fold m in Hdm.
  pose proof (Z.div_mod m g ltac:(lia)) as Hdm2.
  pose proof (Z.mod_pos_bound m g ltac:(lia)) as Hr.
  unfold k. destruct (Z.max_spec 1 (m / g)) as [[? ->]|[? ->]]; nia.
Qed.

(** X4: [upd_timer_ctxt] on an allocated entry, valid or already
    deleted, replaces the context and nothing else: no other entry
    changes, no lock is taken and the invariant is kept.  A [del_timer]
    that follows returns the new context. *)
Theorem upd_timer_ctxt_then_del w p e ctxt :
  wheel_inv w -> slock_ w = ∅ -> twentry_slab_ w !! p = Some e ->
  exists w1,
    upd_timer_ctxt (Some p) ctxt w = Ok (Some p, w1) /\
    wheel_inv w1 /\ slock_ w1 = ∅ /\
    twentry_slab_ w1 !! p = Some (set_ctxt ctxt e) /\
    (forall q, q <> p -> twentry_slab_ w1 !! q = twentry_slab_ w !! q) /\
    exists w2, del_timer (Some p) w1 = Ok (ctxt, w2) /\ wheel_inv w2.
Proof.
  intros [Hcfg [L HL]] Hlk Hp.
  set (w1 := with_slab (alter (set_ctxt ctxt) p (twentry_slab_ w)) w).
  assert (HL1 : linked ∅ w1 L).
  { apply linked_alter; [right|done]. intros x. by destruct x. }
  assert (Hp1 : twentry_slab_ w1 !! p = Some (set_ctxt ctxt e)).
  { unfold w1. cbn. by rewrite lookup_alter_eq, Hp. }
  exists w1. split; [|split; [|split; [|split; [|split]]]].
  - unfold upd_timer_ctxt, st_bind. by rewrite (store_ok p e).
  - split; [exact Hcfg|by exists L].
  - done.
  - done.
  - intros q Hq. unfold w1. cbn. by rewrite lookup_alter_ne.
  - destruct (valid_ e) eqn:Hv.
    + destruct (del_timer_valid w1 L p (set_ctxt ctxt e) HL1 Hcfg Hlk Hp1 Hv)
        as (w2 & L2 & nx & Hrun & HL2 & Hsame & _).
      exists w2. split; [exact Hrun|]. split; [by eapply wheel_cfg_same|by exists L2].
    + exists w1. split; [|split; [exact Hcfg|by exists L]].
      by rewrite (del_timer_invalid w1 L p (set_ctxt ctxt e) HL1 Hlk Hp1 Hv).
Qed.

(** X5: on a thread-safe wheel with a single slice, [upd_timer] of a
    valid timer never returns: with the lock of the entry's slice held it
    takes the lock of the new slice, which is the same slice. *)
Theorem one_slice_upd_timer_deadlocks w p e timeout periodic ctxt :
  wheel_inv w -> slock_ w = ∅ -> thread_safe_ w = true -> nslices_ w = 1 ->
  twentry_slab_ w !! p = Some e -> valid_ e = true ->
  upd_timer (Some p) timeout periodic ctxt w = Err Deadlock.
Proof.
  intros [Hcfg [L HL]] Hlk Hts HN Hp Hv.
  pose proof (linked_entry_slice w L p e HL Hp) as Hs0.
  assert (Hfree : thread_safe_ w = true -> slice_ e ∉ slock_ w) by (rewrite Hlk; set_solver).
  set (s0 := slice_ e) in *.
  destruct (lockst_fields s0 w) as (Hslab & HN0 & Hhd & Hnum & Hsame).
  assert (Hp0 : twentry_slab_ (lockst s0 w) !! p = Some e) by (by rewrite Hslab).
  destruct (remove_timer_spec ∅ (lockst s0 w) L p e
              (linked_lockst _ _ _ _ HL) Hp0 ltac:(set_solver) Hv)
    as (w1 & L1 & Hrm & HL1 & Hsame1 & Hlk1 & Hp1 & Hpay1 & Hperm1).
  assert (Hsame01 : same_cfg w w1) by (by eapply same_cfg_trans).
  assert (Hcfg1 : wheel_cfg w1) by (by eapply wheel_cfg_same).
  pose proof (slice_after_range w1 timeout s0 true Hcfg1) as Hs.
  destruct Hsame01 as (_ & Hts1 & HN1 & _).
  unfold upd_timer, st_bind.
  rewrite (lock_entry_slice_ok p e) by done. fold s0.
  rewrite (load_ok p e) by done. rewrite Hv. cbn [negb].
  rewrite Hrm. rewrite next_slice_ok by done.
  unfold TWHEEL_LOCK_SLICE. rewrite Hts1, Hts.
  rewrite in_range_true by done.
  rewrite bool_decide_eq_true_2; [done|].
  rewrite Hlk1. assert (slice_after w1 timeout s0 true = s0) as -> by lia.
  by apply lockst_held.
Qed.

(** X6: when its three allocations succeed [factory] holds exactly
    the wheel object, the slab and the slice array; [destroy] of the new
    wheel gives all three back and nothing else, and [destroy] of the nil
    handle does nothing. *)
Theorem factory_then_destroy slice_intvl wheel_duration thread_safe m a b c rest :
  0 < slice_intvl < wheel_duration -> wheel_duration < 4294967296 ->
  fresh_answers m -> pending m = Some a :: Some b :: Some c :: rest ->
  exists this m',
    factory slice_intvl wheel_duration thread_safe m = Ok (Some (constructed this), m') /\
    live m' = {[a; b; c]} ∪ live m /\
    destroy (Some (a, this)) m' = Ok (tt, mk_cmem (live m) rest) /\
    destroy None m' = Ok (tt, m').
Proof.
  intros Hargs HD [Hnd Hfresh] Hpd.
  assert ((slice_intvl =? 0) = false) as Eg by lia.
  assert (wrap32 (wheel_duration / slice_intvl) = wheel_duration / slice_intvl) as EN.
  { unfold wrap32. apply Z.mod_small. split; [apply Z.div_pos; lia|].
    apply Z.div_lt_upper_bound; nia. }
  assert (1 <= wheel_duration / slice_intvl) as HN by (apply Z.div_le_lower_bound; lia).
  destruct m as [lv pd]. cbn [pending live] in *. subst pd.
  assert (a ∉ lv) as Ha by (apply Hfresh; left).
  assert (b ∉ lv) as Hb by (apply Hfresh; right; left).
  assert (c ∉ lv) as Hc by (apply Hfresh; right; right; left).
  assert (a <> b /\ a <> c /\ b <> c) as (Hab & Hac & Hbc).
  { cbn in Hnd. apply NoDup_cons in Hnd as [Ha' Hnd]. apply NoDup_cons in Hnd as [Hb' _].
    set_solver. }
  exists (mk_members (Some b) slice_intvl thread_safe (wheel_duration / slice_intvl)
            (Some c) 0 0), (mk_cmem ({[c]} ∪ ({[b]} ∪ ({[a]} ∪ lv))) rest).
  split; [|split; [|split]].
  - unfold factory. rewrite (factory_accepts _ _ Hargs).
    unfold init, slab_factory, udiv, SDK_CALLOC, st_ret, st_bind.
    cbn; factory_mem; rewrite Eg; cbn; factory_mem. by rewrite EN.
  - cbn. set_solver.
  - unfold destroy, destructor, slab_destroy, touch, SDK_FREE, st_ret, st_bind, st_fail.
    cbn [m_twentry_slab_ m_thread_safe_ m_nslices_ m_twheel_ live pending].
    rewrite !(bool_decide_eq_true_2 (b ∈ _)) by set_solver.
    cbn [live pending].
    assert ((0 <? wheel_duration / slice_intvl) = true) as -> by lia.
    rewrite Bool.andb_true_r.
    destruct thread_safe.
    + rewrite !(bool_decide_eq_true_2 (c ∈ _)) by set_solver. cbn [live pending].
      rewrite !(bool_decide_eq_true_2 (a ∈ _)) by set_solver.
      do 3 f_equal. apply set_eq. intros x. set_solver.
    + rewrite !(bool_decide_eq_true_2 (c ∈ _)) by set_solver. cbn [live pending].
      rewrite !(bool_decide_eq_true_2 (a ∈ _)) by set_solver.
      do 3 f_equal. apply set_eq. intros x. set_solver.
  - done.
Qed.

(** A first timer on the empty ten-slice wheel. *)
Lemma add_timer_registers_demo :
  (exists w',
     add_timer (Some 1%positive) 1 350 77 5 false 0 demo_wheel = Ok (Some 1%positive, w') /\
     wheel_inv w' /\ slock_ w' = ∅ /\
     timer_valid (Some 1%positive) w' = Ok (true, w') /\
     num_entries w' = Ok (num_entries_ demo_wheel + 1, w') /\
     (forall q b, q <> 1%positive -> timer_valid (Some q) demo_wheel = Ok (b, demo_wheel) ->
                  timer_valid (Some q) w' = Ok (b, w'))) /\
  add_timer None 1 350 77 5 false 0 demo_wheel = Ok (None, demo_wheel).
Proof.
  apply (add_timer_registers demo_wheel 1%positive 1 350 77 5 false 0).
  - exact demo_wheel_inv.
  - reflexivity.
  - reflexivity.
  - cbn. lia.
Defined.

(** The one-shot timer 3 of [demo_loaded] is deleted. *)
Lemma del_timer_parks_demo :
  exists w',
    del_timer (Some 3%positive) demo_loaded = Ok (79, w') /\
    wheel_inv w' /\ slock_ w' = ∅ /\
    timer_valid (Some 3%positive) w' = Ok (false, w') /\
    num_entries w' = Ok (3, w') /\
    keeps_entries demo_loaded w' /\
    (forall q b, q <> 3%positive -> timer_valid (Some q) demo_loaded = Ok (b, demo_loaded) ->
                 timer_valid (Some q) w' = Ok (b, w')).
Proof.
  apply (del_timer_parks demo_loaded 3%positive
           (mk_twentry 3 150 false true 79 5 0 1 None (Some 1%positive))).
  - exact demo_loaded_inv.
  - reflexivity.
  - vm_compute. reflexivity.
  - reflexivity.
Defined.

(** 350 ms on the ten-slice wheel of 100 ms slices: 300 ms remain. *)
Lemma add_timer_remaining_demo :
  exists w' r,
    add_timer (Some 1%positive) 1 350 77 5 false 0 demo_wheel = Ok (Some 1%positive, w') /\
    get_timeout_remaining (Some 1%positive) w' = Ok (r, w') /\
    r = 350 / (10 * 100) * (10 * 100) + Z.max 1 (350 mod (10 * 100) / 100) * 100 /\
    350 - 100 < r <= 350 + 100.
Proof.
  apply (add_timer_remaining demo_wheel 1%positive 1 350 77 5 false).
  - exact demo_wheel_inv.
  - reflexivity.
  - reflexivity.
  - cbn. lia.
  - cbn. lia.
Defined.

(** The periodic timer 2 of [demo_loaded] gets the context 99. *)
Lemma upd_timer_ctxt_then_del_demo :
  exists w1,
    upd_timer_ctxt (Some 2%positive) 99 demo_loaded = Ok (Some 2%positive, w1) /\
    wheel_inv w1 /\ slock_ w1 = ∅ /\
    twentry_slab_ w1 !! 2%positive =
      Some (set_ctxt 99 (mk_twentry 2 200 true true 78 5 0 2 None None)) /\
    (forall q, q <> 2%positive -> twentry_slab_ w1 !! q = twentry_slab_ demo_loaded !! q) /\
    exists w2, del_timer (Some 2%positive) w1 = Ok (99, w2) /\ wheel_inv w2.
Proof.
  apply (upd_timer_ctxt_then_del demo_loaded 2%positive
           (mk_twentry 2 200 true true 78 5 0 2 None None) 99).
  - exact demo_loaded_inv.
  - reflexivity.
  - vm_compute. reflexivity.
Defined.

(** The wheel of [factory(2, 3, true)] with one timer. *)
Lemma one_slice_upd_timer_deadlocks_demo :
  exists w,
    add_timer (Some 1%positive) 1 5 77 5 false 0 single_slice_wheel
      = Ok (Some 1%positive, w) /\
    upd_timer (Some 1%positive) 5 false 77 w = Err Deadlock.
Proof.
  assert (Hinv : wheel_inv single_slice_wheel).
  { apply wheel_inv_empty; [unfold wheel_cfg; simpl; lia|done..]. }
  destruct (add_timer_spec single_slice_wheel (Some 1%positive) 1 5 77 5 false 0)
    as (w & Hadd & HL & Hsame & Hlk & _ & Hent & _).
  { apply Hinv. } { apply Hinv. } { done. } { by intros p [= <-]. }
  destruct (Hent 1%positive eq_refl) as [[nx Hp] _].
  exists w. split; [exact Hadd|].
  eapply (one_slice_upd_timer_deadlocks w 1%positive).
  - exact (conj (wheel_cfg_same _ _ Hsame (proj1 Hinv)) HL).
  - exact Hlk.
  - by destruct Hsame as (_ & -> & _).
  - by destruct Hsame as (_ & _ & -> & _).
  - exact Hp.
  - reflexivity.
Defined.

(** [factory(250, 120000, true)] with the allocator answering 1, 2, 3. *)
Lemma factory_then_destroy_demo :
  exists this m',
    factory 250 120000 true (mk_cmem ∅ [Some 1%positive; Some 2%positive; Some 3%positive])
      = Ok (Some (constructed this), m') /\
    live m' = {[1%positive; 2%positive; 3%positive]} ∪ ∅ /\
    destroy (Some (1%positive, this)) m' = Ok (tt, mk_cmem ∅ []) /\
    destroy None m' = Ok (tt, m').
Proof.
  apply (factory_then_destroy 250 120000 true
           (mk_cmem ∅ [Some 1%positive; Some 2%positive; Some 3%positive])
           1%positive 2%positive 3%positive []).
  - lia.
  - lia.
  - split; [cbn; by repeat constructor; set_solver | intros a _; set_solver].
  - reflexivity.
Defined.

(** X29: [get_timeout_remaining] right after [upd_timer] of a valid
    timer, on a wheel of 2 to 2^31 slices and for a timeout below 65536
    rotations.  With [k] the slices the timeout asks for (its rest in the
    rotation in whole slices, at least one): when the slice [k] ahead of
    the current one is not the entry's old slice the answer is within one
    slice interval of the timeout; when it is the old slice and [k < N - 1]
    the entry goes one slice further and the answer is later than the
    timeout by at most two intervals; when it is the old slice and
    [k = N - 1] the entry lands in the current slice and the answer is the
    whole rotations only, the rest of the timeout (at least [N - 1] slices
    when [N >= 3]) being lost. *)
Theorem upd_timer_remaining w p e timeout periodic ctxt :
  wheel_inv w -> slock_ w = ∅ ->
  twentry_slab_ w !! p = Some e -> valid_ e = true ->
  2 <= nslices_ w <= 2147483648 ->
  0 <= timeout < 65536 * (nslices_ w * slice_intvl_ w) ->
  let N := nslices_ w in
  let g := slice_intvl_ w in
  let k := Z.max 1 (timeout mod (N * g) / g) in
  exists w' r,
    upd_timer (Some p) timeout periodic ctxt w = Ok (Some p, w') /\
    get_timeout_remaining (Some p) w' = Ok (r, w') /\
    ((curr_slice_ w + k) mod N <> slice_ e ->
       r = timeout / (N * g) * (N * g) + k * g /\ timeout - g < r <= timeout + g) /\
    ((curr_slice_ w + k) mod N = slice_ e -> k < N - 1 ->
       r = timeout / (N * g) * (N * g) + (k + 1) * g /\ timeout < r <= timeout + 2 * g) /\
    ((curr_slice_ w + k) mod N = slice_ e -> k = N - 1 ->
       r = timeout - timeout mod (N * g) /\ (3 <= N -> r <= timeout - (N - 1) * g)).
Proof.
  intros [Hcfg [L HL]] Hlk Hp Hv HN Ht N g k.
  destruct (upd_timer_valid w L p e timeout periodic ctxt HL Hcfg Hlk ltac:(lia) Hp Hv)
    as (w' & L' & nx & Hrun & HL' & Hsame & Hlk' & Hp' & _).
  pose proof Hcfg as (Hg & _ & HP & Hc).
  fold N g in Hg, HP, Hc, Ht, HN, Hp'.
  set (P := N * g) in *.
  assert (0 < P) as HP0 by (unfold P; nia).
  set (m := timeout mod P) in *.
  assert (0 <= m < P) as Hm by (apply Z.mod_pos_bound; lia).
  assert (0 <= m / g < N) as Hmg.
  { split; [apply Z.div_pos; lia|]. apply Z.div_lt_upper_bound; [lia|]. unfold P in Hm. lia. }
  assert (1 <= k < N) as Hk by (unfold k; lia).
  assert (0 <= timeout / P < 65536) as Hq.
  { split; [apply Z.div_pos; lia|]. apply Z.div_lt_upper_bound; lia. }
  assert (wrap16 (timeout / P) = timeout / P) as Hw16.
  { unfold wrap16. by apply Z.mod_small. }
  rewrite Hw16 in Hp'.
  set (c := curr_slice_ w) in *.
  set (cand := (c + k) mod N).
  assert (0 <= cand < N) as Hcand by (apply Z.mod_pos_bound; lia).
  assert (slice_after w timeout (slice_ e) true
          = if cand =? slice_ e then (cand + 1) mod N else cand) as Hsl.
  { unfold slice_after. cbn [andb]. fold N g P m k c.
    assert (wrap32 (c + k) = c + k) as -> by (unfold wrap32; apply Z.mod_small; lia).
    done. }
  rewrite Hsl in Hp'.
  destruct Hsame as (Eg & _ & EN & Ec).
  assert (Hcfg' : wheel_cfg w') by (unfold wheel_cfg; rewrite Eg, EN, Ec; exact Hcfg).
  eexists w', _. split; [exact Hrun|].
  split; [rewrite (get_timeout_remaining_ok w' p _ Hcfg' Hp') by (cbn; lia); reflexivity|].
  cbn [nspins_ slice_]. rewrite Eg, EN, Ec. fold N g P c.
  assert (Hoff : forall x, 0 <= x < N -> wrap32 (x - c + N) mod N = (x - c) mod N).
  { intros x Hx. unfold wrap32. rewrite (Z.mod_small _ 4294967296) by lia.
    replace (x - c + N) with (x - c + 1 * N) by lia. by rewrite Z.mod_add by lia. }
  pose proof (Z.div_mod timeout P ltac:(lia)) as Hdm. fold m in Hdm.
  pose proof (Z.div_mod m g ltac:(lia)) as Hdm2.
  pose proof (Z.mod_pos_bound m g ltac:(lia)) as Hr.
  assert (Hkm : k * g <= m + g /\ (1 <= m / g -> k = m / g)).
  { unfold k. destruct (Z.max_spec 1 (m / g)) as [[? ->]|[? ->]]; split; nia. }
  assert (Hmk : m < (k + 1) * g).
  { unfold k. destruct (Z.max_spec 1 (m / g)) as [[? ->]|[? ->]]; nia. }
  split; [|split].
  - intros Hne. rewrite (proj2 (Z.eqb_neq cand (slice_ e)) Hne).
    rewrite Hoff by done. unfold cand.
    rewrite Zminus_mod_idemp_l. replace (c + k - c) with k by lia.
    rewrite (Z.mod_small k) by lia. split; [done|].
    destruct Hkm as [Hkm1 Hkm2]. split; [|nia].
    destruct (Z_le_dec 1 (m / g)) as [H1|H1]; [rewrite (Hkm2 H1); nia|].
    assert (k = 1) as -> by (unfold k; lia). nia.
  - intros Heq Hlt. rewrite (proj2 (Z.eqb_eq cand (slice_ e)) Heq).
    rewrite Hoff by (apply Z.mod_pos_bound; lia).
    rewrite Zminus_mod_idemp_l. unfold cand.
    replace ((c + k) mod N + 1 - c) with ((c + k) mod N + (1 - c)) by lia.
    rewrite Zplus_mod_idemp_l.
    replace (c + k + (1 - c)) with (k + 1) by lia.
    rewrite (Z.mod_small (k + 1)) by lia. split; [done|].
    destruct Hkm as [Hkm1 Hkm2]. nia.
  - intros Heq HkN. rewrite (proj2 (Z.eqb_eq cand (slice_ e)) Heq).
    rewrite Hoff by (apply Z.mod_pos_bound; lia).
    rewrite Zminus_mod_idemp_l. unfold cand.
    replace ((c + k) mod N + 1 - c) with ((c + k) mod N + (1 - c)) by lia.
    rewrite Zplus_mod_idemp_l.
    replace (c + k + (1 - c)) with (1 * N) by lia.
    rewrite Z.mod_mul by lia. split; [lia|].
    intros HN3. destruct Hkm as [_ Hkm2].
    assert (1 <= m / g) as H1.
    { destruct (Z_le_dec 1 (m / g)) as [|Hn]; [done|].
      assert (k = 1) by (unfold k; lia). lia. }
    rewrite (Hkm2 H1) in HkN. nia.
Qed.

(** A timer in slice 9 of the ten-slice wheel is updated to 950 ms while
    the wheel is in slice 0: it lands in slice 0 and no time remains. *)
Lemma upd_timer_remaining_demo :
  exists w1 w2,
    add_timer (Some 1%positive) 1 900 77 5 false 0 demo_wheel = Ok (Some 1%positive, w1) /\
    upd_timer (Some 1%positive) 950 false 77 w1 = Ok (Some 1%positive, w2) /\
    get_timeout_remaining (Some 1%positive) w2 = Ok (0, w2).
Proof.
  destruct (add_timer_spec demo_wheel (Some 1%positive) 1 900 77 5 false 0)
    as (w1 & Hadd & HL1 & Hsame1 & Hlk1 & _ & Hent & _).
  { apply demo_wheel_inv. } { apply demo_wheel_inv. } { done. } { by intros p [= <-]. }
  destruct (Hent 1%positive eq_refl) as [[nx Hp] _].
  pose proof Hsame1 as (Eg & Ets & EN & Ec). cbn in Eg, Ets, EN, Ec.
  destruct (upd_timer_remaining w1 1%positive _ 950 false 77
              (conj (wheel_cfg_same _ _ Hsame1 (proj1 demo_wheel_inv)) HL1) Hlk1 Hp eq_refl)
    as (w2 & r & Hupd & Hrem & _ & _ & Hwrap).
  { rewrite EN. lia. }
  { rewrite EN, Eg. lia. }
  exists w1, w2. split; [exact Hadd|]. split; [exact Hupd|].
  rewrite EN, Eg, Ec in Hwrap. destruct Hwrap as [-> _]; [reflexivity..|].
  exact Hrem.
Defined.

Lemma same_payload_corpse w w' x e :
  same_payload w w' x -> twentry_slab_ w !! x = Some e ->
  exists e', twentry_slab_ w' !! x = Some e' /\ valid_ e' = valid_ e /\
             slice_ e' = slice_ e.
Proof.
  unfold same_payload. intros H Hx. rewrite Hx in H.
  destruct (twentry_slab_ w' !! x) as [e'|]; [|done].
  exists e'. split; [done|]. cbn in H. injection H as H.
  destruct e, e'. unfold strip, set_next, set_prev in H. cbn in *. by simplify_eq.
Qed.

Lemma same_payload_absent w w' x :
  same_payload w w' x -> twentry_slab_ w !! x = None -> twentry_slab_ w' !! x = None.
Proof.
  unfold same_payload. intros H Hx. rewrite Hx in H.
  by destruct (twentry_slab_ w' !! x).
Qed.

Lemma tick_walk_reclaims k : forall fuel w L l p,
  wheel_cfg w -> 2 <= nslices_ w -> linked ∅ w L -> armed w ->
  L !! Z.to_nat (curr_slice_ w) = Some l -> l !! k = Some p -> (k < fuel)%nat ->
  (thread_safe_ w = true -> slock_ w = {[ curr_slice_ w ]}) ->
  exists w', tick_walk quiet fuel (Some p) w = Ok (tt, w') /\ walk_post w L w' /\
             walk_clean w (curr_slice_ w) l k w'.
Proof.
  induction k as [k IH] using lt_wf_ind.
  intros fuel w L l p Hcfg HN HL Harm Hc Hk Hfuel Hlock.
  destruct fuel as [|fuel]; [lia|].
  set (c := curr_slice_ w) in *.
  assert (0 <= c < nslices_ w) as Hcr by apply Hcfg.
  destruct (lk_entry _ _ _ HL _ l k p Hc Hk) as (e & Hp & Hsl & Hprev & Hnext).
  rewrite Z2Nat.id in Hsl by lia.
  pose proof (lk_nodup _ _ _ HL) as Hnd.
  assert (Hndl : NoDup l) by (by eapply concat_NoDup_slice).
  (* what remains to be walked once [p] has been dealt with *)
  assert (Hcont : forall w1 L1 l1,
    same_cfg w w1 -> linked ∅ w1 L1 -> armed w1 -> slock_ w1 = slock_ w ->
    L1 !! Z.to_nat c = Some l1 ->
    (forall j, (j < k)%nat -> l1 !! j = l !! j) ->
    (length (concat L1) <= length (concat L))%nat ->
    (forall x, x <> p -> same_payload w w1 x) ->
    (valid_ e = false -> twentry_slab_ w1 !! p = None) ->
    exists w', tick_walk quiet fuel (pred_of l k) w1 = Ok (tt, w') /\ walk_post w L w' /\
               walk_clean w c l k w').
  { intros w1 L1 l1 Hsame HL1 Harm1 Hlk1 Hc1 Hl1 Hlen Hpay Hgone.
    assert (Fabs : forall x, twentry_slab_ w !! x = None -> twentry_slab_ w1 !! x = None).
    { intros x Hx. apply (same_payload_absent w w1 x); [|done]. apply Hpay. congruence. }
    assert (Fcor : forall x e0, twentry_slab_ w !! x = Some e0 -> valid_ e0 = false ->
              x <> p ->
              exists e1, twentry_slab_ w1 !! x = Some e1 /\ valid_ e1 = false /\
                         slice_ e1 = slice_ e0).
    { intros x e0 Hx Hv0 Hxp.
      destruct (same_payload_corpse w w1 x e0 (Hpay x Hxp) Hx) as (e1 & ? & ? & ?).
      exists e1. split; [done|]. split; [congruence|done]. }
    destruct k as [|k']; cbn [pred_of].
    - exists w1. split; [by destruct fuel|]. split; [by exists L1|].
      split; [exact Fabs|]. split.
      + intros j q e0 Hj Hq Hq0 Hv0. assert (j = 0%nat) as -> by lia.
        assert (q = p) as -> by congruence. assert (e0 = e) as -> by congruence. auto.
      + intros x e0 Hx Hv0 Hs0. apply (Fcor x e0 Hx Hv0). intros ->.
        apply Hs0. assert (e0 = e) as -> by congruence. done.
    - destruct (l !! k') as [q|] eqn:Hq.
      2:{ apply lookup_lt_Some in Hk. apply lookup_ge_None in Hq. lia. }
      pose proof Hsame as (Eg & Ets & EN & Ec).
      destruct (IH k' ltac:(lia) fuel w1 L1 l1 q)
        as (w' & Hrun & (L' & HL' & Hs' & Hlk' & Ha' & Hlen') & Ca & Cb & Cc);
        try done.
      + by eapply wheel_cfg_same.
      + lia.
      + by rewrite Ec.
      + rewrite Hl1 by lia. done.
      + lia.
      + rewrite Ets, Ec, Hlk1. done.
      + rewrite Ec in Cc. fold c in Cc.
        exists w'. split; [done|]. split.
        { exists L'. split; [done|].
          split; [by eapply same_cfg_trans|]. split; [congruence|]. split; [done|]. lia. }
        split; [|split].
        * intros x Hx. apply Ca. by apply Fabs.
        * intros j q0 e0 Hj Hq0 Hx0 Hv0.
          destruct (decide (j = Datatypes.S k')) as [->|Hjk].
          { assert (q0 = p) as -> by congruence. assert (e0 = e) as -> by congruence.
            apply Ca. auto. }
          assert (q0 <> p) as Hne.
          { intros ->. apply Hjk. eapply NoDup_lookup; [exact Hndl|done..]. }
          destruct (Fcor q0 e0 Hx0 Hv0 Hne) as (e1 & Hx1 & Hv1 & _).
          apply (Cb j q0 e1); [lia| |done|done]. rewrite Hl1 by lia. done.
        * intros x e0 Hx Hv0 Hs0.
          assert (x <> p) as Hne.
          { intros ->. apply Hs0. assert (e0 = e) as -> by congruence. done. }
          destruct (Fcor x e0 Hx Hv0 Hne) as (e1 & Hx1 & Hv1 & Hs1).
          destruct (Cc x e1 Hx1 Hv1) as (e' & ? & ? & ?); [congruence|].
          exists e'. split; [done|]. split; [done|congruence]. }
  cbn [tick_walk]. unfold st_bind at 1. rewrite (load_ok p e w Hp).
  destruct (valid_ e) eqn:Hv; cbn [negb].
  2:{ (* a corpse *)
    destruct (unlink_shape ∅ w L p e HL Hp ltac:(set_solver))
      as (L1 & Hun & HL1 & Hperm & Hp1 & (i & l0 & j & Hi & Hj & ->)).
    unfold st_bind at 1. rewrite Hun.
    unfold st_bind at 1. unfold free_to_slab_ at 1. rewrite Hp1. rewrite Hprev.
    apply (Hcont _ (<[i := delete j l0]> L) (delete k l)).
    - by repeat split.
    - rewrite <- (gset_add_remove ∅ p) by set_solver. apply linked_free; [set_solver|done].
    - eapply armed_frame; [exact Harm| |].
      + intros x Hx. unfold same_payload. wsimpl. rewrite lookup_delete_ne by done.
        apply unlinked_payload.
      + intros e'. wsimpl. by rewrite lookup_delete_eq.
    - done.
    - by eapply taken_out.
    - intros j' Hj'. apply list_lookup_delete_lt. lia.
    - rewrite (length_concat_delete L i l0 j p Hi Hj). lia.
    - intros x Hx. unfold same_payload. wsimpl. rewrite lookup_delete_ne by done.
      apply unlinked_payload.
    - intros _. wsimpl. by rewrite lookup_delete_eq. }
  destruct (nspins_ e =? 0) eqn:Hn; cbn [negb].
  2:{ (* one more revolution *)
    unfold st_bind at 1. rewrite (store_ok p e _ w Hp).
    unfold st_bind at 1.
    erewrite load_ok by (wsimpl; by rewrite lookup_alter_eq, Hp).
    cbn [prev_ set_nspins]. rewrite Hprev.
    apply (Hcont _ L l).
    - by repeat split.
    - apply linked_alter; [right; by intros []|done].
    - eapply armed_frame; [exact Harm| |].
      + intros x Hx. by apply alter_payload.
      + intros e'. wsimpl. rewrite lookup_alter_eq, Hp. intros [= <-]. cbn.
        intros _. by eapply Harm.
    - done.
    - done.
    - done.
    - done.
    - intros x Hx. by apply alter_payload.
    - done. }
  (* the timer fires *)
  assert (cb_ e <> 0) as Hcb by (by eapply Harm).
  unfold st_bind at 1. unfold call_cb at 1. unfold st_bind at 1.
  rewrite (load_ok p e w Hp). rewrite (proj2 (Z.eqb_neq _ _) Hcb).
  unfold quiet at 1. unfold st_ret at 1.
  unfold st_bind at 1. rewrite (load_ok p e w Hp). rewrite Hv, Hprev.
  destruct (periodic_ e) eqn:Hper.
  - assert (slice_after w (timeout_ e) (slice_ e) true <> c) as Hne.
    { rewrite Hsl. by apply slice_after_differs. }
    destruct (upd_timer__shape ∅ w L p e (timeout_ e) true HL Hcfg Hp ltac:(set_solver) Hv)
      as (w1 & L1 & nx & Hrun & HL1 & Hsame1 & Hlk1 & Hp1 & Hpay1 & Hperm1 &
          (i & l0 & j & i2 & l2 & Hi & Hj & Hs2 & Hi2 & ->)).
    { intros Hts. rewrite (Hlock Hts). by apply not_elem_of_singleton. }
    unfold st_bind at 1. rewrite Hrun.
    apply (Hcont w1 (<[i2 := p :: l2]> (<[i := delete j l0]> L)) (delete k l)); try done.
    + eapply armed_frame; [exact Harm|exact Hpay1|].
      intros e'. rewrite Hp1. intros [= <-] _. done.
    + eapply moved_away; try done. intros ->. apply Hne. rewrite Hs2. lia.
    + intros j' Hj'. apply list_lookup_delete_lt. lia.
    + by rewrite Hperm1.
  - assert (slice_after w TWHEEL_DELAY_DELETE (slice_ e) true <> c) as Hne.
    { rewrite Hsl. by apply slice_after_differs. }
    destruct (expire_shape w L p e HL Hcfg Hp Hv)
      as (w1 & L1 & e1 & Hrun & HL1 & Hsame1 & Hlk1 & Hp1 & Hv1 & Hpay1 & Hperm1 &
          (i & l0 & j & i2 & l2 & Hi & Hj & Hs2 & Hi2 & ->)).
    { intros Hts. rewrite (Hlock Hts). by apply not_elem_of_singleton. }
    unfold st_bind at 1. rewrite Hrun.
    apply (Hcont w1 (<[i2 := p :: l2]> (<[i := delete j l0]> L)) (delete k l)); try done.
    + eapply armed_frame; [exact Harm|exact Hpay1|].
      intros e'. rewrite Hp1. intros [= <-] Hv'. congruence.
    + eapply moved_away; try done. intros ->. apply Hne. rewrite Hs2. lia.
    + intros j' Hj'. apply list_lookup_delete_lt. lia.
    + by rewrite Hperm1.
Qed.

Lemma slice_dist_step N s c :
  0 <= s < N -> 0 <= c < N -> s <> c ->
  (s - (c + 1) mod N) mod N = (s - c) mod N - 1.
Proof.
  intros Hs Hc Hne. rewrite Zminus_mod_idemp_r.
  destruct (Z_lt_dec c s) as [Hlt|Hge].
  - rewrite !Z.mod_small by lia. lia.
  - replace (s - (c + 1)) with (s - c - 1 + 1 * N - 1 * N + 0) by lia.
    replace (s - c) with (s - c + N + (-1) * N) at 2 by lia.
    rewrite Z.mod_add by lia.
    replace (s - c - 1 + 1 * N - 1 * N + 0) with (s - c - 1 + N + (-1) * N) by lia.
    rewrite Z.mod_add by lia. rewrite !Z.mod_small by lia. lia.
Qed.

Lemma tick_slices_reclaims n : forall fuel w L,
  wheel_cfg w -> 2 <= nslices_ w -> linked ∅ w L -> armed w -> slock_ w = ∅ ->
  (length (concat L) < fuel)%nat ->
  exists w' L',
    tick_slices quiet fuel n w = Ok (tt, w') /\
    wheel_cfg w' /\ linked ∅ w' L' /\ armed w' /\ slock_ w' = ∅ /\
    (forall x, twentry_slab_ w !! x = None -> twentry_slab_ w' !! x = None) /\
    (forall x e, twentry_slab_ w !! x = Some e -> valid_ e = false ->
       (slice_ e - curr_slice_ w) mod nslices_ w < Z.of_nat n ->
       twentry_slab_ w' !! x = None).
Proof.
  induction n as [|n IH]; intros fuel w L Hcfg HN HL Harm Hlk Hfuel.
  { exists w, L. split; [done|]. repeat (split; [done|]).
    intros x e _ _ Hd. pose proof (Z.mod_pos_bound (slice_ e - curr_slice_ w) (nslices_ w)). lia. }
  set (c := curr_slice_ w).
  assert (0 <= c < nslices_ w) as Hcr by apply Hcfg.
  assert (exists l, L !! Z.to_nat c = Some l) as [l Hc].
  { apply lookup_lt_is_Some_2. rewrite (lk_len _ _ _ HL). lia. }
  pose proof (length_slice_le L _ l Hc) as Hll.
  destruct (lockst_fields c w) as (Eslab & EN & Ehd & Enum & Esame).
  pose proof Esame as (Eg & Ets & _ & Ec).
  set (w0 := lockst c w) in *.
  assert (Hcfg0 : wheel_cfg w0) by (by eapply wheel_cfg_same).
  assert (HL0 : linked ∅ w0 L) by (by apply linked_lockst).
  assert (Harm0 : armed w0) by (by eapply armed_same).
  assert (Hlk0 : thread_safe_ w0 = true -> slock_ w0 = {[ curr_slice_ w0 ]}).
  { intros Hts. rewrite Ec. fold c. unfold w0, lockst. rewrite Ets in Hts. rewrite Hts.
    cbn. rewrite Hlk. set_solver. }
  (* an entry of slice [c] is in the list of that slice *)
  assert (Hin : forall x e, twentry_slab_ w0 !! x = Some e -> slice_ e = c ->
            exists j, l !! j = Some x).
  { intros x e Hx Hs.
    destruct (linked_locate ∅ w0 L x HL0) as (i & l' & j & Hi & Hj);
      [by rewrite Hx|set_solver|].
    destruct (lk_entry _ _ _ HL0 i l' j x Hi Hj) as (e' & He' & Hsl & _).
    assert (e' = e) as -> by congruence.
    assert (i = Z.to_nat c) as -> by lia.
    assert (l' = l) as -> by congruence. by exists j. }
  (* the walk of the slice *)
  assert (exists r w1 L1,
    last_timer_in_slice fuel c w0 = Ok (r, w0) /\
    tick_walk quiet fuel r w0 = Ok (tt, w1) /\
    linked ∅ w1 L1 /\ same_cfg w0 w1 /\ slock_ w1 = slock_ w0 /\ armed w1 /\
    (length (concat L1) <= length (concat L))%nat /\
    (forall x, twentry_slab_ w0 !! x = None -> twentry_slab_ w1 !! x = None) /\
    (forall x e, twentry_slab_ w0 !! x = Some e -> valid_ e = false -> slice_ e = c ->
       twentry_slab_ w1 !! x = None) /\
    (forall x e, twentry_slab_ w0 !! x = Some e -> valid_ e = false -> slice_ e <> c ->
       exists e', twentry_slab_ w1 !! x = Some e' /\ valid_ e' = false /\
                  slice_ e' = slice_ e))
    as (r & w1 & L1 & Hlast & Hwalk & HL1 & Hsame1 & Hlk1 & Harm1 & Hlen1 &
        Cabs & Cfree & Ckeep).
  { unfold last_timer_in_slice.
    erewrite st_bind_Ok by (apply get_head_ok; by rewrite EN).
    rewrite Ehd.
    replace (slice_head_ w !! c) with (slice_head_ w !! Z.of_nat (Z.to_nat c))
      by (by rewrite Z2Nat.id by lia).
    rewrite (lk_head _ _ _ HL _ l Hc).
    destruct l as [|p l'].
    - cbn [head]. exists None, w0, L. split; [by destruct fuel|]. split; [by destruct fuel|].
      split; [done|]. split; [apply same_cfg_refl|]. split; [done|]. split; [done|].
      split; [lia|]. split; [done|]. split.
      + intros x e Hx _ Hs. destruct (Hin x e Hx Hs) as [j Hj]. done.
      + intros x e Hx Hv _. by exists e.
    - cbn [head].
      destruct (last_timer_loop_total (p :: l') fuel 0 w0 L (Z.to_nat c) p HL0 Hc eq_refl)
        as (last & Hlast & Hpos); [cbn in *; lia|].
      destruct (tick_walk_reclaims (length (p :: l') - 1) fuel w0 L (p :: l') last)
        as (w1 & Hrun & (L1 & HL1 & Hsame1 & Hlk1 & Harm1 & Hlen1) & Ca & Cb & Cc);
        try done.
      + by rewrite EN.
      + by rewrite Ec.
      + cbn in *. lia.
      + rewrite Ec in Cc. fold c in Cc.
        exists (Some last), w1, L1. repeat (split; [done|]). split; [|done].
        intros x e Hx Hv Hs. destruct (Hin x e Hx Hs) as [j Hj].
        apply (Cb j x e); [|done..]. apply lookup_lt_Some in Hj. lia. }
  pose proof Hsame1 as (Eg1 & Ets1 & EN1 & Ec1).
  destruct (unlockst_fields c w1) as (Eslab2 & EN2 & Ehd2 & Enum2 & Esame2).
  pose proof Esame2 as (Eg2 & Ets2 & _ & Ec2).
  set (w2 := unlockst c w1) in *.
  assert (Hlk2 : slock_ w2 = ∅).
  { unfold w2. rewrite <- Hlk. apply unlockst_restores; [by rewrite Hlk|congruence|done]. }
  assert (wrap32 (c + 1) = c + 1) as Hw.
  { unfold wrap32. apply Z.mod_small. destruct Hcfg as (? & ? & ? & ?). nia. }
  set (w3 := with_curr ((c + 1) mod nslices_ w) w2).
  assert (Hstep : tick_slices quiet fuel (Datatypes.S n) w = tick_slices quiet fuel n w3).
  { cbn [tick_slices].
    erewrite st_bind_Ok by reflexivity.
    erewrite st_bind_Ok by (apply lock_ok; [done|by rewrite Hlk]).
    erewrite st_bind_Ok by exact Hlast.
    erewrite st_bind_Ok by exact Hwalk.
    erewrite st_bind_Ok by reflexivity.
    erewrite st_bind_Ok.
    2:{ rewrite Ec1, Ec. apply unlock_ok; [by rewrite EN1, EN|].
        rewrite Ets1. intros Hts. rewrite Hlk1, (Hlk0 Hts), Ec. set_solver. }
    erewrite st_bind_Ok by reflexivity.
    erewrite st_bind_Ok by reflexivity.
    erewrite st_bind_Ok.
    2:{ unfold umod. change (unlockst (curr_slice_ w) w1) with w2. rewrite EN2, EN1, EN.
        rewrite (proj2 (Z.eqb_neq (nslices_ w) 0)) by lia. reflexivity. }
    erewrite st_bind_Ok by reflexivity.
    change (unlockst (curr_slice_ w) w1) with w2.
    rewrite Ec2, Ec1, Ec. fold c. rewrite Hw. reflexivity. }
  rewrite Hstep.
  assert (Eslab3 : twentry_slab_ w3 = twentry_slab_ w1) by (unfold w3; wsimpl; done).
  assert (EN3 : nslices_ w3 = nslices_ w) by (unfold w3; wsimpl; by rewrite EN2, EN1, EN).
  destruct (IH fuel w3 L1)
    as (w' & L' & Hrun & Hcfg' & HL' & Harm' & Hlk' & Ca' & Cb').
  - unfold w3, wheel_cfg. wsimpl. rewrite Eg2, Eg1, Eg, EN2, EN1, EN.
    destruct Hcfg as (? & ? & ? & ?). repeat split; try done.
    all: apply Z.mod_pos_bound; lia.
  - by rewrite EN3.
  - apply (linked_same _ w2); [done..|]. by apply linked_unlockst.
  - apply (armed_same w2); [done|]. by apply (armed_same w1).
  - done.
  - lia.
  - exists w', L'. repeat (split; [done|]). split.
    + intros x Hx. apply Ca'. rewrite Eslab3. apply Cabs. by rewrite Eslab.
    + intros x e Hx Hv Hd. fold c in Hd.
      assert (Hx0 : twentry_slab_ w0 !! x = Some e) by (by rewrite Eslab).
      destruct (decide (slice_ e = c)) as [Hs|Hs].
      * apply Ca'. rewrite Eslab3. by apply (Cfree x e).
      * destruct (Ckeep x e Hx0 Hv Hs) as (e' & Hx1 & Hv1 & Hs1).
        apply (Cb' x e'); [by rewrite Eslab3|done|].
        rewrite EN3, Hs1. unfold w3. wsimpl.
        pose proof (linked_entry_slice w L x e HL Hx) as Hrange.
        rewrite slice_dist_step by done. lia.
Qed.

(** X30: a timer that has been deleted is given back to the slab by the
    [tick] that walks the slice it is parked in: on a wheel of at least
    two slices, with no lock held, callbacks that leave the wheel alone
    and a callback in every valid entry, [tick] returns, keeps the
    invariant, and every corpse whose slice is among the
    [msecs_elapsed / g] slices walked (the current slice first) is no
    longer allocated afterwards; a tick of a whole rotation so reclaims
    every corpse there was.  [tick] never allocates an entry. *)
Theorem tick_reclaims_corpses w msecs_elapsed :
  wheel_inv w -> 2 <= nslices_ w -> slock_ w = ∅ -> armed w ->
  0 <= msecs_elapsed < 4294967296 ->
  exists fuel0, forall fuel, (fuel0 <= fuel)%nat ->
    exists w',
      tick quiet fuel msecs_elapsed w = Ok (tt, w') /\
      wheel_inv w' /\ slock_ w' = ∅ /\
      (forall p e, twentry_slab_ w !! p = Some e -> valid_ e = false ->
         (slice_ e - curr_slice_ w) mod nslices_ w < msecs_elapsed / slice_intvl_ w ->
         twentry_slab_ w' !! p = None) /\
      (nslices_ w * slice_intvl_ w <= msecs_elapsed ->
       forall p e, twentry_slab_ w !! p = Some e -> valid_ e = false ->
                   twentry_slab_ w' !! p = None) /\
      (forall p, twentry_slab_ w !! p = None -> twentry_slab_ w' !! p = None).
Proof.
  intros [Hcfg [L HL]] HN Hlk Harm Hms.
  exists (Datatypes.S (length (concat L))). intros fuel Hfuel.
  pose proof Hcfg as (Hg & _ & _ & Hc).
  unfold tick. erewrite st_bind_Ok by reflexivity.
  destruct (msecs_elapsed <? slice_intvl_ w) eqn:Hlt.
  { exists w. split; [done|]. split; [split; [done|by exists L]|]. split; [done|].
    assert (msecs_elapsed / slice_intvl_ w = 0) as Hz by (apply Z.div_small; lia).
    split; [|split; [|done]].
    - intros p e _ _ Hd. rewrite Hz in Hd.
      pose proof (Z.mod_pos_bound (slice_ e - curr_slice_ w) (nslices_ w)). lia.
    - intros Hrot. nia. }
  erewrite st_bind_Ok by (unfold udiv; rewrite (proj2 (Z.eqb_neq _ 0)) by lia; reflexivity).
  assert (1 <= msecs_elapsed / slice_intvl_ w) as Hq by (apply Z.div_le_lower_bound; lia).
  assert (msecs_elapsed / slice_intvl_ w <= msecs_elapsed) as Hq'.
  { apply Z.div_le_upper_bound; nia. }
  assert (wrap32 (msecs_elapsed / slice_intvl_ w) = msecs_elapsed / slice_intvl_ w) as ->.
  { unfold wrap32. apply Z.mod_small. lia. }
  erewrite st_bind_Ok by (unfold st_assert; rewrite (proj2 (Z.leb_le _ _) Hq); reflexivity).
  destruct (tick_slices_reclaims (Z.to_nat (msecs_elapsed / slice_intvl_ w)) fuel w L)
    as (w' & L' & Hrun & Hcfg' & HL' & Harm' & Hlk' & Ca & Cb); try done.
  rewrite Z2Nat.id in Cb by lia.
  exists w'. split; [done|]. split; [split; [done|by exists L']|]. split; [done|].
  split; [exact Cb|]. split; [|exact Ca].
  intros Hrot p e Hp Hv. apply (Cb p e Hp Hv).
  pose proof (Z.mod_pos_bound (slice_ e - curr_slice_ w) (nslices_ w) ltac:(lia)).
  assert (nslices_ w <= msecs_elapsed / slice_intvl_ w); [|lia].
  apply Z.div_le_lower_bound; lia.
Qed.

Lemma demo_loaded_armed : armed demo_loaded.
Proof.
  assert (twentry_slab_ demo_loaded =
            <[1%positive := mk_twentry 1 2000 false false 0 0 2 1 (Some 3%positive) None]>
              (<[2%positive := mk_twentry 2 200 true true 78 5 0 2 None None]>
                 (<[3%positive := mk_twentry 3 150 false true 79 5 0 1 None (Some 1%positive)]>
                    ∅))) as E by (vm_compute; reflexivity).
  intros p e Hp Hv. rewrite E in Hp.
  repeat (apply lookup_insert_Some in Hp as [[_ <-]|[_ Hp]]; [by cbn in *|]).
  by rewrite lookup_empty in Hp.
Qed.

(** The timer 1 of [demo_loaded], deleted and parked in slice 1, is given
    back by a tick of two slices. *)
Lemma tick_reclaims_corpses_demo :
  exists fuel0, forall fuel, (fuel0 <= fuel)%nat ->
    exists w',
      tick quiet fuel 200 demo_loaded = Ok (tt, w') /\
      twentry_slab_ w' !! 1%positive = None.
Proof.
  destruct (tick_reclaims_corpses demo_loaded 200 demo_loaded_inv) as [fuel0 H].
  - cbn. lia.
  - reflexivity.
  - exact demo_loaded_armed.
  - lia.
  - exists fuel0. intros fuel Hfuel.
    destruct (H fuel Hfuel) as (w' & Hrun & _ & _ & Hfree & _).
    exists w'. split; [exact Hrun|].
    apply (Hfree 1%positive (mk_twentry 1 2000 false false 0 0 2 1 (Some 3%positive) None)).
    + vm_compute. reflexivity.
    + reflexivity.
    + vm_compute. reflexivity.
Defined.

End TwheelApiFacts.

(** * The slab: allocation and release *)

Module SlabApiFacts.
Import Slab SlabFacts.

Lemma round_up_8 x :
  0 <= x < 4294967296 - 7 ->
  Z.land (wrap32 (x + 7)) (wrap32 (Z.lnot 7)) = 8 * ((x + 7) / 8).
Proof.
  intros Hx. unfold wrap32. rewrite (Z.mod_small (x + 7)) by lia.
  change (Z.lnot 7 mod 4294967296) with (Z.land (Z.lnot 7) (Z.ones 32)).
  rewrite Z.land_assoc, (Z.land_comm (x + 7)), <- Z.land_assoc.
  rewrite (Z.land_ones (x + 7) 32) by lia.
  change (2 ^ 32) with 4294967296. rewrite (Z.mod_small (x + 7)) by lia.
  rewrite Z.land_comm. change 7 with (Z.ones 3).
  rewrite <- Z.ldiff_land, Z.ldiff_ones_r by lia.
  rewrite Z.shiftr_div_pow2, Z.shiftl_mul_pow2 by lia. change (2 ^ 3) with 8. lia.
Qed.

(** X7: [slab::factory] returns NULL when [elems_per_block <= 1],
    when [elem_sz < 8] or when the slab object cannot be allocated;
    otherwise it builds an empty slab (no block, all counters zero) whose
    element size is [elem_sz] plus the 4-byte meta word, rounded up to
    the next multiple of 8. *)
Theorem factory_layout hdr mem elem_sz elems_per_block grow zero :
  0 <= elem_sz < 4294967296 - 11 -> 0 <= hdr ->
  (elems_per_block <= 1 \/ elem_sz < 8 \/ mem = false ->
   factory hdr mem elem_sz elems_per_block grow zero = None) /\
  (1 < elems_per_block -> 8 <= elem_sz ->
   exists s,
     factory hdr true elem_sz elems_per_block grow zero = Some s /\
     elem_sz_ s = 8 * ((elem_sz + 11) / 8) /\
     elem_sz_ s mod 8 = 0 /\
     elem_sz + SLAB_ELEM_META_SIZE <= elem_sz_ s < elem_sz + SLAB_ELEM_META_SIZE + 8 /\
     raw_block_sz_ s = wrap32 (elem_sz_ s * elems_per_block + hdr) /\
     blocks s = ∅ /\ block_head_ s = None /\
     slab_num_in_use_ s = 0 /\ num_allocs_ s = 0 /\ num_frees_ s = 0 /\
     num_alloc_fails_ s = 0 /\ num_blocks_ s = 0).
Proof.
  intros Hsz Hhdr. split.
  - intros H. unfold factory.
    destruct (elems_per_block <=? 1) eqn:E1; [done|].
    destruct (elem_sz <? 8) eqn:E2; [done|]. cbn.
    destruct mem; [lia|done].
  - intros Hn Hs. unfold factory.
    assert ((elems_per_block <=? 1) = false) as -> by lia.
    assert ((elem_sz <? 8) = false) as -> by lia. cbn [orb].
    eexists. split; [reflexivity|]. unfold init. cbn.
    unfold SLAB_ELEM_META_SIZE.
    assert (wrap32 (elem_sz + 4) = elem_sz + 4) as ->.
    { unfold wrap32. apply Z.mod_small. lia. }
    rewrite round_up_8 by lia.
    replace (elem_sz + 4 + 7) with (elem_sz + 11) by lia.
    pose proof (Z.div_mod (elem_sz + 11) 8 ltac:(lia)) as Hdm.
    pose proof (Z.mod_pos_bound (elem_sz + 11) 8 ltac:(lia)) as Hr.
    split; [done|]. split; [by rewrite Z.mul_comm, Z.mod_mul|].
    split; [lia|]. done.
Qed.

(** 48-byte elements: 56 bytes per element. *)
Lemma factory_layout_demo :
  exists s,
    factory 32 true 48 256 true false = Some s /\
    elem_sz_ s = 8 * ((48 + 11) / 8) /\
    elem_sz_ s mod 8 = 0 /\
    48 + SLAB_ELEM_META_SIZE <= elem_sz_ s < 48 + SLAB_ELEM_META_SIZE + 8 /\
    raw_block_sz_ s = wrap32 (elem_sz_ s * 256 + 32) /\
    blocks s = ∅ /\ block_head_ s = None /\
    slab_num_in_use_ s = 0 /\ num_allocs_ s = 0 /\ num_frees_ s = 0 /\
    num_alloc_fails_ s = 0 /\ num_blocks_ s = 0.
Proof.
  apply (proj2 (factory_layout 32 true 48 256 true false ltac:(lia) ltac:(lia))); lia.
Defined.

Lemma find_free_same fuel : forall block s r s',
  find_free fuel block s = Ok (r, s') -> s' = s.
Proof.
  induction fuel as [|fuel IH]; intros [b|] s r s' H; cbn in H;
    try (by apply Ok_inj in H as [_ <-]).
  - unfold st_bind, block_load in H. destruct (blocks s !! b) as [h|]; [|done].
    destruct (free_head_ h); [by apply Ok_inj in H as [_ <-]|done].
  - unfold st_bind, block_load in H. destruct (blocks s !! b) as [h|]; [|done].
    destruct (free_head_ h); [by apply Ok_inj in H as [_ <-]|]. by apply IH in H.
Qed.

Lemma find_block_same fuel ptr : forall block s r s',
  find_block fuel ptr block s = Ok (r, s') -> s' = s.
Proof.
  induction fuel as [|fuel IH]; intros [b|] s r s' H; cbn in H;
    try (by apply Ok_inj in H as [_ <-]).
  - unfold st_bind, st_gets in H. destruct (_ && _); [by apply Ok_inj in H as [_ <-]|].
    unfold block_load in H. by destruct (blocks s !! b).
  - unfold st_bind, st_gets in H. destruct (_ && _); [by apply Ok_inj in H as [_ <-]|].
    unfold block_load in H. destruct (blocks s !! b) as [h|]; [|done].
    by apply IH in H.
Qed.

Lemma elem_load_ok ptr e s : elems s !! ptr = Some e -> elem_load ptr s = Ok (e, s).
Proof. intros H. unfold elem_load. by rewrite H. Qed.

(** X9: [alloc] returns NULL exactly on its two failure paths, the
    allocator refusing a new block, or a slab that is full and may not
    grow; a call that returns NULL changes nothing but
    [num_alloc_fails_], which it increments. *)
Theorem alloc_null_only_counts hdr fuel mem s :
  (find_free fuel (block_head_ s) s = Ok (None, s) ->
   (mem = None /\ (grow_on_demand_ s = true \/ block_head_ s = None)) \/
   (grow_on_demand_ s = false /\ is_Some (block_head_ s)) ->
   alloc hdr fuel mem s = Ok (None, count 0 0 0 1 0 s)) /\
  (forall s', alloc hdr fuel mem s = Ok (None, s') ->
   s' = count 0 0 0 1 0 s /\
   (mem = None \/ (grow_on_demand_ s = false /\ is_Some (block_head_ s)))).
Proof.
  split.
  - intros Hfind Hcase. unfold alloc.
    erewrite st_bind_Ok by reflexivity.
    erewrite st_bind_Ok by exact Hfind.
    erewrite st_bind_Ok by reflexivity. cbv beta iota.
    destruct Hcase as [[-> Hgrow]|[Hgrow Hhead]].
    + assert (grow_on_demand_ s || negb (bool_decide (is_Some (block_head_ s))) = true) as ->.
      { destruct Hgrow as [->| ->]; [done|]. rewrite bool_decide_eq_false_2; [|by intros [? ?]].
        by rewrite orb_true_r. }
      erewrite st_bind_Ok by reflexivity. reflexivity.
    + rewrite Hgrow, bool_decide_eq_true_2 by done. cbn [orb negb].
      erewrite st_bind_Ok by reflexivity. reflexivity.
  - intros s' Hrun. unfold alloc in Hrun.
    erewrite st_bind_Ok in Hrun by reflexivity.
    apply bind_Ok_inv in Hrun as (found & s1 & Hfind & Hrun).
    apply find_free_same in Hfind as ->.
    erewrite st_bind_Ok in Hrun by reflexivity.
    apply bind_Ok_inv in Hrun as (block & s2 & Hblock & Hrun).
    destruct block as [b|].
    { apply bind_Ok_inv in Hrun as (h & s3 & _ & Hrun).
      destruct (free_head_ h); [|done].
      repeat (apply bind_Ok_inv in Hrun as (? & ? & _ & Hrun)).
      by apply Ok_inj in Hrun as [[=] _]. }
    erewrite st_bind_Ok in Hrun by reflexivity. apply Ok_inj in Hrun as [_ <-].
    destruct found as [b|]; [by apply Ok_inj in Hblock as [[=] _]|].
    destruct (grow_on_demand_ s || negb (bool_decide (is_Some (block_head_ s)))) eqn:Hg.
    + apply bind_Ok_inv in Hblock as (fresh & s3 & Hab & Hblock).
      destruct fresh as [b|].
      { repeat (apply bind_Ok_inv in Hblock as (? & ? & _ & Hblock)).
        by apply Ok_inj in Hblock as [[=] _]. }
      apply Ok_inj in Hblock as [_ <-].
      unfold alloc_block_ in Hab. destruct mem as [m|].
      * destruct (blocks s !! m); [done|]. by apply Ok_inj in Hab as [[=] _].
      * apply Ok_inj in Hab as [_ <-]. split; [done|by left].
    + apply Ok_inj in Hblock as [_ <-]. split; [done|]. right.
      apply orb_false_elim in Hg as [-> Hh]. split; [done|].
      apply negb_false_iff, bool_decide_eq_true in Hh. done.
Qed.

(** The first allocation of a slab, refused by the allocator. *)
Lemma alloc_null_only_counts_demo :
  alloc 32 2 None (init 32 8 2 true false)
    = Ok (None, count 0 0 0 1 0 (init 32 8 2 true false)).
Proof.
  apply (proj1 (alloc_null_only_counts 32 2 None (init 32 8 2 true false))).
  - reflexivity.
  - left. split; [reflexivity|]. left. reflexivity.
Defined.

Lemma seqZ_head m n : 0 < n -> seqZ m n = m :: seqZ (m + 1) (n - 1).
Proof.
  intros Hn. replace n with (Z.succ (n - 1)) at 1 by lia.
  rewrite seqZ_cons by lia. f_equal. f_equal; lia.
Qed.

(** X8: when no block of the slab has a free element and the slab
    may grow (or has no block yet), [alloc] takes a new block from the
    allocator, puts it at the head of the block list in front of the old
    head, and returns the block's first element, marked in use; the block
    then counts one element in use and its free list starts at its second
    element; no other block appears or disappears. *)
Theorem alloc_grows hdr fuel s block :
  find_free fuel (block_head_ s) s = Ok (None, s) ->
  grow_on_demand_ s = true \/ block_head_ s = None ->
  blocks s !! block = None ->
  (forall h, block_head_ s = Some h -> is_Some (blocks s !! h)) ->
  1 <= elems_per_block_ s ->
  exists s',
    alloc hdr fuel (Some block) s
      = Ok (Some (elem_at hdr s block 0 + SLAB_ELEM_META_SIZE), s') /\
    block_head_ s' = Some block /\
    blocks s' !! block
      = Some (mk_block None (block_head_ s)
                (if elems_per_block_ s =? 1 then None else Some (elem_at hdr s block 1)) 1) /\
    (forall h, block_head_ s = Some h -> prev_ <$> blocks s' !! h = Some (Some block)) /\
    (forall x, x <> block -> is_Some (blocks s' !! x) <-> is_Some (blocks s !! x)) /\
    in_use <$> elems s' !! elem_at hdr s block 0 = Some true /\
    num_blocks_ s' = wrap32 (num_blocks_ s + 1) /\
    num_allocs_ s' = wrap32 (num_allocs_ s + 1) /\
    slab_num_in_use_ s' = wrap32 (slab_num_in_use_ s + 1).
Proof.
  intros Hfind Hgrow Hfresh Hhead Hn.
  assert (Hctr : forall x, wrap32 (wrap32 (x + 1) + 0) = wrap32 (x + 1) /\
                           wrap32 (wrap32 (x + 0) + 1) = wrap32 (x + 1)).
  { intros x. unfold wrap32. rewrite !Z.add_0_r, Z.mod_mod, Zplus_mod_idemp_l by lia. done. }
  set (n := elems_per_block_ s) in *.
  set (lnk := if n =? 1 then None else Some (elem_at hdr s block 1)).
  set (cells := foldr (fun i acc =>
                     <[elem_at hdr s block i :=
                         mk_elem false (if i =? n - 1 then None
                                        else Some (elem_at hdr s block (i + 1)))]> acc)
                  (elems s) (seqZ 0 n)).
  assert (Hcell : cells !! elem_at hdr s block 0 = Some (mk_elem false lnk)).
  { unfold cells. rewrite seqZ_head by lia. cbn [foldr]. rewrite lookup_insert_eq.
    unfold lnk. do 2 f_equal. destruct (Z.eqb_spec n 1), (Z.eqb_spec 0 (n - 1)); try lia; done. }
  unfold alloc.
  erewrite st_bind_Ok by reflexivity.
  erewrite st_bind_Ok by exact Hfind.
  erewrite st_bind_Ok by reflexivity. cbv beta iota.
  assert (grow_on_demand_ s || negb (bool_decide (is_Some (block_head_ s))) = true) as ->.
  { destruct Hgrow as [->| ->]; [done|]. rewrite bool_decide_eq_false_2; [|by intros [? ?]].
    by rewrite orb_true_r. }
  set (s1 := count 0 0 0 0 1
               (with_elems cells
                  (with_blocks (<[block := mk_block None None (Some (elem_at hdr s block 0)) 0]>
                                  (blocks s)) s))).
  assert (Hab : alloc_block_ hdr (Some block) s = Ok (Some block, s1)).
  { unfold alloc_block_. by rewrite Hfresh. }
  assert (Hb1 : blocks s1 !! block
                = Some (mk_block None None (Some (elem_at hdr s block 0)) 0)).
  { unfold s1. cbn. apply lookup_insert_eq. }
  destruct (block_head_ s) as [h|] eqn:Hh.
  - destruct (Hhead h eq_refl) as [hh Hhh].
    assert (h <> block) as Hne by (intros ->; congruence).
    eexists. split.
    { erewrite st_bind_Ok.
      2:{ erewrite st_bind_Ok by exact Hab. cbv beta iota.
          erewrite st_bind_Ok by (apply (block_store_ok block _ _ s1 Hb1)).
          erewrite st_bind_Ok.
          2:{ apply (block_store_ok h hh). cbn. by rewrite !lookup_insert_ne. }
          erewrite st_bind_Ok by reflexivity. reflexivity. }
      cbv beta iota.
      erewrite st_bind_Ok.
      2:{ apply block_load_ok. cbn. rewrite lookup_insert_ne by done.
          apply lookup_insert_eq. }
      cbn [free_head_ set_block_next].
      erewrite st_bind_Ok by (apply elem_load_ok; cbn; exact Hcell).
      erewrite st_bind_Ok by (eapply elem_store_ok; cbn; exact Hcell).
      erewrite st_bind_Ok.
      2:{ eapply block_store_ok. cbn. rewrite lookup_insert_ne by done.
          apply lookup_insert_eq. }
      erewrite st_bind_Ok by reflexivity.
      erewrite st_bind_Ok by (apply block_load_ok; cbn; apply lookup_insert_eq).
      erewrite st_bind_Ok by (eapply block_store_ok; cbn; apply lookup_insert_eq).
      reflexivity. }
    cbn. split; [done|]. split; [by rewrite lookup_insert_eq|].
    split; [|split; [|split; [by rewrite lookup_insert_eq|]]].
    3:{ split; [apply Hctr|]. split; apply Hctr. }
    + intros h' [= <-]. rewrite !(lookup_insert_ne _ block) by done.
      by rewrite lookup_insert_eq.
    + intros x Hx. rewrite !(lookup_insert_ne _ block) by done.
      destruct (decide (x = h)) as [->|Hxh].
      * rewrite lookup_insert_eq, Hhh. split; eauto.
      * by rewrite !lookup_insert_ne by done.
  - eexists. split.
    { erewrite st_bind_Ok.
      2:{ erewrite st_bind_Ok by exact Hab. cbv beta iota.
          erewrite st_bind_Ok by (apply (block_store_ok block _ _ s1 Hb1)).
          erewrite st_bind_Ok by reflexivity.
          erewrite st_bind_Ok by reflexivity. reflexivity. }
      cbv beta iota.
      erewrite st_bind_Ok by (apply block_load_ok; cbn; apply lookup_insert_eq).
      cbn [free_head_ set_block_next].
      erewrite st_bind_Ok by (apply elem_load_ok; cbn; exact Hcell).
      erewrite st_bind_Ok by (eapply elem_store_ok; cbn; exact Hcell).
      erewrite st_bind_Ok by (eapply block_store_ok; cbn; apply lookup_insert_eq).
      erewrite st_bind_Ok by reflexivity.
      erewrite st_bind_Ok by (apply block_load_ok; cbn; apply lookup_insert_eq).
      erewrite st_bind_Ok by (eapply block_store_ok; cbn; apply lookup_insert_eq).
      reflexivity. }
    cbn. split; [done|]. split; [by rewrite lookup_insert_eq|].
    split; [done|]. split; [|split; [by rewrite lookup_insert_eq|]].
    2:{ split; [apply Hctr|]. split; apply Hctr. }
    intros x Hx. by rewrite !(lookup_insert_ne _ block) by done.
Qed.

(** The first allocation of a slab, its block at 1000. *)
Lemma alloc_grows_demo :
  exists s',
    alloc 32 2 (Some 1000) (init 32 8 2 true false)
      = Ok (Some (elem_at 32 (init 32 8 2 true false) 1000 0 + SLAB_ELEM_META_SIZE), s') /\
    block_head_ s' = Some 1000 /\
    blocks s' !! 1000
      = Some (mk_block None (block_head_ (init 32 8 2 true false))
                (if elems_per_block_ (init 32 8 2 true false) =? 1 then None
                 else Some (elem_at 32 (init 32 8 2 true false) 1000 1)) 1) /\
    (forall h, block_head_ (init 32 8 2 true false) = Some h ->
               prev_ <$> blocks s' !! h = Some (Some 1000)) /\
    (forall x, x <> 1000 ->
               is_Some (blocks s' !! x) <-> is_Some (blocks (init 32 8 2 true false) !! x)) /\
    in_use <$> elems s' !! elem_at 32 (init 32 8 2 true false) 1000 0 = Some true /\
    num_blocks_ s' = wrap32 (num_blocks_ (init 32 8 2 true false) + 1) /\
    num_allocs_ s' = wrap32 (num_allocs_ (init 32 8 2 true false) + 1) /\
    slab_num_in_use_ s' = wrap32 (slab_num_in_use_ (init 32 8 2 true false) + 1).
Proof.
  apply (alloc_grows 32 2 (init 32 8 2 true false) 1000).
  - reflexivity.
  - left. reflexivity.
  - reflexivity.
  - intros h H. discriminate H.
  - cbn. lia.
Defined.


Lemma block_store_elems p f s s' :
  block_store p f s = Ok (tt, s') -> elems s' = elems s /\ raw_block_sz_ s' = raw_block_sz_ s.
Proof.
  unfold block_store. destruct (blocks s !! p); [|done]. by intros [_ <-]%Ok_inj.
Qed.

Lemma free_block_elems b s s' :
  free_block_ b s = Ok (tt, s') ->
  forall x, elems s' !! x = None \/ elems s' !! x = elems s !! x.
Proof.
  intros Hrun x. unfold free_block_ in Hrun.
  erewrite st_bind_Ok in Hrun by reflexivity.
  apply bind_Ok_inv in Hrun as (hdr & s0 & Hld & Hrun).
  unfold block_load in Hld. destruct (blocks s !! b) as [h|]; [|done].
  apply Ok_inj in Hld as [<- <-].
  apply bind_Ok_inv in Hrun as ([] & s1 & Hlink & Hrun).
  assert (elems s1 = elems s) as Hel.
  { case_bool_decide.
    - by apply Ok_inj in Hlink as [_ <-].
    - destruct (prev_ h) as [p|]; [|done].
      apply bind_Ok_inv in Hlink as ([] & s2 & Hst & Hlink).
      apply block_store_elems in Hst as [Hst _].
      destruct (next_ h) as [n|].
      + apply block_store_elems in Hlink as [Hlink _]. congruence.
      + apply Ok_inj in Hlink as [_ <-]. done. }
  apply bind_Ok_inv in Hrun as ([] & s2 & Hrel & Hrun).
  apply Ok_inj in Hrun as [_ <-]. cbn.
  unfold release in Hrel. destruct (blocks s1 !! b); [|done].
  apply Ok_inj in Hrel as [_ <-]. cbn. rewrite <- Hel.
  destruct (filter _ (elems s1) !! x) as [v|] eqn:Hf; [right|by left].
  apply map_lookup_filter_Some in Hf as [Hf _]. done.
Qed.

(** X11: a second [free] of an element right after a [free] of it
    that returned never succeeds: it stops on the assertion
    [emeta->in_use == TRUE], or touches the memory of a block the first
    call released.  [free(NULL)] stops on the first assertion. *)
Theorem free_twice_fails fuel fuel' s elem s' :
  free fuel (Some elem) s = Ok (tt, s') ->
  (free fuel' (Some elem) s' = Err AssertFailed \/
   free fuel' (Some elem) s' = Err DanglingPointer) /\
  free fuel' None s' = Err AssertFailed.
Proof.
  intros Hrun. split; [|done].
  assert (Hel : elems s' !! (elem - SLAB_ELEM_META_SIZE) = None \/
                exists l, elems s' !! (elem - SLAB_ELEM_META_SIZE) = Some (mk_elem false l)).
  { unfold free, free_ in Hrun. cbv zeta in Hrun.
    apply bind_Ok_inv in Hrun as (e & s1 & He & Hrun).
    unfold elem_load in He. destruct (elems s !! _) eqn:Hel; [|done].
    apply Ok_inj in He as [<- <-].
    apply bind_Ok_inv in Hrun as ([] & s1 & Hassert & Hrun).
    unfold st_assert in Hassert. destruct (in_use _); [|done].
    apply Ok_inj in Hassert as [_ <-].
    erewrite st_bind_Ok in Hrun by reflexivity.
    apply bind_Ok_inv in Hrun as (fb & s1 & Hfind & Hrun).
    apply find_block_same in Hfind as ->.
    destruct fb as [b|]; [|done].
    apply bind_Ok_inv in Hrun as (hdr & s1 & Hld & Hrun).
    unfold block_load in Hld. destruct (blocks s !! b) as [h|] eqn:Hb; [|done].
    apply Ok_inj in Hld as [<- <-].
    erewrite st_bind_Ok in Hrun by (eapply elem_store_ok; exact Hel).
    erewrite st_bind_Ok in Hrun by (apply (block_store_ok b h); exact Hb).
    erewrite st_bind_Ok in Hrun by reflexivity.
    erewrite st_bind_Ok in Hrun by (apply block_load_ok; cbn; apply lookup_insert_eq).
    erewrite st_bind_Ok in Hrun by (eapply block_store_ok; cbn; apply lookup_insert_eq).
    erewrite st_bind_Ok in Hrun by (apply block_load_ok; cbn; apply lookup_insert_eq).
    erewrite st_bind_Ok in Hrun by reflexivity.
    destruct (_ && _).
    - destruct (free_block_elems _ _ _ Hrun (elem - SLAB_ELEM_META_SIZE)) as [Hx|Hx];
        [by left|right].
      rewrite Hx. cbn. rewrite lookup_insert_eq. by eexists.
    - apply Ok_inj in Hrun as [_ <-]. right. cbn. rewrite lookup_insert_eq. by eexists. }
  destruct Hel as [Hx|[l Hx]]; [right|left].
  - unfold free, free_. cbv zeta. unfold st_bind at 1. unfold elem_load. by rewrite Hx.
  - unfold free, free_. cbv zeta. unfold st_bind at 1. unfold elem_load. by rewrite Hx.
Qed.


(** The element at 1052 of [two_blocks] is freed twice. *)
Lemma free_twice_fails_demo :
  (free 2 (Some 1052) tail_block_empty = Err AssertFailed \/
   free 2 (Some 1052) tail_block_empty = Err DanglingPointer) /\
  free 2 None tail_block_empty = Err AssertFailed.
Proof. exact (free_twice_fails 2 2 two_blocks 1052 tail_block_empty tail_block_emptied). Defined.

End SlabApiFacts.

(** * The periodic thread and its wheel *)

Module PeriodicRunFacts.
Import Twheel TwheelFacts Periodic PeriodicFacts Timerfd.

Lemma tick_bounded w L msecs_elapsed fuel :
  wheel_cfg w -> linked ∅ w L -> 2 <= nslices_ w -> slock_ w = ∅ -> armed w ->
  0 <= msecs_elapsed < 4294967296 -> (length (concat L) < fuel)%nat ->
  exists w' L',
    tick quiet fuel msecs_elapsed w = Ok (tt, w') /\
    wheel_cfg w' /\ linked ∅ w' L' /\ slock_ w' = ∅ /\ armed w' /\
    nslices_ w' = nslices_ w /\ slice_intvl_ w' = slice_intvl_ w /\
    curr_slice_ w' = (curr_slice_ w + msecs_elapsed / slice_intvl_ w) mod nslices_ w /\
    (length (concat L') <= length (concat L))%nat.
Proof.
  intros Hcfg HL HN Hlk Harm Hms Hfuel.
  pose proof Hcfg as (Hg & _ & _ & Hc).
  unfold tick. erewrite st_bind_Ok by reflexivity.
  destruct (msecs_elapsed <? slice_intvl_ w) eqn:Hlt.
  { exists w, L. split; [done|]. repeat (split; [done|]). split; [|done].
    rewrite Z.div_small by lia. rewrite Z.add_0_r. symmetry. by apply Z.mod_small. }
  erewrite st_bind_Ok by (unfold udiv; rewrite (proj2 (Z.eqb_neq _ 0)) by lia; reflexivity).
  assert (1 <= msecs_elapsed / slice_intvl_ w) as Hq by (apply Z.div_le_lower_bound; lia).
  assert (msecs_elapsed / slice_intvl_ w <= msecs_elapsed) as Hq'.
  { apply Z.div_le_upper_bound; nia. }
  assert (wrap32 (msecs_elapsed / slice_intvl_ w) = msecs_elapsed / slice_intvl_ w) as ->.
  { unfold wrap32. apply Z.mod_small. lia. }
  erewrite st_bind_Ok by (unfold st_assert; rewrite (proj2 (Z.leb_le _ _) Hq); reflexivity).
  destruct (tick_slices_total (Z.to_nat (msecs_elapsed / slice_intvl_ w)) fuel w L)
    as (w' & L' & Hrun & Hcfg' & HL' & Harm' & Hlk' & EN & Eg & Ets & Ec & Hlen); try done.
  exists w', L'. split; [done|]. repeat (split; [done|]). split; [|done].
  rewrite Ec. f_equal. lia.
Qed.

Lemma ceil_step r n :
  0 <= r -> Datatypes.S n = Z.to_nat ((r + 9) / 10) ->
  0 < r /\ ((n = 0%nat /\ r <= 10) \/ (10 < r /\ n = Z.to_nat ((r - 10 + 9) / 10))).
Proof.
  intros Hr Hn.
  assert (0 < r) as Hlt.
  { destruct (Z_lt_dec 0 r) as [|Hle]; [done|].
    assert (r = 0) as -> by lia. done. }
  split; [done|].
  destruct (Z_le_dec r 10) as [Hle|Hgt].
  - left. split; [|done].
    assert ((r + 9) / 10 = 1) as E.
    { symmetry. apply (Z.div_unique _ _ _ (r - 1)); lia. }
    rewrite E in Hn. lia.
  - right. split; [lia|].
    replace (r - 10 + 9) with (r + 9 + (-1) * 10) by lia.
    rewrite Z.div_add by lia. lia.
Qed.

Lemma run_batches n : forall missed w L fuel,
  wheel_cfg w -> linked ∅ w L -> 2 <= nslices_ w -> slock_ w = ∅ -> armed w ->
  slice_intvl_ w = TWHEEL_DEFAULT_SLICE_DURATION ->
  0 <= missed -> n = Z.to_nat ((missed + 9) / 10) ->
  (length (concat L) < fuel)%nat ->
  exists w' L',
    run_events quiet fuel (batches n missed) w = Ok (tt, w') /\
    wheel_cfg w' /\ linked ∅ w' L' /\ slock_ w' = ∅ /\ armed w' /\
    nslices_ w' = nslices_ w /\ slice_intvl_ w' = slice_intvl_ w /\
    curr_slice_ w' = (curr_slice_ w + missed) mod nslices_ w /\
    (length (concat L') <= length (concat L))%nat.
Proof.
  induction n as [|n IH]; intros missed w L fuel Hcfg HL HN Hlk Harm Hg Hm Hn Hfuel.
  - assert (missed = 0) as ->.
    { destruct (Z_lt_dec 0 missed) as [Hlt|]; [|lia].
      assert (1 <= (missed + 9) / 10) by (apply Z.div_le_lower_bound; lia). lia. }
    exists w, L. split; [done|]. repeat (split; [done|]). split; [|done].
    rewrite Z.add_0_r. symmetry. apply Z.mod_small. apply Hcfg.
  - destruct (ceil_step missed n Hm Hn) as [Hpos Hcase].
    cbn [batches run_events]. unfold BATCH_SLICE_SIZE.
    destruct (tick_bounded w L (Z.min missed 10 * TWHEEL_DEFAULT_SLICE_DURATION) fuel)
      as (w1 & L1 & Hrun1 & Hcfg1 & HL1 & Hlk1 & Harm1 & EN1 & Eg1 & Ec1 & Hlen1);
      [done..| unfold TWHEEL_DEFAULT_SLICE_DURATION; lia | done |].
    rewrite Hg in Ec1. rewrite Z.div_mul in Ec1 by done.
    erewrite st_bind_Ok by exact Hrun1.
    destruct Hcase as [[-> Hle]|[Hgt Hn']].
    + exists w1, L1. split; [done|]. repeat (split; [done|]). split; [|done].
      rewrite Ec1. f_equal. lia.
    + destruct (IH (missed - 10) w1 L1 fuel) as
        (w' & L' & Hrun & Hcfg' & HL' & Hlk' & Harm' & EN & Eg & Ec & Hlen);
        [done|done|lia|done|done|congruence|lia|done|lia|].
      exists w', L'. split; [done|].
      repeat (split; [first [done|congruence]|]). split; [|lia].
      rewrite Ec, EN1, Ec1. rewrite Z.min_r by lia.
      rewrite Zplus_mod_idemp_l. f_equal. lia.
Qed.

(** X12: the [tick] calls the periodic thread makes for one read of
    [missed] expirations, run on a wheel with the default slice duration
    (at least two slices, no lock held, every valid entry with a callback,
    callbacks that leave the wheel alone), all return and advance
    [curr_slice_] by exactly [missed] slices around the ring; the
    invariant holds afterwards and no lock is held.  Batching loses no
    slice. *)
Theorem periodic_drives_wheel missed w :
  wheel_inv w -> 2 <= nslices_ w -> slock_ w = ∅ -> armed w ->
  slice_intvl_ w = TWHEEL_DEFAULT_SLICE_DURATION ->
  0 <= missed ->
  exists fuel0, forall fuel, (fuel0 <= fuel)%nat ->
    exists w',
      run_events quiet fuel (drive_wheel missed) w = Ok (tt, w') /\
      wheel_inv w' /\ slock_ w' = ∅ /\ armed w' /\
      curr_slice_ w' = (curr_slice_ w + missed) mod nslices_ w.
Proof.
  intros [Hcfg [L HL]] HN Hlk Harm Hg Hm.
  exists (Datatypes.S (length (concat L))). intros fuel Hfuel.
  rewrite (drive_wheel_batches _ missed Hm eq_refl).
  destruct (run_batches _ missed w L fuel Hcfg HL HN Hlk Harm Hg Hm eq_refl)
    as (w' & L' & Hrun & Hcfg' & HL' & Hlk' & Harm' & _ & _ & Ec & _); [lia|].
  exists w'. split; [done|]. split; [split; [done|by exists L']|]. done.
Qed.

Lemma ticks_app a b : ticks (a ++ b) = ticks a ++ ticks b.
Proof. unfold ticks. apply omap_app. Qed.

Lemma sum_app (a b : list Z) : foldr Z.add 0 (a ++ b) = foldr Z.add 0 a + foldr Z.add 0 b.
Proof. induction a as [|x a IH]; cbn; lia. Qed.

Lemma batches_sum n : forall r,
  0 <= r -> n = Z.to_nat ((r + 9) / 10) ->
  foldr Z.add 0 (ticks (batches n r)) = TWHEEL_DEFAULT_SLICE_DURATION * r.
Proof.
  induction n as [|n IH]; intros r Hr Hn.
  - assert (r = 0) as ->.
    { destruct (Z_lt_dec 0 r) as [Hlt|]; [|lia].
      assert (1 <= (r + 9) / 10) by (apply Z.div_le_lower_bound; lia). lia. }
    done.
  - destruct (ceil_step r n Hr Hn) as [Hpos Hcase].
    cbn. unfold BATCH_SLICE_SIZE.
    destruct Hcase as [[-> Hle]|[Hgt Hn']].
    + cbn. unfold TWHEEL_DEFAULT_SLICE_DURATION. lia.
    + fold (ticks (batches n (r - 10))). rewrite (IH (r - 10)) by (lia || done).
      unfold TWHEEL_DEFAULT_SLICE_DURATION. lia.
Qed.

Lemma wait_loop_reported pre :
  Failed ∉ pre -> wait_loop pre = mjoin (drive_wheel <$> reported pre).
Proof.
  induction pre as [|[n| |] pre IH]; intros Hf; cbn.
  - done.
  - rewrite IH; [done|]. set_solver.
  - apply IH. set_solver.
  - exfalso. apply Hf. left.
Qed.

Lemma wait_loop_failed pre post :
  Failed ∉ pre -> wait_loop (pre ++ Failed :: post) = wait_loop pre ++ [Stopped].
Proof.
  induction pre as [|[n| |] pre IH]; intros Hf; cbn.
  - done.
  - rewrite IH; [by rewrite app_assoc|]. set_solver.
  - apply IH. set_solver.
  - exfalso. apply Hf. left.
Qed.

Lemma reported_sum pre :
  (forall n, Missed n ∈ pre -> 0 <= n) ->
  foldr Z.add 0 (ticks (mjoin (drive_wheel <$> reported pre)))
    = TWHEEL_DEFAULT_SLICE_DURATION * foldr Z.add 0 (reported pre).
Proof.
  induction pre as [|[n| |] pre IH]; intros Hpos.
  - done.
  - change (reported (Missed n :: pre)) with (n :: reported pre).
    change (mjoin (drive_wheel <$> n :: reported pre))
      with (drive_wheel n ++ mjoin (drive_wheel <$> reported pre)).
    rewrite ticks_app, sum_app.
    rewrite IH by (intros; apply Hpos; by right).
    rewrite (drive_wheel_batches _ n (Hpos n ltac:(left)) eq_refl).
    rewrite (batches_sum _ n (Hpos n ltac:(left)) eq_refl). cbn [foldr]. lia.
  - apply IH. intros; apply Hpos; by right.
  - apply IH. intros; apply Hpos; by right.
Qed.

(** X13: the periodic thread runs until the first read that fails
    with an error other than EINTR: what it does is [SetReady], then for
    each successful read before the failure the batches of that read, then
    [Stopped]; interrupted reads leave no trace and nothing after the
    failure is looked at.  The milliseconds charged to the wheel add up
    to the slice duration times the expirations read. *)
Theorem run_until_failure pre post :
  Failed ∉ pre -> (forall n, Missed n ∈ pre -> 0 <= n) ->
  periodic_thread_run (pre ++ Failed :: post)
    = SetReady :: mjoin (drive_wheel <$> reported pre) ++ [Stopped] /\
  periodic_thread_run pre = SetReady :: mjoin (drive_wheel <$> reported pre) /\
  foldr Z.add 0 (ticks (periodic_thread_run (pre ++ Failed :: post)))
    = TWHEEL_DEFAULT_SLICE_DURATION * foldr Z.add 0 (reported pre).
Proof.
  intros Hf Hpos. unfold periodic_thread_run.
  rewrite wait_loop_failed, wait_loop_reported by done.
  split; [done|]. split; [done|].
  change (ticks (SetReady :: ?l)) with (ticks l).
  rewrite ticks_app, sum_app. cbn. rewrite reported_sum by done. lia.
Qed.

Lemma timerfd_waits_accumulate rds pinfo :
  0 <= missed_wakeups pinfo < 18446744073709551616 ->
  timer_fd (timerfd_waits rds pinfo) = timer_fd pinfo /\
  usecs (timerfd_waits rds pinfo) = usecs pinfo /\
  missed_wakeups (timerfd_waits rds pinfo)
    = wrap64 (missed_wakeups pinfo + foldr Z.add 0 (omap id rds)).
Proof.
  revert pinfo. induction rds as [|[n|] rds IH]; intros pinfo Hm.
  - cbn. split; [done|]. split; [done|]. rewrite Z.add_0_r. unfold wrap64.
    symmetry. by apply Z.mod_small.
  - unfold timerfd_waits. cbn [foldl timerfd_wait snd].
    destruct (IH (mk_timerfd (timer_fd pinfo) (usecs pinfo)
                    (wrap64 (missed_wakeups pinfo + n)))) as (H1 & H2 & H3).
    { cbn. unfold wrap64. apply Z.mod_pos_bound. lia. }
    unfold timerfd_waits in *. split; [exact H1|]. split; [exact H2|].
    rewrite H3. cbn. unfold wrap64. rewrite Zplus_mod_idemp_l. f_equal. lia.
  - unfold timerfd_waits. cbn [foldl timerfd_wait snd]. apply (IH pinfo Hm).
Qed.

(** X14: [timerfd_prepare] with a descriptor from [timerfd_create]
    stores it, resets [missed_wakeups] and returns what
    [timerfd_settime] returned; when [timerfd_create] fails it returns -1
    and leaves the record alone.  After any sequence of [timerfd_wait]
    calls [missed_wakeups] is the 64-bit sum of the counts the successful
    reads delivered; failed reads add nothing, and the descriptor and
    the period are never changed. *)
Theorem timerfd_counts_wakeups fd settime rds pinfo :
  fd <> -1 ->
  timerfd_prepare fd settime pinfo = (settime, mk_timerfd fd (usecs pinfo) 0) /\
  timerfd_prepare (-1) settime pinfo = (-1, pinfo) /\
  timer_fd (timerfd_waits rds (timerfd_prepare fd settime pinfo).2) = fd /\
  usecs (timerfd_waits rds (timerfd_prepare fd settime pinfo).2) = usecs pinfo /\
  missed_wakeups (timerfd_waits rds (timerfd_prepare fd settime pinfo).2)
    = wrap64 (foldr Z.add 0 (omap id rds)).
Proof.
  intros Hfd.
  assert (timerfd_prepare fd settime pinfo = (settime, mk_timerfd fd (usecs pinfo) 0)) as E.
  { unfold timerfd_prepare. by rewrite (proj2 (Z.eqb_neq fd (-1)) Hfd). }
  rewrite E. split; [done|]. split; [done|]. cbn [snd].
  destruct (timerfd_waits_accumulate rds (mk_timerfd fd (usecs pinfo) 0)) as (H1 & H2 & H3);
    [cbn; lia|].
  by rewrite H1, H2, H3.
Qed.

(** 25 missed periods on a wheel of 8 slices: the wheel ends in slice 1. *)
Lemma periodic_drives_wheel_demo :
  exists fuel0, forall fuel, (fuel0 <= fuel)%nat ->
    exists w',
      run_events quiet fuel (drive_wheel 25) (mk_twheel ∅ 250 true 8 ∅ ∅ 0 0) = Ok (tt, w') /\
      wheel_inv w' /\ slock_ w' = ∅ /\ armed w' /\
      curr_slice_ w' = (0 + 25) mod 8.
Proof.
  apply (periodic_drives_wheel 25 (mk_twheel ∅ 250 true 8 ∅ ∅ 0 0)).
  - apply wheel_inv_empty; [unfold wheel_cfg; simpl; lia|done..].
  - simpl. lia.
  - reflexivity.
  - intros p e H. cbn in H. by rewrite lookup_empty in H.
  - reflexivity.
  - lia.
Defined.

(** Reads of 12, an interrupted one, 3, then a failure. *)
Lemma run_until_failure_demo :
  periodic_thread_run ([Missed 12; Interrupted; Missed 3] ++ Failed :: [Missed 7])
    = SetReady :: mjoin (drive_wheel <$> reported [Missed 12; Interrupted; Missed 3])
        ++ [Stopped] /\
  periodic_thread_run [Missed 12; Interrupted; Missed 3]
    = SetReady :: mjoin (drive_wheel <$> reported [Missed 12; Interrupted; Missed 3]) /\
  foldr Z.add 0
    (ticks (periodic_thread_run ([Missed 12; Interrupted; Missed 3] ++ Failed :: [Missed 7])))
    = TWHEEL_DEFAULT_SLICE_DURATION
      * foldr Z.add 0 (reported [Missed 12; Interrupted; Missed 3]).
Proof.
  apply (run_until_failure [Missed 12; Interrupted; Missed 3] [Missed 7]).
  - rewrite !not_elem_of_cons. repeat split; try discriminate. apply not_elem_of_nil.
  - intros n Hn. rewrite !elem_of_cons in Hn.
    destruct Hn as [[= ->]|[[=]|[[= ->]|Hn]]]; [lia|lia|by apply elem_of_nil in Hn].
Defined.

(** Descriptor 5; reads of 1, a failed one, 3. *)
Lemma timerfd_counts_wakeups_demo :
  timerfd_prepare 5 0 (timerfd_init (mk_timerfd 9 9 9))
    = (0, mk_timerfd 5 (usecs (timerfd_init (mk_timerfd 9 9 9))) 0) /\
  timerfd_prepare (-1) 0 (timerfd_init (mk_timerfd 9 9 9))
    = (-1, timerfd_init (mk_timerfd 9 9 9)) /\
  timer_fd (timerfd_waits [Some 1; None; Some 3]
              (timerfd_prepare 5 0 (timerfd_init (mk_timerfd 9 9 9))).2) = 5 /\
  usecs (timerfd_waits [Some 1; None; Some 3]
           (timerfd_prepare 5 0 (timerfd_init (mk_timerfd 9 9 9))).2)
    = usecs (timerfd_init (mk_timerfd 9 9 9)) /\
  missed_wakeups (timerfd_waits [Some 1; None; Some 3]
                    (timerfd_prepare 5 0 (timerfd_init (mk_timerfd 9 9 9))).2)
    = wrap64 (foldr Z.add 0 (omap id [Some 1; None; Some 3])).
Proof.
  apply (timerfd_counts_wakeups 5 0 [Some 1; None; Some 3] (timerfd_init (mk_timerfd 9 9 9))).
  lia.
Defined.

End PeriodicRunFacts.

(** * Event threads: notification and delivery *)

Module EventLoopFacts.
Import EventThread EventThreadFacts.

Lemma notify_all_ok l thread_id : forall w,
  NoDup l ->
  (forall s, s ∈ l -> is_Some (g_event_thread_table w !! s)) ->
  (length l <= envelopes w)%nat ->
  exists w',
    notify_all l thread_id w = Ok (tt, w') /\
    status_ w' = status_ w /\ subscriptions_ w' = subscriptions_ w /\
    envelopes w' = (envelopes w - length l)%nat /\
    forall s, g_event_thread_table w' !! s =
      if bool_decide (s ∈ l) then notified thread_id <$> g_event_thread_table w !! s
      else g_event_thread_table w !! s.
Proof.
  induction l as [|s rest IH]; intros w Hnd Hreg Henv.
  { exists w. split; [done|]. split; [done|]. split; [done|]. split; [cbn; lia|].
    intros s. rewrite bool_decide_eq_false_2; [done|]. apply not_elem_of_nil. }
  apply NoDup_cons in Hnd as [Hs Hnd].
  destruct (Hreg s) as [t Ht]; [left|].
  cbn [length] in Henv. destruct (envelopes w) as [|n] eqn:En; [lia|].
  set (w1 := mk_world (<[s := notified thread_id t]> (g_event_thread_table w))
               (status_ w) (subscriptions_ w) n).
  destruct (IH w1) as (w' & Hrun & Hst & Hsub & Henv' & Htab); [done| |cbn; lia|].
  { intros x Hx. cbn. destruct (decide (x = s)) as [->|Hne].
    - rewrite lookup_insert_eq. by eexists.
    - rewrite lookup_insert_ne by done. apply Hreg. by right. }
  exists w'. split; [|split; [done|split; [done|split; [cbn in *; lia|]]]].
  - cbn [notify_all]. unfold registered.
    erewrite st_bind_Ok by reflexivity. cbv beta.
    rewrite bool_decide_eq_true_2 by (by rewrite Ht).
    erewrite st_bind_Ok by reflexivity.
    erewrite st_bind_Ok by (by apply (handle_thread_up_ok s thread_id w t n)).
    exact Hrun.
  - intros x. rewrite Htab. cbn. destruct (decide (x = s)) as [->|Hne].
    + rewrite lookup_insert_eq, Ht. rewrite (bool_decide_eq_false_2 (s ∈ rest)) by done.
      rewrite bool_decide_eq_true_2 by left. done.
    + rewrite lookup_insert_ne by done.
      destruct (decide (x ∈ rest)) as [Hin|Hnin].
      * rewrite !bool_decide_eq_true_2; [done|by right|done].
      * rewrite !bool_decide_eq_false_2; [done| |done].
        intros [?|?]%elem_of_cons; done.
Qed.

(** X15: [up(T)] for a thread that is not marked up, whose
    subscribers are all registered, with an envelope available for each
    of them, returns; it marks [T] up, appends exactly one
    [UPDOWN_MSG T THREAD_UP] to the inbox of every subscriber and wakes
    its loop, takes one envelope per subscriber and leaves every other
    thread untouched. *)
Theorem up_notifies_subscribers thread_id w :
  let subs := default ∅ (subscriptions_ w !! thread_id) in
  thread_id <= MAX_THREAD_ID ->
  status_ w !! thread_id <> Some THREAD_UP ->
  (forall s, s ∈ subs -> is_Some (g_event_thread_table w !! s)) ->
  (size subs <= envelopes w)%nat ->
  exists w',
    up thread_id w = Ok (tt, w') /\
    status_ w' !! thread_id = Some THREAD_UP /\
    envelopes w' = (envelopes w - size subs)%nat /\
    forall s, g_event_thread_table w' !! s =
      if bool_decide (s ∈ subs) then notified thread_id <$> g_event_thread_table w !! s
      else g_event_thread_table w !! s.
Proof.
  intros subs Hid Hst Hreg Henv.
  set (w1 := match status_ w !! thread_id with
             | Some _ => w
             | None => with_status (<[thread_id := THREAD_DOWN]> (status_ w)) w
             end).
  set (w2 := with_status (<[thread_id := THREAD_UP]> (status_ w1)) w1).
  set (w3 := match subscriptions_ w !! thread_id with
             | Some _ => w2
             | None => with_subscriptions (<[thread_id := ∅]> (subscriptions_ w2)) w2
             end).
  assert (Ht3 : g_event_thread_table w3 = g_event_thread_table w).
  { unfold w3, w2, w1. by destruct (subscriptions_ w !! thread_id), (status_ w !! thread_id). }
  assert (He3 : envelopes w3 = envelopes w).
  { unfold w3, w2, w1. by destruct (subscriptions_ w !! thread_id), (status_ w !! thread_id). }
  assert (Hs3 : status_ w3 !! thread_id = Some THREAD_UP).
  { unfold w3, w2. destruct (subscriptions_ w !! thread_id); cbn; apply lookup_insert_eq. }
  set (l := merge_sort Z.le (elements subs)).
  assert (Hl : l ≡ₚ elements subs) by apply merge_sort_Permutation.
  destruct (notify_all_ok l thread_id w3) as (w' & Hrun & Hst' & _ & Henv' & Htab).
  { rewrite Hl. apply NoDup_elements. }
  { intros s Hs. rewrite Ht3. apply Hreg. apply elem_of_elements. by rewrite <- Hl. }
  { rewrite He3, Hl. by rewrite <- size_gset_alt || done. }
  exists w'. split; [|split; [by rewrite Hst'|split]].
  - unfold up. unfold st_assert at 1. rewrite (proj2 (Z.leb_le _ _) Hid).
    erewrite st_bind_Ok by reflexivity.
    erewrite (st_bind_Ok (status_at thread_id) _ w
                (default THREAD_DOWN (status_ w !! thread_id)) w1).
    2:{ unfold status_at, w1. by destruct (status_ w !! thread_id). }
    rewrite bool_decide_eq_false_2.
    2:{ intros E. apply Hst. destruct (status_ w !! thread_id); cbn in E; by subst. }
    erewrite st_bind_Ok by reflexivity.
    erewrite st_bind_Ok by reflexivity. fold w2.
    erewrite (st_bind_Ok (subscriptions_at thread_id) _ w2 subs w3).
    2:{ unfold subscriptions_at, w3, subs.
        assert (subscriptions_ w2 = subscriptions_ w) as ->.
        { unfold w2, w1. by destruct (status_ w !! thread_id). }
        by destruct (subscriptions_ w !! thread_id). }
    exact Hrun.
  - rewrite Henv', He3. f_equal. rewrite Hl. done.
  - intros s. rewrite Htab, Ht3.
    destruct (decide (s ∈ subs)) as [Hin|Hnin].
    + rewrite !bool_decide_eq_true_2; [done|done|]. rewrite Hl. by apply elem_of_elements.
    + rewrite !bool_decide_eq_false_2; [done|done|]. rewrite Hl. by rewrite elem_of_elements.
Qed.

Lemma table_load_ok this w t :
  g_event_thread_table w !! this = Some t ->
  (fun w => match g_event_thread_table w !! this with
            | Some t => Ok (t, w)
            | None => Err NullPointer
            end) w = Ok (t, w).
Proof. intros H. cbv beta. by rewrite H. Qed.

Lemma on_thread_ok this f w t :
  g_event_thread_table w !! this = Some t ->
  on_thread this f w = Ok (tt, with_table (<[this := f t]> (g_event_thread_table w)) w).
Proof. unfold on_thread. by intros ->. Qed.

Lemma dispatch_ok this msg w t :
  g_event_thread_table w !! this = Some t -> deliverable t msg ->
  dispatch this msg w =
    Ok (tt, mk_world
              (<[this := mk_thread (inbox t) (async_pending t) (updown_up_cbs_ t)
                           (has_message_cb t) (delivered t ++ [delivery_of msg])]>
                 (g_event_thread_table w))
              (status_ w) (subscriptions_ w) (Datatypes.S (envelopes w))).
Proof.
  intros Ht Hd. unfold dispatch.
  erewrite st_bind_Ok by (by apply table_load_ok).
  destruct msg as [payload|id st]; cbn in Hd.
  - unfold st_assert. rewrite Hd.
    erewrite st_bind_Ok.
    2:{ erewrite st_bind_Ok by reflexivity. by apply on_thread_ok. }
    cbn. rewrite ?Hd. reflexivity.
  - unfold st_assert. rewrite bool_decide_eq_true_2 by done.
    erewrite st_bind_Ok.
    2:{ erewrite st_bind_Ok by reflexivity. by apply on_thread_ok. }
    reflexivity.
Qed.

Lemma process_loop_ok this q : forall w t,
  g_event_thread_table w !! this = Some t -> inbox t = q ->
  (forall msg, msg ∈ q -> deliverable t msg) ->
  process_loop this q w =
    Ok (tt, mk_world
              (<[this := mk_thread [] (async_pending t) (updown_up_cbs_ t)
                           (has_message_cb t) (delivered t ++ (delivery_of <$> q))]>
                 (g_event_thread_table w))
              (status_ w) (subscriptions_ w) (envelopes w + length q)).
Proof.
  induction q as [|msg rest IH]; intros w t Ht Hq Hd.
  - cbn. rewrite Nat.add_0_r, app_nil_r. rewrite <- Hq.
    destruct w as [tab st sub env], t as [ib ap cbs mcb dl]. cbn in *.
    by rewrite insert_id.
  - cbn [process_loop].
    erewrite st_bind_Ok by (by apply on_thread_ok).
    set (t1 := mk_thread (tail (inbox t)) (async_pending t) (updown_up_cbs_ t)
                 (has_message_cb t) (delivered t)).
    erewrite st_bind_Ok.
    2:{ apply (dispatch_ok this msg _ t1); [cbn; apply lookup_insert_eq|].
        specialize (Hd msg ltac:(left)). by destruct msg. }
    cbn [g_event_thread_table with_table status_ subscriptions_ envelopes t1
         inbox async_pending updown_up_cbs_ has_message_cb delivered].
    erewrite IH; [|apply lookup_insert_eq| |].
    + cbn. rewrite !insert_insert_eq. do 3 f_equal; [|lia].
      f_equal. by rewrite <- app_assoc.
    + cbn. by rewrite Hq.
    + intros m Hm. specialize (Hd m ltac:(by right)). by destruct m.
Qed.

(** X16: when every queued message passes the assertion of its
    kind (a message callback for user messages, an up callback for the
    thread of an up notification), [process_lfq_] returns with the inbox
    empty, has called back once per message in queue order, and has given
    every envelope back; the up/down registry is not touched. *)
Theorem process_lfq_drains_in_order this w t :
  g_event_thread_table w !! this = Some t ->
  (forall msg, msg ∈ inbox t -> deliverable t msg) ->
  exists w' t',
    process_lfq_ this w = Ok (tt, w') /\
    g_event_thread_table w' = <[this := t']> (g_event_thread_table w) /\
    inbox t' = [] /\
    delivered t' = delivered t ++ (delivery_of <$> inbox t) /\
    envelopes w' = (envelopes w + length (inbox t))%nat /\
    status_ w' = status_ w /\ subscriptions_ w' = subscriptions_ w.
Proof.
  intros Ht Hd. eexists _, _. split.
  - unfold process_lfq_. erewrite st_bind_Ok by (by apply table_load_ok).
    by apply process_loop_ok.
  - done.
Qed.

(** X17: a [message_send] to a registered thread with a message
    callback, followed by that thread's [process_lfq_], delivers the
    message after everything that was queued before it, and the envelope
    taken by the send is given back by the loop. *)
Theorem message_send_then_process thread_id message w t n :
  thread_id <= MAX_THREAD_ID ->
  g_event_thread_table w !! thread_id = Some t ->
  has_message_cb t = true ->
  (forall msg, msg ∈ inbox t -> deliverable t msg) ->
  envelopes w = Datatypes.S n ->
  exists w1 w2 t2,
    message_send thread_id message w = Ok (tt, w1) /\
    envelopes w1 = n /\
    process_lfq_ thread_id w1 = Ok (tt, w2) /\
    g_event_thread_table w2 = <[thread_id := t2]> (g_event_thread_table w) /\
    inbox t2 = [] /\
    delivered t2 = delivered t ++ (delivery_of <$> inbox t) ++ [MessageCb message] /\
    envelopes w2 = (envelopes w + length (inbox t))%nat.
Proof.
  intros Hid Ht Hcb Hd En.
  set (t1 := ev_async_send (enqueue (USER_MSG message) t)).
  set (w1 := mk_world (<[thread_id := t1]> (g_event_thread_table w))
               (status_ w) (subscriptions_ w) n).
  eexists w1, _, _. split; [|split; [done|split]].
  - unfold message_send, st_assert. rewrite (proj2 (Z.leb_le _ _) Hid).
    erewrite st_bind_Ok by reflexivity. unfold registered.
    erewrite st_bind_Ok by reflexivity. cbv beta.
    rewrite bool_decide_eq_true_2 by (by rewrite Ht).
    erewrite st_bind_Ok by reflexivity.
    erewrite st_bind_Ok by (unfold lfq_msg_factory; rewrite En; reflexivity).
    cbv iota. unfold thread_message_send. by rewrite (on_thread_ok _ _ _ t).
  - unfold process_lfq_.
    erewrite st_bind_Ok by (apply (table_load_ok _ _ t1); cbn; apply lookup_insert_eq).
    apply process_loop_ok; [cbn; apply lookup_insert_eq|done|].
    intros msg Hm. cbn in Hm. apply elem_of_app in Hm as [Hm|Hm].
    + specialize (Hd msg Hm). by destruct msg.
    + apply list_elem_of_singleton in Hm as ->. exact Hcb.
  - cbn. rewrite insert_insert_eq. split; [done|]. split; [done|].
    split; [by rewrite fmap_app|]. rewrite length_app, En. cbn. lia.
Qed.

Lemma up_checks_id thread_id w w' :
  up thread_id w = Ok (tt, w') -> thread_id <= MAX_THREAD_ID.
Proof.
  intros Hrun. unfold up in Hrun.
  apply bind_Ok_inv in Hrun as ([] & w1 & Hass & _).
  unfold st_assert in Hass. destruct (Z.leb_spec thread_id MAX_THREAD_ID); done.
Qed.

(** X18: after an [up(T)] that returned, a second [up(T)] stops on
    the assertion that [T] is not up; [down(T)] returns, writes only the
    status, and keeps the subscriptions of [T]. *)
Theorem up_again_asserts thread_id w w1 :
  up thread_id w = Ok (tt, w1) ->
  up thread_id w1 = Err AssertFailed /\
  down thread_id w1 = Ok (tt, with_status (<[thread_id := THREAD_DOWN]> (status_ w1)) w1) /\
  subscriptions_ w1 !! thread_id = Some (default ∅ (subscriptions_ w !! thread_id)).
Proof.
  intros Hrun. pose proof (up_checks_id _ _ _ Hrun) as Hid.
  destruct (up_marks _ _ _ Hrun) as (Hst & Hsub & _).
  split; [|split; [|done]].
  - unfold up, st_assert. rewrite (proj2 (Z.leb_le _ _) Hid).
    erewrite st_bind_Ok by reflexivity.
    erewrite st_bind_Ok by (unfold status_at; rewrite Hst; reflexivity).
    by rewrite bool_decide_eq_true_2.
  - unfold down, st_assert. rewrite (proj2 (Z.leb_le _ _) Hid).
    erewrite st_bind_Ok by reflexivity. done.
Qed.

(** X19: a thread registers an up callback for a thread that is
    already up: [updown_up_subscribe] records the callback and the
    subscription and queues the notification, and the thread's next
    [process_lfq_] passes its assertion and runs that callback, after the
    messages queued earlier.  Registering the same callback a second time
    stops on an assertion. *)
Theorem updown_up_subscribe_delivers this thread_id w t n :
  this <> thread_id -> this <= MAX_THREAD_ID -> thread_id <= MAX_THREAD_ID ->
  g_event_thread_table w !! this = Some t ->
  thread_id ∉ updown_up_cbs_ t ->
  (forall msg, msg ∈ inbox t -> deliverable t msg) ->
  status_ w !! thread_id = Some THREAD_UP ->
  envelopes w = Datatypes.S n ->
  exists w1 w2 t2,
    updown_up_subscribe this this thread_id true w = Ok (tt, w1) /\
    subscriptions_ w1 !! thread_id
      = Some ({[this]} ∪ default ∅ (subscriptions_ w !! thread_id)) /\
    process_lfq_ this w1 = Ok (tt, w2) /\
    g_event_thread_table w2 = <[this := t2]> (g_event_thread_table w) /\
    delivered t2 = delivered t ++ (delivery_of <$> inbox t) ++ [UpdownUpCb thread_id] /\
    updown_up_cbs_ t2 = {[thread_id]} ∪ updown_up_cbs_ t /\
    envelopes w2 = (envelopes w + length (inbox t))%nat /\
    updown_up_subscribe this this thread_id true w1 = Err AssertFailed.
Proof.
  intros Hne Hthis Hid Ht Hcb Hd Hst En.
  set (ta := mk_thread (inbox t) (async_pending t) ({[thread_id]} ∪ updown_up_cbs_ t)
               (has_message_cb t) (delivered t)).
  set (t1 := notified thread_id ta).
  set (subs := default ∅ (subscriptions_ w !! thread_id)).
  set (w1 := mk_world (<[this := t1]> (g_event_thread_table w)) (status_ w)
               (<[thread_id := {[this]} ∪ subs]> (subscriptions_ w)) n).
  assert (Hrun1 : updown_up_subscribe this this thread_id true w = Ok (tt, w1)).
  { unfold updown_up_subscribe, st_assert.
    rewrite bool_decide_eq_true_2 by done.
    erewrite st_bind_Ok by reflexivity.
    rewrite (proj2 (Z.leb_le _ _) Hid).
    erewrite st_bind_Ok by reflexivity.
    erewrite st_bind_Ok by reflexivity.
    erewrite st_bind_Ok by (by apply table_load_ok).
    rewrite bool_decide_eq_false_2 by done. cbn [negb].
    erewrite st_bind_Ok by reflexivity.
    erewrite st_bind_Ok by (by apply on_thread_ok). fold ta.
    unfold subscribe, st_assert.
    rewrite (proj2 (Z.eqb_neq _ _) Hne). cbn [negb].
    erewrite st_bind_Ok by reflexivity.
    rewrite (proj2 (Z.leb_le _ _) Hthis).
    erewrite st_bind_Ok by reflexivity.
    rewrite (proj2 (Z.leb_le _ _) Hid).
    erewrite st_bind_Ok by reflexivity.
    erewrite st_bind_Ok by (unfold status_at; cbn; rewrite Hst; reflexivity).
    rewrite bool_decide_eq_true_2 by done.
    erewrite st_bind_Ok.
    2:{ unfold registered. erewrite st_bind_Ok by reflexivity. cbv beta.
        rewrite bool_decide_eq_true_2 by (cbn; rewrite lookup_insert_eq; by eexists).
        erewrite st_bind_Ok by reflexivity.
        apply (handle_thread_up_ok this thread_id _ ta n); [cbn; apply lookup_insert_eq|done]. }
    cbn [g_event_thread_table with_table status_ subscriptions_ envelopes].
    rewrite insert_insert_eq.
    unfold subscriptions_at, st_bind. cbn [subscriptions_].
    unfold w1, subs, t1, notified.
    destruct (subscriptions_ w !! thread_id) as [s0|] eqn:Es; cbn.
    - done.
    - unfold st_modify, with_subscriptions. cbn. by rewrite insert_insert_eq. }
  eexists w1, _, _. split; [exact Hrun1|]. split; [cbn; apply lookup_insert_eq|].
  split; [|split; [|split; [|split; [|split]]]].
  - unfold process_lfq_.
    erewrite st_bind_Ok by (apply (table_load_ok _ _ t1); cbn; apply lookup_insert_eq).
    apply process_loop_ok; [cbn; apply lookup_insert_eq|done|].
    intros msg Hm. cbn in Hm. apply elem_of_app in Hm as [Hm|Hm].
    + specialize (Hd msg Hm). destruct msg; cbn in *; [done|set_solver].
    + apply list_elem_of_singleton in Hm as ->. cbn. set_solver.
  - cbn. by rewrite insert_insert_eq.
  - cbn. by rewrite fmap_app.
  - done.
  - cbn. rewrite length_app, En. cbn. lia.
  - unfold updown_up_subscribe, st_assert.
    rewrite bool_decide_eq_true_2 by done.
    erewrite st_bind_Ok by reflexivity.
    rewrite (proj2 (Z.leb_le _ _) Hid).
    erewrite st_bind_Ok by reflexivity.
    erewrite st_bind_Ok by reflexivity.
    erewrite st_bind_Ok by (apply (table_load_ok _ _ t1); cbn; apply lookup_insert_eq).
    rewrite bool_decide_eq_true_2; [done|]. cbn. set_solver.
Qed.

Lemma land_pow2 i v : 0 <= i -> Z.land (2 ^ i) v = 0 \/ Z.land (2 ^ i) v = 2 ^ i.
Proof.
  intros Hi. destruct (Z.testbit v i) eqn:Hb; [right|left]; apply Z.bits_inj'; intros k Hk;
    rewrite Z.land_spec, ?Z.bits_0, Z.pow2_bits_eqb by lia;
    destruct (Z.eqb_spec i k) as [->|]; rewrite ?Hb; done.
Qed.

Lemma land_pow2_other i j : 0 <= i -> 0 <= j -> i <> j -> Z.land (2 ^ i) (2 ^ j) = 0.
Proof.
  intros Hi Hj Hne. apply Z.bits_inj'. intros k Hk.
  rewrite Z.land_spec, Z.bits_0, !Z.pow2_bits_eqb by lia.
  destruct (Z.eqb_spec i k), (Z.eqb_spec j k); try done. lia.
Qed.

Ltac flag_simpl :=
  repeat first
    [ rewrite Z.eqb_refl | rewrite Z.lor_0_l | rewrite Z.lor_0_r
    | rewrite Z.land_0_r | rewrite Z.land_0_l | rewrite Z.land_diag
    | rewrite Z.land_lor_distr_r | progress cbn [negb]
    | match goal with
      | H : ?x <> 0 |- context [?x =? 0] => rewrite (proj2 (Z.eqb_neq x 0) H)
      | H : Z.land ?x ?y = _ |- context [Z.land ?x ?y] => rewrite H
      end ].

Lemma flags_map a b A B v :
  (Z.land a v = 0 \/ Z.land a v = a) -> (Z.land b v = 0 \/ Z.land b v = b) ->
  a <> 0 -> b <> 0 -> A <> 0 -> B <> 0 -> Z.land A B = 0 ->
  event_to_ev a b A B (ev_to_event a b A B v) = Z.land v (Z.lor a b).
Proof.
  intros Ha Hb Ha0 Hb0 HA0 HB0 HAB.
  assert (Z.land B A = 0) as HBA by (by rewrite Z.land_comm).
  rewrite (Z.land_comm v), Z.land_lor_distr_l.
  unfold event_to_ev, ev_to_event.
  destruct Ha as [Ea|Ea], Hb as [Eb|Eb]; flag_simpl; reflexivity.
Qed.

(** X20: when each of the four flags is a single bit, the two of
    each side different, [event_to_ev] after [ev_to_event] keeps exactly
    the read and write bits of a libev value and drops every other bit,
    and likewise the other way round. *)
Theorem ev_event_round_trip i j k l v :
  0 <= i -> 0 <= j -> i <> j -> 0 <= k -> 0 <= l -> k <> l ->
  event_to_ev (2 ^ i) (2 ^ j) (2 ^ k) (2 ^ l) (ev_to_event (2 ^ i) (2 ^ j) (2 ^ k) (2 ^ l) v)
    = Z.land v (Z.lor (2 ^ i) (2 ^ j)) /\
  ev_to_event (2 ^ i) (2 ^ j) (2 ^ k) (2 ^ l) (event_to_ev (2 ^ i) (2 ^ j) (2 ^ k) (2 ^ l) v)
    = Z.land v (Z.lor (2 ^ k) (2 ^ l)).
Proof.
  intros Hi Hj Hij Hk Hl Hkl.
  assert (forall x, 0 <= x -> 2 ^ x <> 0) as Hnz by (intros; apply Z.pow_nonzero; lia).
  split.
  - apply flags_map; auto using land_pow2, land_pow2_other.
  - change (ev_to_event (2 ^ i) (2 ^ j) (2 ^ k) (2 ^ l) ?x)
      with (event_to_ev (2 ^ k) (2 ^ l) (2 ^ i) (2 ^ j) x).
    change (event_to_ev (2 ^ i) (2 ^ j) (2 ^ k) (2 ^ l) ?x)
      with (ev_to_event (2 ^ k) (2 ^ l) (2 ^ i) (2 ^ j) x).
    apply flags_map; auto using land_pow2, land_pow2_other.
Qed.

(** Thread 2 comes up with thread 1 subscribed. *)
Lemma up_notifies_subscribers_demo :
  exists w',
    up 2 demo_subscribed = Ok (tt, w') /\
    status_ w' !! 2 = Some THREAD_UP /\
    envelopes w' =
      (envelopes demo_subscribed
       - size (default (∅ : gset Z) (subscriptions_ demo_subscribed !! 2%Z)))%nat /\
    forall s, g_event_thread_table w' !! s =
      if bool_decide (s ∈ default (∅ : gset Z) (subscriptions_ demo_subscribed !! 2))
      then notified 2 <$> g_event_thread_table demo_subscribed !! s
      else g_event_thread_table demo_subscribed !! s.
Proof.
  apply (up_notifies_subscribers 2 demo_subscribed).
  - unfold MAX_THREAD_ID. lia.
  - cbn. by rewrite lookup_empty.
  - intros s. cbn. rewrite lookup_singleton_eq. cbn.
    intros ->%elem_of_singleton. rewrite lookup_insert_eq. by eexists.
  - cbn. rewrite lookup_singleton_eq. cbn. rewrite size_singleton. lia.
Defined.

(** Two queued messages, an up notification and a user message. *)
Lemma process_lfq_drains_in_order_demo :
  exists w' t',
    process_lfq_ 1 demo_queued = Ok (tt, w') /\
    g_event_thread_table w' = <[1 := t']> (g_event_thread_table demo_queued) /\
    inbox t' = [] /\
    delivered t' = delivered busy_thread ++ (delivery_of <$> inbox busy_thread) /\
    envelopes w' = (envelopes demo_queued + length (inbox busy_thread))%nat /\
    status_ w' = status_ demo_queued /\ subscriptions_ w' = subscriptions_ demo_queued.
Proof.
  apply (process_lfq_drains_in_order 1 demo_queued busy_thread).
  - apply lookup_singleton_eq.
  - intros msg Hm. cbn in Hm. rewrite !elem_of_cons in Hm.
    destruct Hm as [->|[->|Hm]]; [cbn; set_solver|reflexivity|by apply elem_of_nil in Hm].
Defined.

(** The message 5 is sent to thread 2 of [demo_world]. *)
Lemma message_send_then_process_demo :
  exists w1 w2 t2,
    message_send 2 5 demo_world = Ok (tt, w1) /\
    envelopes w1 = 7%nat /\
    process_lfq_ 2 w1 = Ok (tt, w2) /\
    g_event_thread_table w2 = <[2 := t2]> (g_event_thread_table demo_world) /\
    inbox t2 = [] /\
    delivered t2 = delivered (idle_thread ∅) ++ (delivery_of <$> inbox (idle_thread ∅))
                     ++ [MessageCb 5] /\
    envelopes w2 = (envelopes demo_world + length (inbox (idle_thread ∅)))%nat.
Proof.
  apply (message_send_then_process 2 5 demo_world (idle_thread ∅) 7%nat).
  - unfold MAX_THREAD_ID. lia.
  - reflexivity.
  - reflexivity.
  - intros msg Hm. by apply elem_of_nil in Hm.
  - reflexivity.
Defined.

(** Thread 2 of [demo_world], which [up(2)] has marked up. *)
Lemma up_again_asserts_demo :
  up 2 demo_world_up = Err AssertFailed /\
  down 2 demo_world_up
    = Ok (tt, with_status (<[2 := THREAD_DOWN]> (status_ demo_world_up)) demo_world_up) /\
  subscriptions_ demo_world_up !! 2 = Some (default ∅ (subscriptions_ demo_world !! 2)).
Proof. exact (up_again_asserts 2 demo_world demo_world_up demo_world_up_run). Defined.

(** Thread 1 registers for thread 2, which is up. *)
Lemma updown_up_subscribe_delivers_demo :
  exists w1 w2 t2,
    updown_up_subscribe 1 1 2 true demo_peer_up = Ok (tt, w1) /\
    subscriptions_ w1 !! 2 = Some ({[ 1 ]} ∪ default ∅ (subscriptions_ demo_peer_up !! 2)) /\
    process_lfq_ 1 w1 = Ok (tt, w2) /\
    g_event_thread_table w2 = <[1 := t2]> (g_event_thread_table demo_peer_up) /\
    delivered t2 = delivered (idle_thread ∅) ++ (delivery_of <$> inbox (idle_thread ∅))
                     ++ [UpdownUpCb 2] /\
    updown_up_cbs_ t2 = {[ 2 ]} ∪ updown_up_cbs_ (idle_thread ∅) /\
    envelopes w2 = (envelopes demo_peer_up + length (inbox (idle_thread ∅)))%nat /\
    updown_up_subscribe 1 1 2 true w1 = Err AssertFailed.
Proof.
  apply (updown_up_subscribe_delivers 1 2 demo_peer_up (idle_thread ∅) 7%nat).
  - lia.
  - unfold MAX_THREAD_ID. lia.
  - unfold MAX_THREAD_ID. lia.
  - apply lookup_insert_eq.
  - cbn. set_solver.
  - intros msg Hm. by apply elem_of_nil in Hm.
  - apply lookup_singleton_eq.
  - reflexivity.
Defined.

(** Read is bit 0 and write bit 1 on both sides; the value 7 comes back as 3. *)
Lemma ev_event_round_trip_demo :
  event_to_ev (2 ^ 0) (2 ^ 1) (2 ^ 0) (2 ^ 1) (ev_to_event (2 ^ 0) (2 ^ 1) (2 ^ 0) (2 ^ 1) 7)
    = Z.land 7 (Z.lor (2 ^ 0) (2 ^ 1)) /\
  ev_to_event (2 ^ 0) (2 ^ 1) (2 ^ 0) (2 ^ 1) (event_to_ev (2 ^ 0) (2 ^ 1) (2 ^ 0) (2 ^ 1) 7)
    = Z.land 7 (Z.lor (2 ^ 0) (2 ^ 1)).
Proof. apply (ev_event_round_trip 0 1 0 1 7); lia. Defined.

End EventLoopFacts.

(** * The memory tracker *)

Module MtrackFacts.
Import Mtrack.

Lemma c_alloc_ok a s :
  a ∉ blocks s -> infos s !! a = None ->
  c_alloc (Some a) s = Ok (Some a, with_blocks ({[a]} ∪ blocks s) s).
Proof.
  intros Hb Hi. unfold c_alloc. rewrite bool_decide_eq_false_2 by done.
  rewrite bool_decide_eq_false_2; [done|]. rewrite Hi. by intros [? ?].
Qed.

Lemma c_free_ok m s :
  m ∈ blocks s -> c_free m s = Ok (tt, with_blocks (blocks s ∖ {[m]}) s).
Proof. intros H. unfold c_free. by rewrite bool_decide_eq_true_2. Qed.

Lemma info_load_ok p i s : infos s !! p = Some i -> info_load p s = Ok (i, s).
Proof. intros H. unfold info_load. by rewrite H. Qed.

Lemma info_store_ok p i0 i s :
  infos s !! p = Some i0 ->
  info_store p i s = Ok (tt, with_infos (<[p := i]> (infos s)) s).
Proof. intros H. unfold info_store. by rewrite H. Qed.

Lemma outstanding_tracked s id p i :
  mtrack_map_ s !! id = Some p -> infos s !! p = Some i ->
  outstanding s id = num_allocs i - num_frees i.
Proof. intros Hm Hi. unfold outstanding. by rewrite Hm, Hi. Qed.

Lemma outstanding_untracked s id :
  mtrack_map_ s !! id = None -> outstanding s id = 0.
Proof. intros Hm. unfold outstanding. by rewrite Hm. Qed.

(** An update of the record of [id] keeps the tracker's state. *)
Lemma tracked_update s id p i b :
  tracked s -> mtrack_map_ s !! id = Some p ->
  0 <= num_frees i < num_allocs i -> num_allocs i < 4294967296 ->
  (forall q, is_Some (infos s !! q) -> q ∉ b) ->
  tracked (mk_mgr (mtrack_map_ s) (enabled_ s) (<[p := i]> (infos s)) b).
Proof.
  intros Htr Hm Hi Hlt Hb.
  assert (is_Some (infos s !! p)) as Hp.
  { destruct (tr_info s Htr id p Hm) as (i0 & -> & _). eauto. }
  split; cbn.
  - intros id' p' Hm'. destruct (decide (p' = p)) as [->|Hne].
    + rewrite lookup_insert_eq. eauto.
    + rewrite lookup_insert_ne by done. by eapply (tr_info s Htr).
  - apply (tr_inj s Htr).
  - intros q Hq. apply (tr_own s Htr). destruct (decide (q = p)) as [->|Hne]; [done|].
    by rewrite lookup_insert_ne in Hq.
  - intros q Hq. apply Hb. destruct (decide (q = p)) as [->|Hne]; [done|].
    by rewrite lookup_insert_ne in Hq.
Qed.

Lemma outstanding_other s s' id id' p :
  tracked s -> mtrack_map_ s !! id = Some p ->
  mtrack_map_ s' = mtrack_map_ s ->
  (forall q, q <> p -> infos s' !! q = infos s !! q) ->
  id' <> id -> outstanding s' id' = outstanding s id'.
Proof.
  intros Htr Hm Emap Einf Hne. unfold outstanding. rewrite Emap.
  destruct (mtrack_map_ s !! id') as [q|] eqn:Hq; [|done].
  rewrite Einf; [done|]. intros ->. apply Hne. by eapply (tr_inj s Htr).
Qed.

(** X21: with tracking enabled, [mtrack_alloc] that gets its memory
    (and, for an id seen for the first time, the memory of the info
    record) returns the block and counts it: the allocations of the id
    that are outstanding grow by one, those of every other id stay, and
    the tracker's state stays well formed. *)
Theorem mtrack_alloc_counts s alloc_id a info_mem :
  tracked s -> enabled_ s = true ->
  a ∉ blocks s -> infos s !! a = None ->
  (mtrack_map_ s !! alloc_id = None ->
   exists q, info_mem = Some q /\ q <> a /\ q ∉ blocks s /\ infos s !! q = None) ->
  (forall p i, mtrack_map_ s !! alloc_id = Some p -> infos s !! p = Some i ->
               num_allocs i < 4294967295) ->
  exists s',
    mtrack_alloc alloc_id (Some a) info_mem s = Ok (Some a, s') /\
    tracked s' /\ enabled_ s' = true /\
    blocks s' = {[a]} ∪ blocks s /\
    outstanding s' alloc_id = outstanding s alloc_id + 1 /\
    forall id, id <> alloc_id -> outstanding s' id = outstanding s id.
Proof.
  intros Htr Hen Ha Hai Hnew Hroom.
  unfold mtrack_alloc.
  erewrite st_bind_Ok by (by apply c_alloc_ok). cbv beta iota.
  erewrite st_bind_Ok by reflexivity. cbn [enabled_ with_blocks]. rewrite Hen. cbn [negb].
  erewrite st_bind_Ok by reflexivity. cbn [mtrack_map_ with_blocks].
  destruct (mtrack_map_ s !! alloc_id) as [p|] eqn:Hm.
  - destruct (tr_info s Htr alloc_id p Hm) as (i & Hi & Hfa & Hlt).
    specialize (Hroom p i eq_refl Hi).
    assert (wrap32 (num_allocs i + 1) = num_allocs i + 1) as Hw.
    { unfold wrap32. apply Z.mod_small. lia. }
    erewrite st_bind_Ok.
    2:{ erewrite st_bind_Ok by (apply info_load_ok; exact Hi).
        erewrite st_bind_Ok by (eapply info_store_ok; exact Hi).
        reflexivity. }
    cbn. eexists. split; [reflexivity|]. rewrite Hw.
    split; [|split; [done|split; [done|split]]].
    + apply (tracked_update s alloc_id p); cbn; try done; try lia.
      intros q Hq. pose proof (tr_sep s Htr q Hq).
      assert (q <> a) by (intros ->; rewrite Hai in Hq; by destruct Hq). set_solver.
    + unfold outstanding. cbn. rewrite Hm, Hi, lookup_insert_eq. cbn. lia.
    + intros id Hne. apply (outstanding_other s _ alloc_id id p); try done.
      intros q Hq. cbn. by rewrite lookup_insert_ne.
  - destruct (Hnew eq_refl) as (q & -> & Hqa & Hqb & Hqi).
    erewrite st_bind_Ok.
    2:{ erewrite st_bind_Ok.
        2:{ unfold info_calloc. cbn.
            rewrite bool_decide_eq_false_2 by set_solver.
            rewrite bool_decide_eq_false_2; [reflexivity|]. rewrite Hqi. by intros [? ?]. }
        cbn iota.
        erewrite st_bind_Ok by (apply info_load_ok; cbn; apply lookup_insert_eq).
        erewrite st_bind_Ok by (eapply info_store_ok; cbn; apply lookup_insert_eq).
        erewrite st_bind_Ok by reflexivity. reflexivity. }
    cbn. eexists. split; [reflexivity|]. rewrite insert_insert_eq.
    split; [|split; [done|split; [done|split]]].
    + split; cbn.
      * intros id p. destruct (decide (id = alloc_id)) as [->|Hne].
        -- rewrite lookup_insert_eq. intros [= <-]. rewrite lookup_insert_eq.
           eexists. split; [done|]. cbn. lia.
        -- rewrite lookup_insert_ne by done. intros Hp.
           destruct (tr_info s Htr id p Hp) as (i & Hi & ?).
           rewrite lookup_insert_ne; [eauto|]. intros ->. by rewrite Hqi in Hi.
      * intros id id' p. destruct (decide (id = alloc_id)) as [->|Hne],
          (decide (id' = alloc_id)) as [->|Hne']; try done.
        -- rewrite lookup_insert_eq, lookup_insert_ne by done. intros [= <-] Hp.
           destruct (tr_info s Htr id' q Hp) as (i & Hi & ?). by rewrite Hqi in Hi.
        -- rewrite lookup_insert_eq, lookup_insert_ne by done. intros Hp [= <-].
           destruct (tr_info s Htr id q Hp) as (i & Hi & ?). by rewrite Hqi in Hi.
        -- rewrite !lookup_insert_ne by done. apply (tr_inj s Htr).
      * intros p. destruct (decide (p = q)) as [->|Hne].
        -- intros _. exists alloc_id. apply lookup_insert_eq.
        -- rewrite lookup_insert_ne by done. intros Hp.
           destruct (tr_own s Htr p Hp) as [id Hid]. exists id.
           rewrite lookup_insert_ne; [done|]. intros ->. by rewrite Hm in Hid.
      * intros p. destruct (decide (p = q)) as [->|Hne].
        -- intros _. set_solver.
        -- rewrite lookup_insert_ne by done. intros Hp.
           pose proof (tr_sep s Htr p Hp).
           assert (p <> a) by (intros ->; rewrite Hai in Hp; by destruct Hp). set_solver.
    + unfold outstanding. cbn. rewrite Hm, !lookup_insert_eq. cbn. lia.
    + intros id Hne. unfold outstanding. cbn. rewrite lookup_insert_ne by done.
      destruct (mtrack_map_ s !! id) as [p|] eqn:Hp; [|done].
      rewrite lookup_insert_ne; [done|]. intros Heq. subst p.
      destruct (tr_info s Htr id q Hp) as (i & Hi & ?). by rewrite Hqi in Hi.
Qed.

Lemma tracked_erase s id p b :
  tracked s -> mtrack_map_ s !! id = Some p ->
  (forall q, q <> p -> is_Some (infos s !! q) -> q ∉ b) ->
  tracked (mk_mgr (delete id (mtrack_map_ s)) (enabled_ s) (delete p (infos s)) b).
Proof.
  intros Htr Hm Hb. split; cbn.
  - intros id' p' Hm'. apply lookup_delete_Some in Hm' as [Hne Hm'].
    destruct (tr_info s Htr id' p' Hm') as (i & Hi & ?). exists i. split; [|done].
    rewrite lookup_delete_ne; [done|]. intros ->. apply Hne. by eapply (tr_inj s Htr).
  - intros id1 id2 q [_ H1]%lookup_delete_Some [_ H2]%lookup_delete_Some.
    by eapply (tr_inj s Htr).
  - intros q Hq. destruct (decide (q = p)) as [->|Hne].
    { rewrite lookup_delete_eq in Hq. by destruct Hq. }
    rewrite lookup_delete_ne in Hq by done.
    destruct (tr_own s Htr q Hq) as [id' Hid']. exists id'.
    rewrite lookup_delete_ne; [done|]. intros ->. congruence.
  - intros q Hq. destruct (decide (q = p)) as [->|Hne].
    { rewrite lookup_delete_eq in Hq. by destruct Hq. }
    rewrite lookup_delete_ne in Hq by done. by apply Hb.
Qed.

(** X22: with tracking enabled, [mtrack_free] of a block under a
    tracked id frees the block and takes one from the outstanding
    allocations of that id; the id's entry is erased, and its info record
    freed, exactly when that was its last outstanding allocation.  Other
    ids are not affected and the state stays well formed. *)
Theorem mtrack_free_counts s alloc_id m p :
  tracked s -> enabled_ s = true -> m ∈ blocks s ->
  mtrack_map_ s !! alloc_id = Some p ->
  exists s',
    mtrack_free alloc_id (Some m) s = Ok (tt, s') /\
    tracked s' /\ enabled_ s' = true /\
    blocks s' = blocks s ∖ {[m]} /\
    outstanding s' alloc_id = outstanding s alloc_id - 1 /\
    (mtrack_map_ s' !! alloc_id = None <-> outstanding s alloc_id = 1) /\
    (outstanding s alloc_id = 1 -> infos s' !! p = None) /\
    forall id, id <> alloc_id -> outstanding s' id = outstanding s id.
Proof.
  intros Htr Hen Hm Hp.
  destruct (tr_info s Htr alloc_id p Hp) as (i & Hi & Hfa & Hlt).
  assert (wrap32 (num_frees i + 1) = num_frees i + 1) as Hw.
  { unfold wrap32. apply Z.mod_small. lia. }
  assert (Hsep : forall q, is_Some (infos s !! q) -> q ∉ blocks s ∖ {[m]}).
  { intros q Hq. pose proof (tr_sep s Htr q Hq). set_solver. }
  unfold mtrack_free.
  erewrite st_bind_Ok by (by apply c_free_ok).
  erewrite st_bind_Ok by reflexivity. cbn [enabled_ with_blocks]. rewrite Hen. cbn [negb].
  erewrite st_bind_Ok by reflexivity. cbn [mtrack_map_ with_blocks]. rewrite Hp.
  rewrite (outstanding_tracked s alloc_id p i Hp Hi).
  destruct (num_frees i + 1 =? num_allocs i) eqn:Hlast.
  - erewrite st_bind_Ok.
    2:{ erewrite st_bind_Ok by (apply info_load_ok; exact Hi).
        erewrite st_bind_Ok by (eapply info_store_ok; exact Hi).
        erewrite st_bind_Ok by (apply info_load_ok; cbn; apply lookup_insert_eq).
        cbn [num_frees num_allocs]. rewrite Hw, Hlast.
        erewrite st_bind_Ok by reflexivity. reflexivity. }
    cbn. unfold info_free. cbn. rewrite lookup_insert_eq.
    eexists. split; [reflexivity|]. cbn. rewrite delete_insert_eq.
    split; [|split; [done|split; [done|split; [|split; [|split]]]]].
    + apply (tracked_erase s alloc_id p); [done..|]. intros q _. apply Hsep.
    + unfold outstanding. cbn. rewrite lookup_delete_eq. lia.
    + rewrite lookup_delete_eq. split; [lia|done].
    + intros _. apply lookup_delete_eq.
    + intros id Hne. unfold outstanding. cbn. rewrite lookup_delete_ne by done.
      destruct (mtrack_map_ s !! id) as [q|] eqn:Hq; [|done].
      rewrite lookup_delete_ne; [done|]. intros Heq. subst q.
      apply Hne. by eapply (tr_inj s Htr).
  - erewrite st_bind_Ok.
    2:{ erewrite st_bind_Ok by (apply info_load_ok; exact Hi).
        erewrite st_bind_Ok by (eapply info_store_ok; exact Hi).
        erewrite st_bind_Ok by (apply info_load_ok; cbn; apply lookup_insert_eq).
        cbn [num_frees num_allocs]. rewrite Hw, Hlast. reflexivity. }
    cbn. eexists. split; [reflexivity|]. cbn.
    split; [|split; [done|split; [done|split; [|split; [|split]]]]].
    + apply (tracked_update s alloc_id p); cbn; try done. lia.
    + unfold outstanding. cbn. rewrite Hp, lookup_insert_eq. cbn. lia.
    + rewrite Hp. split; [done|lia].
    + lia.
    + intros id Hne. apply (outstanding_other s _ alloc_id id p); try done.
      intros q Hq. cbn. by rewrite lookup_insert_ne.
Qed.

(** X23: the first [mtrack_alloc] under an id creates its info
    record with one allocation and no free; the [mtrack_free] of the
    block then erases the record again and leaves the tracker exactly as
    it was before the allocation. *)
Theorem mtrack_alloc_free_restores s alloc_id a q :
  tracked s -> enabled_ s = true ->
  mtrack_map_ s !! alloc_id = None ->
  a ∉ blocks s -> infos s !! a = None ->
  q <> a -> q ∉ blocks s -> infos s !! q = None ->
  exists s1,
    mtrack_alloc alloc_id (Some a) (Some q) s = Ok (Some a, s1) /\
    mtrack_map_ s1 !! alloc_id = Some q /\
    infos s1 !! q = Some (mk_info 1 0) /\
    mtrack_free alloc_id (Some a) s1 = Ok (tt, s).
Proof.
  intros Htr Hen Hm Ha Hai Hqa Hqb Hqi.
  destruct s as [mp en inf bl]. cbn [mtrack_map_ enabled_ infos blocks] in *. subst en.
  exists (mk_mgr (<[alloc_id := q]> mp) true (<[q := mk_info 1 0]> inf) ({[a]} ∪ bl)).
  split; [|split; [apply lookup_insert_eq|split; [apply lookup_insert_eq|]]].
  - unfold mtrack_alloc.
    erewrite st_bind_Ok by (by apply c_alloc_ok). cbv beta iota.
    erewrite st_bind_Ok by reflexivity. cbn [enabled_ with_blocks negb].
    erewrite st_bind_Ok by reflexivity. cbn [mtrack_map_ with_blocks]. rewrite Hm.
    erewrite st_bind_Ok.
    2:{ erewrite st_bind_Ok.
        2:{ unfold info_calloc. cbn.
            rewrite bool_decide_eq_false_2 by set_solver.
            rewrite bool_decide_eq_false_2; [reflexivity|]. rewrite Hqi. by intros [? ?]. }
        cbn iota.
        erewrite st_bind_Ok by (apply info_load_ok; cbn; apply lookup_insert_eq).
        erewrite st_bind_Ok by (eapply info_store_ok; cbn; apply lookup_insert_eq).
        erewrite st_bind_Ok by reflexivity. reflexivity. }
    cbn. by rewrite insert_insert_eq.
  - unfold mtrack_free.
    erewrite st_bind_Ok by (apply c_free_ok; cbn; set_solver).
    erewrite st_bind_Ok by reflexivity. cbn [enabled_ with_blocks negb].
    erewrite st_bind_Ok by reflexivity. cbn [mtrack_map_ with_blocks blocks].
    rewrite lookup_insert_eq.
    erewrite st_bind_Ok.
    2:{ erewrite st_bind_Ok by (apply info_load_ok; cbn; apply lookup_insert_eq).
        erewrite st_bind_Ok by (eapply info_store_ok; cbn; apply lookup_insert_eq).
        erewrite st_bind_Ok by (apply info_load_ok; cbn; apply lookup_insert_eq).
        cbn [num_frees num_allocs]. change (wrap32 (0 + 1) =? 1) with true. cbv iota.
        erewrite st_bind_Ok by reflexivity. reflexivity. }
    cbn. unfold info_free. cbn. rewrite lookup_insert_eq. cbn.
    rewrite insert_insert_eq, !delete_insert_eq.
    rewrite (delete_id mp) by done. rewrite (delete_id inf) by done.
    unfold with_infos, with_map, with_blocks. cbn. do 3 f_equal.
    apply set_eq. intros x. set_solver.
Qed.

(** X24: when the info record for a new id cannot be allocated,
    [mtrack_alloc] frees the block it had just obtained and returns NULL;
    when the block itself cannot be allocated it returns NULL at once.  In
    both cases the state is what it was: nothing leaks and no half-made
    entry is left in the map. *)
Theorem mtrack_alloc_failure_leaks_nothing s alloc_id a :
  enabled_ s = true -> mtrack_map_ s !! alloc_id = None ->
  a ∉ blocks s -> infos s !! a = None ->
  mtrack_alloc alloc_id (Some a) None s = Ok (None, s) /\
  forall info_mem, mtrack_alloc alloc_id None info_mem s = Ok (None, s).
Proof.
  intros Hen Hm Ha Hai. split; [|done]. unfold mtrack_alloc.
  erewrite st_bind_Ok by (by apply c_alloc_ok). cbv beta iota.
  erewrite st_bind_Ok by reflexivity. cbn [enabled_ with_blocks]. rewrite Hen. cbn [negb].
  erewrite st_bind_Ok by reflexivity. cbn [mtrack_map_ with_blocks]. rewrite Hm.
  erewrite st_bind_Ok by reflexivity. cbv beta iota.
  erewrite st_bind_Ok by (apply c_free_ok; cbn; set_solver).
  cbn. destruct s as [mp en inf bl]. unfold with_blocks, st_ret. cbn in *. do 3 f_equal.
  apply set_eq. intros x. set_solver.
Qed.

(** X25: [mtrack_free] under an id that has no entry (memory allocated
    while tracking was off) frees the block and changes nothing else: no
    entry is created and no counter moves; [mtrack_free] of NULL does
    nothing at all. *)
Theorem mtrack_free_untracked s alloc_id m :
  enabled_ s = true -> mtrack_map_ s !! alloc_id = None -> m ∈ blocks s ->
  mtrack_free alloc_id (Some m) s = Ok (tt, with_blocks (blocks s ∖ {[m]}) s) /\
  mtrack_free alloc_id None s = Ok (tt, s).
Proof.
  intros Hen Hnone Hm. split; [|done]. unfold mtrack_free.
  erewrite st_bind_Ok by (by apply c_free_ok).
  erewrite st_bind_Ok by reflexivity. cbn [enabled_ with_blocks]. rewrite Hen. cbn [negb].
  erewrite st_bind_Ok by reflexivity. cbn [mtrack_map_ with_blocks]. rewrite Hnone.
  erewrite st_bind_Ok by reflexivity. done.
Qed.

(** X26: with tracking disabled, [mtrack_alloc] is a plain
    allocation and [mtrack_free] a plain free: the map and the info
    records are never touched, whatever the id, and the pair leaves the
    state as it was. *)
Theorem mtrack_disabled_round_trip s alloc_id m info_mem :
  enabled_ s = false -> m ∉ blocks s -> infos s !! m = None ->
  exists s1,
    mtrack_alloc alloc_id (Some m) info_mem s = Ok (Some m, s1) /\
    mtrack_map_ s1 = mtrack_map_ s /\ infos s1 = infos s /\
    blocks s1 = {[m]} ∪ blocks s /\
    mtrack_free alloc_id (Some m) s1 = Ok (tt, s).
Proof.
  intros Hen Ha Hai. exists (with_blocks ({[m]} ∪ blocks s) s).
  split; [|split; [done|split; [done|split; [done|]]]].
  - unfold mtrack_alloc.
    erewrite st_bind_Ok by (by apply c_alloc_ok). cbv beta iota.
    erewrite st_bind_Ok by reflexivity. cbn [enabled_ with_blocks]. rewrite Hen. done.
  - unfold mtrack_free.
    erewrite st_bind_Ok by (apply c_free_ok; cbn; set_solver).
    erewrite st_bind_Ok by reflexivity. cbn [enabled_ with_blocks]. rewrite Hen. cbn [negb].
    destruct s as [mp en inf bl]. unfold with_blocks, st_ret. cbn in *. do 3 f_equal.
    apply set_eq. intros x. set_solver.
Qed.

Lemma destroy_loop_ok its : forall s,
  NoDup its.*2 ->
  (forall id p, (id, p) ∈ its -> is_Some (infos s !! p)) ->
  exists s', destroy_loop its s = Ok (tt, s') /\
    enabled_ s' = enabled_ s /\ blocks s' = blocks s /\
    (forall id, id ∈ its.*1 -> mtrack_map_ s' !! id = None) /\
    (forall id, id ∉ its.*1 -> mtrack_map_ s' !! id = mtrack_map_ s !! id) /\
    (forall p, p ∈ its.*2 -> infos s' !! p = None) /\
    (forall p, p ∉ its.*2 -> infos s' !! p = infos s !! p).
Proof.
  induction its as [|[id p] rest IH]; intros s Hnd Hin.
  - exists s. repeat split; try done. all: intros ? []%elem_of_nil.
  - cbn [fmap list_fmap] in Hnd. cbn in Hnd. apply NoDup_cons in Hnd as [Hp Hnd].
    destruct (Hin id p) as [i Hi]; [left|].
    set (s1 := with_map (delete id (mtrack_map_ s)) (with_infos (delete p (infos s)) s)).
    destruct (IH s1 Hnd) as (s' & Hrun & Hen & Hbl & Hm1 & Hm2 & Hi1 & Hi2).
    { intros id' p' Hel. cbn. rewrite lookup_delete_ne.
      - apply (Hin id' p'). by right.
      - intros Heq. subst p'. apply Hp. apply list_elem_of_fmap. by exists (id', p). }
    exists s'. split; [|split; [done|split; [done|split; [|split; [|split]]]]].
    + cbn [destroy_loop]. unfold info_free at 1.
      erewrite st_bind_Ok by (by rewrite Hi).
      erewrite st_bind_Ok by reflexivity. exact Hrun.
    + intros id' Hel. cbn in Hel. apply elem_of_cons in Hel as [->|Hel]; [|by apply Hm1].
      destruct (decide (id ∈ rest.*1)) as [Hd|Hd]; [by apply Hm1|].
      rewrite (Hm2 id Hd). cbn. apply lookup_delete_eq.
    + intros id' Hel. cbn in Hel. apply not_elem_of_cons in Hel as [Hne Hel].
      rewrite (Hm2 id' Hel). cbn. by rewrite lookup_delete_ne.
    + intros p' Hel. cbn in Hel. apply elem_of_cons in Hel as [->|Hel]; [|by apply Hi1].
      rewrite (Hi2 p Hp). cbn. apply lookup_delete_eq.
    + intros p' Hel. cbn in Hel. apply not_elem_of_cons in Hel as [Hne Hel].
      rewrite (Hi2 p' Hel). cbn. by rewrite lookup_delete_ne.
Qed.

(** X27: the destructor of a well-formed tracker returns, frees
    every info record exactly once and empties the map; the blocks the
    callers still hold are not freed. *)
Theorem mem_mgr_destroy_frees_all s :
  tracked s ->
  exists s',
    mem_mgr_destroy s = Ok (tt, s') /\
    mtrack_map_ s' = ∅ /\ infos s' = ∅ /\ blocks s' = blocks s.
Proof.
  intros Htr. unfold mem_mgr_destroy.
  erewrite st_bind_Ok by reflexivity.
  set (l := merge_sort _ _).
  assert (Hperm : l ≡ₚ map_to_list (mtrack_map_ s)) by apply merge_sort_Permutation.
  assert (Hel : forall id p, (id, p) ∈ l <-> mtrack_map_ s !! id = Some p).
  { intros id p. rewrite Hperm. apply elem_of_map_to_list. }
  destruct (destroy_loop_ok l s) as (s' & Hrun & _ & Hbl & Hm1 & Hm2 & Hi1 & Hi2).
  { rewrite Hperm. apply NoDup_fmap_2_strong; [|apply NoDup_map_to_list].
    intros [id p] [id' p'] H1%elem_of_map_to_list H2%elem_of_map_to_list Heq.
    cbn in Heq. subst p'. f_equal. by eapply (tr_inj s Htr). }
  { intros id p Hin%Hel. destruct (tr_info s Htr id p Hin) as (i & -> & _). by eexists. }
  exists s'. split; [exact Hrun|]. split; [|split; [|done]].
  - apply map_eq. intros id. rewrite lookup_empty.
    destruct (decide (id ∈ l.*1)) as [Hd|Hd]; [by apply Hm1|].
    rewrite (Hm2 id Hd).
    destruct (mtrack_map_ s !! id) as [p|] eqn:Hp; [|done].
    exfalso. apply Hd. apply list_elem_of_fmap. exists (id, p). split; [done|]. by apply Hel.
  - apply map_eq. intros p. rewrite lookup_empty.
    destruct (decide (p ∈ l.*2)) as [Hd|Hd]; [by apply Hi1|].
    rewrite (Hi2 p Hd).
    destruct (infos s !! p) as [i|] eqn:Hp; [|done].
    exfalso. apply Hd. destruct (tr_own s Htr p) as [id Hid]; [by eexists|].
    apply list_elem_of_fmap. exists (id, p). split; [done|]. by apply Hel.
Qed.




Lemma tracked_new : tracked mem_mgr_new.
Proof.
  split; cbn.
  - intros id p H. by rewrite lookup_empty in H.
  - intros id id' p H. by rewrite lookup_empty in H.
  - intros p [i H]. by rewrite lookup_empty in H.
  - intros p [i H]. by rewrite lookup_empty in H.
Qed.

Lemma tracked_one id p n b :
  0 < n < 4294967296 -> p ∉ b ->
  tracked (mk_mgr {[id := p]} true {[p := mk_info n 0]} b).
Proof.
  intros Hn Hb. split; cbn.
  - intros id' p' [-> <-]%lookup_singleton_Some. exists (mk_info n 0).
    rewrite lookup_singleton_eq. cbn. split; [done|lia].
  - intros id1 id2 q [-> _]%lookup_singleton_Some [-> _]%lookup_singleton_Some. done.
  - intros q [i [-> _]%lookup_singleton_Some]. exists id. apply lookup_singleton_eq.
  - intros q [i [<- _]%lookup_singleton_Some]. done.
Qed.

(** The first allocation under id 7 on a new tracker. *)
Lemma mtrack_alloc_counts_demo :
  exists s',
    mtrack_alloc 7 (Some 100) (Some 200) mem_mgr_new = Ok (Some 100, s') /\
    tracked s' /\ enabled_ s' = true /\ blocks s' = {[100]} ∪ blocks mem_mgr_new /\
    outstanding s' 7 = outstanding mem_mgr_new 7 + 1 /\
    forall id, id <> 7 -> outstanding s' id = outstanding mem_mgr_new id.
Proof.
  apply (mtrack_alloc_counts mem_mgr_new 7 100 (Some 200)).
  - exact tracked_new.
  - reflexivity.
  - cbn. set_solver.
  - reflexivity.
  - intros _. exists 200. cbn. split; [done|]. split; [done|]. split; [set_solver|done].
  - intros p i H. cbn in H. by rewrite lookup_empty in H.
Defined.

(** One of the two blocks of id 7 of [demo_mgr] is freed. *)
Lemma mtrack_free_counts_demo :
  exists s',
    mtrack_free 7 (Some 100) demo_mgr = Ok (tt, s') /\
    tracked s' /\ enabled_ s' = true /\
    blocks s' = blocks demo_mgr ∖ {[100]} /\
    outstanding s' 7 = outstanding demo_mgr 7 - 1 /\
    (mtrack_map_ s' !! 7 = None <-> outstanding demo_mgr 7 = 1) /\
    (outstanding demo_mgr 7 = 1 -> infos s' !! 200 = None) /\
    forall id, id <> 7 -> outstanding s' id = outstanding demo_mgr id.
Proof.
  apply (mtrack_free_counts demo_mgr 7 100 200).
  - apply tracked_one; [lia|set_solver].
  - reflexivity.
  - cbn. set_solver.
  - cbn. apply lookup_singleton_eq.
Defined.

(** Id 7 on a new tracker, block 100, info record at 200. *)
Lemma mtrack_alloc_free_restores_demo :
  exists s1,
    mtrack_alloc 7 (Some 100) (Some 200) mem_mgr_new = Ok (Some 100, s1) /\
    mtrack_map_ s1 !! 7 = Some 200 /\
    infos s1 !! 200 = Some (mk_info 1 0) /\
    mtrack_free 7 (Some 100) s1 = Ok (tt, mem_mgr_new).
Proof.
  apply (mtrack_alloc_free_restores mem_mgr_new 7 100 200).
  - exact tracked_new.
  - reflexivity.
  - reflexivity.
  - cbn. set_solver.
  - reflexivity.
  - done.
  - cbn. set_solver.
  - reflexivity.
Defined.

(** [demo_mgr] is destroyed with two blocks outstanding. *)
Lemma mem_mgr_destroy_frees_all_demo :
  exists s',
    mem_mgr_destroy demo_mgr = Ok (tt, s') /\
    mtrack_map_ s' = ∅ /\ infos s' = ∅ /\ blocks s' = blocks demo_mgr.
Proof.
  apply (mem_mgr_destroy_frees_all demo_mgr).
  apply tracked_one; [lia|set_solver].
Defined.


(** A new tracker; the info record cannot be allocated. *)
Lemma mtrack_alloc_failure_leaks_nothing_demo :
  mtrack_alloc 7 (Some 100) None mem_mgr_new = Ok (None, mem_mgr_new) /\
  forall info_mem, mtrack_alloc 7 None info_mem mem_mgr_new = Ok (None, mem_mgr_new).
Proof.
  apply (mtrack_alloc_failure_leaks_nothing mem_mgr_new 7 100).
  - reflexivity.
  - reflexivity.
  - cbn. set_solver.
  - reflexivity.
Defined.

(** Block 100 of [demo_mgr] is freed under id 8, which is not tracked. *)
Lemma mtrack_free_untracked_demo :
  mtrack_free 8 (Some 100) demo_mgr
    = Ok (tt, with_blocks (blocks demo_mgr ∖ {[100]}) demo_mgr) /\
  mtrack_free 8 None demo_mgr = Ok (tt, demo_mgr).
Proof.
  apply (mtrack_free_untracked demo_mgr 8 100).
  - reflexivity.
  - reflexivity.
  - cbn. set_solver.
Defined.

(** A tracker that is switched off. *)
Lemma mtrack_disabled_round_trip_demo :
  exists s1,
    mtrack_alloc 7 (Some 100) (Some 200) (mk_mgr ∅ false ∅ ∅) = Ok (Some 100, s1) /\
    mtrack_map_ s1 = mtrack_map_ (mk_mgr ∅ false ∅ ∅) /\
    infos s1 = infos (mk_mgr ∅ false ∅ ∅) /\
    blocks s1 = {[100]} ∪ blocks (mk_mgr ∅ false ∅ ∅) /\
    mtrack_free 7 (Some 100) s1 = Ok (tt, mk_mgr ∅ false ∅ ∅).
Proof.
  apply (mtrack_disabled_round_trip (mk_mgr ∅ false ∅ ∅) 7 100 (Some 200)).
  - reflexivity.
  - cbn. set_solver.
  - reflexivity.
Defined.

End MtrackFacts.
